(* ===== verification/_CoqProject ===== *)
-Q . S2P
Prelude.v
StdStrings.v
FixedDecimal.v
DecimalText.v
PrintedText.v
RateLimiter.v
LimiterSpec.v
ErrorResult.v
Client.v
Unary.v
Contracts.v
Services.v
ServiceTheorems.v
ExampleClient.v
AccountsExample.v
Coroutine.v
CoroutineSpec.v
CoroutineTheorems.v
SandboxTrade.v
StreamCommon.v
MarketData.v
MarketDataStream.v
StreamInvariant.v
StreamHistory.v
StreamStopping.v
StreamTheorems.v
StreamWindow.v
MarketDataStreamOwners.v
MarketDataStreamThreads.v
StreamCallbacks.v
ServerStream.v
ServerStreamTheorems.v
ServerStreamCallbacks.v
ServerStreamThreads.v
StreamFactories.v
Numeric.v
DecimalDouble.v
PrintfDouble.v
Indicators.v
IndicatorTheorems.v
Strategies.v
StrategyTheorems.v
PaperTrade.v
StreamExamples.v
Backtest.v
BacktestTheorems.v
BacktestExample.v
LoadWindow.v
LoadPump.v
LoadServers.v
LoadStreams.v
LoadReports.v
