(* ===== verification/Prelude.v ===== *)
(** * Verification of the tinvest C++ SDK

    The SDK is a C++20 client of a brokerage API over gRPC: exact decimal money
    ([include/tinvest/decimal.hpp]), a client with blocking and asynchronous
    unary calls ([client.hpp], [src/client.cpp], [detail/unary.hpp]), a
    client-side rate limiter ([rate_limiter.hpp]), reconnecting streams
    ([streams/server_stream.hpp], [streams/market_data_stream.hpp],
    [src/market_data_stream.cpp]), a coroutine layer ([awaitable.hpp]), one
    forwarding class per service ([services.hpp]) and a toolkit for trading
    algorithms ([algo/]).  gRPC and the classes generated from [contracts/] are
    not part of the repository: what the code relies on is a parameter, a type
    class or an explicit event of the models.

    ** Files

    - [Prelude.v]: undefined behaviour as a value ([outcome]), the signed types
      as ranges of [Z], the tactics [range], [split_ifs] and [checked_step].
    - [StdStrings.v]: [std::to_string] of integers, [std::atoi] and [std::atol].
    - [FixedDecimal.v]: [Decimal]; the constructor's normalisation, the
      operators through a 128-bit total, the comparisons, the protobuf
      conversions.
    - [DecimalText.v]: [Decimal::to_string], [Decimal::from_string], [Money].
    - [PrintedText.v]: the lines and the texts of prices and amounts that the examples
      print.
    - [RateLimiter.v]: the limiter with its shared groups as a store of
      locations; [call_step] is one critical section of one thread.
    - [LimiterSpec.v]: what one group promises, as a function of the times of its
      requests, and the theorem that every group of [RateLimiter.v] does so.
    - [ErrorResult.v]: [Error], [Result], [make_error] and the metadata readers, and
      [ErrorOf], what an error says of the status and the headers, without them.
    - [Client.v]: configuration, the channel built by the constructor,
      [setup_context].
    - [Unary.v]: [unary_sync] and [unary_async] over the class [Limiter] and its
      laws [LimiterLaws], which RateLimiter.v implements; [load_rate_limits]; the retry
      policy as relations of its own ([Retryable], [DelayAfter], [RunOf]).
    - [Contracts.v]: the services of [contracts/*.proto] with their RPCs.
    - [Services.v], [ServiceTheorems.v]: the classes of [services.hpp] as tables of
      their [TINVEST_RPC] lines, the three overloads of the macro over the calls
      of Unary.v, [Client::load_rate_limits] as their composition with the
      limiter; their theorems.
    - [Coroutine.v]: [Task], [UnaryAwaiter] and [sync_wait] as a machine over a
      heap of coroutine frames.  [CoroutineSpec.v] gives the direct meaning of a
      coroutine body and [CoroutineTheorems.v] the refinement.
    - [SandboxTrade.v]: the two sandbox examples, as a coroutine and as blocking
      calls, with what they print.
    - [StreamCommon.v]: what both kinds of streams share: options, backoff, the
      protocol of the notifications.
    - [MarketData.v]: the requests of the market-data stream, the registry of
      subscriptions and [dispatch].
    - [MarketDataStream.v]: the bidirectional stream as a transition system.
      [Members] are the fields guarded by [mu_], [Call] is the call as gRPC sees
      it; [Worker], [Owner], [Reader] and [Writer] say where [run], [stop],
      [OnReadDone] and [OnWriteDone] are between two critical sections; [step]
      executes one action and is [UB] when it would break gRPC's contract.
    - [StreamInvariant.v], [StreamHistory.v], [StreamStopping.v],
      [StreamTheorems.v]: its invariant, what is observed of it, the termination
      of [stop], and the theorems.  [due] says which actions are bound to come while
      [stop] runs: gRPC ends a read, a write or the call by itself only once the call
      is cancelled.
    - [StreamWindow.v]: what a request sent between the two critical sections of
      [run_once] becomes.
    - [StreamCallbacks.v]: the user's callbacks as an interpretation of the log of
      events, and the messages delivered against those read.
    - [MarketDataStreamOwners.v]: any number of threads that stop it at once, refined
      by the stream with one owner.  [MarketDataStreamThreads.v]: any number of threads
      that start, stop and send, with a worker, a reactor and a call for each [start]
      that takes effect; it is the stream with one owner while no [start] overlaps a
      [stop], and breaks when one does.
    - [ServerStream.v], [ServerStreamTheorems.v]: the server-side streams in the
      same style.  [ServerStreamThreads.v]: the same stream shared by any number of
      user threads, with the worker threads that overlapping calls of [start] and
      [stop] create; it refines the stream with one owner while no [start] overlaps
      a [stop], and breaks when one does.  [ServerStreamCallbacks.v]: its callbacks,
      as in StreamCallbacks.v, with the ping filter.
    - [StreamFactories.v]: the constructor of [ServerStream] and the five
      [make_*_stream] helpers over the contracts.
    - [Numeric.v]: the operators of [double] as a class, with the IEEE format
      [binary64] and the real numbers as instances.
    - [DecimalDouble.v]: [Decimal::from_double] and [Decimal::to_double] over any
      format with casts and [llround].
    - [PrintfDouble.v]: [printf] of a [double] and field widths.
    - [Indicators.v], [Strategies.v], [Backtest.v]: the classes of
      [algo/indicators.hpp] and [algo/strategies.hpp] and [run_backtest], over
      any instance of the class and, for the last, over any strategy (the class
      [Strategy]); [to_bar].
    - [IndicatorTheorems.v], [StrategyTheorems.v], [BacktestTheorems.v]: their
      theorems.
    - [PaperTrade.v]: [examples/paper_trade.cpp] over [dispatch].
    - [StreamExamples.v]: [paper_trade.cpp] and [quotes_stream.cpp] on the live stream.
      [ExampleClient.v]: the client of the examples.  [AccountsExample.v] and
      [BacktestExample.v]: [accounts.cpp] and [backtest.cpp] over its blocking calls,
      from the command line to the lines printed.
    - [LoadWindow.v], [LoadPump.v], [LoadServers.v], [LoadStreams.v],
      [LoadReports.v]: the load generators of [bench/]: the asynchronous loops, the
      mock servers with the blocking calls, the streams and the backtest, and what the
      two [main] functions print and return.

    ** What the theorems show

    - Decimal: every operation keeps the canonical form, is exact or correctly
      rounded where the result fits, and its undefined behaviour is
      characterised; text and protobuf round trips; [from_double] over the reals
      rounds to the nearest decimal and inverts [to_double].
    - Rate limiter: no group exceeds its limit in any window under any
      interleaving, and each answers as a fixed-window counter of its own; [acquire]
      terminates; [try_acquire] agrees with it;
      [configure] builds the table of the tariff.
    - Unary calls: the blocking call returns, its attempts, sleeps and result are
      those of the policy; the asynchronous call never retries or waits and reports
      what a blocking call without retries returns; an error says what the status and
      the headers of the reply say.
    - Services: their methods are exactly the unary RPCs of the contracts, and a
      tariff loaded into the limiter governs exactly the methods it lists.
    - Coroutines: [sync_wait] computes the direct meaning of its task in every
      interleaving, never touches a destroyed frame, takes a bounded number of actions
      per step of the task, and returns as soon as the task has ended.
    - Examples: both sandbox round trips close the account they opened and report every
      call, amounts as texts that read back, unless an amount of a response overflows,
      which ends them; paper
      trading on the live stream executes the orders of [EmaCross] across
      reconnections; [quotes_stream] prints what is delivered, with prices that read
      back; [accounts] ends and lists every account; [backtest] prints what
      [run_backtest] reports of every strategy, each number the nearest with its digits.
    - Load generators: both keep within their window; the benchmark ends with no
      callback left, the soak test only if its last wait does not time out; their
      counters count what is delivered, a cycle of the churn thread leaves no thread,
      call or callback behind, and the lines and exit codes are those of the counters.
    - Streams: no interleaving breaks gRPC's contract or touches a dead object;
      [stop] returns, also when several threads call it, because it cancels the call,
      whatever the server does, and no callback runs after it, but a [stop] inside a
      message handler waits for itself; the notifications
      follow the protocol and every message read that is not a ping of a
      server-side stream is delivered once, in order; the requests of a
      session are the replayed registry and the accepted sends, in order; the
      registry is what replaying it gives; keys identify targets.  A request
      sent in the window of [run_once] is recorded and not sent in that session.
      Theorems also exhibit the races of [start] with [stop] in both kinds of stream.
    - Algorithms: each streaming indicator is the textbook one (moving mean,
      seeded recurrence, Wilder's averages, bands, channel), SmaCross and
      DonchianBreakout act exactly on their signals, the orders of the cross
      strategies alternate, the trades of a backtest do not overlap, and its
      return is the compound of the trades' returns.  The theorems on the order
      of events hold for any number type, so for [binary64] with its rounding;
      those on values are about the exact reading over the reals and use the
      axioms of the Standard Library's reals.

    ** Bounds and fuel

    Integers are [Z] with the ranges of their types; arithmetic that would
    overflow is [UB], casts wrap.  [udec] prints with fuel 20, enough for any
    64-bit value; [acquire] takes two iterations, enough when [wait_until] does
    not return before its deadline (the law [wake_late]); [unary_sync] takes
    [attempts_allowed] iterations, which its theorem shows to be enough.  The
    stream theorems assume fewer than 2^31 actions, because the attempt counter
    of [run] is an [int], and options whose backoff fits in 64 bits.

    ** Not modelled

    A coroutine body is a finite tree of its awaits, so a task that awaits in an endless
    loop is not represented, and that bodies end is not a theorem.  A coroutine task is
    awaited as a temporary of its [co_await] expression, as in
    the examples, so moving [Task] objects around is left out; what [call_async]
    does with its callback appears as the two things it can do, calling it at
    once or later.  Messages the SDK only passes on are names, or the parameter
    [Msg].  Left out for good: code generated from [contracts/], the includes and
    namespace aliases of the umbrella headers, the declarations that only forward
    (accessors of [Client], compound assignments of [Decimal]), the time that examples
    sleep, and the tests (their expectations appear as [Example]s).  [paper_trade]'s
    lines are kept as values, not as texts.  Of [bench/], measured times, the memory
    file and [std::sin] are inputs, and the threads of the soak test are modelled each
    against its own stream or client, not all at once. *)

From stdpp Require Import base numbers list strings gmap sorting.
From Stdlib Require Import ZArith Lia.

#[global] Open Scope Z_scope.

(** ** Undefined behaviour as a value

    Signed overflow, division by zero and out-of-range element access are
    undefined in C++.  An expression that may have undefined behaviour is a
    value of [outcome]; [UB] propagates through [mbind], so a theorem that
    concludes [e = Val v] also says that evaluating [e] has no undefined
    behaviour. *)
Inductive outcome (A : Type) : Type :=
  | Val (a : A)
  | UB.
Arguments Val {A} a.
Arguments UB {A}.

#[export] Instance outcome_ret : MRet outcome := fun A a => Val a.
#[export] Instance outcome_bind : MBind outcome :=
  fun A B f o => match o with Val a => f a | UB => UB end.
#[export] Instance outcome_eq_dec `{EqDecision A} : EqDecision (outcome A).
Proof. solve_decision. Defined.

(** ** Fixed-width signed integers *)
Inductive width := W32 | W64 | W128.

Definition wmax (w : width) : Z :=
  match w with
  | W32 => 2147483647
  | W64 => 9223372036854775807
  | W128 => 170141183460469231731687303715884105727
  end.

Definition wmin (w : width) : Z := - wmax w - 1.

Definition wcard (w : width) : Z := 2 * wmax w + 2.

Definition InRange (w : width) (v : Z) : Prop := wmin w <= v <= wmax w.

#[export] Instance InRange_dec w v : Decision (InRange w v).
Proof. unfold InRange. apply _. Defined.

(** Arithmetic on a signed type: the exact result when it is representable,
    undefined behaviour otherwise. *)
Definition checked (w : width) (v : Z) : outcome Z :=
  if decide (InRange w v) then Val v else UB.

(** [static_cast] to a narrower signed type: the value modulo 2^w. *)
Definition wrap (w : width) (v : Z) : Z := (v - wmin w) mod wcard w + wmin w.

(** Signed division truncates; division by zero is undefined, and so is the
    one quotient that is not representable. *)
Definition cdiv (w : width) (a b : Z) : outcome Z :=
  if b =? 0 then UB else checked w (Z.quot a b).

Create HintDb tinvest.
Create Rewrite HintDb tinvest.

Ltac range_unfold :=
  unfold InRange, wmin, wcard, wmax in *.

(** Closes linear goals about ranges. *)
Ltac range := range_unfold; lia.

(** Splits the boolean conditionals of the goal one by one. *)
Ltac split_ifs :=
  repeat match goal with
  | |- context [if ?b then _ else _] =>
      lazymatch type of b with bool => destruct b eqn:? end
  end.

Section MachineIntegers.
Implicit Types (w : width) (v : Z).

Lemma checked_in w v : InRange w v -> checked w v = Val v.
Proof. intros H. unfold checked. by rewrite decide_True. Qed.

Lemma checked_out w v : ~ InRange w v -> checked w v = UB.
Proof. intros H. unfold checked. by rewrite decide_False. Qed.

Lemma checked_inv w v x : checked w v = Val x -> x = v /\ InRange w v.
Proof. unfold checked. case_decide; naive_solver. Qed.

Lemma wrap_in w v : InRange w v -> wrap w v = v.
Proof.
  intros H. unfold wrap. rewrite Z.mod_small; destruct w; range.
Qed.

Lemma wcard_pos w : 0 < wcard w.
Proof. by destruct w. Qed.

Lemma wrap_range w v : InRange w (wrap w v).
Proof.
  unfold wrap. pose proof (Z.mod_pos_bound (v - wmin w) _ (wcard_pos w)).
  destruct w; range.
Qed.

(** A cast changes the value by a multiple of the type's cardinality. *)
Lemma wrap_congruent w v : exists k, wrap w v = v + k * wcard w.
Proof.
  exists (- ((v - wmin w) / wcard w)). unfold wrap.
  pose proof (wcard_pos w). rewrite Z.mod_eq by lia. lia.
Qed.

Lemma cdiv_in w a b :
  b <> 0 -> InRange w (Z.quot a b) -> cdiv w a b = Val (Z.quot a b).
Proof.
  intros Hb H. unfold cdiv.
  rewrite (proj2 (Z.eqb_neq b 0) Hb). by apply checked_in.
Qed.

Lemma cdiv_zero w a : cdiv w a 0 = UB.
Proof. done. Qed.
End MachineIntegers.

#[export] Hint Resolve wrap_range : tinvest.
#[export] Hint Rewrite wrap_in using range : tinvest.

(** Evaluates a checked operation whose range condition is linear. *)
Ltac checked_step :=
  match goal with
  | |- context [checked ?w ?v] => rewrite (checked_in w v) by range; cbn
  end.

(** Truncating division and remainder, with the facts [lia] needs. *)
Lemma quot_rem_pos (t d : Z) :
  0 < d ->
  t = d * Z.quot t d + Z.rem t d
  /\ Z.abs (Z.rem t d) < d
  /\ (0 <= t -> 0 <= Z.rem t d /\ 0 <= Z.quot t d)
  /\ (t <= 0 -> Z.rem t d <= 0 /\ Z.quot t d <= 0).
Proof.
  intros Hd.
  pose proof (Z.quot_rem' t d). pose proof (Z.rem_bound_abs t d ltac:(lia)).
  split; [lia|]. split; [lia|]. split; intros Ht.
  - pose proof (Z.rem_bound_pos t d Ht Hd).
    split; [lia|]. apply Z.quot_pos; lia.
  - assert (Z.rem t d <= 0) by (apply Z.rem_nonpos; lia).
    split; [lia|].
    destruct (Z_le_gt_dec (Z.quot t d) 0); [lia|].
    assert (d * 1 <= d * Z.quot t d) by (apply Z.mul_le_mono_nonneg_l; lia). lia.
Qed.

(** The last element of a list with a default, seen from its head. *)
Lemma last_cons_default {A} (x y : A) l : List.last (y :: l) x = List.last l y.
Proof.
  destruct l as [|z l]; [done|]. cbn [List.last]. revert z.
  induction l as [|u l IH]; intros z; [done|]. cbn [List.last] in *. apply IH.
Qed.
