(* ===== verification/StdStrings.v ===== *)
(** * Standard library text functions

    What the code uses of [std::to_string] and [std::atoi], on lists of
    characters, with the lemmas on decimal digits that every component that
    prints or parses numbers shares. *)

From S2P Require Import Prelude.
From stdpp Require Import base numbers list strings.
From Stdlib Require Import ZArith Lia Ascii String.

#[local] Open Scope Z_scope.

Definition is_digit (c : ascii) : bool :=
  (48 <=? Z.of_N (N_of_ascii c)) && (Z.of_N (N_of_ascii c) <=? 57).
Definition digit_val (c : ascii) : Z := Z.of_N (N_of_ascii c) - 48.
Definition digit_char (d : Z) : ascii := ascii_of_N (Z.to_N (48 + d)).

(** [std::to_string] of an unsigned 64-bit integer: its decimal digits, the
    last one first.  Twenty digits are enough for any 64-bit value. *)
Fixpoint udec_aux (fuel : nat) (n : Z) (acc : list ascii) : list ascii :=
  match fuel with
  | O => acc
  | S f =>
      let acc' := digit_char (n mod 10) :: acc in
      if n <? 10 then acc' else udec_aux f (n / 10) acc'
  end.
Definition udec (n : Z) : list ascii := udec_aux 20 n [].

(** [std::to_string] of an int. *)
Definition int_to_chars (n : Z) : list ascii :=
  if n <? 0 then "-"%char :: udec (- n) else udec n.
Definition int_to_string (n : Z) : string := string_of_list_ascii (int_to_chars n).

(** What [%s] prints of [s.c_str()]: the text up to the first NUL. *)
Fixpoint c_str (s : string) : string :=
  match s with
  | String c rest => if bool_decide (c = Ascii.zero) then EmptyString else String c (c_str rest)
  | EmptyString => EmptyString
  end.

(** [std::isspace] in the C locale. *)
Definition is_space (c : ascii) : bool :=
  let n := Z.of_N (N_of_ascii c) in (n =? 32) || ((9 <=? n) && (n <=? 13)).

Fixpoint skip_spaces (l : list ascii) : list ascii :=
  match l with
  | c :: l' => if is_space c then skip_spaces l' else l
  | [] => []
  end.

Fixpoint leading_digits (l : list ascii) : list ascii :=
  match l with
  | c :: l' => if is_digit c then c :: leading_digits l' else []
  | [] => []
  end.

Definition digits_value (u : Z) (l : list ascii) : Z :=
  fold_left (fun v c => v * 10 + digit_val c) l u.

Definition Digits (l : list ascii) : Prop := Forall (fun c => is_digit c = true) l.

(** [std::atoi] and [std::atol]: white space, an optional sign and digits; 0 without
    digits, undefined behaviour when the number does not fit. *)
Definition ato (w : width) (l : list ascii) : outcome Z :=
  match skip_spaces l with
  | c :: l' =>
      if bool_decide (c = "-"%char)
      then checked w (- digits_value 0 (leading_digits l'))
      else if bool_decide (c = "+"%char)
      then checked w (digits_value 0 (leading_digits l'))
      else checked w (digits_value 0 (leading_digits (c :: l')))
  | [] => mret 0
  end.

Definition atoi : list ascii -> outcome Z := ato W32.
Definition atol : list ascii -> outcome Z := ato W64.

(** ** Digits *)

Lemma digit_char_ok d :
  0 <= d <= 9 -> is_digit (digit_char d) = true /\ digit_val (digit_char d) = d.
Proof.
  intros H. unfold is_digit, digit_val, digit_char.
  rewrite N_ascii_embedding by (apply N2Z.inj_lt; rewrite Z2N.id; lia).
  rewrite Z2N.id by lia. lia.
Qed.

Lemma digit_mod n : is_digit (digit_char (n mod 10)) = true
                    /\ digit_val (digit_char (n mod 10)) = n mod 10.
Proof. apply digit_char_ok. pose proof (Z.mod_pos_bound n 10). lia. Qed.

Lemma digit_val_bound c : is_digit c = true -> 0 <= digit_val c <= 9.
Proof. unfold is_digit, digit_val. lia. Qed.

Lemma digits_value_mono u l : Digits l -> 0 <= u -> u <= digits_value u l.
Proof.
  intros Hl. revert u. induction Hl as [|c l Hc Hl IH]; intros u Hu; cbn; [done|].
  pose proof (digit_val_bound c Hc).
  specialize (IH (u * 10 + digit_val c) ltac:(lia)). unfold digits_value in *. lia.
Qed.

Lemma digit_prefix l :
  exists D rest, l = D ++ rest /\ Digits D
    /\ match rest with [] => True | c :: _ => is_digit c = false end.
Proof.
  induction l as [|c l (D & rest & -> & HD & Hr)].
  - exists [], []. split_and!; [done|constructor|done].
  - destruct (is_digit c) eqn:Hc.
    + exists (c :: D), rest. split_and!; [done|by constructor|done].
    + exists [], (c :: D ++ rest). split_and!; [done|constructor|done].
Qed.

Lemma digits_value_udec_aux fuel n acc :
  0 <= n < 10 ^ Z.of_nat fuel -> (0 < fuel)%nat ->
  digits_value 0 (udec_aux fuel n acc) = digits_value n acc.
Proof.
  revert n acc. induction fuel as [|f IH]; intros n acc Hn Hf; [lia|].
  cbn [udec_aux]. destruct (digit_mod n) as [_ Hv].
  pose proof (Z.div_mod n 10 ltac:(lia)).
  destruct (n <? 10) eqn:Hlt.
  - unfold digits_value. cbn. rewrite Hv, Z.mod_small by lia. done.
  - rewrite IH.
    + unfold digits_value. cbn. rewrite Hv. f_equal. lia.
    + split; [apply Z.div_pos; lia|]. apply Z.div_lt_upper_bound; [lia|].
      rewrite Nat2Z.inj_succ, Z.pow_succ_r in Hn; lia.
    + destruct f; [cbn in Hn; lia|lia].
Qed.

Lemma digits_udec_aux fuel n acc : Digits acc -> Digits (udec_aux fuel n acc).
Proof.
  revert n acc. induction fuel as [|f IH]; intros n acc Ha; cbn; [done|].
  assert (Digits (digit_char (n mod 10) :: acc))
    by (constructor; [apply digit_mod|done]).
  case_match; auto.
Qed.

Lemma udec_digits n :
  0 <= n < 10 ^ 20 -> Digits (udec n) /\ digits_value 0 (udec n) = n /\ udec n <> [].
Proof.
  intros Hn. unfold udec.
  assert (E : digits_value 0 (udec_aux 20 n []) = n)
    by (rewrite digits_value_udec_aux by lia; done).
  split_and!; [apply digits_udec_aux; constructor|done|].
  cbn [udec_aux]. destruct (n <? 10); [done|].
  intros H. assert (L : forall f m acc, acc <> [] -> udec_aux f m acc <> []).
  { clear. induction f as [|f IH]; intros m acc Ha; cbn; [done|].
    case_match; [done|by apply IH]. }
  by apply (L 19%nat (n / 10) [digit_char (n mod 10)]).
Qed.

(** ** Reading back what was printed *)

Lemma leading_digits_app D rest :
  Digits D -> match rest with [] => True | c :: _ => is_digit c = false end ->
  leading_digits (D ++ rest) = D.
Proof.
  intros HD Hr. induction HD as [|c D Hc HD IH]; cbn.
  - destruct rest as [|c rest]; cbn; [done|]. by rewrite Hr.
  - by rewrite Hc, IH.
Qed.

Lemma digit_not_space c : is_digit c = true -> is_space c = false.
Proof. unfold is_digit, is_space. lia. Qed.

Lemma ato_number w sp D rest :
  Forall (fun c => is_space c = true) sp -> Digits D -> D <> [] ->
  match rest with [] => True | c :: _ => is_digit c = false end ->
  digits_value 0 D <= wmax w -> wmin w <= 0 ->
  ato w (sp ++ D ++ rest) = Val (digits_value 0 D).
Proof.
  intros Hsp HD Hne Hr Hb Hw. unfold ato.
  assert (E : skip_spaces (sp ++ D ++ rest) = D ++ rest).
  { induction Hsp as [|c sp Hc Hsp IH]; cbn; [|by rewrite Hc].
    destruct HD as [|c D Hc HD]; [done|]. cbn. by rewrite digit_not_space. }
  rewrite E. destruct HD as [|c D Hc HD]; [done|]. cbn [app].
  rewrite !bool_decide_false by (by intros ->).
  rewrite app_comm_cons, leading_digits_app by (done || by constructor).
  apply checked_in. assert (HcD : Digits (c :: D)) by by constructor.
  pose proof (digits_value_mono 0 _ HcD). range.
Qed.

Lemma atoi_digits D :
  Digits D -> D <> [] -> digits_value 0 D <= wmax W32 ->
  atoi D = Val (digits_value 0 D).
Proof.
  intros HD Hne Hb. unfold atoi. rewrite <- (app_nil_r D) at 1.
  apply (ato_number W32 [] D []); try done.
Qed.

(** Distinct ints print differently. *)
Lemma udec_inj a b :
  0 <= a < 10 ^ 20 -> 0 <= b < 10 ^ 20 -> udec a = udec b -> a = b.
Proof.
  intros Ha Hb E. destruct (udec_digits a Ha) as (_ & <- & _).
  destruct (udec_digits b Hb) as (_ & <- & _). by rewrite E.
Qed.

Lemma udec_no_minus a l : 0 <= a < 10 ^ 20 -> udec a <> "-"%char :: l.
Proof.
  intros Ha E. destruct (udec_digits a Ha) as (HD & _ & _). rewrite E in HD.
  by inversion HD.
Qed.

Lemma int_to_chars_inj a b :
  InRange W32 a -> InRange W32 b -> int_to_chars a = int_to_chars b -> a = b.
Proof.
  intros Ha Hb. unfold int_to_chars.
  destruct (a <? 0) eqn:Ea, (b <? 0) eqn:Eb.
  - intros [= E%udec_inj]; range.
  - intros E. symmetry in E. apply udec_no_minus in E; [done|range].
  - intros E. apply udec_no_minus in E; [done|range].
  - intros E%udec_inj; range.
Qed.
