(* ===== verification/FixedDecimal.v ===== *)
(** * Fixed-point decimals ([include/tinvest/decimal.hpp])

    [Decimal] is the pair (units, nano) of the API's Quotation and MoneyValue.
    This file translates its constructors, its arithmetic on [__int128]
    totals and its comparisons (the text format is in DecimalText.v).  [value] is the abstract
    number of nanos a [Decimal] stands for; the theorems relate every
    operation to integer arithmetic on [value], with the exact range in which
    each operation has no undefined behaviour. *)

From S2P Require Import Prelude.
From stdpp Require Import base numbers list strings.
From Stdlib Require Import ZArith Lia Ascii String.

#[local] Open Scope Z_scope.

(** ** Data *)

(** [pb::Quotation] and [pb::MoneyValue] of contracts/common.proto. *)
Record Quotation := MkQuotation { q_units : Z; q_nano : Z }.
Record MoneyValue := MkMoneyValue { m_currency : string; m_units : Z; m_nano : Z }.

Definition kNano : Z := 1000000000.

Record Decimal := MkDecimal { units_ : Z; nano_ : Z }.

#[export] Instance Decimal_eq_dec : EqDecision Decimal.
Proof. solve_decision. Defined.

Definition Decimal_default : Decimal := MkDecimal 0 0.

(** [Decimal::normalize], on the two members. *)
Definition normalize (units nano : Z) : outcome Decimal :=
  '(u, n) ← (if (nano <=? - kNano) || (kNano <=? nano)
             then u ← checked W64 (units + Z.quot nano kNano);
                  mret (u, wrap W32 (Z.rem nano kNano))
             else mret (units, nano));
  if (0 <? u) && (n <? 0)
  then u' ← checked W64 (u - 1);
       mret (MkDecimal u' (wrap W32 (n + kNano)))
  else if (u <? 0) && (0 <? n)
  then u' ← checked W64 (u + 1);
       mret (MkDecimal u' (wrap W32 (n - kNano)))
  else mret (MkDecimal u n).

(** The constructors. *)
Definition decimal (units nano : Z) : outcome Decimal := normalize units nano.
Definition of_quotation (q : Quotation) : outcome Decimal :=
  decimal (q_units q) (q_nano q).
Definition of_money (m : MoneyValue) : outcome Decimal :=
  decimal (m_units m) (m_nano m).

Definition units (d : Decimal) : Z := units_ d.
Definition nano (d : Decimal) : Z := nano_ d.
Definition is_zero (d : Decimal) : bool := (units_ d =? 0) && (nano_ d =? 0).

Definition to_quotation (d : Decimal) : Quotation :=
  MkQuotation (units_ d) (nano_ d).
Definition to_money (d : Decimal) (currency : string) : MoneyValue :=
  MkMoneyValue currency (units_ d) (nano_ d).

(** ** Arithmetic, through 128-bit totals *)

Definition total (d : Decimal) : outcome Z :=
  m ← checked W128 (units_ d * kNano);
  checked W128 (m + nano_ d).

Definition from_total (t : Z) : Decimal :=
  MkDecimal (wrap W64 (Z.quot t kNano)) (wrap W32 (Z.rem t kNano)).

Definition div_round (num den : Z) : outcome Z :=
  half ← cdiv W128 den 2;
  if Bool.eqb (0 <=? num) (0 <=? den)
  then s ← checked W128 (num + half); cdiv W128 s den
  else s ← checked W128 (num - half); cdiv W128 s den.

Definition op_add (a b : Decimal) : outcome Decimal :=
  x ← total a; y ← total b; t ← checked W128 (x + y); mret (from_total t).

Definition op_sub (a b : Decimal) : outcome Decimal :=
  x ← total a; y ← total b; t ← checked W128 (x - y); mret (from_total t).

Definition op_neg (a : Decimal) : outcome Decimal :=
  x ← total a; t ← checked W128 (- x); mret (from_total t).

Definition op_mul (a b : Decimal) : outcome Decimal :=
  x ← total a; y ← total b; p ← checked W128 (x * y);
  t ← div_round p kNano; mret (from_total t).

(** [Decimal * int64_t] and [Decimal / int64_t]. *)
Definition op_mul_int (a : Decimal) (k : Z) : outcome Decimal :=
  x ← total a; t ← checked W128 (x * k); mret (from_total t).

Definition op_div_int (a : Decimal) (k : Z) : outcome Decimal :=
  x ← total a; t ← div_round x k; mret (from_total t).

Definition op_div (a b : Decimal) : outcome Decimal :=
  x ← total a; p ← checked W128 (x * kNano); y ← total b;
  t ← div_round p y; mret (from_total t).

(** ** Comparisons *)

Definition op_eq (a b : Decimal) : bool :=
  (units_ a =? units_ b) && (nano_ a =? nano_ b).

Definition op_lt (a b : Decimal) : outcome bool :=
  x ← total a; y ← total b; mret (x <? y).

Definition op_gt (a b : Decimal) : outcome bool := op_lt b a.
Definition op_le (a b : Decimal) : outcome bool := r ← op_lt b a; mret (negb r).
Definition op_ge (a b : Decimal) : outcome bool := r ← op_lt a b; mret (negb r).
Definition op_ne (a b : Decimal) : bool := negb (op_eq a b).

(** ** Specification *)

(** What the types of the members guarantee: an int64 and an int32. *)
Definition Typed (d : Decimal) : Prop :=
  InRange W64 (units_ d) /\ InRange W32 (nano_ d).

(** The abstract value, in nanos. *)
Definition value (d : Decimal) : Z := units_ d * kNano + nano_ d.

(** The class invariant stated in the header: |nano| < 1e9 and the signs of
    units and nano agree. *)
Definition Canonical (d : Decimal) : Prop :=
  Typed d /\ Z.abs (nano_ d) < kNano
  /\ (0 < units_ d -> 0 <= nano_ d) /\ (units_ d < 0 -> nano_ d <= 0).

(** A number of nanos whose integer part fits in an int64. *)
Definition Representable (t : Z) : Prop := InRange W64 (Z.quot t kNano).

(** Rounding half away from zero: [r] is a nearest integer to [num / den],
    and of two nearest ones the one further from zero. *)
Definition RoundsHalfAway (num den r : Z) : Prop :=
  2 * Z.abs (num - r * den) <= Z.abs den
  /\ (2 * Z.abs (num - r * den) = Z.abs den -> Z.abs num <= Z.abs (r * den)).

(** The values of tests/decimal_test.cpp. *)
Example test_mul :
  (a ← decimal 10 500000000; b ← decimal 2 250000000; op_mul a b)
  = decimal 23 625000000.
Proof. vm_compute. reflexivity. Qed.

Ltac dec_unfold := unfold Typed, value, kNano in *.

(** ** Construction and representation *)

Lemma kNano_pos : 0 < kNano.
Proof. done. Qed.

Lemma typed_decimal d : Canonical d -> Typed d.
Proof. by intros [H _]. Qed.
#[export] Hint Resolve typed_decimal kNano_pos : tinvest.

Lemma value_range d : Typed d -> InRange W128 (value d).
Proof. intros []. dec_unfold. range. Qed.

Lemma total_value d : Typed d -> total d = Val (value d).
Proof.
  intros []. dec_unfold. unfold total, kNano.
  do 2 checked_step. done.
Qed.

Lemma canonical_from_total t : Representable t -> Canonical (from_total t).
Proof.
  intros H. destruct (quot_rem_pos t kNano kNano_pos) as (Ht & Hr & Hp & Hn).
  unfold Canonical, Typed, from_total; cbn.
  rewrite (wrap_in W64) by done.
  rewrite (wrap_in W32) by (dec_unfold; range).
  split_and!; try done; unfold Representable, kNano in *; try range; lia.
Qed.

Lemma value_from_total t : Representable t -> value (from_total t) = t.
Proof.
  intros H. destruct (quot_rem_pos t kNano kNano_pos) as (Ht & Hr & _).
  unfold value, from_total; cbn.
  rewrite (wrap_in W64) by done.
  rewrite (wrap_in W32) by (dec_unfold; range). lia.
Qed.

(** The canonical representation of a number is unique. *)
Lemma canonical_quot_rem d :
  Canonical d ->
  units_ d = Z.quot (value d) kNano /\ nano_ d = Z.rem (value d) kNano.
Proof.
  intros ([_ _] & Hn & Hp & Hm).
  destruct (quot_rem_pos (value d) kNano kNano_pos) as (Ht & Hr & Hpos & Hneg).
  unfold value, kNano in *. nia.
Qed.

Lemma canonical_representable d : Canonical d -> Representable (value d).
Proof.
  intros H. destruct (canonical_quot_rem d H) as [Hu _].
  unfold Representable. rewrite <- Hu. by destruct H as [[]].
Qed.

Lemma from_total_value d : Canonical d -> from_total (value d) = d.
Proof.
  intros H. destruct (canonical_quot_rem d H) as [Hu Hn].
  destruct H as [[] _]. destruct d as [u n]; cbn in *.
  unfold from_total. rewrite <- Hu, <- Hn.
  by rewrite !wrap_in.
Qed.

Lemma value_inj a b : Canonical a -> Canonical b -> value a = value b -> a = b.
Proof.
  intros Ha Hb E. rewrite <- (from_total_value a Ha), <- (from_total_value b Hb).
  by rewrite E.
Qed.
#[export] Hint Resolve canonical_from_total canonical_representable : tinvest.

(** Borrowing one unit aligns the signs and keeps the value. *)
Lemma normalize_small u n :
  InRange W64 u -> Z.abs n < kNano ->
  exists d, normalize u n = Val d /\ Canonical d /\ value d = u * kNano + n.
Proof.
  intros Hu Hn. unfold normalize.
  replace ((n <=? - kNano) || (kNano <=? n)) with false by lia. cbn.
  unfold Canonical, Typed, value, kNano in *.
  split_ifs; try checked_step; eexists; (split; [done|]); cbn;
    rewrite ?(wrap_in W32) by range; range.
Qed.

Lemma normalize_carry u n :
  kNano <= Z.abs n -> InRange W64 (u + Z.quot n kNano) ->
  normalize u n = normalize (u + Z.quot n kNano) (Z.rem n kNano).
Proof.
  intros Hn Hu. destruct (quot_rem_pos n kNano kNano_pos) as (_ & Hr & _).
  unfold normalize.
  replace ((n <=? - kNano) || (kNano <=? n)) with true by lia.
  replace ((Z.rem n kNano <=? - kNano) || (kNano <=? Z.rem n kNano))
    with false by lia.
  rewrite (checked_in _ _ Hu), (wrap_in W32) by (unfold kNano in *; range).
  done.
Qed.

(** The constructor, on every int64/int32 pair: the invariant holds and the
    value is kept, or the carry out of nano overflows units. *)
Lemma normalize_spec u n :
  InRange W64 u ->
  match normalize u n with
  | Val d => Canonical d /\ value d = u * kNano + n
  | UB => kNano <= Z.abs n /\ ~ InRange W64 (u + Z.quot n kNano)
  end.
Proof.
  intros Hu. destruct (quot_rem_pos n kNano kNano_pos) as (Hq & Hr & _).
  destruct (Z_lt_le_dec (Z.abs n) kNano) as [Hs|Hb].
  - by destruct (normalize_small u n Hu Hs) as (d & -> & ? & ?).
  - destruct (decide (InRange W64 (u + Z.quot n kNano))) as [Hi|Hi].
    + rewrite normalize_carry by done.
      destruct (normalize_small _ _ Hi Hr) as (d & -> & ? & ->). split; [done|lia].
    + unfold normalize.
      replace ((n <=? - kNano) || (kNano <=? n)) with true by lia.
      by rewrite (checked_out _ _ Hi).
Qed.

(** ** Rounding *)

(** Adding half the divisor away from zero before truncating. *)
Lemma quot_round num den s :
  0 < den ->
  (0 < num /\ s = num + Z.quot den 2 \/ num < 0 /\ s = num - Z.quot den 2
   \/ num = 0 /\ Z.abs s = Z.quot den 2) ->
  RoundsHalfAway num den (Z.quot s den).
Proof.
  intros Hd Hs.
  destruct (quot_rem_pos den 2 ltac:(lia)) as (Eh & Hh & Hh0 & _).
  specialize (Hh0 ltac:(lia)).
  set (h := Z.quot den 2) in *. set (e := Z.rem den 2) in *.
  destruct (quot_rem_pos s den Hd) as (Es & Hr & Hp & Hm).
  set (q := Z.quot _ den) in *. set (r := Z.rem _ den) in *.
  assert (Eq : q * den = s - r) by lia.
  unfold RoundsHalfAway. rewrite Eq. destruct Hs as [Hs|[Hs|[-> Hs]]]; lia.
Qed.

Lemma rounds_opp num den r :
  RoundsHalfAway (- num) (- den) r -> RoundsHalfAway num den r.
Proof.
  unfold RoundsHalfAway.
  replace (- num - r * - den) with (- (num - r * den)) by lia.
  replace (r * - den) with (- (r * den)) by lia.
  by rewrite !Z.abs_opp.
Qed.

Lemma abs_multiple k d : k * d = 0 \/ Z.abs d <= Z.abs (k * d).
Proof.
  destruct (decide (k = 0)) as [->|]; [left; lia|right].
  rewrite Z.abs_mul. nia.
Qed.

(** The rounded quotient is unique. *)
Lemma rounds_unique num den r1 r2 :
  den <> 0 -> RoundsHalfAway num den r1 -> RoundsHalfAway num den r2 -> r1 = r2.
Proof.
  intros Hd [H1 T1] [H2 T2].
  assert (Hk : Z.abs (r1 - r2) * Z.abs den <= Z.abs den).
  { rewrite <- Z.abs_mul.
    replace ((r1 - r2) * den) with ((num - r2 * den) - (num - r1 * den)) by lia. lia. }
  assert (Z.abs (r1 - r2) <= 1)
    by (apply (Z.mul_le_mono_pos_r _ _ (Z.abs den)); lia).
  destruct (decide (r1 = r2)); [done|exfalso].
  pose proof (abs_multiple r1 den). pose proof (abs_multiple r2 den).
  assert (r1 = r2 + 1 \/ r1 = r2 - 1) as [->| ->] by lia; lia.
Qed.

Lemma quot_abs_le a b : Z.abs (Z.quot a b) <= Z.abs a.
Proof.
  destruct (decide (b = 0)) as [->|Hb].
  { replace (Z.quot a 0) with 0 by (by destruct a). lia. }
  rewrite <- Z.quot_abs by done.
  destruct (decide (Z.abs b = 1)) as [->|]; [rewrite Z.quot_1_r; lia|].
  destruct (decide (a = 0)) as [->|]; [rewrite Z.quot_0_l; lia|].
  apply Z.lt_le_incl, Z.quot_lt; lia.
Qed.

(** [div_round] is rounding half away from zero, without undefined behaviour
    as long as the rounding term cannot overflow. *)
Lemma div_round_spec num den :
  den <> 0 -> Z.abs num + Z.abs den <= wmax W128 ->
  exists r, div_round num den = Val r /\ RoundsHalfAway num den r.
Proof.
  intros Hd Hb. unfold div_round.
  pose proof (quot_abs_le den 2) as Hh.
  rewrite (cdiv_in W128 den 2) by range. cbn.
  set (s := if Bool.eqb (0 <=? num) (0 <=? den)
            then num + Z.quot den 2 else num - Z.quot den 2).
  assert (Hs : Z.abs s <= wmax W128) by (subst s; case_match; lia).
  exists (Z.quot s den). pose proof (quot_abs_le s den). split.
  - subst s. case_match; rewrite (checked_in W128) by range; cbn;
      (apply cdiv_in; [done|range]).
  - destruct (Z_lt_le_dec 0 den).
    + apply quot_round; [done|].
      subst s. destruct (quot_rem_pos den 2 ltac:(lia)) as (_ & _ & Hp & _).
      destruct (0 <=? num) eqn:?, (0 <=? den) eqn:?; cbn; lia.
    + apply rounds_opp.
      rewrite <- Z.quot_opp_opp by done. apply quot_round; [lia|].
      rewrite Z.quot_opp_l by done.
      subst s. destruct (quot_rem_pos den 2 ltac:(lia)) as (_ & _ & _ & Hm).
      destruct (0 <=? num) eqn:?, (0 <=? den) eqn:?; cbn; lia.
Qed.

Lemma div_round_zero num : div_round num 0 = UB.
Proof.
  unfold div_round. rewrite (cdiv_in W128 0 2) by done.
  cbn [mbind outcome_bind]. split_ifs; by destruct (checked W128 _).
Qed.

(** ** Operations refine integer arithmetic on [value] *)

Lemma value_bound d : Typed d -> Z.abs (value d) <= 9223372039002259455000000000.
Proof. intros []. dec_unfold. range. Qed.

Ltac totals :=
  repeat match goal with
  | |- context [total ?d] => rewrite (total_value d) by auto with tinvest
  end; cbn [mbind outcome_bind].

Ltac in128 :=
  rewrite (checked_in W128) by
    (repeat match goal with H : Typed ?d |- _ =>
       pose proof (value_bound d H); clear H end; range);
  cbn [mbind outcome_bind].

Lemma op_add_value a b :
  Typed a -> Typed b -> op_add a b = Val (from_total (value a + value b)).
Proof. intros. unfold op_add. totals. by in128. Qed.

Lemma op_sub_value a b :
  Typed a -> Typed b -> op_sub a b = Val (from_total (value a - value b)).
Proof. intros. unfold op_sub. totals. by in128. Qed.

Lemma op_neg_value a : Typed a -> op_neg a = Val (from_total (- value a)).
Proof. intros. unfold op_neg. totals. by in128. Qed.

Lemma op_mul_int_value a k :
  Typed a ->
  op_mul_int a k =
    if decide (InRange W128 (value a * k))
    then Val (from_total (value a * k)) else UB.
Proof. intros. unfold op_mul_int. totals. unfold checked. by case_decide. Qed.

Lemma op_lt_value a b : Typed a -> Typed b -> op_lt a b = Val (value a <? value b).
Proof. intros. unfold op_lt. by totals. Qed.

(** A total out of range wraps units around, keeping nano. *)
Lemma value_from_total_wraps t :
  exists k, value (from_total t) = t + k * (wcard W64 * kNano).
Proof.
  destruct (wrap_congruent W64 (Z.quot t kNano)) as [k Hk]. exists k.
  destruct (quot_rem_pos t kNano kNano_pos) as (Ht & Hr & _).
  unfold value, from_total; cbn [units_ nano_]. rewrite Hk.
  rewrite (wrap_in W32) by (unfold kNano in *; range). lia.
Qed.

(** ** Properties *)

(** C1.  Every constructor ([Decimal(units, nano)], and through it those from
    Quotation and MoneyValue) establishes the class invariant |nano| < 1e9
    and sign(units) = sign(nano), and keeps units + nano / 1e9, for every
    int64 units and int32 nano; the only undefined behaviour is a carry out
    of nano that overflows units. *)
Theorem ctor_canonical (u n : Z) :
  InRange W64 u -> InRange W32 n ->
  match decimal u n with
  | Val d => Canonical d /\ value d = u * kNano + n
  | UB => kNano <= Z.abs n /\ ~ InRange W64 (u + Z.quot n kNano)
  end.
Proof. intros Hu _. exact (normalize_spec u n Hu). Qed.

Lemma ctor_canonical_witness :
  InRange W64 1 /\ InRange W32 (-500000000)
  /\ match decimal 1 (-500000000) with
     | Val d => Canonical d /\ value d = 1 * kNano + -500000000
     | UB => kNano <= Z.abs (-500000000)
             /\ ~ InRange W64 (1 + Z.quot (-500000000) kNano)
     end.
Proof.
  split; [by split|]. split; [by split|].
  apply (ctor_canonical 1 (-500000000)); by split.
Defined.

(** C2.  Addition, subtraction and negation never have undefined behaviour
    and are exact: the result is the canonical decimal of the exact sum
    whenever its integer part fits an int64, and otherwise differs from it by
    a multiple of 2^64 (units wraps around silently). *)
Theorem additive_ops_exact (a b : Decimal) :
  Canonical a -> Canonical b ->
  forall op t,
    (op = op_add a b /\ t = value a + value b)
    \/ (op = op_sub a b /\ t = value a - value b)
    \/ (op = op_neg a /\ t = - value a) ->
  exists d, op = Val d
    /\ (exists k, value d = t + k * (wcard W64 * kNano))
    /\ (Representable t -> Canonical d /\ value d = t).
Proof.
  intros Ha Hb op t H. exists (from_total t). split.
  - destruct H as [[-> ->]|[[-> ->]|[-> ->]]].
    + apply op_add_value; auto with tinvest.
    + apply op_sub_value; auto with tinvest.
    + apply op_neg_value; auto with tinvest.
  - split; [apply value_from_total_wraps|].
    split; [by apply canonical_from_total|by apply value_from_total].
Qed.

Lemma canonical_example : Canonical (MkDecimal 10 500000000).
Proof. unfold Canonical, Typed; cbn; split_and!; (done || lia). Defined.

Lemma additive_ops_exact_witness :
  exists d, op_sub (MkDecimal 10 500000000) (MkDecimal 10 500000000) = Val d
    /\ (exists k, value d = 0 + k * (wcard W64 * kNano))
    /\ (Representable 0 -> Canonical d /\ value d = 0).
Proof.
  apply (additive_ops_exact (MkDecimal 10 500000000) (MkDecimal 10 500000000)
           canonical_example canonical_example).
  right. left. split; reflexivity.
Defined.

(** C3.  Multiplication and division of decimals round the exact rational
    result half away from zero to a whole number of nanos, as long as the
    128-bit intermediate product and rounding term do not overflow; the
    product by an integer is exact when it fits 128 bits; division by zero is
    undefined.  With [RoundsHalfAway] determining the result, this
    is the full functional behaviour in range. *)
Theorem mul_div_round (a b : Decimal) (k : Z) :
  Canonical a -> Canonical b -> InRange W64 k ->
  (Z.abs (value a * value b) + kNano <= wmax W128 ->
     exists r, op_mul a b = Val (from_total r)
               /\ RoundsHalfAway (value a * value b) kNano r)
  /\ (value b <> 0 ->
     exists r, op_div a b = Val (from_total r)
               /\ RoundsHalfAway (value a * kNano) (value b) r)
  /\ (k <> 0 ->
     exists r, op_div_int a k = Val (from_total r) /\ RoundsHalfAway (value a) k r)
  /\ (value b = 0 -> op_div a b = UB) /\ op_div_int a 0 = UB
  /\ op_mul_int a k = if decide (InRange W128 (value a * k))
                      then Val (from_total (value a * k)) else UB.
Proof.
  intros Ha Hb Hk.
  pose proof (value_bound a ltac:(auto with tinvest)) as Ba.
  pose proof (value_bound b ltac:(auto with tinvest)) as Bb.
  unfold op_mul, op_div, op_div_int. totals.
  split_and!; [..|apply op_mul_int_value; auto with tinvest].
  - intros H. rewrite checked_in by (unfold kNano in *; range). cbn [mbind outcome_bind].
    destruct (div_round_spec (value a * value b) kNano) as (r & -> & Hr);
      [done|unfold kNano in *; range|]. by exists r.
  - intros H. rewrite checked_in by (unfold kNano; range). cbn [mbind outcome_bind].
    destruct (div_round_spec (value a * kNano) (value b)) as (r & -> & Hr);
      [done|unfold kNano; range|]. by exists r.
  - intros H. destruct (div_round_spec (value a) k) as (r & -> & Hr);
      [done|range|]. by exists r.
  - intros ->. rewrite checked_in by (unfold kNano; range). cbn [mbind outcome_bind].
    by rewrite div_round_zero.
  - by rewrite div_round_zero.
Qed.

Lemma mul_div_round_witness :
  exists r, op_div (MkDecimal 10 500000000) (MkDecimal 10 500000000)
            = Val (from_total r)
            /\ RoundsHalfAway (value (MkDecimal 10 500000000) * kNano)
                 (value (MkDecimal 10 500000000)) r.
Proof.
  apply (mul_div_round _ _ 1 canonical_example canonical_example);
    [by split|done].
Defined.

(** On canonical decimals the comparison operators agree with the order
    of the values, [==] holds exactly for equal values, and none of them has
    undefined behaviour. *)
Theorem comparisons_agree (a b : Decimal) :
  Canonical a -> Canonical b ->
  op_eq a b = bool_decide (value a = value b)
  /\ op_ne a b = bool_decide (value a <> value b)
  /\ op_lt a b = Val (bool_decide (value a < value b))
  /\ op_gt a b = Val (bool_decide (value b < value a))
  /\ op_le a b = Val (bool_decide (value a <= value b))
  /\ op_ge a b = Val (bool_decide (value b <= value a)).
Proof.
  intros Ha Hb.
  assert (Heq : op_eq a b = bool_decide (value a = value b)).
  { unfold op_eq. destruct a as [ua na], b as [ub nb]; cbn.
    apply eq_bool_prop_intro; rewrite !bool_decide_spec. split.
    - intros H. apply andb_True in H as [?%Is_true_true ?%Is_true_true].
      by assert (ua = ub) as -> by lia; assert (na = nb) as -> by lia.
    - intros H. pose proof (value_inj _ _ Ha Hb H) as [= -> ->].
      by rewrite !Z.eqb_refl. }
  unfold op_ne, op_gt, op_le, op_ge.
  rewrite Heq, !op_lt_value by auto with tinvest. cbn [mbind outcome_bind].
  rewrite bool_decide_not. split_and!; try done; unfold mret, outcome_ret; f_equal;
    apply eq_bool_prop_intro; rewrite bool_decide_spec, Is_true_true; lia.
Qed.

Lemma comparisons_agree_witness :
  op_eq (MkDecimal 10 500000000) (MkDecimal 10 500000000)
  = bool_decide (value (MkDecimal 10 500000000) = value (MkDecimal 10 500000000)).
Proof. apply (comparisons_agree _ _ canonical_example canonical_example). Defined.
