(* ===== verification/DecimalText.v ===== *)
(** * The text format of decimals ([include/tinvest/decimal.hpp])

    [Decimal::to_string], [Decimal::from_string] and the [Money] pair.  The
    loops of the code are translated one by one; [NumberText] is the grammar
    the parser is meant to accept, with the number each text denotes. *)

From S2P Require Import Prelude StdStrings FixedDecimal.
From stdpp Require Import base numbers list strings.
From Stdlib Require Import ZArith Lia Ascii String.

#[local] Open Scope Z_scope.

(** ** Text *)

(** The loop that fills [buf] from the right with the nine digits of frac. *)
Fixpoint frac_digits (k : nat) (frac : Z) (acc : list ascii) : list ascii :=
  match k with
  | O => acc
  | S k' => frac_digits k' (frac / 10) (digit_char (frac mod 10) :: acc)
  end.

(** [while (len > 0 && buf[len - 1] == '0') --len;] *)
Fixpoint trim_len (buf : list ascii) (len : nat) : nat :=
  match len with
  | O => O
  | S l => if decide (buf !! l = Some "0"%char) then trim_len buf l else len
  end.

(** The magnitude of units, computed as -(units + 1) in an int64 and then + 1
    as unsigned so that the least int64 is handled, and that of nano. *)
Definition units_magnitude (u : Z) : outcome Z :=
  if u <? 0
  then v ← checked W64 (u + 1); w ← checked W64 (- v); mret (w + 1)
  else mret u.
Definition nano_magnitude (n : Z) : outcome Z :=
  if n <? 0 then checked W32 (- n) else mret n.

(** [Decimal::to_string]. *)
Definition to_chars (d : Decimal) : outcome (list ascii) :=
  let sign := if (units_ d <? 0) || (nano_ d <? 0) then ["-"%char] else [] in
  u ← units_magnitude (units_ d);
  f ← nano_magnitude (nano_ d);
  if f =? 0 then mret (sign ++ udec u)
  else
    let buf := frac_digits 9 f [] in
    mret (sign ++ udec u ++ ["."%char] ++ take (trim_len buf 9) buf).

Definition to_string (d : Decimal) : outcome string :=
  l ← to_chars d; mret (string_of_list_ascii l).

(** The two digit loops of [Decimal::from_string]; each returns what it
    accumulated and the rest of the input. *)
Fixpoint scan_units (l : list ascii) (units : Z) (any : bool)
    : outcome (Z * bool * list ascii) :=
  match l with
  | c :: l' =>
      if is_digit c
      then m ← checked W64 (units * 10);
           u ← checked W64 (m + digit_val c);
           scan_units l' u true
      else mret (units, any, l)
  | [] => mret (units, any, l)
  end.

Fixpoint scan_nano (l : list ascii) (nano scale : Z) (any : bool)
    : outcome (Z * bool * list ascii) :=
  match l with
  | c :: l' =>
      if is_digit c
      then p ← checked W64 (digit_val c * scale);
           n ← checked W32 (nano + wrap W32 p);
           scan_nano l' n (Z.quot scale 10) true
      else mret (nano, any, l)
  | [] => mret (nano, any, l)
  end.

(** [Decimal::from_string] after the sign. *)
Definition from_digits (neg : bool) (s : list ascii) : outcome (option Decimal) :=
  '(u, any, rest) ← scan_units s 0 false;
  '(n, any, ok) ←
    (match rest with
     | [] => mret (0, any, true)
     | c :: rest' =>
         if bool_decide (c ≠ "."%char) && bool_decide (c ≠ ","%char)
         then mret (0, any, false)
         else '(n, any, rest'') ← scan_nano rest' 0 (Z.quot kNano 10) any;
              mret (n, any, match rest'' with [] => true | _ => false end)
     end);
  if negb ok then mret None
  else if negb any then mret None
  else
    u' ← (if neg then checked W64 (- u) else mret u);
    n' ← (if neg then checked W32 (- n) else mret n);
    d ← decimal u' n'; mret (Some d).

Definition from_chars (s : list ascii) : outcome (option Decimal) :=
  match s with
  | [] => mret None
  | c :: s' =>
      if bool_decide (c = "-"%char) || bool_decide (c = "+"%char)
      then from_digits (bool_decide (c = "-"%char)) s'
      else from_digits false s
  end.

Definition from_string (s : string) : outcome (option Decimal) :=
  from_chars (list_ascii_of_string s).

(** ** Money *)

Record Money := MkMoney { currency : string; amount : Decimal }.

Definition money_of_pb (m : MoneyValue) : outcome Money :=
  a ← decimal (m_units m) (m_nano m); mret (MkMoney (m_currency m) a).
Definition money_to_pb (m : Money) : MoneyValue :=
  to_money (amount m) (currency m).
Definition money_to_string (m : Money) : outcome string :=
  s ← to_string (amount m); mret (s +:+ " " +:+ currency m).
Definition money_eq (a b : Money) : bool :=
  bool_decide (currency a = currency b) && op_eq (amount a) (amount b).

(** ** Specification *)

(** The value of fractional digits, the first one counting [scale]. *)
Fixpoint frac_value (l : list ascii) (scale : Z) : Z :=
  match l with
  | [] => 0
  | c :: l' => digit_val c * scale + frac_value l' (Z.quot scale 10)
  end.

(** An optional sign, integer digits, and optionally a point or a comma with
    fractional digits; at least one digit.  The value counts nanos; fractional
    digits after the ninth do not count. *)
Inductive NumberText : list ascii -> Z -> Z -> Prop :=
  | number_text sign D tail F :
      sign = [] \/ sign = ["+"%char] \/ sign = ["-"%char] ->
      Digits D -> Digits F -> D ++ F <> [] ->
      (tail = [] /\ F = [] \/ tail = "."%char :: F \/ tail = ","%char :: F) ->
      NumberText (sign ++ D ++ tail) (digits_value 0 D)
        ((if decide (sign = ["-"%char]) then -1 else 1)
         * (digits_value 0 D * kNano + frac_value F (Z.quot kNano 10))).

(** The values of tests/decimal_test.cpp. *)
Example test_to_string : (d ← decimal (-7) (-10000000); to_string d) = Val "-7.01"%string.
Proof. vm_compute. reflexivity. Qed.

Example test_from_string :
  from_string "-0.5" = (d ← decimal 0 (-500000000); mret (Some d)).
Proof. vm_compute. reflexivity. Qed.

Example test_from_string_bad : from_string "1.2.3" = Val None.
Proof. vm_compute. reflexivity. Qed.

(** ** The scanning loops *)

Definition not_digit_head (l : list ascii) : Prop :=
  match l with [] => True | c :: _ => is_digit c = false end.

Lemma scan_units_app D rest u any :
  Digits D -> not_digit_head rest -> 0 <= u ->
  digits_value u D <= wmax W64 ->
  scan_units (D ++ rest) u any
  = Val (digits_value u D, any || bool_decide (D <> []), rest).
Proof.
  intros HD Hr. revert u any.
  induction HD as [|c D Hc HD IH]; intros u any Hu Hb; cbn.
  - rewrite orb_false_r. destruct rest as [|c rest]; cbn in *; [done|].
    by rewrite Hr.
  - rewrite Hc. cbn in Hb. pose proof (digit_val_bound c Hc).
    pose proof (digits_value_mono (u * 10 + digit_val c) D HD ltac:(lia)).
    unfold digits_value in *.
    rewrite checked_in by range; cbn [mbind outcome_bind].
    rewrite checked_in by range; cbn [mbind outcome_bind].
    rewrite IH by range. by rewrite orb_true_r.
Qed.

Lemma scan_units_overflow D rest u any :
  Digits D -> 0 <= u <= wmax W64 -> wmax W64 < digits_value u D ->
  scan_units (D ++ rest) u any = UB.
Proof.
  intros HD. revert u any. induction HD as [|c D Hc HD IH]; intros u any Hu Hb.
  - unfold digits_value in Hb. cbn [fold_left] in Hb. lia.
  - cbn. rewrite Hc. pose proof (digit_val_bound c Hc).
    destruct (checked W64 (u * 10)) as [m|] eqn:E1; [|done]; cbn.
    destruct (checked W64 (m + _)) as [v|] eqn:E2; [|done]; cbn.
    apply checked_inv in E1 as [-> _]. apply checked_inv in E2 as [-> [_ Hv]].
    apply IH; [lia|done].
Qed.

Lemma scan_nano_app F rest n scale any :
  Digits F -> not_digit_head rest ->
  0 <= n -> 0 <= scale -> n + 10 * scale <= kNano ->
  scan_nano (F ++ rest) n scale any
  = Val (n + frac_value F scale, any || bool_decide (F <> []), rest).
Proof.
  intros HF Hr. revert n scale any.
  induction HF as [|c F Hc HF IH]; intros n scale any Hn Hs Hb; cbn.
  - rewrite orb_false_r, Z.add_0_r. destruct rest as [|c rest]; cbn in *; [done|].
    by rewrite Hr.
  - rewrite Hc. pose proof (digit_val_bound c Hc) as Hv.
    destruct (quot_rem_pos scale 10 ltac:(lia)) as (Hq & _ & Hp & _).
    specialize (Hp Hs). unfold kNano in *.
    assert (0 <= digit_val c * scale <= 9 * scale) by nia.
    rewrite checked_in by range; cbn [mbind outcome_bind].
    rewrite wrap_in by range.
    rewrite checked_in by range; cbn [mbind outcome_bind].
    rewrite IH by lia. rewrite orb_true_r, Z.add_assoc. done.
Qed.

Lemma frac_value_bound F scale :
  Digits F -> 0 <= scale -> 0 <= frac_value F scale <= Z.max 0 (10 * scale - 1).
Proof.
  intros HF. revert scale. induction HF as [|c F Hc HF IH]; intros s Hs; cbn; [lia|].
  pose proof (digit_val_bound c Hc) as Hv.
  destruct (quot_rem_pos s 10 ltac:(lia)) as (Hq & _ & Hp & _). specialize (Hp Hs).
  specialize (IH (Z.quot s 10) ltac:(lia)).
  assert (0 <= digit_val c * s <= 9 * s) by nia. lia.
Qed.

Lemma nano_part_bound F : Digits F -> 0 <= frac_value F (Z.quot kNano 10) < kNano.
Proof.
  intros HF.
  pose proof (frac_value_bound F (Z.quot kNano 10) HF ltac:(done)) as H.
  change (Z.quot kNano 10) with 100000000 in *. unfold kNano. lia.
Qed.

(** ** The parser accepts the grammar and nothing else *)

Definition Tail (tail F : list ascii) : Prop :=
  tail = [] /\ F = [] \/ tail = "."%char :: F \/ tail = ","%char :: F.

Lemma from_digits_complete neg D F tail :
  Digits D -> Digits F -> D ++ F <> [] -> Tail tail F ->
  digits_value 0 D <= wmax W64 ->
  exists d, from_digits neg (D ++ tail) = Val (Some d) /\ Canonical d
    /\ value d = (if neg then -1 else 1)
                 * (digits_value 0 D * kNano + frac_value F (Z.quot kNano 10)).
Proof.
  intros HD HF Hne Ht Hb. unfold from_digits.
  pose proof (digits_value_mono 0 D HD ltac:(lia)) as Hu.
  pose proof (nano_part_bound F HF) as Hn.
  rewrite scan_units_app by
    (try done; destruct Ht as [[-> _]|[-> | ->]]; done).
  cbn [mbind outcome_bind].
  set (u := digits_value 0 D) in *. set (n := frac_value F _) in *.
  destruct (normalize_small (if neg then - u else u) (if neg then - n else n))
    as (d & Hd & Hc & Hv); [destruct neg; range|destruct neg; lia|].
  exists d. split; [|split; [done|rewrite Hv; destruct neg; lia]].
  assert (Hsep : forall c, c = "."%char \/ c = ","%char ->
    bool_decide (c <> "."%char) && bool_decide (c <> ","%char) = false)
    by (by intros c [-> | ->]).
  assert (HF' : scan_nano F 0 (Z.quot kNano 10) (bool_decide (D <> []))
                = Val (n, true, [])).
  { rewrite <- (app_nil_r F) at 1. rewrite scan_nano_app by done. 
    f_equal. f_equal. f_equal. destruct D, F; done. }
  destruct Ht as [[-> ->]|Ht].
  - rewrite app_nil_r in Hne. cbn [frac_value] in *. subst n.
    rewrite (bool_decide_true (D <> [])) by done. cbn.
    destruct neg; rewrite ?checked_in by range; cbn; unfold decimal;
      cbn in Hd; by rewrite Hd.
  - assert (tail = "."%char :: F \/ tail = ","%char :: F) as [-> | ->] by done;
      rewrite Hsep by auto; cbn [orb]; rewrite HF'; cbn;
      (destruct neg; rewrite ?checked_in by (unfold kNano in *; range); cbn;
       unfold decimal; by rewrite Hd).
Qed.

(** What the parser does with the text after the sign, when the integer part
    fits: it is a number, or it is rejected. *)
Lemma from_digits_cases neg D rest :
  Digits D -> not_digit_head rest -> digits_value 0 D <= wmax W64 ->
  (exists F, Tail rest F /\ Digits F /\ D ++ F <> [])
  \/ from_digits neg (D ++ rest) = Val None.
Proof.
  intros HD Hr Hb. unfold from_digits.
  rewrite scan_units_app by done. cbn [mbind outcome_bind].
  destruct rest as [|c rest]; [destruct D as [|x D]; [by right|]|].
  { left. exists []. split_and!; [by left|constructor|done]. }
  destruct (bool_decide (c <> "."%char) && bool_decide (c <> ","%char)) eqn:Hsep;
    [by right|].
  assert (Hc : c = "."%char \/ c = ","%char).
  { apply andb_false_iff in Hsep as [H|H]; apply bool_decide_eq_false in H;
      apply dec_stable in H; auto. }
  destruct (digit_prefix rest) as (F & r & -> & HF & Hr').
  rewrite scan_nano_app by (try done; by destruct r).
  cbn [mbind outcome_bind]. destruct r as [|y r]; [|by right].
  rewrite app_nil_r. destruct (decide (D ++ F = [])) as [E|E].
  { apply app_eq_nil in E as [-> ->]. by right. }
  left. exists F. split_and!; [|done..]. right. destruct Hc as [-> | ->]; auto.
Qed.

Lemma number_text_sign sign D tail F :
  (sign = [] \/ sign = ["+"%char] \/ sign = ["-"%char]) ->
  Digits D -> Digits F -> D ++ F <> [] -> Tail tail F ->
  from_chars (sign ++ D ++ tail)
  = from_digits (bool_decide (sign = ["-"%char])) (D ++ tail).
Proof.
  intros [->|[-> | ->]] HD HF Hne Ht; [|done..]. cbn [app].
  destruct D as [|c D]; cbn.
  - destruct Ht as [[-> ->]|[-> | ->]]; done.
  - inversion HD as [|? ? Hc]; subst.
    destruct (bool_decide (c = "-"%char) || bool_decide (c = "+"%char)) eqn:E; [|done].
    apply orb_true_iff in E as [E|E]; apply bool_decide_eq_true in E; by subst.
Qed.

(** The sign that [from_chars] strips, and the rest. *)
Lemma from_chars_split s :
  s <> [] ->
  exists sign s', s = sign ++ s'
    /\ (sign = [] \/ sign = ["+"%char] \/ sign = ["-"%char])
    /\ from_chars s = from_digits (bool_decide (sign = ["-"%char])) s'.
Proof.
  destruct s as [|c s]; [done|intros _]. cbn.
  destruct (bool_decide_reflect (c = "-"%char)) as [->|]; cbn.
  { exists ["-"%char], s. auto. }
  destruct (bool_decide_reflect (c = "+"%char)) as [->|]; cbn.
  { exists ["+"%char], s. auto. }
  exists [], (c :: s). auto.
Qed.

Lemma from_chars_complete s u v :
  NumberText s u v -> u <= wmax W64 ->
  exists d, from_chars s = Val (Some d) /\ Canonical d /\ value d = v.
Proof.
  intros [sign D tail F Hs HD HF Hne Ht] Hu.
  rewrite (number_text_sign sign D tail F) by done.
  destruct (from_digits_complete (bool_decide (sign = ["-"%char])) D F tail)
    as (d & E & Hc & Hv); try done.
  exists d. split_and!; [done..|]. rewrite Hv. unfold bool_decide. by case_decide.
Qed.

Lemma from_digits_overflow neg D rest :
  Digits D -> wmax W64 < digits_value 0 D -> from_digits neg (D ++ rest) = UB.
Proof. intros. unfold from_digits. by rewrite scan_units_overflow by (done || by split). Qed.

Lemma from_chars_overflow s u v :
  NumberText s u v -> wmax W64 < u -> from_chars s = UB.
Proof.
  intros [sign D tail F Hs HD HF Hne Ht] Hu.
  rewrite (number_text_sign sign D tail F) by done.
  by apply from_digits_overflow.
Qed.

(** The integer part, which is the longest run of digits after an optional sign,
    exceeds an int64. *)
Definition IntegerPartTooBig (l : list ascii) : Prop :=
  exists sign D rest, l = sign ++ D ++ rest
    /\ (sign = [] \/ sign = ["+"%char] \/ sign = ["-"%char])
    /\ Digits D /\ not_digit_head rest /\ wmax W64 < digits_value 0 D.

Lemma from_chars_too_big l : IntegerPartTooBig l -> from_chars l = UB.
Proof.
  intros (sign & D & rest & -> & Hs & HD & _ & Hbig).
  destruct D as [|c D]; [by vm_compute in Hbig|].
  assert (E : from_chars (sign ++ (c :: D) ++ rest)
              = from_digits (bool_decide (sign = ["-"%char])) ((c :: D) ++ rest)).
  { destruct Hs as [->|[-> | ->]]; [|done..]. cbn.
    inversion HD as [|? ? Hc]; subst.
    destruct (bool_decide (c = "-"%char) || bool_decide (c = "+"%char)) eqn:E; [|done].
    apply orb_true_iff in E as [E|E]; apply bool_decide_eq_true in E; by subst. }
  rewrite E. by apply from_digits_overflow.
Qed.

(** C4.  [Decimal::from_string], on every input, has exactly three outcomes.
    It returns a decimal only for a text of the number grammar, and then it is
    the canonical decimal whose value is the number the text denotes, with the
    digits after the ninth fractional one dropped; it rejects only texts
    outside the grammar; and it has undefined behaviour exactly when the integer
    part - the digits after an optional sign - exceeds an int64, however many
    fractional digits follow. *)
Theorem from_string_grammar (s : string) :
  match from_string s with
  | Val (Some d) =>
      Canonical d /\ exists u, NumberText (list_ascii_of_string s) u (value d)
                              /\ u <= wmax W64
  | Val None => forall u v, ~ NumberText (list_ascii_of_string s) u v
  | UB => IntegerPartTooBig (list_ascii_of_string s)
  end
  /\ (from_string s = UB <-> IntegerPartTooBig (list_ascii_of_string s)).
Proof.
  assert (H : match from_string s with
    | Val (Some d) => Canonical d /\ exists u, NumberText (list_ascii_of_string s) u (value d)
                        /\ u <= wmax W64
    | Val None => forall u v, ~ NumberText (list_ascii_of_string s) u v
    | UB => IntegerPartTooBig (list_ascii_of_string s) end).
  2:{ split; [done|]. split; [by intros E; rewrite E in H|apply from_chars_too_big]. }
  unfold from_string. set (l := list_ascii_of_string s). clearbody l. clear s.
  destruct (decide (l = [])) as [->|Hl].
  { intros u v H. inversion H as [sign D tail F ? ? ? Hne Ht E].
    apply app_eq_nil in E as [_ E]. apply app_eq_nil in E as [-> ->].
    by destruct Ht as [[_ ->]|[|]]. }
  destruct (from_chars_split l Hl) as (sign & s' & -> & Hs & E).
  destruct (digit_prefix s') as (D & rest & -> & HD & Hr).
  destruct (Z_lt_le_dec (wmax W64) (digits_value 0 D)) as [Hbig|Hsmall].
  { rewrite E, from_digits_overflow by done. by exists sign, D, rest. }
  destruct (from_digits_cases (bool_decide (sign = ["-"%char])) D rest)
    as [(F & Ht & HF & Hne)|En]; try done.
  - pose proof (number_text sign D rest F Hs HD HF Hne Ht) as Hn.
    destruct (from_chars_complete _ _ _ Hn Hsmall) as (d & -> & Hc & Hv).
    split; [done|]. exists (digits_value 0 D). by rewrite Hv.
  - rewrite E, En. intros u v H. destruct (Z_lt_le_dec (wmax W64) u) as [Hu|Hu].
    + pose proof (from_chars_overflow _ _ _ H Hu). congruence.
    + destruct (from_chars_complete _ _ _ H Hu) as (d & Ed & _). congruence.
Qed.

(** ** Printing *)

(** The scale of the first of [j] fractional digits still to come. *)
Definition scale_of (j : nat) : Z := Z.quot (10 ^ Z.of_nat j) 10.

Lemma scale_of_S j : scale_of (S j) = 10 ^ Z.of_nat j.
Proof.
  unfold scale_of. rewrite Nat2Z.inj_succ, Z.pow_succ_r by lia.
  rewrite Z.mul_comm. by apply Z.quot_mul.
Qed.

Lemma frac_digits_value k f acc m :
  0 <= f < 10 ^ Z.of_nat k ->
  frac_value (frac_digits k f acc) (scale_of (k + m))
  = f * 10 ^ Z.of_nat m + frac_value acc (scale_of m).
Proof.
  revert f acc m. induction k as [|k IH]; intros f acc m Hf.
  - cbn in Hf. replace f with 0 by lia. done.
  - cbn [frac_digits]. replace (S k + m)%nat with (k + S m)%nat by lia.
    rewrite IH.
    + cbn [frac_value]. rewrite scale_of_S.
      change (Z.quot (10 ^ Z.of_nat m) 10) with (scale_of m).
      destruct (digit_mod f) as [_ ->].
      pose proof (Z.div_mod f 10 ltac:(lia)).
      rewrite Nat2Z.inj_succ, Z.pow_succ_r by lia. nia.
    + rewrite Nat2Z.inj_succ, Z.pow_succ_r in Hf by lia.
      split; [apply Z.div_pos; lia|]. apply Z.div_lt_upper_bound; lia.
Qed.

Lemma digits_frac_digits k f acc : Digits acc -> Digits (frac_digits k f acc).
Proof.
  revert f acc. induction k as [|k IH]; intros f acc Ha; cbn; [done|].
  apply IH. constructor; [apply digit_mod|done].
Qed.

Lemma frac_value_zeros l s : frac_value (l ++ ["0"%char]) s = frac_value l s.
Proof. revert s. induction l as [|c l IH]; intros s; cbn; [done|]. by rewrite IH. Qed.

Lemma trim_value buf len s :
  frac_value (take (trim_len buf len) buf) s = frac_value (take len buf) s.
Proof.
  induction len as [|l IH]; [done|]. cbn [trim_len].
  case_decide as E; [|done]. rewrite IH, (take_S_r _ _ _ E).
  by rewrite frac_value_zeros.
Qed.

Lemma frac_text f :
  0 <= f < kNano ->
  let buf := frac_digits 9 f [] in
  let F := take (trim_len buf 9) buf in
  Digits F /\ frac_value F (Z.quot kNano 10) = f.
Proof.
  intros Hf buf F. split.
  - apply Forall_take, digits_frac_digits. constructor.
  - subst F. rewrite trim_value.
    replace (take 9 buf) with buf by (subst buf; done).
    pose proof (frac_digits_value 9 f [] 0 ltac:(done)) as E.
    cbn [frac_value] in E. rewrite Z.mul_1_r, Z.add_0_r in E. exact E.
Qed.

Lemma units_magnitude_abs u : InRange W64 u -> units_magnitude u = Val (Z.abs u).
Proof.
  intros H. unfold units_magnitude, mret, outcome_ret.
  destruct (u <? 0) eqn:E; rewrite ?checked_in by range; cbn [mbind outcome_bind];
    rewrite ?checked_in by range; cbn [mbind outcome_bind]; f_equal; lia.
Qed.

Lemma nano_magnitude_abs n : Z.abs n <= wmax W32 -> nano_magnitude n = Val (Z.abs n).
Proof.
  intros H. unfold nano_magnitude, mret, outcome_ret.
  destruct (n <? 0) eqn:E; rewrite ?checked_in by range; f_equal; lia.
Qed.

(** Printing a canonical decimal gives a text of the grammar that denotes it. *)
Lemma to_chars_number d :
  Canonical d ->
  exists l, to_chars d = Val l /\ NumberText l (Z.abs (units_ d)) (value d).
Proof.
  intros ([Hu Hn] & Hb & Hp & Hm). destruct d as [u n]; cbn in *.
  unfold to_chars, value; cbn [units_ nano_].
  set (sign := if (u <? 0) || (n <? 0) then ["-"%char] else []).
  assert (Hs : sign = [] \/ sign = ["+"%char] \/ sign = ["-"%char])
    by (subst sign; case_match; auto).
  destruct (udec_digits (Z.abs u)) as (HD & HDv & HDne); [range|].
  destruct (frac_text (Z.abs n) ltac:(lia)) as [HF HFv].
  set (F := take _ _) in *.
  assert (Hval : u * kNano + n
    = (if decide (sign = ["-"%char]) then -1 else 1) * (Z.abs u * kNano + Z.abs n)).
  { subst sign. unfold kNano in *.
    destruct ((u <? 0) || (n <? 0)) eqn:E; case_decide; try done; lia. }
  rewrite units_magnitude_abs, nano_magnitude_abs
    by (done || (unfold kNano in *; range)).
  cbn [mbind outcome_bind]. rewrite Hval.
  destruct (Z.abs n =? 0) eqn:E; eexists; (split; [done|]).
  - pose proof (number_text sign _ [] [] Hs HD ltac:(constructor)) as HN.
    rewrite HDv, !app_nil_r in HN. cbn [frac_value] in HN.
    replace (Z.abs n) with 0 by lia. apply HN; auto.
  - pose proof (number_text sign _ ("."%char :: F) F Hs HD HF) as HN.
    rewrite HDv, HFv in HN. apply HN; [|auto]. by destruct (udec (Z.abs u)).
Qed.

(** A text that denotes a canonical decimal whose magnitude fits is read as it. *)
Lemma number_text_reads l d :
  Canonical d -> NumberText l (Z.abs (units_ d)) (value d) -> units_ d <> wmin W64 ->
  from_chars l = Val (Some d).
Proof.
  intros Hc HN Hm. destruct (from_chars_complete _ _ _ HN) as (d' & -> & Hc' & Hv).
  - destruct Hc as [[Hu _] _]. range.
  - by rewrite (value_inj d' d Hc' Hc Hv).
Qed.

(** C5.  Printing a canonical decimal has no undefined behaviour, and parsing
    the text gives the decimal back, unless units is the least int64: its
    text is printed correctly but parsing it overflows. *)
Theorem decimal_text_roundtrip d :
  Canonical d ->
  exists s, to_string d = Val s
    /\ from_string s = if units_ d =? wmin W64 then UB else Val (Some d).
Proof.
  intros Hc. destruct (to_chars_number d Hc) as (l & Hl & HN).
  exists (string_of_list_ascii l). unfold to_string, from_string. rewrite Hl.
  split; [done|]. rewrite list_ascii_of_string_of_list_ascii.
  destruct (units_ d =? wmin W64) eqn:E.
  - apply (from_chars_overflow _ _ _ HN). range.
  - apply number_text_reads; [done|done|]. by apply Z.eqb_neq.
Qed.

Lemma decimal_text_roundtrip_witness :
  Canonical (MkDecimal (-7) (-10000000))
  /\ exists s, to_string (MkDecimal (-7) (-10000000)) = Val s
    /\ from_string s = Val (Some (MkDecimal (-7) (-10000000))).
Proof.
  assert (H : Canonical (MkDecimal (-7) (-10000000)))
    by (unfold Canonical, Typed; cbn; split_and!; (done || lia)).
  split; [exact H|]. exact (decimal_text_roundtrip _ H).
Defined.

(** C6.  Converting a canonical decimal to Quotation or MoneyValue and back
    is the identity, and so is converting a Money with a canonical amount;
    reading any Quotation or MoneyValue and writing it back keeps the value it
    denotes, and the currency. *)
Theorem proto_roundtrip (d : Decimal) (c : string) (q : Quotation) :
  Canonical d -> InRange W64 (q_units q) ->
  of_quotation (to_quotation d) = Val d
  /\ of_money (to_money d c) = Val d
  /\ money_of_pb (money_to_pb (MkMoney c d)) = Val (MkMoney c d)
  /\ (forall d', of_quotation q = Val d' ->
        Canonical d' /\ q_units q * kNano + q_nano q
          = q_units (to_quotation d') * kNano + q_nano (to_quotation d'))
  /\ (forall m x, InRange W64 (m_units m) -> money_of_pb m = Val x ->
        Canonical (amount x) /\ m_currency (money_to_pb x) = m_currency m
        /\ m_units m * kNano + m_nano m
           = m_units (money_to_pb x) * kNano + m_nano (money_to_pb x)).
Proof.
  intros Hc Hq.
  assert (E : decimal (units_ d) (nano_ d) = Val d).
  { unfold decimal. pose proof (typed_decimal d Hc) as [Hu _].
    destruct (normalize_small (units_ d) (nano_ d) Hu) as (d' & -> & Hc' & Hv);
      [apply Hc|]. by rewrite (value_inj d' d Hc' Hc Hv). }
  unfold of_quotation, of_money, money_of_pb, money_to_pb. cbn. rewrite E.
  split_and!; [done..| |].
  - intros d' Hd. pose proof (normalize_spec (q_units q) (q_nano q) Hq) as H.
    unfold decimal in Hd. rewrite Hd in H. destruct H as [H1 H2].
    split; [done|]. by rewrite <- H2.
  - intros m x Hm Hd. pose proof (normalize_spec (m_units m) (m_nano m) Hm) as H.
    destruct (decimal (m_units m) (m_nano m)) as [d'|] eqn:Ed; [|done].
    unfold decimal in Ed. rewrite Ed in H. injection Hd as <-. destruct H as [H1 H2].
    split_and!; [done..|]. by rewrite <- H2.
Qed.

Lemma proto_roundtrip_witness :
  of_quotation (to_quotation (MkDecimal 10 500000000)) = Val (MkDecimal 10 500000000).
Proof.
  apply (proto_roundtrip (MkDecimal 10 500000000) "rub" (MkQuotation 1 (-1))
           canonical_example). by split.
Defined.
