(* ===== verification/PrintedText.v ===== *)
(** * What the programs print

    The lines that the examples write with [std::printf] and [std::fprintf], and the
    texts of prices and amounts in them.  A text passed as [const char*] ends at its
    first NUL.  Printing a price that cannot be converted is undefined, so what a
    program has printed is an [outcome]. *)

From S2P Require Import Prelude StdStrings FixedDecimal DecimalText.
From stdpp Require Import base numbers list strings.
From Stdlib Require Import ZArith Lia.

#[local] Open Scope Z_scope.

(** A line on [stdout] or [stderr]. *)
Inductive printed_line := Out (text : string) | Err (text : string).

(** [Decimal(q).to_string().c_str()], [Money(m).to_string().c_str()]. *)
Definition quotation_text (q : Quotation) : outcome string :=
  d ← of_quotation q; t ← to_string d; mret (c_str t).

Definition money_text (m : MoneyValue) : outcome string :=
  a ← money_of_pb m; t ← money_to_string a; mret (c_str t).

Definition print_line {A} (line : outcome A) (screen : outcome (list A))
    : outcome (list A) :=
  lines ← screen; t ← line; mret (lines ++ [t]).

Lemma print_lines {A} (lines : list (outcome A)) texts before :
  Forall2 (fun l t => l = Val t) lines texts ->
  foldl (fun w l => print_line l w) (mret before) lines = Val (before ++ texts).
Proof.
  intros Hf. revert before. induction Hf as [|l t lines texts -> Hf IH]; intros before; cbn.
  { by rewrite app_nil_r. }
  rewrite (IH (before ++ [t])). by rewrite <- app_assoc.
Qed.
(** ** The text of a price *)

Definition no_nul (s : string) : Prop :=
  Forall (fun c => c <> Ascii.zero) (String.list_ascii_of_string s).

Lemma c_str_no_nul s : no_nul s -> c_str s = s.
Proof.
  unfold no_nul. induction s as [|c s IH]; cbn; [done|].
  intros [Hc Hs]%Forall_cons. rewrite bool_decide_false by done. by rewrite IH.
Qed.

Lemma digits_no_nul l : Digits l -> Forall (fun c => c <> Ascii.zero) l.
Proof.
  intros Hd. eapply Forall_impl; [exact Hd|]. intros c Hc ->. by vm_compute in Hc.
Qed.

Lemma number_no_nul l u v : NumberText l u v -> no_nul (String.string_of_list_ascii l).
Proof.
  intros HN. unfold no_nul. rewrite String.list_ascii_of_string_of_list_ascii.
  destruct HN as [sign D tail F Hs HD HF _ Ht]. apply Forall_app. split.
  { destruct Hs as [->|[->| ->]]; repeat constructor; discriminate. }
  apply Forall_app. split; [by apply digits_no_nul|].
  destruct Ht as [[-> _]|[->| ->]]; [by apply Forall_nil|..];
    (apply Forall_cons; split; [discriminate|by apply digits_no_nul]).
Qed.

(** A quotation that converts: its units are an int64 and no overflow occurs. *)
Definition Convertible (q : Quotation) : Prop :=
  InRange W64 (q_units q) /\ exists d, of_quotation q = Val d.

(** The text denotes the price. *)
Definition Shows (t : string) (q : Quotation) : Prop :=
  exists d, of_quotation q = Val d /\ Canonical d
    /\ (units_ d <> wmin W64 -> from_string t = Val (Some d)).

Lemma quotation_text_shows q :
  Convertible q -> exists t, quotation_text q = Val t /\ Shows t q.
Proof.
  intros [Hu (d & E)]. unfold quotation_text. rewrite E. cbn [mbind outcome_bind].
  assert (Hc : Canonical d).
  { unfold of_quotation, decimal in E.
    pose proof (normalize_spec (q_units q) (q_nano q) Hu) as Hn.
    rewrite E in Hn. apply Hn. }
  destruct (to_chars_number d Hc) as (l & El & HN). unfold to_string. rewrite El. cbn.
  rewrite (c_str_no_nul _ (number_no_nul _ _ _ HN)).
  eexists. split; [done|]. exists d. split_and!; try done.
  intros Hm. unfold from_string. rewrite String.list_ascii_of_string_of_list_ascii.
  by apply number_text_reads.
Qed.

Lemma quotation_text_converts q t :
  quotation_text q = Val t -> InRange W64 (q_units q) -> Convertible q.
Proof.
  unfold quotation_text. intros E Hu. split; [done|].
  destruct (of_quotation q) as [d|]; [by exists d|done].
Qed.

(** An amount that converts: the same for [MoneyValue]. *)
Definition AmountFits (m : MoneyValue) : Prop :=
  InRange W64 (m_units m) /\ exists d, of_money m = Val d.

(** The text is that of the amount, up to a NUL in the currency. *)
Definition ShowsAmount (t : string) (m : MoneyValue) : Prop :=
  exists d n, of_money m = Val d /\ Canonical d
    /\ (units_ d <> wmin W64 -> from_string n = Val (Some d))
    /\ t = n +:+ " " +:+ c_str (m_currency m).

Lemma c_str_app s1 s2 : no_nul s1 -> c_str (s1 +:+ s2) = s1 +:+ c_str s2.
Proof.
  unfold no_nul. induction s1 as [|c s1 IH]; [done|].
  intros [Hc Hs]%Forall_cons. change (String c s1 +:+ s2) with (String c (s1 +:+ s2)).
  cbn [c_str]. rewrite bool_decide_false by done. by rewrite IH.
Qed.

Lemma money_text_shows m :
  AmountFits m -> exists t, money_text m = Val t /\ ShowsAmount t m.
Proof.
  intros [Hu (d & E)]. unfold money_text, money_of_pb. unfold of_money in E. rewrite E.
  cbn [mbind outcome_bind mret outcome_ret].
  assert (Hc : Canonical d).
  { unfold decimal in E. pose proof (normalize_spec (m_units m) (m_nano m) Hu) as Hn.
    rewrite E in Hn. apply Hn. }
  destruct (to_chars_number d Hc) as (l & El & HN).
  unfold money_to_string, to_string. cbn [amount currency]. rewrite El. cbn.
  eexists. split; [done|]. exists d, (String.string_of_list_ascii l). split_and!; try done.
  - intros Hm. unfold from_string. rewrite String.list_ascii_of_string_of_list_ascii.
    by apply number_text_reads.
  - rewrite c_str_app by by eapply number_no_nul. by rewrite c_str_app by by repeat constructor.
Qed.

Lemma money_text_fits m t :
  money_text m = Val t -> InRange W64 (m_units m) -> AmountFits m.
Proof.
  unfold money_text, money_of_pb, of_money. intros E Hu. split; [done|]. unfold of_money.
  destruct (decimal (m_units m) (m_nano m)) as [d|]; [by exists d|done].
Qed.
