(* ===== verification/RateLimiter.v ===== *)
(** * The client-side rate limiter ([include/tinvest/rate_limiter.hpp])

    Methods are mapped to groups that several methods share, so groups live in
    a store and the method table holds locations, as the [shared_ptr]s of the
    code do; a thread blocked in [acquire] keeps its own location, which stays
    valid when the table is rebuilt.  Every public method runs under the mutex
    and is one atomic step here; [acquire] is split where it releases the
    mutex, at [wait_until].  Times are in the unit of the clock. *)

From S2P Require Import Prelude.
From stdpp Require Import base numbers list strings gmap.
From Stdlib Require Import ZArith Lia Ascii String.

#[local] Open Scope Z_scope.

(** ** Messages of contracts/users.proto *)

Record UnaryLimit := MkUnaryLimit {
  limit_per_minute : Z;
  methods : list string;
  limit_per_second : option Z;
}.

Record StreamLimit := MkStreamLimit {
  stream_limit : Z;
  streams : list string;
  stream_open : Z;
}.

Record GetUserTariffResponse := MkTariff {
  unary_limits : list UnaryLimit;
  stream_limits : list StreamLimit;
}.

(** ** State *)

Definition loc := nat.

Record Group := MkGroup { limit : Z; count : Z; window_start : Z }.

(** [window_start] is value-initialised: the epoch of the clock. *)
Definition new_group (n : Z) : Group := MkGroup n 0 0.

Record RateLimiter := MkRL {
  window_ : Z;
  by_method_ : gmap string loc;
  store : gmap loc Group;   (* the groups the shared_ptrs point to *)
  next : loc;               (* the next fresh location *)
}.

Definition rate_limiter (window : Z) : RateLimiter := MkRL window ∅ ∅ 0%nat.

Definition with_methods (rl : RateLimiter) (t : gmap string loc) : RateLimiter :=
  MkRL (window_ rl) t (store rl) (next rl).
Definition with_group (rl : RateLimiter) (l : loc) (g : Group) : RateLimiter :=
  MkRL (window_ rl) (by_method_ rl) (<[l := g]> (store rl)) (next rl).

(** [std::make_shared<Group>()] followed by setting its limit. *)
Definition alloc (rl : RateLimiter) (n : Z) : RateLimiter * loc :=
  (MkRL (window_ rl) (by_method_ rl) (<[next rl := new_group n]> (store rl))
        (S (next rl)),
   next rl).

(** ** Operations *)

Definition normalize_method (m : string) : string :=
  match m with
  | String c rest => if bool_decide (c = "/"%char) then rest else m
  | EmptyString => m
  end.

(** [for (m : methods) by_method_[normalize(m)] = group;] *)
Definition assign_methods (t : gmap string loc) (ms : list string) (l : loc)
    : gmap string loc :=
  fold_left (fun t m => <[normalize_method m := l]> t) ms t.

Definition configure_limit (rl : RateLimiter) (ul : UnaryLimit) : RateLimiter :=
  let '(rl', l) := alloc rl (limit_per_minute ul) in
  with_methods rl' (assign_methods (by_method_ rl') (methods ul) l).

Definition configure (rl : RateLimiter) (tariff : GetUserTariffResponse)
    : RateLimiter :=
  fold_left configure_limit (unary_limits tariff) (with_methods rl ∅).

Definition set_limit (rl : RateLimiter) (ms : list string) (per_minute : Z)
    : RateLimiter :=
  let '(rl', l) := alloc rl per_minute in
  with_methods rl' (assign_methods (by_method_ rl') ms l).

Definition enabled (rl : RateLimiter) : bool := bool_decide (by_method_ rl <> ∅).

Definition roll_window (window now : Z) (g : Group) : Group :=
  if window <=? now - window_start g then MkGroup (limit g) 0 now else g.

Definition deref (rl : RateLimiter) (l : loc) : outcome Group :=
  match store rl !! l with Some g => Val g | None => UB end.

(** The body of [try_acquire] once the group is known. *)
Definition try_group (rl : RateLimiter) (now : Z) (l : loc)
    : outcome (bool * RateLimiter) :=
  g ← deref rl l;
  if limit g <=? 0 then mret (true, rl)
  else
    let g := roll_window (window_ rl) now g in
    if count g <? limit g
    then c ← checked W32 (count g + 1);
         mret (true, with_group rl l (MkGroup (limit g) c (window_start g)))
    else mret (false, with_group rl l g).

Definition try_acquire (rl : RateLimiter) (now : Z) (method : string)
    : outcome (bool * RateLimiter) :=
  match by_method_ rl !! method with
  | None => mret (true, rl)
  | Some l => try_group rl now l
  end.

(** [acquire] up to the loop: the group to wait on, if any. *)
Definition acquire_enter (rl : RateLimiter) (method : string) : option loc :=
  by_method_ rl !! method.

(** One iteration of its loop: either it returns, or it waits until the given
    time with the mutex released. *)
Inductive acquired := Returns | WaitUntil (t : Z).

Definition acquire_poll (rl : RateLimiter) (now : Z) (l : loc)
    : outcome (acquired * RateLimiter) :=
  g ← deref rl l;
  if limit g <=? 0 then mret (Returns, rl)
  else
    let g := roll_window (window_ rl) now g in
    if count g <? limit g
    then c ← checked W32 (count g + 1);
         mret (Returns, with_group rl l (MkGroup (limit g) c (window_start g)))
    else mret (WaitUntil (window_start g + window_ rl), with_group rl l g).

(** The whole blocking call of a thread that is alone, [wake] giving the time
    at which [wait_until] returns.  Two iterations are enough when it does not
    return before the deadline. *)
Fixpoint acquire_loop (fuel : nat) (wake : Z -> Z -> Z) (rl : RateLimiter)
    (now : Z) (l : loc) : outcome (option (Z * RateLimiter)) :=
  match fuel with
  | O => mret None
  | S f =>
      '(r, rl') ← acquire_poll rl now l;
      match r with
      | Returns => mret (Some (now, rl'))
      | WaitUntil t => acquire_loop f wake rl' (wake now t) l
      end
  end.

Definition acquire (fuel : nat) (wake : Z -> Z -> Z) (rl : RateLimiter) (now : Z)
    (method : string) : outcome (option (Z * RateLimiter)) :=
  match acquire_enter rl method with
  | None => mret (Some (now, rl))
  | Some l => acquire_loop fuel wake rl now l
  end.

(** ** Interleaved executions

    A call is one critical section of some thread; threads are numbered.  The
    log records the slots granted to each group, newest first. *)
Inductive call :=
  | Configure (tariff : GetUserTariffResponse)
  | SetLimit (ms : list string) (per_minute : Z)
  | TryAcquire (method : string)
  | AcquireEnter (thread : nat) (method : string)
  | AcquirePoll (thread : nat).

Record system := MkSystem {
  rl : RateLimiter;
  waiting : gmap nat loc;         (* threads inside acquire *)
  grants : list (loc * Z);        (* group and time of every slot taken *)
}.

Definition system_init (window : Z) : system := MkSystem (rate_limiter window) ∅ [].

(** Taking a slot: the group must be limited, otherwise nothing is counted. *)
Definition log_grant (s : system) (rl' : RateLimiter) (l : loc) (now : Z)
    (taken : bool) : list (loc * Z) :=
  match store rl' !! l with
  | Some g => if taken && (0 <? limit g) then (l, now) :: grants s else grants s
  | None => grants s
  end.

Definition call_step (s : system) (now : Z) (c : call) : outcome system :=
  match c with
  | Configure t => mret (MkSystem (configure (rl s) t) (waiting s) (grants s))
  | SetLimit ms n => mret (MkSystem (set_limit (rl s) ms n) (waiting s) (grants s))
  | TryAcquire m =>
      '(ok, rl') ← try_acquire (rl s) now m;
      mret (MkSystem rl' (waiting s)
              (match by_method_ (rl s) !! m with
               | Some l => log_grant s rl' l now ok
               | None => grants s
               end))
  | AcquireEnter th m =>
      match acquire_enter (rl s) m with
      | None => mret s
      | Some l => mret (MkSystem (rl s) (<[th := l]> (waiting s)) (grants s))
      end
  | AcquirePoll th =>
      match waiting s !! th with
      | None => mret s
      | Some l =>
          '(r, rl') ← acquire_poll (rl s) now l;
          mret (match r with
                | Returns => MkSystem rl' (delete th (waiting s))
                               (log_grant s rl' l now true)
                | WaitUntil _ => MkSystem rl' (waiting s) (grants s)
                end)
      end
  end.

Fixpoint run (s : system) (trace : list (Z * call)) : outcome system :=
  match trace with
  | [] => mret s
  | (now, c) :: rest => s' ← call_step s now c; run s' rest
  end.

(** ** Specification *)

(** Slots taken from group [l] at times in [[a, b)]. *)
Definition granted (log : list (loc * Z)) (l : loc) (a b : Z) : Z :=
  Z.of_nat (Datatypes.length (filter (fun e => e.1 = l /\ a <= e.2 < b) log)).

Fixpoint monotone (t : Z) (trace : list (Z * call)) : Prop :=
  match trace with
  | [] => True
  | (now, _) :: rest => t <= now /\ monotone now rest
  end.

(** Limits are int32 fields. *)
Definition call_typed (c : call) : Prop :=
  match c with
  | Configure t => Forall (fun ul => InRange W32 (limit_per_minute ul)) (unary_limits t)
  | SetLimit _ n => InRange W32 n
  | _ => True
  end.

(** The last unary limit of a tariff that lists a method, counted from [i]. *)
Fixpoint last_listing (i : nat) (uls : list UnaryLimit) (m : string) : option nat :=
  match uls with
  | [] => None
  | ul :: rest =>
      match last_listing (S i) rest m with
      | Some j => Some j
      | None => if decide (m ∈ normalize_method <$> methods ul) then Some i else None
      end
  end.

(** The values of tests/rate_limiter_test.cpp. *)
Example test_shared_window :
  let rl := set_limit (rate_limiter 200) ["svc/A"; "/svc/B"] 2 in
  (r1 ← try_acquire rl 1000 "svc/A";
   r2 ← try_acquire r1.2 1001 "svc/B";
   r3 ← try_acquire r2.2 1002 "svc/A";
   r4 ← try_acquire r3.2 1200 "svc/A";
   mret (r1.1, r2.1, r3.1, r4.1)) = Val (true, true, false, true).
Proof. vm_compute. reflexivity. Qed.

(** ** Counting slots *)

Lemma granted_cons log l l' t a b :
  granted ((l', t) :: log) l a b
  = granted log l a b + (if decide (l' = l /\ a <= t < b) then 1 else 0).
Proof.
  unfold granted. rewrite filter_cons. cbn.
  repeat case_decide; cbn [Datatypes.length]; lia.
Qed.

(** Only the logged times count when comparing two intervals. *)
Lemma granted_le log l a b a' b' :
  (forall t, (l, t) ∈ log -> a <= t < b -> a' <= t < b') ->
  granted log l a b <= granted log l a' b'.
Proof.
  induction log as [|[l' t] log IH]; intros H; [done|].
  rewrite !granted_cons. specialize (IH ltac:(set_solver)).
  specialize (H t). repeat case_decide; try lia.
  destruct_and!; subst. exfalso. set_solver by lia.
Qed.

Lemma granted_split log l a b c :
  a <= b <= c -> granted log l a c = granted log l a b + granted log l b c.
Proof.
  intros H. induction log as [|[l' t] log IH]; [done|].
  rewrite !granted_cons, IH. repeat case_decide; destruct_and?; subst; lia.
Qed.

Lemma granted_none log l a b :
  (forall t, (l, t) ∈ log -> a <= t < b -> False) -> granted log l a b = 0.
Proof.
  intros H. assert (granted log l a b <= granted log l 0 0).
  { apply granted_le. intros t Ht Hi. by destruct (H t Ht Hi). }
  assert (granted log l 0 0 = 0) as E.
  { clear. induction log as [|[l' t] log IH]; [done|].
    rewrite granted_cons, IH. case_decide; lia. }
  unfold granted in *. lia.
Qed.

(** ** The invariant *)

(** A limited group: its counter is the number of slots taken in the current
    window, none was taken later, at most [limit] in the window's length
    before it, and at most twice [limit] in any interval of that length. *)
Record GroupOk (W clock : Z) (log : list (loc * Z)) (l : loc) (g : Group) : Prop := {
  ok_limit : InRange W32 (limit g);
  ok_count : 0 <= count g;
  ok_bound : 0 < limit g -> count g <= limit g;
  ok_start : window_start g <= clock;
  ok_past : forall t, (l, t) ∈ log -> t < window_start g + W;
  ok_current : 0 < limit g ->
    granted log l (window_start g) (window_start g + W) = count g;
  ok_previous : 0 < limit g ->
    granted log l (window_start g - W) (window_start g) <= limit g;
  ok_any : 0 < limit g -> forall t, granted log l t (t + W) <= 2 * limit g;
}.

Record SystemOk (clock : Z) (s : system) : Prop := {
  ok_window : 0 < window_ (rl s);
  ok_clock : 0 <= clock;
  ok_groups : forall l g, store (rl s) !! l = Some g ->
    GroupOk (window_ (rl s)) clock (grants s) l g;
  ok_fresh : forall l, is_Some (store (rl s) !! l) -> (l < next (rl s))%nat;
  ok_methods : forall m l, by_method_ (rl s) !! m = Some l ->
    is_Some (store (rl s) !! l);
  ok_waiting : forall th l, waiting s !! th = Some l -> is_Some (store (rl s) !! l);
  ok_log : forall l t, (l, t) ∈ grants s -> (l < next (rl s))%nat;
}.

Lemma group_later W clock clock' log l g :
  clock <= clock' -> GroupOk W clock log l g -> GroupOk W clock' log l g.
Proof. intros H []. constructor; try done. lia. Qed.

Lemma system_later clock clock' s :
  clock <= clock' -> SystemOk clock s -> SystemOk clock' s.
Proof.
  intros H []. constructor; try done; [lia|]. eauto using group_later.
Qed.

Lemma new_group_ok W clock log l n :
  0 < W -> 0 <= clock -> InRange W32 n -> (forall t, (l, t) ∉ log) ->
  GroupOk W clock log l (new_group n).
Proof.
  intros HW Hc Hn Hl.
  assert (E : forall a b, granted log l a b = 0)
    by (intros; apply granted_none; intros t Ht; by destruct (Hl t)).
  constructor; cbn; intros; rewrite ?E; try done; try lia. by destruct (Hl t).
Qed.

Lemma roll_window_ok W clock log l g :
  0 < W -> GroupOk W clock log l g -> GroupOk W clock log l (roll_window W clock g)
    /\ clock < window_start (roll_window W clock g) + W
    /\ limit (roll_window W clock g) = limit g.
Proof.
  intros HW H. unfold roll_window. case_match; [|split; [done|lia]].
  destruct H as [Hlim Hc Hb Hs Hp Hcur Hprev Hany]. split; [|cbn; lia].
  constructor; cbn; try done; try lia.
  - intros t Ht. specialize (Hp t Ht). lia.
  - intros _. apply granted_none. intros t Ht ?. specialize (Hp t Ht). lia.
  - intros Hl. specialize (Hb Hl). rewrite <- (Hcur Hl) in Hb.
    etrans; [|exact Hb]. apply granted_le. intros t Ht ?. specialize (Hp t Ht). lia.
Qed.

(** Taking one more slot of a window that has one. *)
Lemma take_slot_ok W clock log l g :
  0 < W -> 0 < limit g -> GroupOk W clock log l g ->
  clock < window_start g + W -> count g < limit g ->
  GroupOk W clock ((l, clock) :: log) l
    (MkGroup (limit g) (count g + 1) (window_start g)).
Proof.
  intros HW Hl [Hlim Hc Hb Hs Hp Hcur Hprev Hany] Hnow Hlt.
  constructor; cbn; intros; try done; try lia.
  - apply elem_of_cons in H as [[= ->]|H]; [done|]. by apply Hp.
  - rewrite granted_cons, Hcur by done. case_decide; lia.
  - rewrite granted_cons. specialize (Hprev Hl). case_decide; lia.
  - rewrite granted_cons. specialize (Hany Hl t). case_decide as Hin; [|lia].
    specialize (Hprev Hl). specialize (Hcur Hl).
    destruct (Z_le_gt_dec t (window_start g)).
    + rewrite (granted_split log l t (window_start g) (t + W)) by lia.
      assert (granted log l t (window_start g)
              <= granted log l (window_start g - W) (window_start g))
        by (apply granted_le; intros; lia).
      assert (granted log l (window_start g) (t + W)
              <= granted log l (window_start g) (window_start g + W))
        by (apply granted_le; intros; lia). lia.
    + assert (granted log l t (t + W)
              <= granted log l (window_start g) (window_start g + W)).
      { apply granted_le. intros t' Ht' ?. specialize (Hp t' Ht'). lia. } lia.
Qed.

(** Slots of another group do not matter. *)
Lemma other_group_ok W clock log l l' t g :
  l <> l' -> GroupOk W clock log l g -> GroupOk W clock ((l', t) :: log) l g.
Proof.
  intros Hne [Hlim Hc Hb Hs Hp Hcur Hprev Hany].
  assert (E : forall a b, granted ((l', t) :: log) l a b = granted log l a b).
  { intros. rewrite granted_cons. case_decide; [naive_solver|lia]. }
  constructor; intros; rewrite ?E; auto.
  apply elem_of_cons in H as [[= -> ->]|H]; [done|]. by apply Hp.
Qed.

(** ** Steps preserve the invariant *)

Lemma assign_methods_lookup t ms l m :
  assign_methods t ms l !! m
  = if decide (m ∈ normalize_method <$> ms) then Some l else t !! m.
Proof.
  unfold assign_methods. revert t. induction ms as [|m' ms IH]; intros t; cbn.
  - case_decide; [set_solver|done].
  - rewrite IH. destruct (decide (m = normalize_method m')) as [->|Hne].
    + rewrite lookup_insert_eq. repeat case_decide; set_solver.
    + rewrite lookup_insert_ne by done. repeat case_decide; set_solver.
Qed.

Lemma configure_limit_ok clock r w log ul :
  InRange W32 (limit_per_minute ul) ->
  SystemOk clock (MkSystem r w log) ->
  SystemOk clock (MkSystem (configure_limit r ul) w log).
Proof.
  intros Hul [HW Hc Hg Hf Hm Hw Hl]; cbn in *.
  constructor; cbn; try done.
  - intros l g. destruct (decide (l = next r)) as [->|Hne].
    + rewrite lookup_insert_eq. intros [= <-]. apply new_group_ok; try done.
      intros t Ht. specialize (Hl _ _ Ht). lia.
    + rewrite lookup_insert_ne by done. apply Hg.
  - intros l. destruct (decide (l = next r)) as [->|Hne]; [lia|].
    rewrite lookup_insert_ne by done. intros H%Hf. lia.
  - intros m l. rewrite assign_methods_lookup. case_decide.
    + intros [= <-]. by rewrite lookup_insert_eq.
    + intros [g E]%Hm. destruct (decide (l = next r)) as [->|Hne];
        [by rewrite lookup_insert_eq|]. by rewrite lookup_insert_ne.
  - intros th l [g E]%Hw. destruct (decide (l = next r)) as [->|Hne];
      [by rewrite lookup_insert_eq|]. by rewrite lookup_insert_ne.
  - intros l t H%Hl. lia.
Qed.

Lemma configure_ok clock s t :
  call_typed (Configure t) -> SystemOk clock s ->
  SystemOk clock (MkSystem (configure (rl s) t) (waiting s) (grants s)).
Proof.
  intros Ht Hs. unfold configure.
  assert (H0 : SystemOk clock (MkSystem (with_methods (rl s) ∅) (waiting s) (grants s))).
  { destruct Hs. constructor; cbn; try done. }
  clear Hs. revert H0. generalize (with_methods (rl s) ∅). cbn in Ht.
  induction Ht as [|ul uls Hul Ht IH]; intros r Hr; cbn; [done|].
  by apply IH, configure_limit_ok.
Qed.

(** [acquire] returns in its first iteration exactly when [try_acquire] would
    succeed, with the same effect on the limiter. *)
Lemma try_group_poll r now l :
  try_group r now l
  = '(a, r') ← acquire_poll r now l;
    mret (match a with Returns => true | WaitUntil _ => false end, r').
Proof.
  unfold try_group, acquire_poll. destruct (deref r l) as [g|]; [|done].
  cbn. split_ifs; try done. by destruct (checked _ _).
Qed.

Lemma insert_group_ok clock s l g log' :
  is_Some (store (rl s) !! l) ->
  SystemOk clock s ->
  GroupOk (window_ (rl s)) clock log' l g ->
  (forall l' g', l' <> l -> GroupOk (window_ (rl s)) clock (grants s) l' g' ->
    GroupOk (window_ (rl s)) clock log' l' g') ->
  (forall l' t, (l', t) ∈ log' -> (l', t) ∈ grants s \/ l' = l) ->
  SystemOk clock (MkSystem (with_group (rl s) l g) (waiting s) log').
Proof.
  intros Hl [HW Hc Hg Hf Hm Hw Hlog] Hnew Hother Hin.
  assert (Hdom : forall l', is_Some (<[l:=g]> (store (rl s)) !! l')
                            <-> is_Some (store (rl s) !! l')).
  { intros l'. destruct (decide (l' = l)) as [->|Hne].
    - rewrite lookup_insert_eq. naive_solver.
    - by rewrite lookup_insert_ne. }
  constructor; cbn; try done.
  - intros l' g'. destruct (decide (l' = l)) as [->|Hne].
    + rewrite lookup_insert_eq. by intros [= <-].
    + rewrite lookup_insert_ne by done. auto.
  - intros l' H. by apply Hf, Hdom.
  - intros m l' H. apply Hdom. eauto.
  - intros th l' H. apply Hdom. eauto.
  - intros l' t H. apply Hin in H as [H| ->]; eauto.
Qed.

Lemma poll_ok clock s l :
  SystemOk clock s -> is_Some (store (rl s) !! l) ->
  exists a r', acquire_poll (rl s) clock l = Val (a, r')
    /\ SystemOk clock (MkSystem r' (waiting s)
         (match a with Returns => log_grant s r' l clock true
                     | WaitUntil _ => grants s end)).
Proof.
  intros Hs [g Hg]. pose proof (ok_groups _ _ Hs l g Hg) as Hgo.
  pose proof (ok_window _ _ Hs) as HW.
  unfold acquire_poll, deref. rewrite Hg. cbn.
  destruct (limit g <=? 0) eqn:E0.
  { eexists _, _. split; [done|]. unfold log_grant. rewrite Hg.
    replace (0 <? limit g) with false by lia. by destruct s. }
  destruct (roll_window_ok _ _ _ _ _ HW Hgo) as (Hro & Hnow & Hlim).
  set (g' := roll_window _ _ g) in *.
  assert (Hlp : 0 < limit g') by lia.
  destruct (count g' <? limit g') eqn:E1.
  - pose proof (ok_count _ _ _ _ _ Hro). pose proof (ok_limit _ _ _ _ _ Hro) as Hr.
    rewrite checked_in by range. cbn. eexists _, _. split; [done|].
    unfold log_grant. cbn. rewrite lookup_insert_eq. cbn.
    replace (0 <? limit g') with true by lia.
    apply insert_group_ok; [by eexists|done| | |].
    + apply take_slot_ok; try done. lia.
    + intros. by apply other_group_ok.
    + intros l' t [[= -> ->]|?]%elem_of_cons; auto.
  - eexists _, _. split; [done|].
    apply insert_group_ok; auto.
Qed.

Lemma call_step_ok clock s c :
  call_typed c -> SystemOk clock s ->
  exists s', call_step s clock c = Val s' /\ SystemOk clock s'.
Proof.
  intros Hc Hs. destruct c as [t|ms n|m|th m|th]; cbn.
  - eexists. split; [done|]. by apply configure_ok.
  - eexists. split; [done|]. destruct s as [r w log].
    by apply (configure_limit_ok clock r w log (MkUnaryLimit n ms None)).
  - unfold try_acquire. destruct (by_method_ (rl s) !! m) as [l|] eqn:Hm; cbn.
    + destruct (poll_ok clock s l Hs (ok_methods _ _ Hs _ _ Hm)) as (a & r' & E & Hok).
      rewrite try_group_poll, E. cbn. eexists. split; [done|].
      destruct a; [done|]. unfold log_grant. cbn. by case_match.
    + eexists. split; [done|by destruct s].
  - unfold acquire_enter. destruct (by_method_ (rl s) !! m) as [l|] eqn:Hm; [|by eexists].
    eexists. split; [done|]. pose proof (ok_methods _ _ Hs _ _ Hm).
    destruct Hs. constructor; cbn; try done.
    intros th' l'. destruct (decide (th' = th)) as [->|].
    + rewrite lookup_insert_eq. by intros [= <-].
    + rewrite lookup_insert_ne by done. eauto.
  - destruct (waiting s !! th) as [l|] eqn:Hw; [|by eexists].
    destruct (poll_ok clock s l Hs (ok_waiting _ _ Hs _ _ Hw)) as (a & r' & E & Hok).
    rewrite E. cbn. eexists. split; [done|]. destruct a; [|done].
    destruct Hok. constructor; cbn in *; try done.
    intros th' l' [? H]%lookup_delete_Some. eauto.
Qed.

(** The time of the last event. *)
Fixpoint final_time (t : Z) (trace : list (Z * call)) : Z :=
  match trace with [] => t | (now, _) :: rest => final_time now rest end.

Lemma limiter_run_ok t0 s trace :
  SystemOk t0 s -> monotone t0 trace -> Forall (fun e => call_typed e.2) trace ->
  exists s', run s trace = Val s' /\ SystemOk (final_time t0 trace) s'.
Proof.
  revert t0 s. induction trace as [|[now c] trace IH]; intros t0 s Hs Hm Ht.
  - by exists s.
  - destruct Hm as [Hle Hm]. inversion Ht as [|? ? Hc Ht']; subst. cbn in *.
    destruct (call_step_ok now s c Hc (system_later _ _ _ Hle Hs)) as (s' & E & Hs').
    rewrite E. cbn. eauto.
Qed.

Lemma monotone_app t0 tr1 tr2 :
  monotone t0 (tr1 ++ tr2) -> monotone t0 tr1 /\ monotone (final_time t0 tr1) tr2.
Proof.
  revert t0. induction tr1 as [|[t c'] tr1 IH]; intros t0; cbn; [done|].
  intros [? H%IH]. naive_solver.
Qed.

Lemma monotone_snoc t0 trace now c :
  monotone t0 (trace ++ [(now, c)]) -> monotone t0 trace /\ final_time t0 trace <= now.
Proof. intros [? [? _]]%monotone_app. done. Qed.

Lemma system_init_ok window : 0 < window -> SystemOk 0 (system_init window).
Proof.
  intros HW. constructor; cbn; try done; try lia.
  - intros l [g E]. done.
  - intros l t H. by apply elem_of_nil in H.
Qed.

(** ** The method table *)

Lemma configure_limits_spec uls r :
  next (fold_left configure_limit uls r) = (next r + Datatypes.length uls)%nat
  /\ (forall l, (l < next r)%nat ->
       store (fold_left configure_limit uls r) !! l = store r !! l)
  /\ (forall i ul, uls !! i = Some ul ->
       store (fold_left configure_limit uls r) !! (next r + i)%nat
       = Some (new_group (limit_per_minute ul)))
  /\ (forall m, by_method_ (fold_left configure_limit uls r) !! m
       = match last_listing (next r) uls m with
         | Some l => Some l | None => by_method_ r !! m end).
Proof.
  revert r. induction uls as [|ul uls IH]; intros r; cbn [fold_left].
  { split_and!; [cbn; lia|done|done|done]. }
  destruct (IH (configure_limit r ul)) as (Hn & Hold & Hnew & Hm). clear IH.
  change (next (configure_limit r ul)) with (S (next r)) in *.
  split_and!.
  - rewrite Hn. cbn. lia.
  - intros l Hl. rewrite Hold by lia. cbn. by rewrite lookup_insert_ne by lia.
  - intros [|i] ul'; cbn [lookup list_lookup].
    + intros [= <-]. rewrite Nat.add_0_r, Hold by lia. cbn. by rewrite lookup_insert_eq.
    + intros Hi. rewrite Nat.add_succ_r. exact (Hnew i ul' Hi).
  - intros m. rewrite Hm. cbn [last_listing].
    destruct (last_listing (S (next r)) uls m); [done|].
    cbn. rewrite assign_methods_lookup. by case_decide.
Qed.

Lemma configure_window r t : window_ (configure r t) = window_ r.
Proof.
  unfold configure. change (window_ r) with (window_ (with_methods r ∅)).
  generalize (with_methods r ∅). induction (unary_limits t) as [|ul uls IH]; intros r0;
    cbn [fold_left]; [done|]. by rewrite IH.
Qed.

(** Taking a slot changes neither the method table nor the window. *)
Definition same_table (r r' : RateLimiter) : Prop :=
  by_method_ r' = by_method_ r /\ window_ r' = window_ r.

Lemma poll_table r now l a r' : acquire_poll r now l = Val (a, r') -> same_table r r'.
Proof.
  unfold acquire_poll. destruct (deref r l) as [g|]; [|done]. cbn [mbind outcome_bind].
  destruct (limit g <=? 0); [by intros [= <- <-]|].
  destruct (count _ <? _); [|by intros [= <- <-]].
  destruct (checked _ _); [|done]. by intros [= <- <-].
Qed.

Lemma acquire_loop_table fuel wake r now l t r' :
  acquire_loop fuel wake r now l = Val (Some (t, r')) -> same_table r r'.
Proof.
  revert r now. induction fuel as [|f IH]; intros r now; cbn [acquire_loop]; [done|].
  destruct (acquire_poll r now l) as [[[|d] r1]|] eqn:E; [| |done]; cbn [mbind outcome_bind];
    apply poll_table in E as [E1 E2]; [by intros [= <- <-]|].
  intros [H1 H2]%IH. split; congruence.
Qed.

Lemma acquire_table fuel wake r now m t r' :
  acquire fuel wake r now m = Val (Some (t, r')) -> same_table r r'.
Proof.
  unfold acquire. destruct (acquire_enter r m); [apply acquire_loop_table|].
  by intros [= <- <-].
Qed.

Lemma try_table r now m b r' : try_acquire r now m = Val (b, r') -> same_table r r'.
Proof.
  unfold try_acquire. destruct (by_method_ r !! m) as [l|]; [|by intros [= <- <-]].
  unfold try_group. destruct (deref r l) as [g|]; [|done]. cbn [mbind outcome_bind].
  destruct (limit g <=? 0); [by intros [= <- <-]|].
  destruct (count _ <? _); [|by intros [= <- <-]].
  destruct (checked _ _); [|done]. by intros [= <- <-].
Qed.

(** ** Waiting *)

Lemma poll_expired r now l g :
  store r !! l = Some g -> InRange W32 (limit g) ->
  window_ r <= now - window_start g ->
  exists r', acquire_poll r now l = Val (Returns, r').
Proof.
  intros Hg Hr Hw. unfold acquire_poll, deref. rewrite Hg. cbn.
  destruct (limit g <=? 0) eqn:E; [by eexists|].
  unfold roll_window. replace (window_ r <=? now - window_start g) with true by lia.
  cbn. replace (0 <? limit g) with true by lia. by eexists.
Qed.

Lemma poll_waits clock s l t r' :
  SystemOk clock s -> acquire_poll (rl s) clock l = Val (WaitUntil t, r') ->
  clock < t <= clock + window_ (rl s) /\ window_ r' = window_ (rl s)
  /\ exists g, store r' !! l = Some g /\ t = window_start g + window_ r'
              /\ InRange W32 (limit g).
Proof.
  intros Hs. unfold acquire_poll, deref.
  destruct (store (rl s) !! l) as [g|] eqn:Hg; [|done]. cbn.
  destruct (roll_window_ok _ _ _ _ _ (ok_window _ _ Hs) (ok_groups _ _ Hs l g Hg))
    as (Hro & Hnow & Hlim).
  destruct (limit g <=? 0); [done|].
  destruct (count _ <? limit _); [by destruct (checked _ _)|]. cbn.
  intros [= <- <-]. cbn. pose proof (ok_start _ _ _ _ _ Hro).
  split; [lia|]. split; [done|]. rewrite lookup_insert_eq.
  eexists. split_and!; [done|done|apply (ok_limit _ _ _ _ _ Hro)].
Qed.

(** A whole blocking call by a lone thread: it ends in a good state. *)
Lemma acquire_ok wake now s m :
  SystemOk now s -> (forall t deadline, deadline <= wake t deadline) ->
  exists t r', acquire 2 wake (rl s) now m = Val (Some (t, r'))
    /\ (t = now \/ exists d, now < d <= now + window_ (rl s) /\ t = wake now d)
    /\ exists s', rl s' = r' /\ SystemOk t s'.
Proof.
  intros Hs Hwake. unfold acquire, acquire_enter.
  destruct (by_method_ (rl s) !! m) as [l|] eqn:Hl;
    [|eexists _, _; split_and!; [done|by left|by eexists]].
  cbn [acquire_loop].
  destruct (poll_ok now s l Hs (ok_methods _ _ Hs _ _ Hl)) as ([|d] & r1 & E1 & Hs1);
    rewrite E1; cbn [mbind outcome_bind];
    [eexists _, _; split_and!; [done|by left|by eexists (MkSystem _ _ _)]|].
  destruct (poll_waits now s l d r1 Hs E1) as (Hd & HW' & g & Hg & Hd' & Hlim).
  pose proof (Hwake now d).
  apply (system_later _ (wake now d)) in Hs1; [|lia].
  destruct (poll_ok (wake now d) _ l Hs1 ltac:(by eexists)) as (a & r2 & E2 & Hs2).
  destruct (poll_expired r1 (wake now d) l g Hg Hlim) as (r2' & E2'); [lia|].
  cbn in E2. rewrite E2' in E2. injection E2 as <- <-.
  rewrite E2'. cbn [mbind outcome_bind]. eexists _, _. split_and!; [done| |by eexists (MkSystem _ _ _)].
  right. by exists d.
Qed.

(** ** Properties *)

(** C7.  Whatever threads do — reconfigure the limiter, poll it, or block in
    acquire and wake up in any order, at non-decreasing clock times — no call
    has undefined behaviour, and every limited group keeps its promise: the
    slots taken in its current window are exactly its counter and at most its
    limit, and no interval of one window's length ever holds more than twice
    the limit. *)
Theorem rate_limit_respected (window : Z) (trace : list (Z * call)) :
  0 < window -> monotone 0 trace -> Forall (fun e => call_typed e.2) trace ->
  exists s, run (system_init window) trace = Val s
    /\ forall l g, store (rl s) !! l = Some g -> 0 < limit g ->
         granted (grants s) l (window_start g) (window_start g + window_ (rl s)) = count g
         /\ count g <= limit g
         /\ forall t, granted (grants s) l t (t + window_ (rl s)) <= 2 * limit g.
Proof.
  intros HW Hm Ht.
  destruct (limiter_run_ok 0 _ trace (system_init_ok window HW) Hm Ht) as (s & E & Hs).
  exists s. split; [done|]. intros l g Hg Hl. destruct (ok_groups _ _ Hs l g Hg).
  split_and!; auto.
Qed.

Lemma rate_limit_respected_witness :
  exists s, run (system_init 200)
      [(1000, SetLimit ["svc/A"; "svc/B"] 1); (1000, TryAcquire "svc/A");
       (1100, AcquireEnter 0 "svc/B"); (1100, AcquirePoll 0); (1200, AcquirePoll 0)]
    = Val s
    /\ forall l g, store (rl s) !! l = Some g -> 0 < limit g ->
         granted (grants s) l (window_start g) (window_start g + window_ (rl s)) = count g
         /\ count g <= limit g
         /\ forall t, granted (grants s) l t (t + window_ (rl s)) <= 2 * limit g.
Proof.
  apply rate_limit_respected; [done|cbn; lia|].
  repeat constructor; cbn; by range_unfold.
Defined.

(** [try_acquire] and [acquire] agree: a non-blocking call succeeds
    exactly when a blocking one would return without waiting, with the same
    effect on the limiter, and methods without a configured limit always pass
    without any effect. *)
Theorem try_acquire_agrees (r : RateLimiter) (now : Z) (m : string) :
  try_acquire r now m
  = match acquire_enter r m with
    | None => Val (true, r)
    | Some l =>
        '(a, r') ← acquire_poll r now l;
        mret (match a with Returns => true | WaitUntil _ => false end, r')
    end.
Proof.
  unfold try_acquire, acquire_enter. destruct (by_method_ r !! m); [|done].
  apply try_group_poll.
Qed.

Lemma try_acquire_now fuel wake r now m r' :
  try_acquire r now m = Val (true, r') -> acquire (S fuel) wake r now m = Val (Some (now, r')).
Proof.
  unfold acquire, try_acquire, acquire_enter. destruct (by_method_ r !! m) as [l|];
    [|by intros [= <-]].
  rewrite try_group_poll. cbn [acquire_loop].
  destruct (acquire_poll r now l) as [[[|d] r1]|]; cbn; [by intros [= <-]|done..].
Qed.

(** [configure] replaces the whole method table: a method is limited
    exactly when some unary limit of the tariff lists it, with or without a
    leading slash; the last such limit wins; its group starts unused, and two
    methods share a group exactly when the same limit entry wins for both.
    Groups that blocked threads still hold are left as they were. *)
Theorem configure_table (r : RateLimiter) (t : GetUserTariffResponse) :
  (forall m, by_method_ (configure r t) !! m
     = last_listing (next r) (unary_limits t) m)
  /\ (forall i ul, unary_limits t !! i = Some ul ->
        store (configure r t) !! (next r + i)%nat
        = Some (new_group (limit_per_minute ul)))
  /\ (forall l, (l < next r)%nat -> store (configure r t) !! l = store r !! l).
Proof.
  unfold configure.
  destruct (configure_limits_spec (unary_limits t) (with_methods r ∅))
    as (_ & Hold & Hnew & Hm).
  split_and!; [|exact Hnew|exact Hold].
  intros m. rewrite Hm. cbn. rewrite lookup_empty. by case_match.
Qed.

(** A thread alone in [acquire] always gets its slot: it returns at once
    or after a single wait that ends within one window, provided
    [wait_until] does not return before its deadline. *)
Theorem acquire_returns (window now : Z) (trace : list (Z * call)) s
    (wake : Z -> Z -> Z) (m : string) :
  0 < window -> monotone 0 (trace ++ [(now, TryAcquire m)]) ->
  Forall (fun e => call_typed e.2) trace ->
  run (system_init window) trace = Val s ->
  (forall t deadline, deadline <= wake t deadline) ->
  exists t r', acquire 2 wake (rl s) now m = Val (Some (t, r'))
    /\ (t = now \/ exists d, now < d <= now + window_ (rl s) /\ t = wake now d).
Proof.
  intros HW Hm Ht Hrun Hwake. destruct (monotone_snoc _ _ _ _ Hm) as [Hm' Hle].
  destruct (limiter_run_ok 0 _ trace (system_init_ok window HW) Hm' Ht) as (s' & E & Hs).
  rewrite Hrun in E. injection E as <-. apply (system_later _ now) in Hs; [|done].
  destruct (acquire_ok wake now s m Hs Hwake) as (t & r' & ? & ? & _). by eexists _, _.
Qed.

Lemma acquire_returns_witness :
  let s := MkSystem (MkRL 200 {["svc/A" := 0%nat]} {[0%nat := MkGroup 1 1 1000]} 1%nat)
             ∅ [(0%nat, 1000)] in
  run (system_init 200) [(1000, SetLimit ["svc/A"] 1); (1000, TryAcquire "svc/A")] = Val s
  /\ exists t r', acquire 2 (fun _ d => d) (rl s) 1100 "svc/A" = Val (Some (t, r'))
    /\ (t = 1100 \/ exists d, 1100 < d <= 1100 + window_ (rl s) /\ t = d).
Proof.
  assert (E : run (system_init 200)
    [(1000, SetLimit ["svc/A"] 1); (1000, TryAcquire "svc/A")]
    = Val (MkSystem (MkRL 200 {["svc/A" := 0%nat]} {[0%nat := MkGroup 1 1 1000]} 1%nat)
             ∅ [(0%nat, 1000)])) by (vm_compute; reflexivity).
  split; [exact E|].
  refine (acquire_returns 200 1100 _ _ (fun _ d => d) "svc/A" _ _ _ E _).
  - done.
  - cbn; lia.
  - repeat constructor; cbn; by range_unfold.
  - intros; lia.
Defined.
