(* ===== verification/LimiterSpec.v ===== *)
(** * What a rate-limit group promises, without its state

    The limiter of [RateLimiter.v] keeps a counter and the start of a window per
    group, behind pointers that the method table and the blocked threads share.
    The specification here has neither: the requests made to one group are cut into
    windows by their times alone, and a request is granted when fewer requests than
    the limit came before it in its window.  The theorem is that each group behaves
    so in every interleaving, whatever happens to the other groups and to the table. *)

From S2P Require Import Prelude RateLimiter.
From stdpp Require Import base numbers list strings gmap.
From Stdlib Require Import ZArith Lia.

#[local] Open Scope Z_scope.

(** ** The specification *)

(** The start of the window of each request: a window opens at the first request
    that comes at least [W] after the start of the previous one. *)
Fixpoint window_starts (W start : Z) (times : list Z) : list Z :=
  match times with
  | [] => []
  | t :: rest =>
      let start' := if W <=? t - start then t else start in
      start' :: window_starts W start' rest
  end.

(** A request is granted when fewer than [n] of those before it are in its window. *)
Fixpoint first_of_window (n : Z) (before starts : list Z) : list bool :=
  match starts with
  | [] => []
  | s :: rest =>
      (Z.of_nat (count_occ Z.eq_dec before s) <? n)
      :: first_of_window n (s :: before) rest
  end.

(** The answers of a group to requests at the given times. *)
Definition fixed_window (W : Z) (g : Group) (times : list Z) : list bool :=
  if limit g <=? 0 then (fun _ => true) <$> times
  else first_of_window (limit g) (replicate (Z.to_nat (count g)) (window_start g))
         (window_starts W (window_start g) times).

(** ** What is observed of an execution *)

(** An answer to [try_acquire], or one iteration of the loop of [acquire]; the group
    is [None] for a method without a limit. *)
Record Answer := MkAnswer { group : option loc; time : Z; pass : bool }.

Definition answer (s : system) (now : Z) (c : call) : outcome (option Answer) :=
  match c with
  | Configure _ | SetLimit _ _ => mret None
  | TryAcquire m =>
      '(ok, _) ← try_acquire (rl s) now m;
      mret (Some (MkAnswer (by_method_ (rl s) !! m) now ok))
  | AcquireEnter _ m =>
      mret (match acquire_enter (rl s) m with
            | None => Some (MkAnswer None now true)
            | Some _ => None
            end)
  | AcquirePoll th =>
      match waiting s !! th with
      | None => mret None
      | Some l =>
          '(r, _) ← acquire_poll (rl s) now l;
          mret (Some (MkAnswer (Some l) now
                  (match r with Returns => true | WaitUntil _ => false end)))
      end
  end.

Fixpoint observe (s : system) (trace : list (Z * call)) : outcome (list Answer) :=
  match trace with
  | [] => mret []
  | (now, c) :: rest =>
      a ← answer s now c;
      s' ← call_step s now c;
      l ← observe s' rest;
      mret (match a with Some x => x :: l | None => l end)
  end.

Definition of_group (l : loc) (answers : list Answer) : list Answer :=
  filter (fun a => group a = Some l) answers.

(** ** One group *)

Definition group_poll (W now : Z) (g : Group) : bool * Group :=
  if limit g <=? 0 then (true, g)
  else
    let g := roll_window W now g in
    if count g <? limit g then (true, MkGroup (limit g) (count g + 1) (window_start g))
    else (false, g).

Fixpoint group_run (W : Z) (g : Group) (times : list Z) : list bool :=
  match times with
  | [] => []
  | t :: rest => (group_poll W t g).1 :: group_run W (group_poll W t g).2 rest
  end.

Lemma acquire_poll_group r now l g a r' :
  store r !! l = Some g -> acquire_poll r now l = Val (a, r') ->
  (match a with Returns => true | WaitUntil _ => false end) = (group_poll (window_ r) now g).1
  /\ store r' = <[l := (group_poll (window_ r) now g).2]> (store r)
  /\ window_ r' = window_ r.
Proof.
  intros Hg E. unfold acquire_poll, deref in E. rewrite Hg in E. cbn in E.
  unfold group_poll. destruct (limit g <=? 0).
  { injection E as <- <-. cbn. by rewrite insert_id. }
  destruct (count (roll_window (window_ r) now g) <? _) eqn:Ec.
  - destruct (checked _ _) as [c|] eqn:Ek in E; [|done].
    unfold checked in Ek. case_match; [|done]. injection Ek as <-. by injection E as <- <-.
  - by injection E as <- <-.
Qed.

Lemma group_poll_limit W now g : limit (group_poll W now g).2 = limit g.
Proof.
  unfold group_poll. destruct (limit g <=? 0); [done|].
  destruct (_ <? _); cbn; unfold roll_window; by case_match.
Qed.

Lemma group_run_unlimited W g ts : limit g <= 0 -> group_run W g ts = (fun _ => true) <$> ts.
Proof.
  intros Hl. revert g Hl. induction ts as [|t ts IH]; intros g Hl; [done|]. cbn.
  unfold group_poll. destruct (Z.leb_spec (limit g) 0); [|lia]. cbn. by rewrite IH.
Qed.

(** The counter is the number of requests of the current window, cut at the limit. *)
Lemma group_run_spec W n k g before ts :
  0 < W -> 0 < n -> limit g = n -> count g = Z.min (Z.of_nat k) n ->
  count_occ Z.eq_dec before (window_start g) = k ->
  Forall (fun s => s <= window_start g) before ->
  group_run W g ts = first_of_window n before (window_starts W (window_start g) ts).
Proof.
  intros HW Hn. revert k g before.
  induction ts as [|t ts IH]; intros k g before Hl Hc Hk Hb; [done|].
  cbn [group_run window_starts first_of_window].
  unfold group_poll, roll_window. destruct (Z.leb_spec (limit g) 0); [lia|].
  destruct (Z.leb_spec W (t - window_start g)) as [Hnew|Hold].
  - assert (E0 : count_occ Z.eq_dec before t = 0%nat).
    { apply count_occ_not_In. intros Hin%list_elem_of_In.
      rewrite Forall_forall in Hb. specialize (Hb t Hin). cbn in Hb. lia. }
    rewrite E0. cbn [count limit window_start].
    destruct (Z.ltb_spec 0 (limit g)); [|lia]. cbn [fst snd].
    f_equal; [symmetry; apply Z.ltb_lt; cbn; lia|].
    apply (IH 1%nat (MkGroup (limit g) 1 t)); cbn; [done|lia| |].
    + destruct (Z.eq_dec t t); [|done]. by rewrite E0.
    + apply Forall_cons. split; [lia|]. eapply Forall_impl; [done|]. cbn. lia.
  - rewrite Hk. destruct (Z.ltb_spec (count g) (limit g)); cbn.
    + f_equal; [symmetry; apply Z.ltb_lt; lia|].
      apply (IH (S k) (MkGroup (limit g) (count g + 1) (window_start g)));
        cbn; [done|lia| |].
      * destruct (Z.eq_dec _ _); [|done]. by rewrite Hk.
      * by apply Forall_cons.
    + f_equal; [symmetry; apply Z.ltb_ge; lia|].
      apply (IH (S k) g); [done|lia| |].
      * cbn. destruct (Z.eq_dec _ _); [|done]. by rewrite Hk.
      * by apply Forall_cons.
Qed.

Lemma count_occ_replicate k (x : Z) : count_occ Z.eq_dec (replicate k x) x = k.
Proof. induction k as [|k IH]; cbn; [done|]. destruct (Z.eq_dec x x); congruence. Qed.

Lemma group_run_fixed_window W g ts :
  0 < W -> 0 <= count g -> (0 < limit g -> count g <= limit g) ->
  group_run W g ts = fixed_window W g ts.
Proof.
  intros HW Hc Hl. unfold fixed_window. destruct (Z.leb_spec (limit g) 0).
  - by apply group_run_unlimited.
  - apply (group_run_spec W (limit g) (Z.to_nat (count g))); try done; [lia| |].
    + apply count_occ_replicate.
    + apply Forall_forall. intros x Hx. apply elem_of_replicate in Hx. lia.
Qed.

(** ** The whole limiter *)

(** One call, as a group [l] sees it. *)
Lemma call_step_group s now c a s' l g :
  SystemOk now s -> store (rl s) !! l = Some g ->
  answer s now c = Val a -> call_step s now c = Val s' ->
  window_ (rl s') = window_ (rl s)
  /\ match a with
     | Some x =>
         time x = now
         /\ (group x = None -> pass x = true)
         /\ (group x = Some l -> pass x = (group_poll (window_ (rl s)) now g).1
              /\ store (rl s') !! l = Some (group_poll (window_ (rl s)) now g).2)
         /\ (group x <> Some l -> store (rl s') !! l = Some g)
     | None => store (rl s') !! l = Some g
     end.
Proof.
  intros Hs Hg Ea Es. pose proof (ok_fresh _ _ Hs l (ex_intro _ g Hg)) as Hl.
  destruct c as [t|ms n|m|th m|th]; cbn in Ea, Es.
  - injection Ea as <-. injection Es as <-. cbn. split; [apply configure_window|].
    destruct (configure_table (rl s) t) as (_ & _ & Hold). by rewrite Hold.
  - injection Ea as <-. injection Es as <-. cbn.
    split; [done|]. rewrite lookup_insert_ne by lia. done.
  - unfold try_acquire in *. destruct (by_method_ (rl s) !! m) as [l'|] eqn:Em.
    2:{ injection Ea as <-. injection Es as <-. done. }
    rewrite try_group_poll in Ea, Es.
    destruct (acquire_poll (rl s) now l') as [[x r']|] eqn:Ep; [|done].
    injection Ea as <-. injection Es as <-. cbn.
    destruct (ok_methods _ _ Hs _ _ Em) as [g' Hg'].
    destruct (acquire_poll_group _ _ _ _ _ _ Hg' Ep) as (E1 & E2 & E3).
    rewrite E2. split_and!; try done.
    + intros [= ->]. assert (g' = g) as -> by congruence.
      by rewrite lookup_insert_eq.
    + intros Hne. rewrite lookup_insert_ne; [done|]. congruence.
  - destruct (acquire_enter (rl s) m); injection Ea as <-; injection Es as <-; done.
  - destruct (waiting s !! th) as [l'|] eqn:Ew.
    2:{ injection Ea as <-. injection Es as <-. done. }
    destruct (acquire_poll (rl s) now l') as [[x r']|] eqn:Ep; [|done].
    destruct (ok_waiting _ _ Hs _ _ Ew) as [g' Hg'].
    destruct (acquire_poll_group _ _ _ _ _ _ Hg' Ep) as (E1 & E2 & E3).
    assert (Er : rl s' = r') by (cbn in Es; by destruct x; injection Es as <-).
    injection Ea as <-. rewrite Er, E2. cbn. split_and!; try done.
    + intros [= ->]. assert (g' = g) as -> by congruence. by rewrite lookup_insert_eq.
    + intros Hne. rewrite lookup_insert_ne; [done|]. congruence.
Qed.

(** A call that has an effect has an answer. *)
Lemma answer_total s now c s' : call_step s now c = Val s' -> exists a, answer s now c = Val a.
Proof.
  destruct c as [t|ms n|m|th m|th]; cbn; try by eexists.
  - destruct (try_acquire _ _ _) as [[]|]; [by eexists|done].
  - destruct (waiting s !! th); [|by eexists].
    destruct (acquire_poll _ _ _) as [[]|]; [by eexists|done].
Qed.

Lemma observe_total t0 s trace :
  SystemOk t0 s -> monotone t0 trace -> Forall (fun e => call_typed e.2) trace ->
  exists answers, observe s trace = Val answers.
Proof.
  revert t0 s. induction trace as [|[now c] trace IH]; intros t0 s Hs Hm Ht; [by eexists|].
  destruct Hm as [Hle Hm]. apply Forall_cons in Ht as [Hc Ht]. cbn in *.
  destruct (call_step_ok now s c Hc (system_later _ _ _ Hle Hs)) as (s' & E & Hs').
  destruct (answer_total s now c s' E) as (a & Ea). rewrite Ea, E. cbn.
  destruct (IH now s' Hs' Hm Ht) as (l & ->). by eexists.
Qed.

Lemma observe_group t0 s trace answers l g :
  SystemOk t0 s -> monotone t0 trace -> Forall (fun e => call_typed e.2) trace ->
  observe s trace = Val answers -> store (rl s) !! l = Some g ->
  pass <$> of_group l answers
  = group_run (window_ (rl s)) g (time <$> of_group l answers).
Proof.
  revert t0 s g answers.
  induction trace as [|[now c] trace IH]; intros t0 s g answers Hs Hm Ht E Hg; cbn in *.
  { by injection E as <-. }
  destruct Hm as [Hle Hm]. apply Forall_cons in Ht as [Hc Ht].
  pose proof (system_later _ _ _ Hle Hs) as Hs0.
  destruct (call_step_ok now s c Hc Hs0) as (s' & E' & Hs').
  destruct (answer s now c) as [a|] eqn:Ea; [|done]. rewrite E' in E. cbn in E.
  destruct (observe s' trace) as [rest|] eqn:Er; [|done]. injection E as <-.
  destruct (call_step_group s now c a s' l g Hs0 Hg Ea E') as (EW & Hx).
  destruct a as [x|].
  2:{ rewrite <- EW. by apply (IH now s' g rest). }
  destruct Hx as (Et & _ & Heq & Hne). unfold of_group. rewrite filter_cons.
  case_decide as Hd.
  - destruct (Heq Hd) as [Ep Hg']. cbn. rewrite Et, Ep. f_equal. rewrite <- EW.
    fold (of_group l rest). apply (IH now s'); try done. by rewrite EW.
  - rewrite <- EW. apply (IH now s' g rest); try done. by apply Hne.
Qed.

Lemma observe_unlimited t0 s trace answers :
  SystemOk t0 s -> monotone t0 trace -> Forall (fun e => call_typed e.2) trace ->
  observe s trace = Val answers ->
  Forall (fun a => group a = None -> pass a = true) answers.
Proof.
  revert t0 s answers.
  induction trace as [|[now c] trace IH]; intros t0 s answers Hs Hm Ht E; cbn in *.
  { injection E as <-. by apply Forall_nil. }
  destruct Hm as [Hle Hm]. apply Forall_cons in Ht as [Hc Ht].
  destruct (call_step_ok now s c Hc (system_later _ _ _ Hle Hs)) as (s' & E' & Hs').
  destruct (answer s now c) as [a|] eqn:Ea; [|done]. rewrite E' in E. cbn in E.
  destruct (observe s' trace) as [rest|] eqn:Er; [|done]. injection E as <-.
  pose proof (IH now s' rest Hs' Hm Ht Er) as Hrest.
  destruct a as [x|]; [|done]. apply Forall_cons. split; [|done].
  destruct c as [t|ms n|m|th m|th]; cbn in Ea; try done.
  - unfold try_acquire in Ea. destruct (by_method_ (rl s) !! m).
    + by destruct (try_group _ _ _) as [[]|]; [injection Ea as <-|].
    + by injection Ea as <-.
  - destruct (acquire_enter (rl s) m); [done|]. by injection Ea as <-.
  - destruct (waiting s !! th); [|done].
    by destruct (acquire_poll _ _ _) as [[]|]; [injection Ea as <-|].
Qed.

(** ** Properties *)

(** C17. Every group is a fixed-window counter of its own.  Take any reachable limiter
    and any further interleaving of calls of any threads, at non-decreasing clock
    times - reconfigurations, non-blocking calls, and threads that block in
    [acquire] and poll again.  The answers of a group that exists at that point are
    those of the specification applied to the times of its own requests: other
    groups, the method table, and which thread or which kind of call made a request,
    do not matter.  A method without a limit is never refused. *)
Theorem groups_are_fixed_windows (window : Z) (before during : list (Z * call)) :
  0 < window -> monotone 0 (before ++ during) ->
  Forall (fun e => call_typed e.2) (before ++ during) ->
  exists s answers, run (system_init window) before = Val s
    /\ observe s during = Val answers
    /\ (forall l g, store (rl s) !! l = Some g ->
          pass <$> of_group l answers
          = fixed_window (window_ (rl s)) g (time <$> of_group l answers))
    /\ forall a, a ∈ answers -> group a = None -> pass a = true.
Proof.
  intros HW [Hm1 Hm2]%monotone_app [Ht1 Ht2]%Forall_app.
  destruct (limiter_run_ok 0 _ before (system_init_ok window HW) Hm1 Ht1) as (s & E & Hs).
  destruct (observe_total _ s during Hs Hm2 Ht2) as (answers & Ea).
  exists s, answers. split_and!; try done.
  - intros l g Hg. rewrite (observe_group _ s during answers l g Hs Hm2 Ht2 Ea Hg).
    destruct (ok_groups _ _ Hs l g Hg). apply group_run_fixed_window; try done.
    apply (ok_window _ _ Hs).
  - pose proof (observe_unlimited _ s during answers Hs Hm2 Ht2 Ea) as Hu.
    by rewrite Forall_forall in Hu.
Qed.

(** Two methods share a group of two per window; a thread that blocks is refused,
    and granted when it polls in the next window. *)
Definition shared_before : list (Z * call) := [(900, SetLimit ["svc/A"; "svc/B"] 2)].
Definition shared_during : list (Z * call) :=
  [(1000, TryAcquire "svc/A"); (1010, AcquireEnter 7 "svc/B"); (1010, AcquirePoll 7);
   (1020, AcquireEnter 8 "svc/A"); (1020, AcquirePoll 8); (1030, TryAcquire "svc/C");
   (1040, SetLimit ["svc/A"] 5); (1050, TryAcquire "svc/A"); (1200, AcquirePoll 8)].

Example shared_answers :
  (s ← run (system_init 200) shared_before; observe s shared_during)
  = Val [MkAnswer (Some 0%nat) 1000 true; MkAnswer (Some 0%nat) 1010 true;
         MkAnswer (Some 0%nat) 1020 false; MkAnswer None 1030 true;
         MkAnswer (Some 1%nat) 1050 true; MkAnswer (Some 0%nat) 1200 true]
  /\ fixed_window 200 (new_group 2) [1000; 1010; 1020; 1200] = [true; true; false; true].
Proof. split; vm_compute; reflexivity. Qed.

Lemma groups_are_fixed_windows_witness :
  exists s answers, run (system_init 200) shared_before = Val s
    /\ observe s shared_during = Val answers
    /\ forall l g, store (rl s) !! l = Some g ->
          pass <$> of_group l answers
          = fixed_window (window_ (rl s)) g (time <$> of_group l answers).
Proof.
  destruct (groups_are_fixed_windows 200 shared_before shared_during)
    as (s & answers & E & Ea & H & _).
  - reflexivity.
  - cbn. lia.
  - repeat constructor; cbn; by range_unfold.
  - exists s, answers. exact (conj E (conj Ea H)).
Defined.
