(* ===== verification/ErrorResult.v ===== *)
(** * Errors and results ([include/tinvest/error.hpp], the error part of
    [include/tinvest/detail/unary.hpp])

    gRPC is not part of the repository: its status codes are a type class with
    the distinctness the code relies on, its [Status] is the pair of values
    the SDK reads from it, and trailing metadata is an association list. *)

From S2P Require Import Prelude StdStrings.
From stdpp Require Import base numbers list sets strings.
From Stdlib Require Import ZArith Lia Ascii.

#[local] Open Scope Z_scope.

(** ** What gRPC provides *)

Class GrpcCodes := {
  OK : Z; CANCELLED : Z; UNKNOWN : Z; RESOURCE_EXHAUSTED : Z; UNAVAILABLE : Z;
  codes_distinct : NoDup [OK; CANCELLED; UNKNOWN; RESOURCE_EXHAUSTED; UNAVAILABLE];
}.

(** The numbers of the gRPC protocol. *)
#[export] Instance grpc_codes : GrpcCodes.
Proof.
  refine {| OK := 0; CANCELLED := 1; UNKNOWN := 2; RESOURCE_EXHAUSTED := 8;
            UNAVAILABLE := 14 |}.
  repeat (constructor; [set_solver|]). constructor.
Defined.

Record Status := MkStatus { error_code : Z; error_message : string }.

Definition Metadata := list (string * string).

Section Errors.
Context `{GrpcCodes}.

Definition status_ok (s : Status) : bool := error_code s =? OK.

(** ** Data *)

Record RateLimitInfo := MkRateLimitInfo {
  rl_limit : Z; rl_remaining : Z; rl_reset_seconds : Z }.

(** -1 if absent. *)
Definition no_ratelimit : RateLimitInfo := MkRateLimitInfo (-1) (-1) (-1).

Record Error := MkError {
  code : Z;
  message : string;
  api_code : string;
  tracking_id : string;
  ratelimit : RateLimitInfo;
}.

Definition default_error : Error := MkError UNKNOWN "" "" "" no_ratelimit.

Definition rate_limited (e : Error) : bool := code e =? RESOURCE_EXHAUSTED.

(** [std::string::empty]. *)
Definition str_empty (s : string) : bool := bool_decide (s = ""%string).

(** [Error::to_string]. *)
Definition error_to_string (e : Error) : string :=
  let s := ("grpc=" +:+ int_to_string (code e))%string in
  let s := if str_empty (api_code e) then s else (s +:+ " api=" +:+ api_code e)%string in
  let s := if str_empty (message e) then s else (s +:+ " " +:+ message e)%string in
  if str_empty (tracking_id e) then s
  else (s +:+ " [x-tracking-id: " +:+ tracking_id e +:+ "]")%string.

(** [Result<T>]: the variant of a value and an error. *)
Inductive Result (T : Type) :=
  | ResultValue (value : T)
  | ResultError (error : Error).

(** ** Building an error from a finished call *)

(** [std::multimap::find]: the first entry with the key. *)
Fixpoint md_find (md : Metadata) (key : string) : option string :=
  match md with
  | [] => None
  | (k, v) :: md' => if bool_decide (k = key) then Some v else md_find md' key
  end.

Definition get_metadata (md : Metadata) (key : string) : string :=
  match md_find md key with Some v => v | None => ""%string end.

Definition get_int_metadata (md : Metadata) (key : string) : outcome Z :=
  let v := get_metadata md key in
  if str_empty v then mret (-1) else atoi (String.list_ascii_of_string v).

(** [!sm.empty() && sm.find_first_not_of("0123456789") == npos]. *)
Definition numeric (sm : string) : bool :=
  negb (str_empty sm) && forallb is_digit (String.list_ascii_of_string sm).

Definition make_error (status : Status) (md : Metadata) : outcome Error :=
  let tracking := get_metadata md "x-tracking-id" in
  let msg := get_metadata md "message" in
  let sm := error_message status in
  let api := if numeric sm then sm else ""%string in
  let msg := if str_empty msg then sm else msg in
  l ← get_int_metadata md "x-ratelimit-limit";
  rem ← get_int_metadata md "x-ratelimit-remaining";
  reset ← get_int_metadata md "x-ratelimit-reset";
  mret (MkError (error_code status) msg api tracking (MkRateLimitInfo l rem reset)).

End Errors.

Arguments ResultValue {T} value.
Arguments ResultError {T} error.

(** The accessors.  [value] and [error] are [std::get]: they throw
    ([None] here) on the wrong alternative. *)
Definition result_ok {T} (r : Result T) : bool :=
  match r with ResultValue _ => true | ResultError _ => false end.
Definition result_value {T} (r : Result T) : option T :=
  match r with ResultValue v => Some v | ResultError _ => None end.
Definition result_error {T} (r : Result T) : option Error :=
  match r with ResultValue _ => None | ResultError e => Some e end.
Definition value_or {T} (r : Result T) (fallback : T) : T :=
  match r with ResultValue v => v | ResultError _ => fallback end.

(** The mapping of tests/client_test.cpp. *)
Example test_error_mapping :
  make_error (MkStatus 5 "30042")
    [("message", "Account margin status not found"); ("x-tracking-id", "trk-42")]%string
  = Val (MkError 5 "Account margin status not found" "30042" "trk-42" no_ratelimit).
Proof. vm_compute. reflexivity. Qed.

Example test_error_text :
  error_to_string (MkError 5 "not found" "30042" "trk-42" no_ratelimit)
  = "grpc=5 api=30042 not found [x-tracking-id: trk-42]"%string.
Proof. vm_compute. reflexivity. Qed.

(** ** What an error should say

    Stated on the metadata as a sequence of pairs and on texts as sequences of
    characters. *)

Definition NoHeader (md : Metadata) (key : string) : Prop :=
  Forall (fun kv => kv.1 <> key) md.

(** The text of a header: the first entry with the key, or the empty text. *)
Inductive HeaderText (md : Metadata) (key : string) : string -> Prop :=
  | header_present before v after :
      md = before ++ (key, v) :: after -> NoHeader before key -> HeaderText md key v
  | header_missing : NoHeader md key -> HeaderText md key "".

(** The number at the start of a text: blanks, a sign and digits, as many of each as
    there are; 0 without digits. *)
Inductive NumberRead : list ascii -> Z -> Prop :=
  | number_read blanks sign D rest :
      Forall (fun c => is_space c = true) blanks ->
      sign = [] \/ sign = ["+"%char] \/ sign = ["-"%char] ->
      Digits D ->
      match rest with
      | [] => True
      | c :: _ => is_digit c = false
          /\ (sign = [] -> D = [] -> is_space c = false /\ c <> "+"%char /\ c <> "-"%char)
      end ->
      NumberRead (blanks ++ sign ++ D ++ rest)
        (if decide (sign = ["-"%char]) then - digits_value 0 D else digits_value 0 D).

Definition HeaderNumber (md : Metadata) (key : string) (n : Z) : Prop :=
  exists v, HeaderText md key v
    /\ (v = ""%string /\ n = -1
        \/ v <> ""%string /\ NumberRead (String.list_ascii_of_string v) n).
Definition HeaderTooBig (md : Metadata) (key : string) : Prop :=
  exists v n, HeaderText md key v /\ v <> ""%string
    /\ NumberRead (String.list_ascii_of_string v) n /\ ~ InRange W32 n.

(** A non-empty text of the characters from 0 to 9. *)
Definition AllDigits (s : string) : Prop :=
  s <> ""%string
  /\ Forall (fun c => (48 <= Ascii.N_of_ascii c <= 57)%N) (String.list_ascii_of_string s).

Record ErrorOf (status : Status) (md : Metadata) (e : Error) : Prop := {
  eo_code : code e = error_code status;
  eo_api : AllDigits (error_message status) -> api_code e = error_message status;
  eo_no_api : ~ AllDigits (error_message status) -> api_code e = ""%string;
  eo_message : exists msg, HeaderText md "message" msg
    /\ (msg <> ""%string -> message e = msg)
    /\ (msg = ""%string -> message e = error_message status);
  eo_tracking : HeaderText md "x-tracking-id" (tracking_id e);
  eo_limit : HeaderNumber md "x-ratelimit-limit" (rl_limit (ratelimit e));
  eo_remaining : HeaderNumber md "x-ratelimit-remaining" (rl_remaining (ratelimit e));
  eo_reset : HeaderNumber md "x-ratelimit-reset" (rl_reset_seconds (ratelimit e));
}.

Lemma md_find_some md key v :
  md_find md key = Some v ->
  exists before after, md = before ++ (key, v) :: after /\ NoHeader before key.
Proof.
  induction md as [|[k w] md IH]; [done|]. cbn. case_bool_decide as Hk.
  - intros [= ->]. subst k. exists [], md. split; [done|constructor].
  - intros (before & after & -> & Hb)%IH. exists ((k, w) :: before), after.
    split; [done|by constructor].
Qed.

Lemma md_find_none md key : md_find md key = None -> NoHeader md key.
Proof.
  induction md as [|[k w] md IH]; [constructor|]. cbn. case_bool_decide as Hk; [done|].
  intros E. constructor; [done|by apply IH].
Qed.

Lemma skip_spaces_split l :
  exists blanks, l = blanks ++ skip_spaces l
    /\ Forall (fun c => is_space c = true) blanks
    /\ match skip_spaces l with [] => True | c :: _ => is_space c = false end.
Proof.
  induction l as [|c l (blanks & E & Hb & Hr)]; [by exists []|]. cbn [skip_spaces].
  destruct (is_space c) eqn:Ec.
  - exists (c :: blanks). cbn. rewrite <- E. split_and!; [done|by constructor|done].
  - exists []. by split_and!.
Qed.

Lemma leading_digits_split l :
  exists rest, l = leading_digits l ++ rest /\ Digits (leading_digits l)
    /\ match rest with [] => True | c :: _ => is_digit c = false end.
Proof.
  destruct (digit_prefix l) as (D & rest & -> & HD & Hr). exists rest.
  by rewrite leading_digits_app.
Qed.

(** [atoi] reads that number. *)
Lemma atoi_reads l : exists n, NumberRead l n /\ atoi l = checked W32 n.
Proof.
  destruct (skip_spaces_split l) as (blanks & El & Hb & Hr).
  unfold atoi, ato. destruct (skip_spaces l) as [|c r] eqn:Es.
  { exists 0. rewrite El. split; [|done]. apply (number_read blanks [] [] []); auto. constructor. }
  assert (Hsigned : forall sign, sign = "+"%char \/ sign = "-"%char ->
    NumberRead (blanks ++ sign :: r)
      (if decide ([sign] = ["-"%char]) then - digits_value 0 (leading_digits r)
       else digits_value 0 (leading_digits r))).
  { intros sign Hs. destruct (leading_digits_split r) as (rest & Erest & HD & Hrest).
    generalize dependent (leading_digits r). intros D -> HD.
    apply (number_read blanks [sign] D rest); try done.
    - destruct Hs as [-> | ->]; auto.
    - by destruct rest. }
  rewrite El. case_bool_decide as Hm; [|case_bool_decide as Hp].
  - subst c. eexists. split; [apply Hsigned; by right|done].
  - subst c. eexists. split; [apply Hsigned; by left|done].
  - exists (digits_value 0 (leading_digits (c :: r))). split; [|done].
    destruct (leading_digits_split (c :: r)) as (rest & E & HD & Hrest).
    generalize dependent (leading_digits (c :: r)). intros D E HD. rewrite E.
    apply (number_read blanks [] D rest); auto.
    destruct rest as [|c' rest]; [done|]. split; [done|]. intros _ ->.
    injection E as <- <-. by split_and!.
Qed.

Section Facts.
Context `{GrpcCodes}.

Lemma code_eqb_ok_exhausted : (RESOURCE_EXHAUSTED =? OK) = false.
Proof.
  pose proof codes_distinct as Hd. apply Z.eqb_neq. intros E.
  rewrite E in Hd. inversion Hd. set_solver.
Qed.

(** An integer header is well formed when it is absent or reads as an int. *)
Definition IntHeader (md : Metadata) (key : string) : Prop :=
  exists v, get_int_metadata md key = Val v.

Definition IntHeaders (md : Metadata) : Prop :=
  IntHeader md "x-ratelimit-limit" /\ IntHeader md "x-ratelimit-remaining"
  /\ IntHeader md "x-ratelimit-reset".

(** The headers the code may not be able to read are exactly those. *)
Lemma make_error_defined status md :
  IntHeaders md <-> exists e, make_error status md = Val e.
Proof.
  unfold IntHeaders, IntHeader, make_error. split.
  - intros ((l & ->) & (r & ->) & (t & ->)). by eexists.
  - destruct (get_int_metadata md "x-ratelimit-limit") as [l|]; [|naive_solver].
    destruct (get_int_metadata md "x-ratelimit-remaining") as [r|]; [|naive_solver].
    destruct (get_int_metadata md "x-ratelimit-reset") as [t|]; naive_solver.
Qed.

Lemma numeric_digits sm :
  numeric sm = true <->
  sm <> ""%string /\ Digits (String.list_ascii_of_string sm).
Proof.
  unfold numeric, str_empty, Digits. rewrite andb_true_iff, negb_true_iff, bool_decide_eq_false.
  rewrite forallb_forall, Forall_forall. setoid_rewrite list_elem_of_In. done.
Qed.

Lemma get_metadata_text md key : HeaderText md key (get_metadata md key).
Proof.
  unfold get_metadata. destruct (md_find md key) as [v|] eqn:E.
  - apply md_find_some in E as (before & after & -> & Hb). by econstructor.
  - by apply header_missing, md_find_none.
Qed.

(** An integer header is read as [atoi] reads its text, or as -1. *)
Lemma get_int_metadata_number md key :
  match get_int_metadata md key with
  | Val n => HeaderNumber md key n
  | UB => HeaderTooBig md key
  end.
Proof.
  unfold get_int_metadata, str_empty. pose proof (get_metadata_text md key) as Ht.
  case_bool_decide as Hv.
  { exists (get_metadata md key). split; [done|]. by left. }
  destruct (atoi_reads (String.list_ascii_of_string (get_metadata md key))) as (n & Hn & ->).
  unfold checked. destruct (decide (InRange W32 n)) as [Hr|Hr].
  - exists (get_metadata md key). split; [done|]. by right.
  - by exists (get_metadata md key), n.
Qed.

Lemma numeric_all_digits sm : numeric sm = true <-> AllDigits sm.
Proof.
  rewrite numeric_digits. unfold AllDigits, Digits.
  split; intros [Hne Hd]; (split; [done|]); (eapply Forall_impl; [exact Hd|]);
    intros c; unfold is_digit; cbn; lia.
Qed.

Lemma make_error_describes status md e : make_error status md = Val e -> ErrorOf status md e.
Proof.
  unfold make_error. intros E.
  pose proof (get_int_metadata_number md "x-ratelimit-limit") as Hl.
  pose proof (get_int_metadata_number md "x-ratelimit-remaining") as Hr.
  pose proof (get_int_metadata_number md "x-ratelimit-reset") as Ht.
  destruct (get_int_metadata md "x-ratelimit-limit"); [|done].
  destruct (get_int_metadata md "x-ratelimit-remaining"); [|done].
  destruct (get_int_metadata md "x-ratelimit-reset"); [|done].
  injection E as <-. split; cbn [code message api_code tracking_id ratelimit rl_limit
    rl_remaining rl_reset_seconds]; try done.
  - intros Hd%numeric_all_digits. by rewrite Hd.
  - intros Hd. rewrite <- numeric_all_digits in Hd. by destruct (numeric _).
  - exists (get_metadata md "message"). split; [apply get_metadata_text|].
    unfold str_empty. split; intros Hm; [by rewrite bool_decide_false|by rewrite bool_decide_true].
  - apply get_metadata_text.
Qed.

(** C26.  What the error built from a failed call says, for every status and
    every trailing metadata.  It carries the status code; the status text as API
    code if that is a non-empty string of decimal digits, and none otherwise; the
    [message] trailer, the status text standing in when it is absent or empty;
    the [x-tracking-id] trailer; and the number that each of the three rate-limit
    headers starts with, or -1 when it is absent or empty.  Building it has
    undefined behaviour only when one of these numbers does not fit an int. *)
Theorem make_error_maps (status : Status) (md : Metadata) :
  match make_error status md with
  | Val e => ErrorOf status md e
  | UB => HeaderTooBig md "x-ratelimit-limit" \/ HeaderTooBig md "x-ratelimit-remaining"
          \/ HeaderTooBig md "x-ratelimit-reset"
  end.
Proof.
  destruct (make_error status md) as [e|] eqn:E; [by apply make_error_describes|].
  pose proof (get_int_metadata_number md "x-ratelimit-limit") as Hl.
  pose proof (get_int_metadata_number md "x-ratelimit-remaining") as Hr.
  pose proof (get_int_metadata_number md "x-ratelimit-reset") as Ht.
  unfold make_error in E.
  destruct (get_int_metadata md "x-ratelimit-limit"); [|by left].
  destruct (get_int_metadata md "x-ratelimit-remaining"); [|by right; left].
  destruct (get_int_metadata md "x-ratelimit-reset"); [done|by right; right].
Qed.
End Facts.

Example make_error_of_headers :
  make_error (MkStatus 8 "80002") [("x-ratelimit-reset", " 12s"); ("message", "")]%string
    = Val (MkError 8 "80002" "80002" "" (MkRateLimitInfo (-1) (-1) 12)).
Proof. vm_compute. reflexivity. Qed.
