(* ===== verification/Client.v ===== *)
(** * The client ([include/tinvest/client.hpp], [src/client.cpp],
    [include/tinvest/call_options.hpp])

    Configuration, the channel the constructor asks gRPC for, and the metadata
    and deadline every call gets.  Durations are milliseconds; the file system
    is a parameter. *)

From S2P Require Import Prelude ErrorResult.
From stdpp Require Import base numbers list strings.
From Stdlib Require Import ZArith Lia.

#[local] Open Scope Z_scope.

Definition kDefaultEndpoint : string := "invest-public-api.tbank.ru:443".
Definition kLegacyEndpoint : string := "invest-public-api.tinkoff.ru:443".

Record RetryPolicy := MkRetryPolicy {
  max_attempts : Z; on_rate_limit : bool; on_unavailable : bool; max_wait : Z }.

Definition default_retry : RetryPolicy := MkRetryPolicy 3 true true 65000.

Record CallOptions := MkCallOptions {
  timeout : option Z; metadata : list (string * string); retry_override : option bool }.

Definition default_options : CallOptions := MkCallOptions None [] None.

(** What the constructor sets on [grpc::ChannelArguments]. *)
Inductive ChannelArg :=
  | KEEPALIVE_TIME_MS (v : Z)
  | KEEPALIVE_TIMEOUT_MS (v : Z)
  | KEEPALIVE_PERMIT_WITHOUT_CALLS (v : Z)
  | HTTP2_MAX_PINGS_WITHOUT_DATA (v : Z)
  | MaxReceiveMessageSize (v : Z)
  | UserAgentPrefix (s : string)
  | Tuned (name : string) (v : Z).

Record Config := MkConfig {
  token : string;
  endpoint : string;
  app_name : string;
  use_tls : bool;
  ca_file : string;
  default_timeout : option Z;
  retry : RetryPolicy;
  tune_channel : option (list ChannelArg -> list ChannelArg);
}.

Definition default_config (token : string) : Config :=
  MkConfig token kDefaultEndpoint "tinvest-cpp" true "" None default_retry None.

(** ** The constructor *)

Inductive Credentials := Insecure | Ssl (pem_root_certs : string).

Record Channel := MkChannel {
  target : string; creds : Credentials; args : list ChannelArg }.

Definition auth_header (c : Config) : string := ("Bearer " +:+ token c)%string.

Definition channel_args (c : Config) : list ChannelArg :=
  let a := [KEEPALIVE_TIME_MS 30000; KEEPALIVE_TIMEOUT_MS 10000;
            KEEPALIVE_PERMIT_WITHOUT_CALLS 1; HTTP2_MAX_PINGS_WITHOUT_DATA 0;
            MaxReceiveMessageSize (64 * 1024 * 1024); UserAgentPrefix (app_name c)] in
  match tune_channel c with Some f => f a | None => a end.

Definition system_bundle : string := "/etc/ssl/certs/ca-certificates.crt".

(** [readable] is [std::ifstream::good] of a path, [contents] what reading the
    file gives (nothing for a file that cannot be opened). *)
Definition ca_path (readable : string -> bool) (c : Config) : string :=
  if str_empty (ca_file c)
  then if readable system_bundle then system_bundle else ca_file c
  else ca_file c.

Definition credentials (readable : string -> bool) (contents : string -> string)
    (c : Config) : Credentials :=
  if use_tls c
  then let p := ca_path readable c in
       Ssl (if str_empty p then ""%string else contents p)
  else Insecure.

Definition make_channel (readable : string -> bool) (contents : string -> string)
    (c : Config) : Channel :=
  MkChannel (endpoint c) (credentials readable contents c) (channel_args c).

(** ** Contexts of calls *)

(** The calls made on a [grpc::ClientContext]. *)
Record ClientContext := MkContext {
  ctx_metadata : list (string * string); deadline : option Z }.

Definition new_context : ClientContext := MkContext [] None.

Definition AddMetadata (ctx : ClientContext) (kv : string * string) : ClientContext :=
  MkContext (ctx_metadata ctx ++ [kv]) (deadline ctx).

Definition setup_context (c : Config) (now : Z) (ctx : ClientContext)
    (opts : CallOptions) : ClientContext :=
  let ctx := AddMetadata ctx ("authorization", auth_header c)%string in
  let ctx := AddMetadata ctx ("x-app-name"%string, app_name c) in
  let ctx := fold_left AddMetadata (metadata opts) ctx in
  let t := match timeout opts with Some _ => timeout opts | None => default_timeout c end in
  match t with
  | Some d => MkContext (ctx_metadata ctx) (Some (now + d))
  | None => ctx
  end.

(** ** Properties *)

Lemma fold_AddMetadata l ctx :
  fold_left AddMetadata l ctx = MkContext (ctx_metadata ctx ++ l) (deadline ctx).
Proof.
  revert ctx. induction l as [|kv l IH]; intros ctx; cbn.
  - rewrite app_nil_r. by destruct ctx.
  - rewrite IH. cbn. by rewrite <- app_assoc.
Qed.

(** Every call is sent with the bearer token and the application name
    first, then the caller's own metadata in order; its deadline is the
    call's timeout if given, else the client's default, else none. *)
Theorem setup_context_sends (c : Config) (now : Z) (opts : CallOptions) :
  let ctx := setup_context c now new_context opts in
  ctx_metadata ctx
    = [("authorization", "Bearer " +:+ token c); ("x-app-name", app_name c)]%string
      ++ metadata opts
  /\ deadline ctx = match timeout opts, default_timeout c with
                    | Some d, _ => Some (now + d)
                    | None, Some d => Some (now + d)
                    | None, None => None
                    end.
Proof.
  unfold setup_context. rewrite fold_AddMetadata. cbn.
  by destruct (timeout opts), (default_timeout c).
Qed.

(** The channel is encrypted exactly when TLS is configured; its trusted
    roots are the configured CA file if one is named, else the system bundle
    if it can be read, else none (gRPC's defaults); and without a tuning hook
    the keepalive settings are those of the constructor. *)
Theorem channel_trust (readable : string -> bool) (contents : string -> string)
    (c : Config) :
  target (make_channel readable contents c) = endpoint c
  /\ creds (make_channel readable contents c)
     = match use_tls c, bool_decide (ca_file c = ""%string), readable system_bundle with
       | false, _, _ => Insecure
       | true, false, _ => Ssl (contents (ca_file c))
       | true, true, true => Ssl (contents system_bundle)
       | true, true, false => Ssl ""
       end
  /\ (tune_channel c = None ->
      In (KEEPALIVE_TIME_MS 30000) (args (make_channel readable contents c))
      /\ In (UserAgentPrefix (app_name c)) (args (make_channel readable contents c))).
Proof.
  split; [done|]. split.
  - cbn. unfold credentials, ca_path, str_empty.
    destruct (use_tls c); [|done].
    destruct (bool_decide_reflect (ca_file c = ""%string)) as [E|E].
    + destruct (readable system_bundle); [done|]. by rewrite E.
    + by rewrite bool_decide_false.
  - cbn. unfold channel_args. intros ->. cbn. tauto.
Qed.

Lemma channel_trust_witness :
  creds (make_channel (fun _ => true) (fun p => p) (default_config "t"))
    = Ssl system_bundle
  /\ In (KEEPALIVE_TIME_MS 30000)
       (args (make_channel (fun _ => true) (fun p => p) (default_config "t"))).
Proof.
  destruct (channel_trust (fun _ => true) (fun p => p) (default_config "t"))
    as (_ & E & H). split; [exact E|]. apply H. reflexivity.
Defined.
