(* ===== verification/Unary.v ===== *)
(** * Unary calls ([include/tinvest/detail/unary.hpp], [Client::load_rate_limits])

    The blocking call with its retry loop and the asynchronous call.  The rate
    limiter is used through an interface, of which RateLimiter.v is an
    instance; the server and the scheduler are parameters: [server n t ctx] is
    the reply to attempt [n] started at time [t], and [sleep t d] the time at
    which a thread that sleeps for [d] milliseconds from [t] continues. *)

From S2P Require Import Prelude StdStrings ErrorResult Client RateLimiter.
From stdpp Require Import base numbers list strings gmap.
From Stdlib Require Import ZArith Lia.

#[local] Open Scope Z_scope.

(** ** The interface to the rate limiter *)

Class Limiter (L : Type) := {
  lim_acquire : L -> Z -> string -> outcome (Z * L);
  lim_try : L -> Z -> string -> outcome (bool * L);
}.

(** What a client relies on: in good states both entry points are defined and
    lead to good states, time only moves forward, and a slot that [lim_try] finds is
    one for which [lim_acquire] does not wait. *)
Class LimiterLaws (L : Type) `{Limiter L} (Good : Z -> L -> Prop) := {
  good_later t t' l : t <= t' -> Good t l -> Good t' l;
  acquire_good t l m : Good t l ->
    exists t' l', lim_acquire l t m = Val (t', l') /\ t <= t' /\ Good t' l';
  try_good t l m : Good t l ->
    exists b l', lim_try l t m = Val (b, l') /\ Good t l';
  try_now t l m l' : lim_try l t m = Val (true, l') -> lim_acquire l t m = Val (t, l');
}.

(** ** The calls *)

(** What comes back from one attempt, and when. *)
Record Reply (Resp : Type) := MkReply {
  status : Status; trailers : Metadata; response : Resp; finished : Z }.
Arguments MkReply {Resp}. Arguments status {Resp}. Arguments trailers {Resp}.
Arguments response {Resp}. Arguments finished {Resp}.

Section Unary.
Context `{GrpcCodes} {L Resp : Type} `{Limiter L}.
Context (config : Config) (opts : CallOptions) (method : string).
Context (server : Z -> Z -> ClientContext -> Reply Resp) (sleep : Z -> Z -> Z).

Record World := MkWorld {
  now : Z; limiter : L;
  replies : list (Reply Resp);    (* of the attempts so far *)
  sleeps : list Z;                (* the delays slept so far *)
}.

(** [retryable], with the per-call override. *)
Definition retryable (e : Error) : bool :=
  let rp := retry config in
  let r := (code e =? RESOURCE_EXHAUSTED) && on_rate_limit rp
           || (code e =? UNAVAILABLE) && on_unavailable rp in
  match retry_override opts with Some b => r && b | None => r end.

(** The delay before the next attempt, in milliseconds. *)
Definition retry_delay (e : Error) (attempt : Z) : Z :=
  if code e =? RESOURCE_EXHAUSTED
  then if 0 <=? rl_reset_seconds (ratelimit e)
       then rl_reset_seconds (ratelimit e) * 1000 + 200
       else attempt * 1000
  else Z.shiftl 100 (Z.min (attempt - 1) 8).

Fixpoint sync_loop (fuel : nat) (attempt : Z) (w : World)
    : outcome (option (Result Resp * World)) :=
  match fuel with
  | O => mret None
  | S f =>
      '(t, lim) ← lim_acquire (limiter w) (now w) method;
      let ctx := setup_context config t new_context opts in
      let rep := server attempt t ctx in
      let w := MkWorld (finished rep) lim (replies w ++ [rep]) (sleeps w) in
      if status_ok (status rep)
      then mret (Some (ResultValue (response rep), w))
      else
        err ← make_error (status rep) (trailers rep);
        if negb (retryable err) || (Z.max 1 (max_attempts (retry config)) <=? attempt)
        then mret (Some (ResultError err, w))
        else
          let delay := retry_delay err attempt in
          if max_wait (retry config) <? delay
          then mret (Some (ResultError err, w))
          else
            attempt' ← checked W32 (attempt + 1);
            sync_loop f attempt'
              (MkWorld (sleep (now w) delay) (limiter w) (replies w) (sleeps w ++ [delay]))
  end.

Definition attempts_allowed : Z := Z.max 1 (max_attempts (retry config)).

(** The loop makes at most [attempts_allowed] iterations. *)
Definition unary_sync (t : Z) (l : L) : outcome (option (Result Resp * World)) :=
  sync_loop (Z.to_nat attempts_allowed) 1 (MkWorld t l [] []).

(** [unary_async] either completes at once from the calling thread, or starts
    the call with a prepared context; [on_complete] is the callback it hands to
    gRPC. *)
Inductive async_start :=
  | Completed (r : Result Resp)
  | Started (ctx : ClientContext).

Definition client_rate_error : Error :=
  MkError RESOURCE_EXHAUSTED "client-side rate limit exceeded" "client" "" no_ratelimit.

Definition unary_async (t : Z) (l : L) : outcome (async_start * L) :=
  '(ok, l') ← lim_try l t method;
  if negb ok then mret (Completed (ResultError client_rate_error), l')
  else mret (Started (setup_context config t new_context opts), l').

Definition on_complete (rep : Reply Resp) : outcome (Result Resp) :=
  if status_ok (status rep) then mret (ResultValue (response rep))
  else e ← make_error (status rep) (trailers rep); mret (ResultError e).

End Unary.
Arguments MkWorld {L Resp}. Arguments now {L Resp}. Arguments limiter {L Resp}.
Arguments replies {L Resp}. Arguments sleeps {L Resp}.
Arguments Completed {Resp}. Arguments Started {Resp}.

(** A value that the blocking call returns is the response of one of its attempts. *)
Lemma sync_loop_value `{GrpcCodes} {L Resp : Type} `{Limiter L} (config : Config)
    (opts : CallOptions) method (server : Z -> Z -> ClientContext -> Reply Resp) sleep
    fuel n w v w' :
  sync_loop config opts method server sleep fuel n w = Val (Some (ResultValue v, w')) ->
  exists n' t ctx, v = response (server n' t ctx).
Proof.
  revert n w. induction fuel as [|fuel IH]; intros n w E; [done|]. cbn [sync_loop] in E.
  destruct (lim_acquire _ _ _) as [[t lim]|]; [|done]. cbn [mbind outcome_bind] in E.
  destruct (status_ok _); [injection E as <- _; by eexists _, _, _|].
  destruct (make_error _ _) as [e|]; [|done]. cbn [mbind outcome_bind] in E.
  destruct (_ || _) in E; [done|]. destruct (_ <? _) in E; [done|].
  destruct (checked _ _); [|done]. by eapply IH.
Qed.

(** ** The limiter of the SDK behind the interface *)

(** [wake t d]: when [wait_until] with deadline [d], called at [t], returns. *)
Class Wake := { wake : Z -> Z -> Z; wake_late t d : d <= wake t d }.

#[export] Instance rate_limiter_interface `{Wake} : Limiter RateLimiter := {
  lim_acquire r t m :=
    o ← acquire 2 wake r t m;
    match o with Some p => mret p | None => UB end;
  lim_try r t m := try_acquire r t m;
}.

(** [Client::load_rate_limits], given the outcome of [get_user_tariff]. *)
Definition load_rate_limits (r : RateLimiter) (tariff : Result GetUserTariffResponse)
    : RateLimiter * Result GetUserTariffResponse :=
  match tariff with
  | ResultValue t => (configure r t, tariff)
  | ResultError _ => (r, tariff)
  end.

(** The limiter states reachable by the calls of any threads. *)
Definition reachable_limiter (t : Z) (r : RateLimiter) : Prop :=
  exists s, rl s = r /\ SystemOk t s.

#[export] Instance rate_limiter_laws `{Wake} : LimiterLaws RateLimiter reachable_limiter.
Proof.
  split.
  - intros t t' l Hle (s & <- & Hs). exists s. split; [done|]. exact (system_later t t' s Hle Hs).
  - intros t l m (s & <- & Hs). cbn.
    destruct (acquire_ok wake t s m Hs wake_late) as (t' & r' & E & Ht & s' & <- & Hs').
    rewrite E. cbn. exists t', (rl s'). split_and!; [done| |exists s'; split; [done|exact Hs']].
    destruct Ht as [-> |(d & Hd & ->)]; [lia|]. pose proof (wake_late t d). lia.
  - intros t l m (s & <- & Hs). cbn.
    destruct (call_step_ok t s (TryAcquire m) I Hs) as (s' & E & Hs').
    cbn in E. destruct (try_acquire (rl s) t m) as [[b r']|]; [|done].
    cbn in E. injection E as <-. exists b, r'. split; [done|].
    eexists. split; [|exact Hs']. done.
  - intros t l m l' E. cbn in *. by rewrite (try_acquire_now 1 wake l t m l' E).
Qed.

(** ** Properties *)

Section Laws.
Context `{GrpcCodes} {L Resp : Type} {Good : Z -> L -> Prop} `{LimiterLaws L Good}.
Context (config : Config) (method : string).
Context (server : Z -> Z -> ClientContext -> Reply Resp) (sleep : Z -> Z -> Z).

(** Time moves forward, and the integer headers of replies can be read. *)
Definition Timely : Prop :=
  (forall n t ctx, t <= finished (server n t ctx)) /\ (forall t d, t <= sleep t d).
Definition Readable : Prop :=
  forall n t ctx, IntHeaders (trailers (server n t ctx)).

(** *** The retry policy *)

Definition Retryable (opts : CallOptions) (e : Error) : Prop :=
  (code e = RESOURCE_EXHAUSTED /\ on_rate_limit (retry config) = true
   \/ code e = UNAVAILABLE /\ on_unavailable (retry config) = true)
  /\ retry_override opts <> Some false.

(** The milliseconds before attempt [n + 1], after attempt [n] failed with [e]. *)
Inductive DelayAfter (e : Error) (n : Z) : Z -> Prop :=
  | delay_reset :
      code e = RESOURCE_EXHAUSTED -> 0 <= rl_reset_seconds (ratelimit e) ->
      DelayAfter e n (1000 * rl_reset_seconds (ratelimit e) + 200)
  | delay_linear :
      code e = RESOURCE_EXHAUSTED -> rl_reset_seconds (ratelimit e) < 0 ->
      DelayAfter e n (1000 * n)
  | delay_doubling :
      code e <> RESOURCE_EXHAUSTED -> DelayAfter e n (100 * 2 ^ Z.min (n - 1) 8).

Lemma retryable_spec opts e : retryable config opts e = true <-> Retryable opts e.
Proof.
  unfold retryable, Retryable.
  assert (Hc : (code e =? RESOURCE_EXHAUSTED) && on_rate_limit (retry config)
               || (code e =? UNAVAILABLE) && on_unavailable (retry config) = true
    <-> code e = RESOURCE_EXHAUSTED /\ on_rate_limit (retry config) = true
        \/ code e = UNAVAILABLE /\ on_unavailable (retry config) = true)
    by (rewrite orb_true_iff, !andb_true_iff, !Z.eqb_eq; done).
  destruct (retry_override opts) as [[]|]; rewrite ?andb_true_iff, Hc; naive_solver.
Qed.

Lemma retry_delay_spec e n : 1 <= n -> DelayAfter e n (retry_delay e n).
Proof.
  intros Hn. unfold retry_delay. destruct (Z.eqb_spec (code e) RESOURCE_EXHAUSTED) as [E|E].
  - destruct (Z.leb_spec 0 (rl_reset_seconds (ratelimit e))).
    + rewrite Z.mul_comm. by constructor.
    + rewrite Z.mul_comm. by constructor.
  - rewrite Z.shiftl_mul_pow2 by lia. by constructor.
Qed.

(** A failed attempt [n] that is worth another one, and the sleep before it. *)
Definition RetriedAfter (opts : CallOptions) (n : Z) (rep : Reply Resp) (d : Z) : Prop :=
  error_code (status rep) <> OK
  /\ exists e, ErrorOf (status rep) (trailers rep) e
    /\ Retryable opts e /\ n < max_attempts (retry config)
    /\ DelayAfter e n d /\ d <= max_wait (retry config).

(** The last attempt [n] and the result of the whole call. *)
Definition EndsWith (opts : CallOptions) (n : Z) (rep : Reply Resp) (r : Result Resp)
    : Prop :=
  (error_code (status rep) = OK /\ r = ResultValue (response rep))
  \/ error_code (status rep) <> OK
     /\ exists e, ErrorOf (status rep) (trailers rep) e /\ r = ResultError e
       /\ (~ Retryable opts e \/ max_attempts (retry config) <= n
           \/ exists d, DelayAfter e n d /\ max_wait (retry config) < d).

(** Attempts [n], [n + 1], ... from time [t] and limiter [l] on: each gets a slot, is
    sent with a context of its own, and is answered; [ds] are the sleeps between. *)
Inductive RunOf (opts : CallOptions)
    : Z -> Z -> L -> list (Reply Resp) -> list Z -> Result Resp -> Prop :=
  | run_ends n t l t' l' rep r :
      lim_acquire l t method = Val (t', l') ->
      rep = server n t' (setup_context config t' new_context opts) ->
      EndsWith opts n rep r -> RunOf opts n t l [rep] [] r
  | run_retries n t l t' l' rep d reps ds r :
      lim_acquire l t method = Val (t', l') ->
      rep = server n t' (setup_context config t' new_context opts) ->
      RetriedAfter opts n rep d ->
      RunOf opts (n + 1) (sleep (finished rep) d) l' reps ds r ->
      RunOf opts n t l (rep :: reps) (d :: ds) r.

Lemma status_ok_spec (rep : Reply Resp) :
  status_ok (status rep) = true <-> error_code (status rep) = OK.
Proof. apply Z.eqb_eq. Qed.

(** One turn of the loop: the call is over, or attempt [n + 1] is made. *)
Lemma sync_turn opts n (rep : Reply Resp) :
  IntHeaders (trailers rep) -> 1 <= n ->
  exists e, (status_ok (status rep) = false ->
    make_error (status rep) (trailers rep) = Val e
    /\ if negb (retryable config opts e) || (Z.max 1 (max_attempts (retry config)) <=? n)
         || (max_wait (retry config) <? retry_delay e n)
       then EndsWith opts n rep (ResultError e)
       else RetriedAfter opts n rep (retry_delay e n)).
Proof.
  intros Hh Hn. destruct (proj1 (make_error_defined (status rep) (trailers rep)) Hh) as (e & Ee).
  exists e. intros Hok. split; [done|]. pose proof (make_error_describes _ _ _ Ee) as He.
  assert (Hcode : error_code (status rep) <> OK) by (rewrite <- status_ok_spec; congruence).
  pose proof (retry_delay_spec e n Hn) as Hd. pose proof (retryable_spec opts e) as Hr.
  destruct (retryable config opts e) eqn:Er; cbn [negb orb].
  2:{ right. split; [done|]. exists e. split_and!; [done..|]. left. by rewrite <- Hr. }
  destruct (Z.leb_spec (Z.max 1 (max_attempts (retry config))) n) as [Hm|Hm]; cbn [orb].
  { right. split; [done|]. exists e. split_and!; [done..|]. right; left. lia. }
  destruct (Z.ltb_spec (max_wait (retry config)) (retry_delay e n)) as [Hw|Hw].
  { right. split; [done|]. exists e. split_and!; [done..|]. right; right. by eexists. }
  split; [done|]. exists e. split_and!; try done; [by apply Hr|lia].
Qed.

Lemma sync_loop_run opts fuel n w :
  Timely -> Readable -> Good (now w) (limiter w) ->
  1 <= n <= attempts_allowed config ->
  attempts_allowed config <= wmax W32 ->
  (Z.to_nat (attempts_allowed config - n + 1) <= fuel)%nat ->
  exists r w' reps ds, sync_loop config opts method server sleep fuel n w = Val (Some (r, w'))
    /\ replies w' = replies w ++ reps /\ sleeps w' = sleeps w ++ ds
    /\ RunOf opts n (now w) (limiter w) reps ds r
    /\ Good (now w') (limiter w') /\ now w <= now w'.
Proof.
  intros [Hfin Hsleep] Hread. revert n w.
  induction fuel as [|f IH]; intros n w Hg Hn Hmax Hf; [lia|].
  cbn [sync_loop].
  destruct (acquire_good (now w) (limiter w) method Hg) as (t & lim & Ea & Ht & Hg').
  rewrite Ea. cbn [mbind outcome_bind].
  pose proof (Hfin n t (setup_context config t new_context opts)) as Hfin'.
  pose proof (Hread n t (setup_context config t new_context opts)) as Hh.
  remember (server n t (setup_context config t new_context opts)) as rep eqn:Erep.
  pose proof (good_later _ _ _ Hfin' Hg') as Hg''.
  destruct (sync_turn opts n rep Hh ltac:(lia)) as (e & He).
  assert (Hend : forall r, EndsWith opts n rep r ->
    exists r0 w' reps ds,
      (mret (Some (r, MkWorld (finished rep) lim (replies w ++ [rep]) (sleeps w))))
        = Val (Some (r0, w'))
      /\ replies w' = replies w ++ reps /\ sleeps w' = sleeps w ++ ds
      /\ RunOf opts n (now w) (limiter w) reps ds r0
      /\ Good (now w') (limiter w') /\ now w <= now w').
  { intros r Hr. eexists _, _, [rep], []. split_and!; cbn; rewrite ?app_nil_r; try done;
      [by eapply run_ends|cbn in *; lia]. }
  destruct (status_ok (status rep)) eqn:Eok.
  { apply Hend. left. split; [by apply status_ok_spec|done]. }
  destruct (He eq_refl) as [Ee Hnext]. rewrite Ee. cbn [mbind outcome_bind]. clear He.
  destruct (negb (retryable config opts e) || _) eqn:Estop; [by apply Hend|].
  destruct (max_wait (retry config) <? retry_delay e n) eqn:Ed; [by apply Hend|].
  cbn [orb] in Hnext. apply orb_false_iff in Estop as [_ Ea'].
  assert (n < attempts_allowed config) by (unfold attempts_allowed; lia).
  rewrite checked_in by range. cbn [mbind outcome_bind].
  pose proof (Hsleep (finished rep) (retry_delay e n)) as Hs'.
  cbn [now limiter replies sleeps].
  edestruct (IH (n + 1) (MkWorld (sleep (finished rep) (retry_delay e n)) lim
                          (replies w ++ [rep]) (sleeps w ++ [retry_delay e n])))
    as (r & w' & reps & ds & Erec & Hr & Hd & Hrun & Hgood & Hnow);
    [by eapply good_later|lia|done|lia|].
  rewrite Erec.
  eexists r, w', (rep :: reps), (retry_delay e n :: ds). cbn in *.
  rewrite Hr, Hd, <- !app_assoc. split_and!; try done; [by eapply run_retries|lia].
Qed.

Lemma RunOf_length opts n t l reps ds r :
  RunOf opts n t l reps ds r -> 1 <= n <= attempts_allowed config ->
  (0 < length reps)%nat /\ length reps = S (length ds)
  /\ n + Z.of_nat (length ds) <= attempts_allowed config.
Proof.
  unfold attempts_allowed.
  induction 1 as [|n t l t' l' rep d reps ds r _ _ (_ & e & _ & _ & Hlt & _) _ IH];
    intros Hn; cbn [length]; [lia|]. destruct IH as (? & ? & ?); lia.
Qed.

(** The loop from its initial state. *)
Lemma unary_sync_ok (opts : CallOptions) (t : Z) (l : L) :
  Timely -> Readable -> Good t l -> max_attempts (retry config) <= wmax W32 ->
  exists r w, unary_sync config opts method server sleep t l = Val (Some (r, w))
    /\ RunOf opts 1 t l (replies w) (sleeps w) r
    /\ (0 < length (replies w))%nat /\ length (replies w) = S (length (sleeps w))
    /\ Z.of_nat (length (replies w)) <= Z.max 1 (max_attempts (retry config))
    /\ Good (now w) (limiter w) /\ t <= now w.
Proof.
  intros Ht Hr Hg Hmax. unfold unary_sync.
  destruct (sync_loop_run opts (Z.to_nat (attempts_allowed config)) 1
              (MkWorld t l [] [])) as (r & w & reps & ds & E & Er & Ed & Hrun & Hg' & Hn);
    try done; try (unfold attempts_allowed; range).
  exists r, w. cbn in Er, Ed, Hrun. rewrite Er, Ed.
  destruct (RunOf_length opts 1 t l reps ds r Hrun) as (? & ? & ?);
    [unfold attempts_allowed; lia|].
  split_and!; try done. unfold attempts_allowed in *. lia.
Qed.

(** C24.  The blocking call always returns.  It makes at least one and at most
    max(1, max_attempts) attempts, one more than it sleeps, each after a slot of the
    limiter and with a fresh context.  Every attempt but the last failed with
    RESOURCE_EXHAUSTED or UNAVAILABLE, whichever of them the policy retries, and the
    call's options do not forbid it; before the next one it slept the seconds of the
    x-ratelimit-reset header plus 200 ms, or attempt seconds without that header, or,
    after UNAVAILABLE, 100 ms doubled per attempt up to 25.6 s, never more than
    max_wait.  The result is the response of the last attempt if its status is OK; else
    the error that describes it, and then it was not of that kind, or the last one
    allowed, or its delay exceeded max_wait. *)
Theorem unary_sync_run (opts : CallOptions) (t : Z) (l : L) :
  Timely -> Readable -> Good t l -> max_attempts (retry config) <= wmax W32 ->
  exists r w, unary_sync config opts method server sleep t l = Val (Some (r, w))
    /\ RunOf opts 1 t l (replies w) (sleeps w) r
    /\ (0 < length (replies w))%nat /\ length (replies w) = S (length (sleeps w))
    /\ Z.of_nat (length (replies w)) <= Z.max 1 (max_attempts (retry config)).
Proof.
  intros Ht Hr Hg Hmax.
  destruct (unary_sync_ok opts t l Ht Hr Hg Hmax) as (r & w & ? & ? & ? & ? & ? & _).
  by exists r, w.
Qed.

(** The per-call retry override can only disable retries: with [retry =
    false] there is exactly one attempt and no sleep; [retry = true] behaves
    exactly as no override at all, so it cannot enable a retry that the
    client's policy forbids. *)
Theorem retry_override_only_disables (timeout : option Z) (md : list (string * string))
    (t : Z) (l : L) :
  Timely -> Readable -> Good t l -> max_attempts (retry config) <= wmax W32 ->
  (exists r w rep,
     unary_sync config (MkCallOptions timeout md (Some false)) method server sleep t l
       = Val (Some (r, w))
     /\ replies w = [rep] /\ sleeps w = []
     /\ EndsWith (MkCallOptions timeout md (Some false)) 1 rep r)
  /\ unary_sync config (MkCallOptions timeout md (Some true)) method server sleep t l
     = unary_sync config (MkCallOptions timeout md None) method server sleep t l.
Proof.
  intros Ht Hr Hg Hmax. split.
  - destruct (unary_sync_ok (MkCallOptions timeout md (Some false)) t l Ht Hr Hg Hmax)
      as (r & w & E & Hrun & Hpos & Hlen & _).
    exists r, w.
    inversion Hrun as [n0 t0 l0 t' l' rep r0 _ _ Hend|n0 t0 l0 t' l' rep d reps ds r0 _ _
      (_ & e & _ & [_ Hret] & _) _]; [by exists rep|by destruct Hret].
  - unfold unary_sync. generalize (MkWorld (Resp := Resp) t l [] []). generalize 1.
    induction (Z.to_nat (attempts_allowed config)) as [|f IH]; intros n w; [done|].
    cbn [sync_loop].
    destruct (lim_acquire (limiter w) (now w) method) as [[t' lim]|]; [|done].
    cbn [mbind outcome_bind].
    change (setup_context config t' new_context (MkCallOptions timeout md (Some true)))
      with (setup_context config t' new_context (MkCallOptions timeout md None)).
    destruct (status_ok _); [done|].
    destruct (make_error _ _) as [e|]; [|done]. cbn [mbind outcome_bind].
    replace (retryable config (MkCallOptions timeout md (Some true)) e)
      with (retryable config (MkCallOptions timeout md None) e)
      by (unfold retryable; cbn; by rewrite andb_true_r).
    destruct (negb _ || _); [done|]. destruct (max_wait _ <? _); [done|].
    destruct (checked _ _) as [n'|]; [|done]. cbn [mbind outcome_bind]. apply IH.
Qed.

(** With retries forbidden, the blocking call is one attempt whose reply is treated as
    the callback of the asynchronous call does, undefined behaviour included. *)
Definition without_retry (opts : CallOptions) : CallOptions :=
  MkCallOptions (timeout opts) (metadata opts) (Some false).

Lemma sync_without_retry opts srv slp t l t' l' :
  lim_acquire l t method = Val (t', l') ->
  unary_sync (Resp := Resp) config (without_retry opts) method srv slp t l
  = (let rep := srv 1 t' (setup_context config t' new_context opts) in
     r ← on_complete rep; mret (Some (r, MkWorld (finished rep) l' [rep] []))).
Proof.
  intros Ea. unfold unary_sync, attempts_allowed.
  replace (Z.to_nat (Z.max 1 (max_attempts (retry config))))
    with (S (Z.to_nat (Z.max 1 (max_attempts (retry config)) - 1))) by lia.
  cbn [sync_loop]. cbn [now limiter]. rewrite Ea. cbn [mbind outcome_bind].
  change (setup_context config t' new_context (without_retry opts))
    with (setup_context config t' new_context opts).
  unfold on_complete. cbv zeta. destruct (status_ok _); [done|].
  destruct (make_error _ _) as [e|]; [|done]. cbn [mbind outcome_bind].
  unfold retryable. cbn [retry_override without_retry]. by rewrite andb_false_r.
Qed.

Lemma on_complete_result (rep : Reply Resp) :
  match on_complete rep with
  | Val r => error_code (status rep) = OK /\ r = ResultValue (response rep)
             \/ error_code (status rep) <> OK
                /\ exists e, ErrorOf (status rep) (trailers rep) e /\ r = ResultError e
  | UB => error_code (status rep) <> OK /\ ~ IntHeaders (trailers rep)
  end.
Proof.
  unfold on_complete. pose proof (status_ok_spec rep) as Hok.
  destruct (status_ok (status rep)); [left; split; [by apply Hok|done]|].
  assert (error_code (status rep) <> OK) by (intros E; by apply Hok in E).
  destruct (make_error _ _) as [e|] eqn:Ee; cbn [mbind outcome_bind].
  - right. split; [done|]. exists e. split; [|done]. by apply make_error_describes.
  - split; [done|]. intros Hh.
    apply (make_error_defined (status rep)) in Hh as (e & He). congruence.
Qed.

(** C25.  The asynchronous call is the blocking call without retries and without
    waiting.  If the limiter has no slot, the callback gets at once, and no call is
    started, the error with the code RESOURCE_EXHAUSTED, the api_code "client", the
    message "client-side rate limit exceeded", and nothing else.  If it has one, it is
    taken, and one call is started with the context of a blocking call; for any server,
    what the callback is then given is what a blocking call with retries forbidden
    returns from the same state, which sleeps nowhere and leaves the limiter in the same
    state; and this is the response if the status is OK and otherwise the error that
    describes the reply. *)
Theorem unary_async_once (opts : CallOptions) (t : Z) (l : L) :
  Good t l ->
  exists free l', lim_try l t method = Val (free, l') /\ Good t l'
  /\ if free : bool then
       let ctx := setup_context config t new_context opts in
       unary_async (Resp := Resp) config opts method t l = Val (Started ctx, l')
       /\ (forall (srv : Z -> Z -> ClientContext -> Reply Resp) slp,
             unary_sync config (without_retry opts) method srv slp t l
             = (let rep := srv 1 t ctx in
                r ← on_complete rep; mret (Some (r, MkWorld (finished rep) l' [rep] []))))
       /\ forall (rep : Reply Resp) r, on_complete rep = Val r ->
            error_code (status rep) = OK /\ r = ResultValue (response rep)
            \/ error_code (status rep) <> OK
               /\ exists e, ErrorOf (status rep) (trailers rep) e /\ r = ResultError e
     else exists e, unary_async (Resp := Resp) config opts method t l
                    = Val (Completed (ResultError e), l')
       /\ code e = RESOURCE_EXHAUSTED /\ message e = "client-side rate limit exceeded"%string
       /\ api_code e = "client"%string /\ tracking_id e = ""%string
       /\ ratelimit e = MkRateLimitInfo (-1) (-1) (-1).
Proof.
  intros Hg. destruct (try_good t l method Hg) as (free & l' & E & Hg').
  exists free, l'. split_and!; [done..|]. unfold unary_async. rewrite E.
  destruct free; cbn [mbind outcome_bind negb].
  - split_and!; [done| |].
    + intros srv slp. apply sync_without_retry. by apply try_now.
    + intros rep r Er. pose proof (on_complete_result rep) as Hr. by rewrite Er in Hr.
  - by exists client_rate_error.
Qed.

End Laws.

(** ** Witnesses: the SDK's limiter, a server that is rate limited once *)

#[local] Instance prompt : Wake := {| wake := fun _ d => d; wake_late := fun _ d => Z.le_refl d |}.

Definition sample_server (n t : Z) (_ : ClientContext) : Reply string :=
  if n =? 1
  then MkReply (MkStatus 8 "80002") [("x-ratelimit-reset", "0")]%string "" (t + 5)
  else MkReply (MkStatus 0 "") [] "mock" (t + 5).

Definition sample_sleep (t d : Z) : Z := t + Z.max 0 d.

Lemma sample_timely : Timely sample_server sample_sleep.
Proof.
  split.
  - intros n t ctx. unfold sample_server. destruct (n =? 1); cbn; lia.
  - intros t d. unfold sample_sleep. lia.
Defined.

Lemma sample_readable : Readable sample_server.
Proof.
  intros n t ctx. unfold sample_server.
  destruct (n =? 1); (split; [|split]); eexists; vm_compute; reflexivity.
Defined.

Lemma sample_good : reachable_limiter 1000 (rate_limiter 60000).
Proof.
  exists (system_init 60000). split; [reflexivity|].
  apply (system_later 0); [lia|]. by apply system_init_ok.
Defined.

Lemma unary_sync_run_witness :
  exists r w, unary_sync (default_config "t") default_options "svc/A" sample_server
                sample_sleep 1000 (rate_limiter 60000) = Val (Some (r, w))
    /\ RunOf (default_config "t") "svc/A" sample_server sample_sleep default_options 1 1000
         (rate_limiter 60000) (replies w) (sleeps w) r
    /\ (0 < length (replies w))%nat /\ length (replies w) = S (length (sleeps w))
    /\ Z.of_nat (length (replies w)) <= Z.max 1 3.
Proof.
  exact (unary_sync_run (default_config "t") "svc/A" sample_server sample_sleep
           default_options 1000 (rate_limiter 60000) sample_timely sample_readable
           sample_good ltac:(done)).
Defined.

Lemma retry_override_only_disables_witness :
  exists r w rep, unary_sync (default_config "t") (MkCallOptions None [] (Some false))
      "svc/A" sample_server sample_sleep 1000 (rate_limiter 60000) = Val (Some (r, w))
    /\ replies w = [rep] /\ sleeps w = []
    /\ EndsWith (default_config "t") (MkCallOptions None [] (Some false)) 1 rep r.
Proof.
  exact (proj1 (retry_override_only_disables (default_config "t") "svc/A" sample_server
           sample_sleep None [] 1000 (rate_limiter 60000) sample_timely sample_readable
           sample_good ltac:(done))).
Defined.

Lemma unary_async_once_witness :
  exists free l', lim_try (rate_limiter 60000) 1000 "svc/A" = Val (free, l')
    /\ reachable_limiter 1000 l'.
Proof.
  destruct (unary_async_once (Resp := string) (default_config "t") "svc/A"
              default_options 1000 (rate_limiter 60000) sample_good)
    as (free & l' & E & Hg & _). exists free, l'. split; [exact E|exact Hg].
Defined.

(** The retried call of tests/client_test.cpp: two attempts, one sleep. *)
Example test_rate_limited_retry :
  (o ← unary_sync (default_config "t") default_options "svc/A" sample_server
         sample_sleep 1000 (rate_limiter 60000);
   mret (match o with
         | Some (r, w) => (result_value r, length (replies w), sleeps w)
         | None => (None, 0%nat, []) end))
  = Val (Some "mock"%string, 2%nat, [200]).
Proof. vm_compute. reflexivity. Qed.
