(* ===== verification/Contracts.v ===== *)
(** * The service contracts ([contracts/*.proto])

    The services and RPCs that the protocol files declare: for each RPC its name,
    its request and response messages and which sides stream.  Messages are
    named; the classes generated for them are a parameter of the models that
    exchange them. *)

From S2P Require Import Prelude.
From stdpp Require Import base list strings.

Record Rpc := MkRpc {
  rpc_name : string; rpc_request : string; rpc_response : string;
  client_streams : bool; server_streams : bool }.

Definition unary (n rq rs : string) : Rpc := MkRpc n rq rs false false.
Definition server_streaming (n rq rs : string) : Rpc := MkRpc n rq rs false true.
Definition bidirectional (n rq rs : string) : Rpc := MkRpc n rq rs true true.

Record ServiceContract := MkContract {
  package : string; service_name : string; rpcs : list Rpc }.

(** All files are in this package. *)
Definition contract (n : string) (l : list Rpc) : ServiceContract :=
  MkContract "tinkoff.public.invest.api.contract.v1" n l.

#[export] Instance Rpc_eq_dec : EqDecision Rpc.
Proof. solve_decision. Defined.

Definition is_unary (r : Rpc) : bool := negb (client_streams r) && negb (server_streams r).

(** The name of a service with its package, and the path under which gRPC calls
    one of its RPCs. *)
Definition full_name (s : ServiceContract) : string := package s +:+ "." +:+ service_name s.
Definition wire_path (service rpc : string) : string := "/" +:+ service +:+ "/" +:+ rpc.

Definition UsersService_contract : ServiceContract := contract "UsersService" [
  unary "GetAccounts" "GetAccountsRequest" "GetAccountsResponse";
  unary "GetMarginAttributes" "GetMarginAttributesRequest" "GetMarginAttributesResponse";
  unary "GetUserTariff" "GetUserTariffRequest" "GetUserTariffResponse";
  unary "GetInfo" "GetInfoRequest" "GetInfoResponse";
  unary "GetBankAccounts" "GetBankAccountsRequest" "GetBankAccountsResponse";
  unary "CurrencyTransfer" "CurrencyTransferRequest" "CurrencyTransferResponse"].

Definition InstrumentsService_contract : ServiceContract := contract "InstrumentsService" [
  unary "TradingSchedules" "TradingSchedulesRequest" "TradingSchedulesResponse";
  unary "BondBy" "InstrumentRequest" "BondResponse";
  unary "Bonds" "InstrumentsRequest" "BondsResponse";
  unary "GetBondCoupons" "GetBondCouponsRequest" "GetBondCouponsResponse";
  unary "GetBondEvents" "GetBondEventsRequest" "GetBondEventsResponse";
  unary "CurrencyBy" "InstrumentRequest" "CurrencyResponse";
  unary "Currencies" "InstrumentsRequest" "CurrenciesResponse";
  unary "EtfBy" "InstrumentRequest" "EtfResponse";
  unary "Etfs" "InstrumentsRequest" "EtfsResponse";
  unary "FutureBy" "InstrumentRequest" "FutureResponse";
  unary "Futures" "InstrumentsRequest" "FuturesResponse";
  unary "OptionBy" "InstrumentRequest" "OptionResponse";
  unary "Options" "InstrumentsRequest" "OptionsResponse";
  unary "OptionsBy" "FilterOptionsRequest" "OptionsResponse";
  unary "ShareBy" "InstrumentRequest" "ShareResponse";
  unary "Shares" "InstrumentsRequest" "SharesResponse";
  unary "Indicatives" "IndicativesRequest" "IndicativesResponse";
  unary "GetAccruedInterests" "GetAccruedInterestsRequest" "GetAccruedInterestsResponse";
  unary "GetFuturesMargin" "GetFuturesMarginRequest" "GetFuturesMarginResponse";
  unary "GetInstrumentBy" "InstrumentRequest" "InstrumentResponse";
  unary "GetDividends" "GetDividendsRequest" "GetDividendsResponse";
  unary "GetAssetBy" "AssetRequest" "AssetResponse";
  unary "GetAssets" "AssetsRequest" "AssetsResponse";
  unary "GetFavorites" "GetFavoritesRequest" "GetFavoritesResponse";
  unary "EditFavorites" "EditFavoritesRequest" "EditFavoritesResponse";
  unary "CreateFavoriteGroup" "CreateFavoriteGroupRequest" "CreateFavoriteGroupResponse";
  unary "DeleteFavoriteGroup" "DeleteFavoriteGroupRequest" "DeleteFavoriteGroupResponse";
  unary "GetFavoriteGroups" "GetFavoriteGroupsRequest" "GetFavoriteGroupsResponse";
  unary "GetCountries" "GetCountriesRequest" "GetCountriesResponse";
  unary "FindInstrument" "FindInstrumentRequest" "FindInstrumentResponse";
  unary "GetBrands" "GetBrandsRequest" "GetBrandsResponse";
  unary "GetBrandBy" "GetBrandRequest" "Brand";
  unary "GetAssetFundamentals" "GetAssetFundamentalsRequest" "GetAssetFundamentalsResponse";
  unary "GetAssetReports" "GetAssetReportsRequest" "GetAssetReportsResponse";
  unary "GetConsensusForecasts" "GetConsensusForecastsRequest" "GetConsensusForecastsResponse";
  unary "GetForecastBy" "GetForecastRequest" "GetForecastResponse";
  unary "GetRiskRates" "RiskRatesRequest" "RiskRatesResponse";
  unary "GetInsiderDeals" "GetInsiderDealsRequest" "GetInsiderDealsResponse";
  unary "StructuredNoteBy" "InstrumentRequest" "StructuredNoteResponse";
  unary "StructuredNotes" "InstrumentsRequest" "StructuredNotesResponse"].

Definition MarketDataService_contract : ServiceContract := contract "MarketDataService" [
  unary "GetCandles" "GetCandlesRequest" "GetCandlesResponse";
  unary "GetLastPrices" "GetLastPricesRequest" "GetLastPricesResponse";
  unary "GetOrderBook" "GetOrderBookRequest" "GetOrderBookResponse";
  unary "GetTradingStatus" "GetTradingStatusRequest" "GetTradingStatusResponse";
  unary "GetTradingStatuses" "GetTradingStatusesRequest" "GetTradingStatusesResponse";
  unary "GetLastTrades" "GetLastTradesRequest" "GetLastTradesResponse";
  unary "GetClosePrices" "GetClosePricesRequest" "GetClosePricesResponse";
  unary "GetTechAnalysis" "GetTechAnalysisRequest" "GetTechAnalysisResponse";
  unary "GetMarketValues" "GetMarketValuesRequest" "GetMarketValuesResponse"].

Definition MarketDataStreamService_contract : ServiceContract := contract "MarketDataStreamService" [
  bidirectional "MarketDataStream" "MarketDataRequest" "MarketDataResponse";
  server_streaming "MarketDataServerSideStream" "MarketDataServerSideStreamRequest" "MarketDataResponse"].

Definition OperationsService_contract : ServiceContract := contract "OperationsService" [
  unary "GetOperations" "OperationsRequest" "OperationsResponse";
  unary "GetPortfolio" "PortfolioRequest" "PortfolioResponse";
  unary "GetPositions" "PositionsRequest" "PositionsResponse";
  unary "GetWithdrawLimits" "WithdrawLimitsRequest" "WithdrawLimitsResponse";
  unary "GetBrokerReport" "BrokerReportRequest" "BrokerReportResponse";
  unary "GetDividendsForeignIssuer" "GetDividendsForeignIssuerRequest" "GetDividendsForeignIssuerResponse";
  unary "GetOperationsByCursor" "GetOperationsByCursorRequest" "GetOperationsByCursorResponse"].

Definition OperationsStreamService_contract : ServiceContract := contract "OperationsStreamService" [
  server_streaming "PortfolioStream" "PortfolioStreamRequest" "PortfolioStreamResponse";
  server_streaming "PositionsStream" "PositionsStreamRequest" "PositionsStreamResponse"].

Definition OrdersStreamService_contract : ServiceContract := contract "OrdersStreamService" [
  server_streaming "TradesStream" "TradesStreamRequest" "TradesStreamResponse";
  server_streaming "OrderStateStream" "OrderStateStreamRequest" "OrderStateStreamResponse"].

Definition OrdersService_contract : ServiceContract := contract "OrdersService" [
  unary "PostOrder" "PostOrderRequest" "PostOrderResponse";
  unary "PostOrderAsync" "PostOrderAsyncRequest" "PostOrderAsyncResponse";
  unary "CancelOrder" "CancelOrderRequest" "CancelOrderResponse";
  unary "GetOrderState" "GetOrderStateRequest" "OrderState";
  unary "GetOrders" "GetOrdersRequest" "GetOrdersResponse";
  unary "ReplaceOrder" "ReplaceOrderRequest" "PostOrderResponse";
  unary "GetMaxLots" "GetMaxLotsRequest" "GetMaxLotsResponse";
  unary "GetOrderPrice" "GetOrderPriceRequest" "GetOrderPriceResponse"].

Definition StopOrdersService_contract : ServiceContract := contract "StopOrdersService" [
  unary "PostStopOrder" "PostStopOrderRequest" "PostStopOrderResponse";
  unary "GetStopOrders" "GetStopOrdersRequest" "GetStopOrdersResponse";
  unary "CancelStopOrder" "CancelStopOrderRequest" "CancelStopOrderResponse"].

Definition SandboxService_contract : ServiceContract := contract "SandboxService" [
  unary "OpenSandboxAccount" "OpenSandboxAccountRequest" "OpenSandboxAccountResponse";
  unary "GetSandboxAccounts" "GetAccountsRequest" "GetAccountsResponse";
  unary "CloseSandboxAccount" "CloseSandboxAccountRequest" "CloseSandboxAccountResponse";
  unary "PostSandboxOrder" "PostOrderRequest" "PostOrderResponse";
  unary "PostSandboxOrderAsync" "PostOrderAsyncRequest" "PostOrderAsyncResponse";
  unary "ReplaceSandboxOrder" "ReplaceOrderRequest" "PostOrderResponse";
  unary "GetSandboxOrders" "GetOrdersRequest" "GetOrdersResponse";
  unary "CancelSandboxOrder" "CancelOrderRequest" "CancelOrderResponse";
  unary "GetSandboxOrderState" "GetOrderStateRequest" "OrderState";
  unary "GetSandboxOrderPrice" "GetOrderPriceRequest" "GetOrderPriceResponse";
  unary "GetSandboxPositions" "PositionsRequest" "PositionsResponse";
  unary "GetSandboxOperations" "OperationsRequest" "OperationsResponse";
  unary "GetSandboxOperationsByCursor" "GetOperationsByCursorRequest" "GetOperationsByCursorResponse";
  unary "GetSandboxPortfolio" "PortfolioRequest" "PortfolioResponse";
  unary "SandboxPayIn" "SandboxPayInRequest" "SandboxPayInResponse";
  unary "GetSandboxWithdrawLimits" "WithdrawLimitsRequest" "WithdrawLimitsResponse";
  unary "GetSandboxMaxLots" "GetMaxLotsRequest" "GetMaxLotsResponse";
  unary "PostSandboxStopOrder" "PostStopOrderRequest" "PostStopOrderResponse";
  unary "GetSandboxStopOrders" "GetStopOrdersRequest" "GetStopOrdersResponse";
  unary "CancelSandboxStopOrder" "CancelStopOrderRequest" "CancelStopOrderResponse"].

Definition SignalService_contract : ServiceContract := contract "SignalService" [
  unary "GetStrategies" "GetStrategiesRequest" "GetStrategiesResponse";
  unary "GetSignals" "GetSignalsRequest" "GetSignalsResponse"].

Definition contracts : list ServiceContract := [
  UsersService_contract;
  InstrumentsService_contract;
  MarketDataService_contract;
  MarketDataStreamService_contract;
  OperationsService_contract;
  OperationsStreamService_contract;
  OrdersStreamService_contract;
  OrdersService_contract;
  StopOrdersService_contract;
  SandboxService_contract;
  SignalService_contract].

Definition find_contract (name : string) : option ServiceContract :=
  list_find (fun s => service_name s = name) contracts ≫= fun p => Some p.2.

Definition find_rpc (s : ServiceContract) (name : string) : option Rpc :=
  list_find (fun r => rpc_name r = name) (rpcs s) ≫= fun p => Some p.2.

(** gRPC's rule that a service does not declare a name twice, checked on the
    files. *)
Example rpc_names_distinct :
  forallb (fun s => bool_decide (NoDup (rpc_name <$> rpcs s))) contracts = true.
Proof. vm_compute. reflexivity. Qed.
