(* ===== verification/Services.v ===== *)
(** * The service classes ([include/tinvest/services.hpp])

    One value per class with its [TINVEST_RPC] lines, the three overloads that
    the macro generates for a line, [Client::users()] ... as the list
    [client_services], and [Client::load_rate_limits] as the code composes it
    from a call and the limiter.  The classes generated from the contracts are
    parameters: [Msg n] is the class of message [n], [grpc_unary] what a stub
    does with a path and a request. *)

From S2P Require Import Prelude StdStrings ErrorResult Client RateLimiter Unary Contracts.
From stdpp Require Import base numbers list strings gmap.
From Stdlib Require Import ZArith Lia Ascii.

#[local] Open Scope Z_scope.

(** ** The classes *)

(** One line [TINVEST_RPC(name, Rpc, pb::ReqT, pb::RespT)]. *)
Record Method := TINVEST_RPC {
  fn_name : string; RpcName : string; ReqT : string; RespT : string }.

(** [kServiceFullName], the service [pb::X] whose stub the constructor creates,
    and the methods. *)
Record ServiceClass := MkServiceClass {
  kServiceFullName : string; stub_service : ServiceContract; class_methods : list Method }.

Definition UsersService : ServiceClass := MkServiceClass
  "tinkoff.public.invest.api.contract.v1.UsersService"
  UsersService_contract [
  TINVEST_RPC "get_accounts" "GetAccounts" "GetAccountsRequest" "GetAccountsResponse";
  TINVEST_RPC "get_margin_attributes" "GetMarginAttributes" "GetMarginAttributesRequest" "GetMarginAttributesResponse";
  TINVEST_RPC "get_user_tariff" "GetUserTariff" "GetUserTariffRequest" "GetUserTariffResponse";
  TINVEST_RPC "get_info" "GetInfo" "GetInfoRequest" "GetInfoResponse";
  TINVEST_RPC "get_bank_accounts" "GetBankAccounts" "GetBankAccountsRequest" "GetBankAccountsResponse";
  TINVEST_RPC "currency_transfer" "CurrencyTransfer" "CurrencyTransferRequest" "CurrencyTransferResponse"].

Definition InstrumentsService : ServiceClass := MkServiceClass
  "tinkoff.public.invest.api.contract.v1.InstrumentsService"
  InstrumentsService_contract [
  TINVEST_RPC "trading_schedules" "TradingSchedules" "TradingSchedulesRequest" "TradingSchedulesResponse";
  TINVEST_RPC "bond_by" "BondBy" "InstrumentRequest" "BondResponse";
  TINVEST_RPC "bonds" "Bonds" "InstrumentsRequest" "BondsResponse";
  TINVEST_RPC "get_bond_coupons" "GetBondCoupons" "GetBondCouponsRequest" "GetBondCouponsResponse";
  TINVEST_RPC "get_bond_events" "GetBondEvents" "GetBondEventsRequest" "GetBondEventsResponse";
  TINVEST_RPC "currency_by" "CurrencyBy" "InstrumentRequest" "CurrencyResponse";
  TINVEST_RPC "currencies" "Currencies" "InstrumentsRequest" "CurrenciesResponse";
  TINVEST_RPC "etf_by" "EtfBy" "InstrumentRequest" "EtfResponse";
  TINVEST_RPC "etfs" "Etfs" "InstrumentsRequest" "EtfsResponse";
  TINVEST_RPC "future_by" "FutureBy" "InstrumentRequest" "FutureResponse";
  TINVEST_RPC "futures" "Futures" "InstrumentsRequest" "FuturesResponse";
  TINVEST_RPC "option_by" "OptionBy" "InstrumentRequest" "OptionResponse";
  TINVEST_RPC "options" "Options" "InstrumentsRequest" "OptionsResponse";
  TINVEST_RPC "options_by" "OptionsBy" "FilterOptionsRequest" "OptionsResponse";
  TINVEST_RPC "share_by" "ShareBy" "InstrumentRequest" "ShareResponse";
  TINVEST_RPC "shares" "Shares" "InstrumentsRequest" "SharesResponse";
  TINVEST_RPC "indicatives" "Indicatives" "IndicativesRequest" "IndicativesResponse";
  TINVEST_RPC "get_accrued_interests" "GetAccruedInterests" "GetAccruedInterestsRequest" "GetAccruedInterestsResponse";
  TINVEST_RPC "get_futures_margin" "GetFuturesMargin" "GetFuturesMarginRequest" "GetFuturesMarginResponse";
  TINVEST_RPC "get_instrument_by" "GetInstrumentBy" "InstrumentRequest" "InstrumentResponse";
  TINVEST_RPC "get_dividends" "GetDividends" "GetDividendsRequest" "GetDividendsResponse";
  TINVEST_RPC "get_asset_by" "GetAssetBy" "AssetRequest" "AssetResponse";
  TINVEST_RPC "get_assets" "GetAssets" "AssetsRequest" "AssetsResponse";
  TINVEST_RPC "get_favorites" "GetFavorites" "GetFavoritesRequest" "GetFavoritesResponse";
  TINVEST_RPC "edit_favorites" "EditFavorites" "EditFavoritesRequest" "EditFavoritesResponse";
  TINVEST_RPC "create_favorite_group" "CreateFavoriteGroup" "CreateFavoriteGroupRequest" "CreateFavoriteGroupResponse";
  TINVEST_RPC "delete_favorite_group" "DeleteFavoriteGroup" "DeleteFavoriteGroupRequest" "DeleteFavoriteGroupResponse";
  TINVEST_RPC "get_favorite_groups" "GetFavoriteGroups" "GetFavoriteGroupsRequest" "GetFavoriteGroupsResponse";
  TINVEST_RPC "get_countries" "GetCountries" "GetCountriesRequest" "GetCountriesResponse";
  TINVEST_RPC "find_instrument" "FindInstrument" "FindInstrumentRequest" "FindInstrumentResponse";
  TINVEST_RPC "get_brands" "GetBrands" "GetBrandsRequest" "GetBrandsResponse";
  TINVEST_RPC "get_brand_by" "GetBrandBy" "GetBrandRequest" "Brand";
  TINVEST_RPC "get_asset_fundamentals" "GetAssetFundamentals" "GetAssetFundamentalsRequest" "GetAssetFundamentalsResponse";
  TINVEST_RPC "get_asset_reports" "GetAssetReports" "GetAssetReportsRequest" "GetAssetReportsResponse";
  TINVEST_RPC "get_consensus_forecasts" "GetConsensusForecasts" "GetConsensusForecastsRequest" "GetConsensusForecastsResponse";
  TINVEST_RPC "get_forecast_by" "GetForecastBy" "GetForecastRequest" "GetForecastResponse";
  TINVEST_RPC "get_risk_rates" "GetRiskRates" "RiskRatesRequest" "RiskRatesResponse";
  TINVEST_RPC "get_insider_deals" "GetInsiderDeals" "GetInsiderDealsRequest" "GetInsiderDealsResponse";
  TINVEST_RPC "structured_note_by" "StructuredNoteBy" "InstrumentRequest" "StructuredNoteResponse";
  TINVEST_RPC "structured_notes" "StructuredNotes" "InstrumentsRequest" "StructuredNotesResponse"].

Definition MarketDataService : ServiceClass := MkServiceClass
  "tinkoff.public.invest.api.contract.v1.MarketDataService"
  MarketDataService_contract [
  TINVEST_RPC "get_candles" "GetCandles" "GetCandlesRequest" "GetCandlesResponse";
  TINVEST_RPC "get_last_prices" "GetLastPrices" "GetLastPricesRequest" "GetLastPricesResponse";
  TINVEST_RPC "get_order_book" "GetOrderBook" "GetOrderBookRequest" "GetOrderBookResponse";
  TINVEST_RPC "get_trading_status" "GetTradingStatus" "GetTradingStatusRequest" "GetTradingStatusResponse";
  TINVEST_RPC "get_trading_statuses" "GetTradingStatuses" "GetTradingStatusesRequest" "GetTradingStatusesResponse";
  TINVEST_RPC "get_last_trades" "GetLastTrades" "GetLastTradesRequest" "GetLastTradesResponse";
  TINVEST_RPC "get_close_prices" "GetClosePrices" "GetClosePricesRequest" "GetClosePricesResponse";
  TINVEST_RPC "get_tech_analysis" "GetTechAnalysis" "GetTechAnalysisRequest" "GetTechAnalysisResponse";
  TINVEST_RPC "get_market_values" "GetMarketValues" "GetMarketValuesRequest" "GetMarketValuesResponse"].

Definition OperationsService : ServiceClass := MkServiceClass
  "tinkoff.public.invest.api.contract.v1.OperationsService"
  OperationsService_contract [
  TINVEST_RPC "get_operations" "GetOperations" "OperationsRequest" "OperationsResponse";
  TINVEST_RPC "get_portfolio" "GetPortfolio" "PortfolioRequest" "PortfolioResponse";
  TINVEST_RPC "get_positions" "GetPositions" "PositionsRequest" "PositionsResponse";
  TINVEST_RPC "get_withdraw_limits" "GetWithdrawLimits" "WithdrawLimitsRequest" "WithdrawLimitsResponse";
  TINVEST_RPC "get_broker_report" "GetBrokerReport" "BrokerReportRequest" "BrokerReportResponse";
  TINVEST_RPC "get_dividends_foreign_issuer" "GetDividendsForeignIssuer" "GetDividendsForeignIssuerRequest" "GetDividendsForeignIssuerResponse";
  TINVEST_RPC "get_operations_by_cursor" "GetOperationsByCursor" "GetOperationsByCursorRequest" "GetOperationsByCursorResponse"].

Definition OrdersService : ServiceClass := MkServiceClass
  "tinkoff.public.invest.api.contract.v1.OrdersService"
  OrdersService_contract [
  TINVEST_RPC "post_order" "PostOrder" "PostOrderRequest" "PostOrderResponse";
  TINVEST_RPC "post_order_async" "PostOrderAsync" "PostOrderAsyncRequest" "PostOrderAsyncResponse";
  TINVEST_RPC "cancel_order" "CancelOrder" "CancelOrderRequest" "CancelOrderResponse";
  TINVEST_RPC "get_order_state" "GetOrderState" "GetOrderStateRequest" "OrderState";
  TINVEST_RPC "get_orders" "GetOrders" "GetOrdersRequest" "GetOrdersResponse";
  TINVEST_RPC "replace_order" "ReplaceOrder" "ReplaceOrderRequest" "PostOrderResponse";
  TINVEST_RPC "get_max_lots" "GetMaxLots" "GetMaxLotsRequest" "GetMaxLotsResponse";
  TINVEST_RPC "get_order_price" "GetOrderPrice" "GetOrderPriceRequest" "GetOrderPriceResponse"].

Definition StopOrdersService : ServiceClass := MkServiceClass
  "tinkoff.public.invest.api.contract.v1.StopOrdersService"
  StopOrdersService_contract [
  TINVEST_RPC "post_stop_order" "PostStopOrder" "PostStopOrderRequest" "PostStopOrderResponse";
  TINVEST_RPC "get_stop_orders" "GetStopOrders" "GetStopOrdersRequest" "GetStopOrdersResponse";
  TINVEST_RPC "cancel_stop_order" "CancelStopOrder" "CancelStopOrderRequest" "CancelStopOrderResponse"].

Definition SandboxService : ServiceClass := MkServiceClass
  "tinkoff.public.invest.api.contract.v1.SandboxService"
  SandboxService_contract [
  TINVEST_RPC "open_sandbox_account" "OpenSandboxAccount" "OpenSandboxAccountRequest" "OpenSandboxAccountResponse";
  TINVEST_RPC "get_sandbox_accounts" "GetSandboxAccounts" "GetAccountsRequest" "GetAccountsResponse";
  TINVEST_RPC "close_sandbox_account" "CloseSandboxAccount" "CloseSandboxAccountRequest" "CloseSandboxAccountResponse";
  TINVEST_RPC "post_sandbox_order" "PostSandboxOrder" "PostOrderRequest" "PostOrderResponse";
  TINVEST_RPC "post_sandbox_order_async" "PostSandboxOrderAsync" "PostOrderAsyncRequest" "PostOrderAsyncResponse";
  TINVEST_RPC "replace_sandbox_order" "ReplaceSandboxOrder" "ReplaceOrderRequest" "PostOrderResponse";
  TINVEST_RPC "get_sandbox_orders" "GetSandboxOrders" "GetOrdersRequest" "GetOrdersResponse";
  TINVEST_RPC "cancel_sandbox_order" "CancelSandboxOrder" "CancelOrderRequest" "CancelOrderResponse";
  TINVEST_RPC "get_sandbox_order_state" "GetSandboxOrderState" "GetOrderStateRequest" "OrderState";
  TINVEST_RPC "get_sandbox_order_price" "GetSandboxOrderPrice" "GetOrderPriceRequest" "GetOrderPriceResponse";
  TINVEST_RPC "get_sandbox_positions" "GetSandboxPositions" "PositionsRequest" "PositionsResponse";
  TINVEST_RPC "get_sandbox_operations" "GetSandboxOperations" "OperationsRequest" "OperationsResponse";
  TINVEST_RPC "get_sandbox_operations_by_cursor" "GetSandboxOperationsByCursor" "GetOperationsByCursorRequest" "GetOperationsByCursorResponse";
  TINVEST_RPC "get_sandbox_portfolio" "GetSandboxPortfolio" "PortfolioRequest" "PortfolioResponse";
  TINVEST_RPC "sandbox_pay_in" "SandboxPayIn" "SandboxPayInRequest" "SandboxPayInResponse";
  TINVEST_RPC "get_sandbox_withdraw_limits" "GetSandboxWithdrawLimits" "WithdrawLimitsRequest" "WithdrawLimitsResponse";
  TINVEST_RPC "get_sandbox_max_lots" "GetSandboxMaxLots" "GetMaxLotsRequest" "GetMaxLotsResponse";
  TINVEST_RPC "post_sandbox_stop_order" "PostSandboxStopOrder" "PostStopOrderRequest" "PostStopOrderResponse";
  TINVEST_RPC "get_sandbox_stop_orders" "GetSandboxStopOrders" "GetStopOrdersRequest" "GetStopOrdersResponse";
  TINVEST_RPC "cancel_sandbox_stop_order" "CancelSandboxStopOrder" "CancelStopOrderRequest" "CancelStopOrderResponse"].

Definition SignalService : ServiceClass := MkServiceClass
  "tinkoff.public.invest.api.contract.v1.SignalService"
  SignalService_contract [
  TINVEST_RPC "get_strategies" "GetStrategies" "GetStrategiesRequest" "GetStrategiesResponse";
  TINVEST_RPC "get_signals" "GetSignals" "GetSignalsRequest" "GetSignalsResponse"].
(** The services a client owns, in the order of [Client::Client]. *)
Definition client_services : list ServiceClass :=
  [UsersService; InstrumentsService; MarketDataService; OperationsService; OrdersService;
   StopOrdersService; SandboxService; SignalService].

(** [kMethod] of a line. *)
Definition kMethod (s : ServiceClass) (m : Method) : string :=
  kServiceFullName s +:+ "/" +:+ RpcName m.

(** The path [stub_->Rpc] calls: that of the RPC [RpcName m] of the contract the
    stub was generated from. *)
Definition stub_path (s : ServiceClass) (m : Method) : string :=
  wire_path (full_name (stub_service s)) (RpcName m).

(** ** The overloads *)

Section Calls.
Context `{GrpcCodes} {L : Type} `{Limiter L} (config : Config).
Context {Msg : string -> Type}.
(** The reply to attempt [n] of a call on a path, sent at time [t]. *)
Context (grpc_unary : string -> forall rq rs, Msg rq -> Z -> Z -> ClientContext
                      -> Reply (Msg rs)).
Context (sleep : Z -> Z -> Z).

Definition stub_call (s : ServiceClass) (m : Method) (req : Msg (ReqT m))
    (n t : Z) (ctx : ClientContext) : Reply (Msg (RespT m)) :=
  grpc_unary (stub_path s m) (ReqT m) (RespT m) req n t ctx.

(** [Result<RespT> name(const ReqT&, const CallOptions&)] *)
Definition call_sync (s : ServiceClass) (m : Method) (req : Msg (ReqT m))
    (opts : CallOptions) (t : Z) (l : L)
    : outcome (option (Result (Msg (RespT m)) * World (L := L))) :=
  unary_sync config opts (kMethod s m) (stub_call s m req) sleep t l.

(** [void name(ReqT, Callback<RespT>, const CallOptions&)]: the callback runs at
    once, or the stub sends the request. *)
Inductive async_call (m : Method) :=
  | CallbackNow (r : Result (Msg (RespT m)))
  | Sent (path : string) (req : Msg (ReqT m)) (ctx : ClientContext).

Definition call_async (s : ServiceClass) (m : Method) (req : Msg (ReqT m))
    (opts : CallOptions) (t : Z) (l : L) : outcome (async_call m * L) :=
  '(a, l') ← unary_async (Resp := Msg (RespT m)) config opts (kMethod s m) t l;
  mret (match a with
        | Completed r => CallbackNow m r
        | Started ctx => Sent m (stub_path s m) req ctx
        end, l').

(** [auto name(ReqT, use_awaitable_t, const CallOptions&)]: the function of the
    [UnaryAwaiter] it returns, which calls the overload above with the request and
    options it keeps.  Coroutine.v runs such a function as an [InStart] action. *)
Definition call_awaitable (s : ServiceClass) (m : Method) (req : Msg (ReqT m))
    (opts : CallOptions) : Z -> L -> outcome (async_call m * L) :=
  fun t l => call_async s m req opts t l.
End Calls.
Arguments CallbackNow {Msg m}. Arguments Sent {Msg m}.

Definition get_user_tariff : Method :=
  TINVEST_RPC "get_user_tariff" "GetUserTariff" "GetUserTariffRequest" "GetUserTariffResponse".

(** [Client::load_rate_limits]: a blocking call of [get_user_tariff] with a default
    request, whose response configures the limiter.  [fields] reads the
    generated message. *)
Section LoadRateLimits.
Context `{GrpcCodes, Wake} (config : Config) {Msg : string -> Type}.
Context (grpc_unary : string -> forall rq rs, Msg rq -> Z -> Z -> ClientContext
                      -> Reply (Msg rs)).
Context (sleep : Z -> Z -> Z).
Context (default_request : Msg "GetUserTariffRequest").
Context (fields : Msg "GetUserTariffResponse" -> GetUserTariffResponse).

Definition result_map {A B} (f : A -> B) (r : Result A) : Result B :=
  match r with ResultValue a => ResultValue (f a) | ResultError e => ResultError e end.

Definition client_load_rate_limits (t : Z) (r : RateLimiter)
    : outcome (option (Result GetUserTariffResponse * RateLimiter * Z)) :=
  o ← call_sync config grpc_unary sleep UsersService get_user_tariff default_request
        default_options t r;
  mret (match o with
        | Some (res, w) =>
            let '(lim, res') := load_rate_limits (limiter w) (result_map fields res) in
            Some (res', lim, now w)
        | None => None
        end).
End LoadRateLimits.
