(* ===== verification/ServiceTheorems.v ===== *)
(** * The theorems about the service classes *)

From S2P Require Import Prelude StdStrings ErrorResult Client RateLimiter Unary Contracts Services.
From stdpp Require Import base numbers list strings gmap.
From Stdlib Require Import ZArith Lia Ascii.

#[local] Open Scope Z_scope.

(** ** The tables *)

(** A call of the API: its path and its two message types. *)
Definition facade_calls : list (string * string * string) :=
  s ← client_services; m ← class_methods s; [(stub_path s m, ReqT m, RespT m)].

Definition contract_calls : list (string * string * string) :=
  c ← contracts; r ← filter (fun r => is_unary r = true) (rpcs c);
  [(wire_path (full_name c) (rpc_name r), rpc_request r, rpc_response r)].

Definition lower (c : ascii) : ascii := ascii_of_nat (nat_of_ascii c + 32).
Definition is_upper (c : ascii) : bool :=
  (65 <=? nat_of_ascii c)%nat && (nat_of_ascii c <=? 90)%nat.

(** The naming convention of the C++ methods: [GetBondCoupons] is
    [get_bond_coupons]. *)
Fixpoint snake (first : bool) (s : string) : string :=
  match s with
  | EmptyString => EmptyString
  | String c s' =>
      if is_upper c
      then (if first then "" else "_") +:+ String (lower c) (snake false s')
      else String c (snake false s')
  end.

Definition facade_methods : list (ServiceClass * Method) :=
  s ← client_services; m ← class_methods s; [(s, m)].

Lemma facade_methods_spec s m :
  (s, m) ∈ facade_methods <-> s ∈ client_services /\ m ∈ class_methods s.
Proof.
  unfold facade_methods. rewrite list_elem_of_bind. setoid_rewrite list_elem_of_bind.
  setoid_rewrite list_elem_of_singleton. naive_solver.
Qed.

Lemma calls_agree : facade_calls = contract_calls.
Proof. vm_compute. reflexivity. Qed.

Lemma method_names_agree :
  Forall (fun p => stub_path p.1 p.2 = "/" +:+ kMethod p.1 p.2
                   /\ fn_name p.2 = snake true (RpcName p.2)) facade_methods.
Proof.
  assert (E : forallb (fun p => bool_decide (stub_path p.1 p.2 = "/" +:+ kMethod p.1 p.2)
                       && bool_decide (fn_name p.2 = snake true (RpcName p.2)))
              facade_methods = true) by (vm_compute; reflexivity).
  rewrite forallb_forall in E. apply Forall_forall. intros p Hp.
  apply list_elem_of_In in Hp. apply E, andb_true_iff in Hp as [H1 H2].
  by apply bool_decide_eq_true in H1, H2.
Qed.

Lemma kMethods_distinct : NoDup ((fun p => kMethod p.1 p.2) <$> facade_methods).
Proof. apply (bool_decide_eq_true (NoDup _)). vm_compute. reflexivity. Qed.

(** Two lines of the classes with the same limiter name are the same line. *)
Lemma kMethod_inj s m s' m' :
  (s, m) ∈ facade_methods -> (s', m') ∈ facade_methods ->
  kMethod s m = kMethod s' m' -> s = s' /\ m = m'.
Proof.
  intros [i Hi]%list_elem_of_lookup_1 [j Hj]%list_elem_of_lookup_1 E.
  assert (i = j) as <-.
  { eapply (NoDup_lookup _ i j (kMethod s m) kMethods_distinct).
    - by rewrite list_lookup_fmap, Hi.
    - by rewrite list_lookup_fmap, Hj, E. }
  rewrite Hi in Hj. by injection Hj as <- <-.
Qed.

(** C32. The service classes are exactly the unary part of the contracts: a path
    with its request and response types is called by some method of some
    service of the client if and only if some contract declares it as an RPC in
    which neither side streams.  Every method is named after its RPC, the name it
    gives to the rate limiter is the path it calls without the leading slash, and
    no two methods give the same name. *)
Theorem services_match_contracts :
  (forall path rq rs,
     (exists s m, s ∈ client_services /\ m ∈ class_methods s
        /\ stub_path s m = path /\ ReqT m = rq /\ RespT m = rs)
     <-> (exists c r, c ∈ contracts /\ r ∈ rpcs c /\ is_unary r = true
        /\ wire_path (full_name c) (rpc_name r) = path
        /\ rpc_request r = rq /\ rpc_response r = rs))
  /\ (forall s m, s ∈ client_services -> m ∈ class_methods s ->
        fn_name m = snake true (RpcName m) /\ stub_path s m = "/" +:+ kMethod s m
        /\ forall s' m', s' ∈ client_services -> m' ∈ class_methods s' ->
             kMethod s m = kMethod s' m' -> s = s' /\ m = m').
Proof.
  split.
  - intros path rq rs.
    assert (Hf : (path, rq, rs) ∈ facade_calls <-> (path, rq, rs) ∈ contract_calls)
      by by rewrite calls_agree.
    unfold facade_calls, contract_calls in Hf.
    repeat setoid_rewrite list_elem_of_bind in Hf.
    repeat setoid_rewrite list_elem_of_singleton in Hf.
    setoid_rewrite list_elem_of_filter in Hf.
    split.
    + intros (s & m & ? & ? & <- & <- & <-). destruct Hf as [Hf _].
      destruct Hf as (c & (r & E & Hu & Hr) & Hc); [by exists s; split; [exists m|]|].
      apply pair_equal_spec in E as [[? ?]%pair_equal_spec ?]. by exists c, r.
    + intros (c & r & ? & ? & ? & <- & <- & <-). destruct Hf as [_ Hf].
      destruct Hf as (s & (m & E & Hm) & Hs); [by exists c; split; [exists r|]|].
      apply pair_equal_spec in E as [[? ?]%pair_equal_spec ?]. by exists s, m.
  - intros s m Hs Hm. assert (Hsm : (s, m) ∈ facade_methods) by by apply facade_methods_spec.
    pose proof method_names_agree as Hn. rewrite Forall_forall in Hn.
    destruct (Hn _ Hsm) as [Hpath Hname]. split_and!; [done|done|].
    intros s' m' Hs' Hm'. apply kMethod_inj; [done|]. by apply facade_methods_spec.
Qed.

(** ** The tariff and the classes *)

Lemma normalize_kMethod s m :
  (s, m) ∈ facade_methods -> normalize_method (kMethod s m) = kMethod s m.
Proof.
  intros Hsm.
  assert (E : forallb (fun p => bool_decide (normalize_method (kMethod p.1 p.2)
                                             = kMethod p.1 p.2)) facade_methods = true)
    by (vm_compute; reflexivity).
  rewrite forallb_forall in E. apply list_elem_of_In in Hsm.
  apply E in Hsm. by apply bool_decide_eq_true in Hsm.
Qed.

Lemma normalize_stub_path s m : 
  (s, m) ∈ facade_methods -> normalize_method (stub_path s m) = kMethod s m.
Proof.
  intros Hsm. pose proof method_names_agree as Hn. rewrite Forall_forall in Hn.
  destruct (Hn _ Hsm) as [E _]. cbn [fst snd] in E. by rewrite E.
Qed.

(** A unary limit of the tariff lists a method, with or without the slash. *)
Definition Lists (ul : UnaryLimit) (s : ServiceClass) (m : Method) : Prop :=
  kMethod s m ∈ methods ul \/ stub_path s m ∈ methods ul.

Lemma normalize_eq x k :
  normalize_method k = k -> normalize_method x = k -> x = k \/ x = "/" +:+ k.
Proof.
  destruct x as [|c x]; cbn; [by left|].
  case_bool_decide; intros _ Hx; [right|by left]. by subst.
Qed.

Lemma lists_normalized ul s m :
  (s, m) ∈ facade_methods ->
  Lists ul s m <-> kMethod s m ∈ normalize_method <$> methods ul.
Proof.
  intros Hsm. pose proof (normalize_kMethod s m Hsm) as Hk.
  pose proof method_names_agree as Hn. rewrite Forall_forall in Hn.
  destruct (Hn _ Hsm) as [Hpath _]. cbn [fst snd] in Hpath.
  unfold Lists. rewrite list_elem_of_fmap. split.
  - intros [Hin|Hin]; [by exists (kMethod s m)|exists (stub_path s m)].
    split; [symmetry; by apply normalize_stub_path|done].
  - intros (x & Hx & Hin). destruct (normalize_eq x (kMethod s m)) as [-> | ->];
      [done|done|by left|right]. by rewrite Hpath.
Qed.

Lemma last_listing_none n uls k :
  Forall (fun ul => k ∉ normalize_method <$> methods ul) uls ->
  last_listing n uls k = None.
Proof.
  intros Hf. revert n. induction Hf as [|ul uls Hul Hf IH]; intros n; cbn [last_listing]; [done|].
  rewrite IH. by rewrite decide_False.
Qed.

Lemma last_listing_last n uls i ul k :
  uls !! i = Some ul -> k ∈ normalize_method <$> methods ul ->
  (forall j ul', (i < j)%nat -> uls !! j = Some ul' -> k ∉ normalize_method <$> methods ul') ->
  last_listing n uls k = Some (n + i)%nat.
Proof.
  revert n i. induction uls as [|ul0 uls IH]; intros n i Hi Hk Hlast; [done|].
  destruct i as [|i]; cbn [last_listing].
  - injection Hi as ->. rewrite last_listing_none, decide_True by
      (try done; apply Forall_lookup; intros j ul'; apply (Hlast (S j) ul'); lia).
    by rewrite Nat.add_0_r.
  - rewrite (IH (S n) i Hi Hk); [f_equal; lia|].
    intros j ul' Hj. apply (Hlast (S j) ul'). lia.
Qed.

(** ** Bursts of asynchronous calls *)

Section Bursts.
Context `{GrpcCodes} (config : Config) {Msg : string -> Type}.
Context (s : ServiceClass) (m : Method) (req : Msg (ReqT m)) (opts : CallOptions) (t : Z).

(** [n] asynchronous calls of a method in a row, all at time [t]. *)
Fixpoint burst `{Limiter L} (n : nat) (l : L) : outcome (list (async_call (Msg := Msg) m) * L) :=
  match n with
  | O => mret ([], l)
  | S n' =>
      '(a, l1) ← call_async config s m req opts t l;
      '(rest, l2) ← burst n' l1;
      mret (a :: rest, l2)
  end.

Lemma burst_S `{Limiter L} n (l : L) :
  burst (S n) l = ('(a, l1) ← call_async config s m req opts t l;
                   '(rest, l2) ← burst n l1; mret (a :: rest, l2)).
Proof. done. Qed.

Context `{Wake}.

Definition sent : async_call (Msg := Msg) m :=
  Sent (stub_path s m) req (setup_context config t new_context opts).
Definition refused : async_call (Msg := Msg) m :=
  CallbackNow (ResultError client_rate_error).

Lemma call_async_free r :
  by_method_ r !! kMethod s m = None ->
  call_async config s m req opts t r = Val (sent, r).
Proof. intros E. unfold call_async, unary_async. cbn. unfold try_acquire. by rewrite E. Qed.

(** A call on a group whose window is current at [t]. *)
Lemma call_async_group r l g n c ws :
  by_method_ r !! kMethod s m = Some l -> store r !! l = Some g ->
  roll_window (window_ r) t g = MkGroup n c ws -> 0 < limit g ->
  0 <= c -> n <= wmax W32 ->
  call_async config s m req opts t r
  = Val (if c <? n then (sent, with_group r l (MkGroup n (c + 1) ws))
         else (refused, with_group r l (MkGroup n c ws))).
Proof.
  intros Em El Er Hl Hc Hn. unfold call_async, unary_async. cbn.
  unfold try_acquire, try_group, deref. rewrite Em, El. cbn [mbind outcome_bind].
  destruct (Z.leb_spec (limit g) 0); [lia|]. rewrite Er. cbn [count limit window_start].
  destruct (Z.ltb_spec c n); [|done]. by rewrite checked_in by range.
Qed.

Lemma burst_spends r l g n c ws :
  by_method_ r !! kMethod s m = Some l -> store r !! l = Some g ->
  roll_window (window_ r) t g = MkGroup n c ws -> t - ws < window_ r ->
  0 < limit g -> 0 <= c <= n -> n <= wmax W32 ->
  exists r', burst (S (Z.to_nat (n - c))) r
             = Val (replicate (Z.to_nat (n - c)) sent ++ [refused], r').
Proof.
  remember (Z.to_nat (n - c)) as k eqn:Ek. revert r g c Ek.
  induction k as [|k IH]; intros r g c Ek Em El Er Hws Hl Hc Hn; rewrite burst_S.
  - rewrite (call_async_group r l g n c ws) by (done || lia).
    destruct (Z.ltb_spec c n); [lia|]. by eexists.
  - rewrite (call_async_group r l g n c ws) by (done || lia).
    destruct (Z.ltb_spec c n); [|lia]. cbn [mbind outcome_bind].
    destruct (IH (with_group r l (MkGroup n (c + 1) ws)) (MkGroup n (c + 1) ws) (c + 1))
      as (r' & E); try (done || (cbn; lia)).
    + cbn. by rewrite lookup_insert_eq.
    + unfold roll_window. cbn. destruct (Z.leb_spec (window_ r) (t - ws)); [lia|done].
    + rewrite E. by eexists.
Qed.

(** A fresh group: the window opens at the first call, or is that of the epoch. *)
Lemma roll_fresh W n :
  0 < W -> exists ws, roll_window W t (new_group n) = MkGroup n 0 ws /\ t - ws < W.
Proof.
  intros HW. unfold roll_window, new_group. cbn.
  destruct (Z.leb_spec W (t - 0)); eexists; (split; [done|lia]).
Qed.
End Bursts.

(** C33. The tariff governs the calls of the service classes.  After [configure], a
    method that no unary limit lists is never refused locally.  A method that some
    limit lists, with or without the leading slash, is bound by the last such
    limit: if it allows [n > 0] per minute, a burst of [n + 1] asynchronous calls
    sends [n] requests to the path of the RPC and completes the last one at once
    with the local rate-limit error. *)
Theorem tariff_governs_calls `{GrpcCodes, Wake} (config : Config) {Msg : string -> Type}
    (s : ServiceClass) (m : Method) (req : Msg (ReqT m)) (opts : CallOptions)
    (t : Z) (r : RateLimiter) (tariff : GetUserTariffResponse) :
  s ∈ client_services -> m ∈ class_methods s -> 0 < window_ r ->
  (Forall (fun ul => ~ Lists ul s m) (unary_limits tariff) ->
     call_async config s m req opts t (configure r tariff)
     = Val (Sent (stub_path s m) req (setup_context config t new_context opts),
            configure r tariff))
  /\ (forall i ul, unary_limits tariff !! i = Some ul -> Lists ul s m ->
       (forall j ul', (i < j)%nat -> unary_limits tariff !! j = Some ul' -> ~ Lists ul' s m) ->
       0 < limit_per_minute ul <= wmax W32 ->
       exists r', burst config s m req opts t (S (Z.to_nat (limit_per_minute ul)))
                    (configure r tariff)
         = Val (replicate (Z.to_nat (limit_per_minute ul))
                  (Sent (stub_path s m) req (setup_context config t new_context opts))
                ++ [CallbackNow (ResultError client_rate_error)], r')).
Proof.
  intros Hs Hm HW. assert (Hsm : (s, m) ∈ facade_methods) by by apply facade_methods_spec.
  destruct (configure_limits_spec (unary_limits tariff) (with_methods r ∅))
    as (_ & _ & Hnew & Hmeth). fold (configure r tariff) in Hnew, Hmeth.
  specialize (Hmeth (kMethod s m)). split.
  - intros Hnone. apply call_async_free. etrans; [exact Hmeth|].
    rewrite last_listing_none; [done|].
    eapply Forall_impl; [exact Hnone|]. intros ul Hno Hin.
    apply Hno. by apply lists_normalized.
  - intros i ul Hi Hl Hlast Hn.
    rewrite (last_listing_last _ _ i ul) in Hmeth; [|done|by apply lists_normalized|].
    2: { intros j ul' Hj Hul'. rewrite <- lists_normalized by done. by eapply Hlast. }
    destruct (roll_fresh t (window_ (configure r tariff)) (limit_per_minute ul))
      as (ws & Hroll & Hws); [by rewrite configure_window|].
    destruct (burst_spends config s m req opts t (configure r tariff) _ _ _ _ _ Hmeth
                (Hnew i ul Hi) Hroll Hws) as (r' & E); [exact (proj1 Hn)|lia|lia|].
    rewrite Z.sub_0_r in E. by exists r'.
Qed.

(** ** Loading the tariff *)

(** The limiter's laws with the method table fixed. *)
#[local] Instance fixed_table_laws `{Wake} (r0 : RateLimiter) :
  LimiterLaws RateLimiter (fun t r => reachable_limiter t r /\ by_method_ r = by_method_ r0).
Proof.
  split.
  - intros t t' l Hle [Hg Et]. split; [by eapply good_later|done].
  - intros t l m [Hg Et]. destruct (acquire_good t l m Hg) as (t' & l' & E & Hle & Hg').
    exists t', l'. split_and!; try done. cbn in E.
    destruct (acquire 2 wake l t m) as [[[t1 r1]|]|] eqn:Ea; try done.
    cbn in E. injection E as -> ->. apply acquire_table in Ea as [Ea _]. congruence.
  - intros t l m [Hg Et]. destruct (try_good t l m Hg) as (b & l' & E & Hg').
    exists b, l'. split_and!; try done. cbn in E. rewrite <- Et.
    by apply try_table in E as [E _].
  - intros t l m l'. apply try_now.
Qed.

Section LoadRateLimitsFacts.
Context `{GrpcCodes, Wake} (config : Config) {Msg : string -> Type}.
Context (grpc_unary : string -> forall rq rs, Msg rq -> Z -> Z -> ClientContext
                      -> Reply (Msg rs)).
Context (sleep : Z -> Z -> Z) (req : Msg "GetUserTariffRequest").
Context (fields : Msg "GetUserTariffResponse" -> GetUserTariffResponse).

(** [load_rate_limits] always returns.  On success the limiter is the one that
    the calls left, configured with the tariff returned; on failure the method
    table is unchanged.  Either way the limiter is in a good state. *)
Theorem load_rate_limits_configures (t : Z) (r : RateLimiter) :
  let server := stub_call grpc_unary UsersService get_user_tariff req in
  Timely server sleep -> Readable server ->
  (forall resp, call_typed (Configure (fields resp))) ->
  reachable_limiter t r -> max_attempts (retry config) <= wmax W32 ->
  exists res lim t',
    client_load_rate_limits config grpc_unary sleep req fields t r = Val (Some (res, lim, t'))
    /\ t <= t' /\ reachable_limiter t' lim
    /\ match res with
       | ResultValue tariff => exists r', by_method_ r' = by_method_ r
           /\ reachable_limiter t' r' /\ lim = configure r' tariff
       | ResultError _ => by_method_ lim = by_method_ r
       end.
Proof.
  intros server Ht Hr Htyped Hg Hmax. unfold client_load_rate_limits, call_sync.
  destruct (unary_sync_ok (Good := fun t' r' => reachable_limiter t' r'
              /\ by_method_ r' = by_method_ r) config (kMethod UsersService get_user_tariff)
              server sleep default_options t r Ht Hr (conj Hg eq_refl) Hmax)
    as (res & w & E & _ & _ & _ & _ & [Hg' Htab] & Hle).
  fold server. rewrite E. cbn [mbind outcome_bind].
  destruct res as [resp|err]; cbn [load_rate_limits result_map];
    eexists _, _, _; (split_and!; [done|done| |]).
  - destruct Hg' as (s & Es & Hs). exists (MkSystem (configure (rl s) (fields resp))
      (waiting s) (grants s)). cbn [rl]. rewrite Es. split; [done|].
    rewrite <- Es. by apply configure_ok.
  - by exists (limiter w).
  - done.
  - done.
Qed.
End LoadRateLimitsFacts.

(** ** Witnesses: messages are strings, the server answers at once *)

#[local] Instance wake_on_time : Wake :=
  {| wake := fun _ d => d; wake_late := fun _ d => Z.le_refl d |}.

Definition text_msg (_ : string) : Type := string.

Definition echo_server (path rq rs : string) (req : text_msg rq) (n t : Z)
    (_ : ClientContext) : Reply (text_msg rs) := MkReply (MkStatus 0 "") [] req (t + 5).

Definition sample_tariff : GetUserTariffResponse :=
  MkTariff [MkUnaryLimit 2 [kMethod UsersService get_user_tariff] None] [].

Lemma services_match_contracts_witness :
  fn_name get_user_tariff = snake true "GetUserTariff"
  /\ stub_path UsersService get_user_tariff = "/" +:+ kMethod UsersService get_user_tariff.
Proof.
  destruct services_match_contracts as [_ H].
  destruct (H UsersService get_user_tariff) as (H1 & H2 & _);
    [apply list_elem_of_lookup_2 with 0%nat|apply list_elem_of_lookup_2 with 2%nat|];
    [reflexivity|reflexivity|]. exact (conj H1 H2).
Defined.

Lemma tariff_governs_calls_witness :
  exists r', burst (Msg := text_msg) (default_config "t") UsersService get_user_tariff ""%string
      default_options 1000 3 (configure (rate_limiter 60000) sample_tariff)
    = Val (replicate 2 (Sent (stub_path UsersService get_user_tariff) ""%string
             (setup_context (default_config "t") 1000 new_context default_options))
           ++ [CallbackNow (ResultError client_rate_error)], r').
Proof.
  destruct (tariff_governs_calls (Msg := text_msg) (default_config "t") UsersService
    get_user_tariff ""%string default_options 1000 (rate_limiter 60000) sample_tariff)
    as [_ H].
  - apply list_elem_of_lookup_2 with 0%nat. reflexivity.
  - apply list_elem_of_lookup_2 with 2%nat. reflexivity.
  - reflexivity.
  - refine (H 0%nat _ eq_refl _ _ _).
    + left. apply list_elem_of_lookup_2 with 0%nat. reflexivity.
    + intros [|[|j]] ul Hj E; [lia|discriminate E|discriminate E].
    + split; [reflexivity|discriminate].
Defined.

Lemma load_rate_limits_configures_witness :
  exists res lim t',
    client_load_rate_limits (default_config "t") echo_server sample_sleep ""%string
      (fun _ => sample_tariff) 1000 (rate_limiter 60000) = Val (Some (res, lim, t'))
    /\ 1000 <= t' /\ reachable_limiter t' lim
    /\ match res with
       | ResultValue tariff => exists r', by_method_ r' = by_method_ (rate_limiter 60000)
           /\ reachable_limiter t' r' /\ lim = configure r' tariff
       | ResultError _ => by_method_ lim = by_method_ (rate_limiter 60000)
       end.
Proof.
  apply (load_rate_limits_configures (Msg := text_msg) (default_config "t") echo_server
           sample_sleep ""%string (fun _ => sample_tariff) 1000 (rate_limiter 60000)).
  - split; [intros n t ctx; cbn; lia|intros t d; unfold sample_sleep; lia].
  - intros n t ctx. split; [|split]; eexists; vm_compute; reflexivity.
  - intros _. repeat constructor; discriminate.
  - exact sample_good.
  - discriminate.
Defined.
