(* ===== verification/ExampleClient.v ===== *)
(** * The client of the examples

    The programs under [examples/] take their token from the environment, create a
    [Client] with default options and make blocking calls of its services.  This file
    holds the configuration they share and what such a call returns when the server
    answers in time. *)

From S2P Require Import Prelude StdStrings ErrorResult Client RateLimiter Unary Contracts Services.
From stdpp Require Import base numbers list strings.
From Stdlib Require Import ZArith Lia.

#[local] Open Scope Z_scope.

(** [{.token = token, .app_name = "tinvest-cpp.examples"}] *)
Definition example_config (tok : string) : Config :=
  MkConfig tok kDefaultEndpoint "tinvest-cpp.examples" true "" None default_retry None.

Section Calls.
Context `{GrpcCodes} {L : Type} `{Limiter L} (config : Config).
Context {Msg : string -> Type}.
Context (grpc_unary : string -> forall rq rs, Msg rq -> Z -> Z -> ClientContext
                      -> Reply (Msg rs)).
Context (sleep : Z -> Z -> Z).

(** The call returned [r], at some time and with some state of the limiter. *)
Definition Returned (s : ServiceClass) (m : Method) (req : Msg (ReqT m))
    (r : Result (Msg (RespT m))) : Prop :=
  exists t l w, call_sync config grpc_unary sleep s m req default_options t l
                = Val (Some (r, w)).

(** Servers of the calls: time moves forward and the headers can be read. *)
Definition Serves (s : ServiceClass) (m : Method) (req : Msg (ReqT m)) : Prop :=
  Timely (stub_call grpc_unary s m req) sleep /\ Readable (stub_call grpc_unary s m req).

Context {Good : Z -> L -> Prop} `{!LimiterLaws L Good}.
Context (Hmax : max_attempts (retry config) <= wmax W32).

Lemma call_returns s m req t l :
  Serves s m req -> Good t l ->
  exists r w, call_sync config grpc_unary sleep s m req default_options t l = Val (Some (r, w))
    /\ Returned s m req r /\ t <= now w /\ Good (now w) (limiter w).
Proof.
  intros [Ht Hr] Hg.
  destruct (unary_sync_ok (Good := Good) config (kMethod s m) (stub_call grpc_unary s m req)
              sleep default_options t l Ht Hr Hg Hmax) as (r & w & E & _ & _ & _ & _ & Hg' & Hle).
  exists r, w. split_and!; try done. by exists t, l, w.
Qed.
End Calls.
