(* ===== verification/AccountsExample.v ===== *)
(** * The accounts example ([examples/accounts.cpp])

    [main] on top of the blocking calls of the service facades: [GetInfo],
    [GetAccounts], then one [GetPortfolio] per account.  The generated messages are
    parameters; the fields that the program reads and the requests it builds are
    given by [Fields]. *)

From S2P Require Import Prelude StdStrings FixedDecimal DecimalText PrintedText ErrorResult Client.
From S2P Require Import RateLimiter Unary Contracts Services ExampleClient.
From stdpp Require Import base numbers list strings.
From Stdlib Require Import ZArith Lia.

#[local] Open Scope Z_scope.

Definition get_info : Method :=
  TINVEST_RPC "get_info" "GetInfo" "GetInfoRequest" "GetInfoResponse".
Definition get_accounts : Method :=
  TINVEST_RPC "get_accounts" "GetAccounts" "GetAccountsRequest" "GetAccountsResponse".
Definition get_portfolio : Method :=
  TINVEST_RPC "get_portfolio" "GetPortfolio" "PortfolioRequest" "PortfolioResponse".

Lemma methods_of_the_services :
  get_info ∈ class_methods UsersService /\ get_accounts ∈ class_methods UsersService
  /\ get_portfolio ∈ class_methods OperationsService.
Proof.
  split_and!.
  - apply list_elem_of_lookup_2 with 3%nat. reflexivity.
  - apply list_elem_of_lookup_2 with 0%nat. reflexivity.
  - apply list_elem_of_lookup_2 with 1%nat. reflexivity.
Qed.

Record Account := MkAccount { acc_id : string; acc_name : string; acc_type : Z; acc_status : Z }.

Record Fields (Msg : string -> Type) := MkFields {
  info_request : Msg "GetInfoRequest";
  accounts_request : Msg "GetAccountsRequest";
  portfolio_request : string -> Msg "PortfolioRequest";
  tariff : Msg "GetInfoResponse" -> string;
  qual_status : Msg "GetInfoResponse" -> bool;
  accounts_of : Msg "GetAccountsResponse" -> list Account;
  total_amount_portfolio : Msg "PortfolioResponse" -> MoneyValue;
  positions_size : Msg "PortfolioResponse" -> Z;
}.
Arguments info_request {Msg}. Arguments accounts_request {Msg}.
Arguments portfolio_request {Msg}. Arguments tariff {Msg}. Arguments qual_status {Msg}.
Arguments accounts_of {Msg}. Arguments total_amount_portfolio {Msg}.
Arguments positions_size {Msg}.

Section Main.
Context `{GrpcCodes} {L : Type} `{Limiter L} (config : Config).
Context {Msg : string -> Type} (fields : Fields Msg).
Context (grpc_unary : string -> forall rq rs, Msg rq -> Z -> Z -> ClientContext
                      -> Reply (Msg rs)).
Context (sleep : Z -> Z -> Z).

Definition info_line (info : Result (Msg "GetInfoResponse")) : printed_line :=
  match info with
  | ResultValue i => Out ("tariff=" +:+ c_str (tariff fields i) +:+ " qualified="
                          +:+ int_to_string (if qual_status fields i then 1 else 0))
  | ResultError e => Err ("GetInfo failed: " +:+ c_str (error_to_string e))
  end.

Definition account_line (a : Account) : printed_line :=
  Out ("account " +:+ c_str (acc_id a) +:+ "  name=" +:+ c_str (acc_name a)
       +:+ "  type=" +:+ int_to_string (acc_type a)
       +:+ "  status=" +:+ int_to_string (acc_status a)).

(** A portfolio that cannot be fetched is skipped. *)
Definition portfolio_lines (p : Result (Msg "PortfolioResponse"))
    : outcome (list printed_line) :=
  match p with
  | ResultError _ => mret []
  | ResultValue p =>
      text ← money_text (total_amount_portfolio fields p);
      mret [Out ("  portfolio total: " +:+ text +:+ ", positions: "
                 +:+ int_to_string (positions_size fields p))]
  end.

(** [for (const auto& acc : accounts->accounts())] *)
Fixpoint print_accounts (accounts : list Account) (t : Z) (l : L)
    : outcome (option (list printed_line * Z * L)) :=
  match accounts with
  | [] => mret (Some ([], t, l))
  | acc :: rest =>
      r ← call_sync config grpc_unary sleep OperationsService get_portfolio
            (portfolio_request fields (acc_id acc)) default_options t l;
      match r with
      | None => mret None
      | Some (p, w) =>
          lines ← portfolio_lines p;
          more ← print_accounts rest (now w) (limiter w);
          mret (match more with
                | None => None
                | Some (out, t', l') => Some (account_line acc :: lines ++ out, t', l')
                end)
      end
  end.

(** [main] with the token set: the exit code, the lines, and the client left. *)
Definition accounts_main (t : Z) (l : L)
    : outcome (option (Z * list printed_line * Z * L)) :=
  i ← call_sync config grpc_unary sleep UsersService get_info
        (info_request fields) default_options t l;
  match i with
  | None => mret None
  | Some (info, w) =>
      a ← call_sync config grpc_unary sleep UsersService get_accounts
            (accounts_request fields) default_options (now w) (limiter w);
      match a with
      | None => mret None
      | Some (ResultError e, w') =>
          mret (Some (1, [info_line info;
                          Err ("GetAccounts failed: " +:+ c_str (error_to_string e))],
                      now w', limiter w'))
      | Some (ResultValue resp, w') =>
          o ← print_accounts (accounts_of fields resp) (now w') (limiter w');
          mret (match o with
                | None => None
                | Some (out, t', l') => Some (0, info_line info :: out, t', l')
                end)
      end
  end.

(** ** What it prints *)

(** The total of a portfolio is a number that fits. *)
Definition TotalFits (p : Msg "PortfolioResponse") : Prop :=
  AmountFits (total_amount_portfolio fields p).

Lemma portfolio_lines_total p :
  (forall resp, p = ResultValue resp -> TotalFits resp) ->
  exists lines, portfolio_lines p = Val lines.
Proof.
  destruct p as [resp|e]; intros Hf; [|by eexists].
  destruct (money_text_shows _ (Hf resp eq_refl)) as (t & E & _).
  unfold portfolio_lines. rewrite E. by eexists.
Qed.

Context {Good : Z -> L -> Prop} `{!LimiterLaws L Good}.
Context (Hmax : max_attempts (retry config) <= wmax W32).

Context (Hportfolio : forall id,
  Serves grpc_unary sleep OperationsService get_portfolio (portfolio_request fields id)).
Context (Hfits : forall id n t ctx,
  TotalFits (response (stub_call grpc_unary OperationsService get_portfolio
                         (portfolio_request fields id) n t ctx))).

Lemma print_accounts_ok accounts t l :
  Good t l ->
  exists out t' l', print_accounts accounts t l = Val (Some (out, t', l'))
    /\ t <= t' /\ Good t' l'
    /\ exists portfolios texts,
        Forall2 (fun acc p => Returned config grpc_unary sleep OperationsService get_portfolio
                                (portfolio_request fields (acc_id acc)) p) accounts portfolios
        /\ Forall2 (fun p ls => portfolio_lines p = Val ls) portfolios texts
        /\ out = concat (zip_with (fun acc ls => account_line acc :: ls) accounts texts).
Proof.
  revert t l. induction accounts as [|acc accounts IH]; intros t l Hg; cbn [print_accounts].
  { exists [], t, l. split_and!; try done. exists [], []. by split_and!; [..|done]; constructor. }
  destruct (call_returns config grpc_unary sleep Hmax OperationsService get_portfolio (portfolio_request fields (acc_id acc))
              t l (Hportfolio _) Hg) as (p & w & -> & Hp & Hle & Hg').
  cbn [mbind outcome_bind].
  destruct (portfolio_lines_total p) as (ls & Els).
  { intros resp ->. destruct Hp as (t0 & l0 & w0 & E0).
    destruct (sync_loop_value _ _ _ _ _ _ _ _ _ _ E0) as (n & t1 & ctx & ->). apply Hfits. }
  rewrite Els. cbn [mbind outcome_bind].
  destruct (IH (now w) (limiter w) Hg') as (out & t' & l' & -> & Hle' & Hg2 & ps & ts & H1 & H2 & ->).
  eexists _, t', l'. split_and!; [done|lia|done|].
  exists (p :: ps), (ls :: ts). split_and!; [by constructor..|done].
Qed.
End Main.

(** The whole program: [tok] is the environment variable. *)
Definition accounts_program `{GrpcCodes} {L : Type} `{Limiter L} {Msg : string -> Type}
    (fields : Fields Msg)
    (grpc_unary : string -> forall rq rs, Msg rq -> Z -> Z -> ClientContext -> Reply (Msg rs))
    (sleep : Z -> Z -> Z) (tok : option string) (t : Z) (l : L)
    : outcome (option (Z * list printed_line * Z * L)) :=
  match tok with
  | None => mret (Some (1, [Err "Set TINVEST_TOKEN environment variable"], t, l))
  | Some tok => accounts_main (example_config tok) fields grpc_unary sleep t l
  end.

(** ** Property *)

(** The accounts example always ends and lists every account.  Whatever the
    server answers and however often a call is retried: the exit code is 1 exactly
    when [GetAccounts] failed, and then nothing is printed after its error; otherwise
    it is 0 and the output is the tariff (or the error of [GetInfo]) and, for every
    account of the response, in its order, the line of the account followed by the
    total of its portfolio, or by nothing when that call failed. *)
Theorem accounts_are_listed `{GrpcCodes} {L : Type} {Good : Z -> L -> Prop}
    `{LimiterLaws L Good} (config : Config) {Msg : string -> Type} (fields : Fields Msg)
    (grpc_unary : string -> forall rq rs, Msg rq -> Z -> Z -> ClientContext -> Reply (Msg rs))
    (sleep : Z -> Z -> Z) (t : Z) (l : L) :
  max_attempts (retry config) <= wmax W32 -> Good t l ->
  Serves grpc_unary sleep UsersService get_info (info_request fields) ->
  Serves grpc_unary sleep UsersService get_accounts (accounts_request fields) ->
  (forall id, Serves grpc_unary sleep OperationsService get_portfolio
                (portfolio_request fields id)) ->
  (forall id n t ctx, TotalFits fields (response (stub_call grpc_unary OperationsService
     get_portfolio (portfolio_request fields id) n t ctx))) ->
  exists code out t' l' info accounts,
    accounts_main config fields grpc_unary sleep t l = Val (Some (code, out, t', l'))
    /\ t <= t' /\ Good t' l'
    /\ Returned config grpc_unary sleep UsersService get_info (info_request fields) info
    /\ Returned config grpc_unary sleep UsersService get_accounts (accounts_request fields)
         accounts
    /\ match accounts with
       | ResultError e => code = 1
           /\ out = [info_line fields info;
                     Err ("GetAccounts failed: " +:+ c_str (error_to_string e))]
       | ResultValue resp => code = 0 /\ exists portfolios texts,
           Forall2 (fun acc p => Returned config grpc_unary sleep OperationsService get_portfolio
                      (portfolio_request fields (acc_id acc)) p)
             (accounts_of fields resp) portfolios
           /\ Forall2 (fun p ls => portfolio_lines fields p = Val ls) portfolios texts
           /\ out = info_line fields info
                :: concat (zip_with (fun acc ls => account_line acc :: ls)
                             (accounts_of fields resp) texts)
       end.
Proof.
  intros Hmax Hg Hinfo Hacc Hport Hfits. unfold accounts_main.
  destruct (call_returns config grpc_unary sleep Hmax _ _ _ t l Hinfo Hg)
    as (info & w & -> & Hi & Hle & Hg1). cbn [mbind outcome_bind].
  destruct (call_returns config grpc_unary sleep Hmax _ _ _ (now w) (limiter w) Hacc Hg1)
    as (accounts & w' & -> & Ha & Hle' & Hg2). cbn [mbind outcome_bind].
  destruct accounts as [resp|e].
  - destruct (print_accounts_ok config fields grpc_unary sleep Hmax Hport Hfits
                (accounts_of fields resp) (now w') (limiter w') Hg2)
      as (out & t' & l' & -> & Hle2 & Hg3 & ps & ts & Hps & Hts & ->).
    eexists 0, _, t', l', info, (ResultValue resp). split_and!; try done; try lia.
    by exists ps, ts.
  - eexists 1, _, _, _, info, (ResultError e). split_and!; try done; lia.
Qed.

(** Two accounts; the portfolio of the first cannot be fetched. *)
Section Sample.
#[local] Instance accounts_wake : Wake :=
  {| wake := fun _ d => d; wake_late := fun _ d => Z.le_refl d |}.

Definition text_message (_ : string) : Type := string.

Definition text_fields : Fields text_message :=
  MkFields text_message "" "" (fun id => id) (fun m => m) (fun _ => true)
    (fun _ => [MkAccount "a" "main" 1 2; MkAccount "b" "iis" 2 2])
    (fun _ => MkMoneyValue "rub" 1500 500000000) (fun _ => 3).

Definition text_server (path rq rs : string) (req : text_message rq) (n t : Z)
    (_ : ClientContext) : Reply (text_message rs) :=
  MkReply (MkStatus (if bool_decide (req = "a"%string) then 5 else 0) "") [] "premium"%string
    (t + 5).

Example accounts_run :
  (o ← accounts_program text_fields text_server sample_sleep (Some "t"%string) 1000
         (rate_limiter 60000);
   mret (match o with Some (code, out, _, _) => Some (code, out) | None => None end))
  = Val (Some (0, [Out "tariff=premium qualified=1"; Out "account a  name=main  type=1  status=2";
                   Out "account b  name=iis  type=2  status=2";
                   Out "  portfolio total: 1500.5 rub, positions: 3"])).
Proof. vm_compute. reflexivity. Qed.

Lemma accounts_are_listed_witness :
  exists code out t' l', accounts_main (default_config "t") text_fields text_server sample_sleep
      1000 (rate_limiter 60000) = Val (Some (code, out, t', l')) /\ 1000 <= t'.
Proof.
  assert (Hs : forall s m req, Serves (Msg := text_message) text_server sample_sleep s m req).
  { intros s m req. split.
    - split; [intros n t ctx; cbn; lia|intros t d; unfold sample_sleep; lia].
    - intros n t ctx. split; [|split]; eexists; vm_compute; reflexivity. }
  destruct (accounts_are_listed (Good := reachable_limiter) (default_config "t") text_fields
    text_server sample_sleep 1000 (rate_limiter 60000))
    as (code & out & t' & l' & info & accounts & E & Hle & _).
  - discriminate.
  - exact sample_good.
  - apply Hs.
  - apply Hs.
  - intros id. apply Hs.
  - intros id n t ctx. split; [by split|]. eexists. reflexivity.
  - exists code, out, t', l'. exact (conj E Hle).
Defined.
End Sample.
