(* ===== verification/Coroutine.v ===== *)
(** * Coroutines ([include/tinvest/awaitable.hpp])

    [Task], [UnaryAwaiter] and [sync_wait] as a machine over a heap of coroutine
    frames.  A coroutine body is a value of [Co]: what it does up to its next
    suspension and how it goes on.  Threads execute one action at a time; several
    exist, because a frame suspended in an RPC is resumed by the thread that runs
    the callback.  Using a destroyed frame, resuming a coroutine that is not
    suspended, destroying one that is, and reading an empty [optional] are [UB].

    What the asynchronous call does with its callback is left to the
    environment: it may run it at once, or later in a new thread, once. *)

From S2P Require Import Prelude ErrorResult.
From stdpp Require Import base numbers list strings gmap.

#[local] Open Scope nat_scope.

Section Coroutine.
Context {T Exn Rpc Resp : Type}.

(** ** Coroutine bodies

    [co_await_task child k] is [co_await child()], a task that is a temporary of
    the expression, [co_await_rpc r k] is [co_await service.method(req,
    use_awaitable)]; [k] receives what [await_resume] returns or throws.  A body is a
    finite tree: whatever the answers, it ends after finitely many awaits.  A task that
    awaits in an endless loop, which [awaitable.hpp] allows, is not one. *)
Inductive Co :=
  | co_return (v : T)
  | co_throw (e : Exn)
  | co_await_task (child : Co) (k : T + Exn -> Co)
  | co_await_rpc (r : Rpc) (k : Result Resp -> Co).

(** ** Frames *)

Definition handle : Type := nat.

(** Where a coroutine is: at [initial_suspend], running, suspended in the awaiter
    of a task, suspended in a [UnaryAwaiter] with its members, or at
    [final_suspend]. *)
Inductive Point :=
  | AtInitial (body : Co)
  | Running (body : Co)
  | AwaitingTask (child : handle) (k : T + Exn -> Co)
  | AwaitingRpc (start_ : option Rpc) (result_ : option (Result Resp)) (k : Result Resp -> Co)
  | AtFinal.

(** [promise_type] and the suspension point. *)
Record Frame := MkFrame {
  value : option T;
  exception : option Exn;
  continuation : option handle;
  on_complete : bool;             (* holds the function of sync_wait *)
  point : Point;
}.

Definition new_frame (body : Co) : Frame := MkFrame None None None false (AtInitial body).
Definition at_point (f : Frame) (p : Point) : Frame :=
  MkFrame (value f) (exception f) (continuation f) (on_complete f) p.
Definition with_continuation (f : Frame) (h : handle) : Frame :=
  MkFrame (value f) (exception f) (Some h) (on_complete f) (point f).
Definition with_on_complete (f : Frame) (b : bool) : Frame :=
  MkFrame (value f) (exception f) (continuation f) b (point f).

(** [promise.return_value(v)] and [promise.unhandled_exception()]. *)
Definition return_value (f : Frame) (v : T) : Frame :=
  MkFrame (Some v) (exception f) (continuation f) (on_complete f) (point f).
Definition unhandled_exception (f : Frame) (e : Exn) : Frame :=
  MkFrame (value f) (Some e) (continuation f) (on_complete f) (point f).

Definition suspended (p : Point) : bool :=
  match p with Running _ => false | _ => true end.

(** [if (p.exception) rethrow; return the value;] *)
Definition promise_result (f : Frame) : outcome (T + Exn) :=
  match exception f, value f with
  | Some e, _ => mret (inr e)
  | None, Some v => mret (inl v)
  | None, None => UB
  end.

(** ** Threads *)

Inductive Activity :=
  | Resume (h : handle)                       (* handle.resume() *)
  | Run (h : handle)                          (* the body of the coroutine *)
  | FinalSuspend (h : handle)                 (* FinalAwaiter::await_suspend *)
  | InStart (h : handle) (r : Rpc)            (* UnaryAwaiter::await_suspend: start(...) *)
  | InCallback (h : handle) (res : Result Resp).   (* the function given to start *)

(** [sync_wait]. *)
Inductive Waiter :=
  | WaiterBegin
  | WaiterResuming         (* in task.handle_.resume() *)
  | WaiterAcquiring        (* done.acquire() *)
  | WaiterReading          (* the result, then ~Task *)
  | WaiterReturned (o : T + Exn).

Record State := MkState {
  frames : gmap handle Frame; next_frame : handle;
  threads : gmap nat Activity; next_thread : nat;
  pending : gmap nat (Rpc * handle);          (* calls whose callback is outstanding *)
  next_call : nat;
  done : bool;                                (* the semaphore *)
  waiter : Waiter;
  log : list (Rpc * Result Resp);             (* callbacks so far *)
}.

(** [sync_wait] is called with a task that has not started, in thread 0. *)
Definition init (body : Co) : State :=
  MkState {[0 := new_frame body]} 1 ∅ 1 ∅ 0 false WaiterBegin [].

Definition deref_frame (s : State) (h : handle) : outcome Frame :=
  match frames s !! h with Some f => mret f | None => UB end.

Definition set_frame (s : State) (h : handle) (f : Frame) : State :=
  MkState (<[h := f]> (frames s)) (next_frame s) (threads s) (next_thread s) (pending s)
    (next_call s) (done s) (waiter s) (log s).
Definition set_thread (s : State) (t : nat) (a : Activity) : State :=
  MkState (frames s) (next_frame s) (<[t := a]> (threads s)) (next_thread s) (pending s)
    (next_call s) (done s) (waiter s) (log s).
Definition end_thread (s : State) (t : nat) : State :=
  MkState (frames s) (next_frame s) (delete t (threads s)) (next_thread s) (pending s)
    (next_call s) (done s) (waiter s) (log s).
Definition set_waiter (s : State) (w : Waiter) : State :=
  MkState (frames s) (next_frame s) (threads s) (next_thread s) (pending s)
    (next_call s) (done s) w (log s).
Definition set_done (s : State) (b : bool) : State :=
  MkState (frames s) (next_frame s) (threads s) (next_thread s) (pending s)
    (next_call s) b (waiter s) (log s).
Definition add_log (s : State) (r : Rpc) (res : Result Resp) : State :=
  MkState (frames s) (next_frame s) (threads s) (next_thread s) (pending s)
    (next_call s) (done s) (waiter s) (log s ++ [(r, res)]).

(** [handle.destroy()] *)
Definition destroy (s : State) (h : handle) : outcome State :=
  f ← deref_frame s h;
  if suspended (point f)
  then mret (MkState (delete h (frames s)) (next_frame s) (threads s) (next_thread s)
               (pending s) (next_call s) (done s) (waiter s) (log s))
  else UB.

(** ** Steps of a thread *)

(** Resuming a coroutine: it leaves its suspension point.  After the awaiter of a
    task has given its result, the temporary task is destroyed, and its frame
    with it. *)
Definition resume_step (s : State) (t : nat) (h : handle) : outcome State :=
  f ← deref_frame s h;
  match point f with
  | AtInitial body => mret (set_thread (set_frame s h (at_point f (Running body))) t (Run h))
  | AwaitingTask child k =>
      c ← deref_frame s child;
      o ← promise_result c;
      s ← destroy s child;
      mret (set_thread (set_frame s h (at_point f (Running (k o)))) t (Run h))
  | AwaitingRpc _ (Some res) k =>
      mret (set_thread (set_frame s h (at_point f (Running (k res)))) t (Run h))
  | AwaitingRpc _ None _ | Running _ | AtFinal => UB
  end.

(** The body, up to and including its next suspension.  Awaiting a task creates
    its frame, stores the awaiting coroutine as its continuation and transfers
    to it; awaiting an RPC moves [start_] out of the awaiter and calls it. *)
Definition run_step (s : State) (t : nat) (h : handle) : outcome State :=
  f ← deref_frame s h;
  match point f with
  | Running (co_return v) =>
      mret (set_thread (set_frame s h (at_point (return_value f v) AtFinal)) t
              (FinalSuspend h))
  | Running (co_throw e) =>
      mret (set_thread (set_frame s h (at_point (unhandled_exception f e) AtFinal)) t
              (FinalSuspend h))
  | Running (co_await_task child k) =>
      let c := next_frame s in
      let s := MkState (<[c := with_continuation (new_frame child) h]> (frames s)) (S c)
                 (threads s) (next_thread s) (pending s) (next_call s) (done s)
                 (waiter s) (log s) in
      mret (set_thread (set_frame s h (at_point f (AwaitingTask c k))) t (Resume c))
  | Running (co_await_rpc r k) =>
      mret (set_thread (set_frame s h (at_point f (AwaitingRpc None None k))) t (InStart h r))
  | _ => UB
  end.

(** [FinalAwaiter::await_suspend]: transfer to the continuation, else call
    [on_complete], which releases the semaphore of [sync_wait]. *)
Definition final_step (s : State) (t : nat) (h : handle) : outcome State :=
  f ← deref_frame s h;
  match continuation f with
  | Some p => mret (set_thread s t (Resume p))
  | None =>
      if on_complete f then
        if done s then UB
        else mret (end_thread (set_done (set_frame s h (with_on_complete f false)) true) t)
      else mret (end_thread s t)
  end.

(** The callback: [result_.emplace(...)], then [handle.resume()]. *)
Definition callback_step (s : State) (t : nat) (h : handle) (res : Result Resp)
    : outcome State :=
  f ← deref_frame s h;
  match point f with
  | AwaitingRpc start_ _ k =>
      mret (set_thread (set_frame s h (at_point f (AwaitingRpc start_ (Some res) k))) t
              (Resume h))
  | _ => UB
  end.

(** ** Steps of [sync_wait] *)

Definition waiter_step (s : State) : outcome (option State) :=
  match waiter s with
  | WaiterBegin =>
      f ← deref_frame s 0;
      mret (Some (set_waiter (set_thread (set_frame s 0 (with_on_complete f true)) 0
                                (Resume 0)) WaiterResuming))
  | WaiterResuming =>
      match threads s !! 0 with
      | None => mret (Some (set_waiter s WaiterAcquiring))
      | Some _ => mret None
      end
  | WaiterAcquiring =>
      if done s then mret (Some (set_waiter (set_done s false) WaiterReading)) else mret None
  | WaiterReading =>
      f ← deref_frame s 0;
      o ← promise_result f;
      s ← destroy s 0;
      mret (Some (set_waiter s (WaiterReturned o)))
  | WaiterReturned _ => mret None
  end.

(** ** The machine

    [LSent t] and [LInline t res] are the two things [start] can do in thread [t];
    [LComplete c res] is the callback of call [c], in a new thread. *)
Inductive label :=
  | LWaiter
  | LThread (t : nat)
  | LSent (t : nat)
  | LInline (t : nat) (res : Result Resp)
  | LComplete (c : nat) (res : Result Resp).

Definition step (l : label) (s : State) : outcome (option State) :=
  match l with
  | LWaiter => waiter_step s
  | LThread t =>
      match threads s !! t with
      | Some (Resume h) => s' ← resume_step s t h; mret (Some s')
      | Some (Run h) => s' ← run_step s t h; mret (Some s')
      | Some (FinalSuspend h) => s' ← final_step s t h; mret (Some s')
      | Some (InCallback h res) => s' ← callback_step s t h res; mret (Some s')
      | Some (InStart _ _) | None => mret None
      end
  | LSent t =>
      match threads s !! t with
      | Some (InStart h r) => mret (Some (end_thread
          (MkState (frames s) (next_frame s) (threads s) (next_thread s)
             (<[next_call s := (r, h)]> (pending s)) (S (next_call s)) (done s)
             (waiter s) (log s)) t))
      | _ => mret None
      end
  | LInline t res =>
      match threads s !! t with
      | Some (InStart h r) => mret (Some (set_thread (add_log s r res) t (InCallback h res)))
      | _ => mret None
      end
  | LComplete c res =>
      match pending s !! c with
      | Some (r, h) =>
          let s' := MkState (frames s) (next_frame s) (threads s) (S (next_thread s))
                      (delete c (pending s)) (next_call s) (done s) (waiter s) (log s) in
          mret (Some (set_thread (add_log s' r res) (next_thread s) (InCallback h res)))
      | None => mret None
      end
  end.

(** A sequence of actions; those that are not enabled are skipped. *)
Fixpoint run (s : State) (trace : list label) : outcome State :=
  match trace with
  | [] => mret s
  | l :: trace' =>
      o ← step l s;
      run (match o with Some s' => s' | None => s end) trace'
  end.
End Coroutine.
Arguments Co : clear implicits.
Arguments State : clear implicits.

(** A task that awaits a task that awaits an RPC, and catches what it throws. *)
Example nested_task :
  let child : Co nat string nat nat :=
    co_await_rpc 1 (fun r => match r with
      | ResultValue v => co_return (v + 1)
      | ResultError e => co_throw (message e)
      end) in
  let body := co_await_task child (fun o => co_return (match o with inl v => v * 10 | inr _ => 0 end)) in
  (s ← run (init body)
         [LWaiter; LThread 0; LThread 0; LThread 0; LThread 0; LSent 0; LWaiter;
          LComplete 0 (ResultValue 4); LThread 1; LThread 1; LThread 1; LThread 1;
          LThread 1; LThread 1; LThread 1; LWaiter; LWaiter];
   mret (waiter s, log s, size (frames s)))
  = Val (WaiterReturned (inl 50), [(1, ResultValue 4)], 0).
Proof. vm_compute. reflexivity. Qed.
