(* ===== verification/CoroutineSpec.v ===== *)
(** * What a coroutine means

    [evals] is the direct reading of a body: awaiting a task is a call, awaiting an
    RPC is a call of the server, in program order.  [astep] is an abstract machine
    with a stack of awaiting bodies; it computes [evals], one construct of a body per
    step.  Since a body of the model is a finite tree (Coroutine.v), the machine has no
    infinite execution. *)

From S2P Require Import Prelude ErrorResult Coroutine.
From stdpp Require Import base numbers list strings.
From Stdlib Require Import Wellfounded.

Section Spec.
Context {T Exn Rpc Resp : Type}.
Abbreviation body := (Co T Exn Rpc Resp).
Abbreviation out := (T + Exn)%type.
Abbreviation exchange := (Rpc * Result Resp)%type.
Implicit Types (c : body) (o : out) (l : list exchange).

(** [evals c l o]: [c] makes the RPCs of [l], in that order, gets those answers,
    and returns or throws [o]. *)
Inductive evals : body -> list exchange -> out -> Prop :=
  | evals_return v : evals (co_return v) [] (inl v)
  | evals_throw e : evals (co_throw e) [] (inr e)
  | evals_task c k l1 o1 l2 o :
      evals c l1 o1 -> evals (k o1) l2 o -> evals (co_await_task c k) (l1 ++ l2) o
  | evals_rpc r k res l o :
      evals (k res) l o -> evals (co_await_rpc r k) ((r, res) :: l) o.

(** Every body has executions: those in which every RPC fails, for instance. *)
Lemma evals_exists (err : Error) c : exists l o, evals c l o.
Proof.
  induction c as [v|x|c (l1 & o1 & H1) k IHk|r k IHk].
  - by eexists _, _; constructor.
  - by eexists _, _; constructor.
  - destruct (IHk o1) as (l2 & o2 & H2). eexists _, _. by econstructor.
  - destruct (IHk (ResultError err)) as (l & o & Hl). eexists _, _. by constructor.
Qed.

(** ** The stack machine *)

Inductive Abs :=
  | Eval (c : body) (below : list (out -> body))
  | Ret (o : out) (below : list (out -> body)).

Inductive astep : Abs -> option exchange -> Abs -> Prop :=
  | a_return v b : astep (Eval (co_return v) b) None (Ret (inl v) b)
  | a_throw e b : astep (Eval (co_throw e) b) None (Ret (inr e) b)
  | a_task c k b : astep (Eval (co_await_task c k) b) None (Eval c (k :: b))
  | a_rpc r k b res : astep (Eval (co_await_rpc r k) b) (Some (r, res)) (Eval (k res) b)
  | a_pop o k b : astep (Ret o (k :: b)) None (Eval (k o) b).

(** What is left to do, read directly. *)
Fixpoint stack_evals (below : list (out -> body)) o l o' : Prop :=
  match below with
  | [] => l = [] /\ o' = o
  | k :: b => exists l1 o1 l2, l = l1 ++ l2 /\ evals (k o) l1 o1 /\ stack_evals b o1 l2 o'
  end.

Definition abs_evals (a : Abs) l o' : Prop :=
  match a with
  | Eval c b => exists l1 o1 l2, l = l1 ++ l2 /\ evals c l1 o1 /\ stack_evals b o1 l2 o'
  | Ret o b => stack_evals b o l o'
  end.

Lemma astep_evals a e a' l o' :
  astep a e a' -> abs_evals a' l o' -> abs_evals a (option_list e ++ l) o'.
Proof.
  destruct 1 as [v b|x b|c k b|r k b res|o k b]; cbn.
  - intros Hs. exists [], (inl v), l. split_and!; [done|constructor|done].
  - intros Hs. exists [], (inr x), l. split_and!; [done|constructor|done].
  - intros (l1 & o1 & l2 & -> & Hc & l3 & o3 & l4 & -> & Hk & Hs).
    exists (l1 ++ l3), o3, l4. split_and!; [by rewrite <- app_assoc|by econstructor|done].
  - intros (l1 & o1 & l2 & -> & Hc & Hs).
    exists ((r, res) :: l1), o1, l2. split_and!; [done|by constructor|done].
  - done.
Qed.

(** [k] steps of the machine, with the RPCs made and their answers. *)
Inductive asteps : Abs -> list exchange -> nat -> Abs -> Prop :=
  | asteps_none a : asteps a [] 0 a
  | asteps_more a e a' l k a'' :
      astep a e a' -> asteps a' l k a'' -> asteps a (option_list e ++ l) (S k) a''.

Lemma asteps_evals a l1 k a' l o :
  asteps a l1 k a' -> abs_evals a' l o -> abs_evals a (l1 ++ l) o.
Proof.
  induction 1 as [a|a e a' l1 k a'' Hs _ IH]; intros Hl; [done|].
  rewrite <- app_assoc. eapply astep_evals; [exact Hs|]. by apply IH.
Qed.

Lemma abs_evals_exists (err : Error) (a : Abs) : exists l o, abs_evals a l o.
Proof.
  assert (Hs : forall b o, exists l o', stack_evals b o l o').
  { induction b as [|k b IH]; intros o; [by exists [], o|].
    destruct (evals_exists err (k o)) as (l1 & o1 & H1). destruct (IH o1) as (l2 & o2 & H2).
    exists (l1 ++ l2), o2, l1, o1, l2. done. }
  destruct a as [c b|o b]; [|apply Hs].
  destruct (evals_exists err c) as (l1 & o1 & H1). destruct (Hs b o1) as (l2 & o2 & H2).
  exists (l1 ++ l2), o2, l1, o1, l2. done.
Qed.

(** The number of RPCs a body makes is not bounded by the body alone, since it
    depends on the answers; every execution is finite all the same. *)
Definition smaller (a' a : Abs) : Prop := exists e, astep a e a'.

Lemma eval_acc c b : (forall o, Acc smaller (Ret o b)) -> Acc smaller (Eval c b).
Proof.
  revert b. induction c as [v|e|c IHc k IHk|r k IHk]; intros b Hb;
    constructor; intros a' [x Hx]; inversion Hx; subst.
  - apply Hb.
  - apply Hb.
  - apply IHc. intros o. constructor. intros a'' [y Hy]. inversion Hy; subst.
    apply IHk, Hb.
  - apply IHk, Hb.
Qed.

Lemma smaller_wf : well_founded smaller.
Proof.
  assert (Hr : forall b o, Acc smaller (Ret o b)).
  { induction b as [|k b IH]; intros o; constructor; intros a' [x Hx];
      inversion Hx; subst. by apply eval_acc. }
  intros [c b|o b]; [apply eval_acc|]; intros; apply Hr.
Qed.
End Spec.
