(* ===== verification/CoroutineTheorems.v ===== *)
(** * The theorems about coroutines

    The machine of Coroutine.v refines the stack machine of CoroutineSpec.v: [Rep]
    says how a state of the one represents a state of the other, with a rank that
    decreases while the represented state does not change. *)

From S2P Require Import Prelude ErrorResult Coroutine CoroutineSpec.
From stdpp Require Import base numbers list strings gmap.
From Stdlib Require Import Lia Wellfounded.

#[local] Open Scope nat_scope.

Section Refinement.
Context {T Exn Rpc Resp : Type}.
Abbreviation body := (Co T Exn Rpc Resp).
Abbreviation out := (T + Exn)%type.
Abbreviation exchange := (Rpc * Result Resp)%type.
Abbreviation state := (State T Exn Rpc Resp).
Abbreviation stack := (list (handle * (out -> body))).
Implicit Types (s : state) (below : stack).

(** ** The chain of frames *)

Definition parent below : option handle := fst <$> head below.

(** The promise of a frame: only the root holds the function of [sync_wait]. *)
Definition chain_frame below (v : option T) (e : option Exn) (p : Point) : @Frame T Exn Rpc Resp :=
  MkFrame v e (parent below) (match below with [] => true | _ => false end) p.

Fixpoint below_frames (child : handle) below : gmap handle (@Frame T Exn Rpc Resp) :=
  match below with
  | [] => ∅
  | (p, k) :: rest =>
      <[p := chain_frame rest None None (AwaitingTask child k)]> (below_frames p rest)
  end.

Definition chain (top : handle) (f : @Frame T Exn Rpc Resp) below
    : gmap handle (@Frame T Exn Rpc Resp) :=
  <[top := f]> (below_frames top below).

Lemma below_frames_notin top below h : h ∉ below.*1 -> below_frames top below !! h = None.
Proof.
  revert top. induction below as [|[p k] rest IH]; intros top Hh; cbn in *; [done|].
  apply not_elem_of_cons in Hh as [Hne Hh]. rewrite lookup_insert_ne by done. by apply IH.
Qed.

Record Wf (fresh top : handle) below : Prop := {
  wf_nodup : NoDup (top :: below.*1);
  wf_fresh : Forall (fun h => h < fresh) (top :: below.*1);
  wf_root : List.last below.*1 top = 0;
}.

Definition final_frame below (o : out) : @Frame T Exn Rpc Resp :=
  match o with
  | inl v => chain_frame below (Some v) None AtFinal
  | inr e => chain_frame below None (Some e) AtFinal
  end.

(** ** Representation *)

(** What the active thread is doing with the top frame [f] of the chain. *)
Inductive At (top : handle) below
    : @Frame T Exn Rpc Resp -> Activity -> @Abs T Exn Rpc Resp -> nat -> Prop :=
  | at_initial c : At top below (chain_frame below None None (AtInitial c)) (Resume top)
      (Eval c below.*2) 6
  | at_resumed res k :
      At top below (chain_frame below None None (AwaitingRpc None (Some res) k))
        (Resume top) (Eval (k res) below.*2) 6
  | at_callback res k :
      At top below (chain_frame below None None (AwaitingRpc None None k))
        (InCallback top res) (Eval (k res) below.*2) 7
  | at_run c : At top below (chain_frame below None None (Running c)) (Run top)
      (Eval c below.*2) 5
  | at_start r k : At top below (chain_frame below None None (AwaitingRpc None None k))
      (InStart top r) (Eval (co_await_rpc r k) below.*2) 4
  | at_final o : At top below (final_frame below o) (FinalSuspend top) (Ret o below.*2) 3
  | at_pop o p k rest : below = (p, k) :: rest ->
      At top below (final_frame below o) (Resume p) (Ret o below.*2) 2.

Definition waiter_rank (w : Waiter (T := T) (Exn := Exn)) : nat :=
  match w with
  | WaiterBegin => 4 | WaiterResuming => 3 | WaiterAcquiring => 2 | WaiterReading => 1
  | WaiterReturned _ => 0
  end.

(** [sync_wait] while the task runs; it cannot leave [resume()] while thread 0 runs
    the coroutine. *)
Definition blocked (t : option nat) s : Prop :=
  waiter s = WaiterResuming \/ waiter s = WaiterAcquiring /\ t <> Some 0.

Inductive Rep : state -> @Abs T Exn Rpc Resp -> nat -> Prop :=
  | rep_begin c : Rep (init c) (Eval c []) 10
  | rep_thread s top f below t a A m n :
      frames s = chain top f below -> Wf (next_frame s) top below ->
      threads s = {[t := a]} -> 0 < next_thread s -> pending s = ∅ -> done s = false ->
      blocked (Some t) s -> At top below f a A m -> n = m + waiter_rank (waiter s) ->
      Rep s A n
  | rep_pending s top below r k c n :
      frames s = chain top (chain_frame below None None (AwaitingRpc None None k)) below ->
      Wf (next_frame s) top below ->
      threads s = ∅ -> 0 < next_thread s -> pending s = {[c := (r, top)]} ->
      done s = false -> blocked None s -> n = 3 + waiter_rank (waiter s) ->
      Rep s (Eval (co_await_rpc r k) below.*2) n
  | rep_done s o n :
      frames s = {[0 := with_on_complete (final_frame [] o) false]} ->
      threads s = ∅ -> pending s = ∅ ->
      (done s = true /\ blocked None s \/ done s = false /\ waiter s = WaiterReading) ->
      n = 1 + waiter_rank (waiter s) ->
      Rep s (Ret o []) n
  | rep_returned s o :
      frames s = ∅ -> threads s = ∅ -> pending s = ∅ -> waiter s = WaiterReturned o ->
      Rep s (Ret o []) 0.

(** ** The simulation *)

(** One action of the machine: nothing, one step of the stack machine with the same
    exchange, or a smaller rank. *)
Definition Simulates s (A : Abs) (n : nat) (o : outcome (option state)) : Prop :=
  exists r, o = Val r /\ forall s', r = Some s' ->
  exists e A' n', Rep s' A' n' /\ log s' = log s ++ option_list e
    /\ (astep A e A' \/ e = None /\ A' = A /\ n' < n).

Lemma simulates_none s A n : Simulates s A n (mret None).
Proof. by eexists. Qed.

Lemma simulates_quiet s A n s' n' :
  Rep s' A n' -> log s' = log s -> n' < n -> Simulates s A n (mret (Some s')).
Proof.
  intros Hr Hl Hn. eexists. split; [done|]. intros ? [= <-].
  exists None, A, n'. cbn. rewrite app_nil_r. by split_and!; [| |right].
Qed.

Lemma simulates_step s A n s' A' n' e :
  Rep s' A' n' -> log s' = log s ++ option_list e -> astep A e A' ->
  Simulates s A n (mret (Some s')).
Proof.
  intros Hr Hl Ha. eexists. split; [done|]. intros ? [= <-].
  exists e, A', n'. split_and!; [done|done|by left].
Qed.

Lemma simulates_silent s A n s' A' n' :
  Rep s' A' n' -> log s' = log s -> astep A None A' ->
  Simulates s A n (mret (Some s')).
Proof.
  intros. eapply simulates_step; [done| |done]. cbn. by rewrite app_nil_r.
Qed.

(** Looking up and replacing the top of the chain. *)
Lemma chain_top s top f below : frames s = chain top f below -> deref_frame s top = Val f.
Proof. unfold deref_frame, chain. intros ->. by rewrite lookup_insert_eq. Qed.

Lemma chain_set top f f' below : <[top := f']> (chain top f below) = chain top f' below.
Proof. apply insert_insert_eq. Qed.

(** A new representation by the same thread, whose frames and activity changed. *)
Lemma rep_same_thread s s' top f below t a a' A n :
  frames s' = chain top f below -> Wf (next_frame s') top below ->
  threads s = {[t := a]} -> threads s' = <[t := a']> (threads s) ->
  next_thread s' = next_thread s -> 0 < next_thread s -> pending s' = ∅ -> done s' = false ->
  waiter s' = waiter s -> blocked (Some t) s -> At top below f a' A n ->
  Rep s' A (n + waiter_rank (waiter s)).
Proof.
  intros Hf Hw Ht Ht' Hn Hpos Hp Hd Hwt Hb Ha. rewrite <- Hwt.
  apply (rep_thread s' top f below t a' _ n); try done.
  - by rewrite Ht', Ht, insert_singleton_eq.
  - by rewrite Hn.
  - unfold blocked in *. by rewrite Hwt.
Qed.

Lemma wf_push fresh top below k :
  Wf fresh top below -> Wf (S fresh) fresh ((top, k) :: below).
Proof.
  intros [Hn Hf Hr]. split; rewrite fmap_cons; cbn [fst].
  - constructor; [|done]. intros Hin. rewrite Forall_forall in Hf. apply Hf in Hin. lia.
  - constructor; [lia|]. eapply Forall_impl; [exact Hf|]. cbn. lia.
  - by rewrite last_cons_default.
Qed.

Lemma wf_pop fresh top p k rest : Wf fresh top ((p, k) :: rest) -> Wf fresh p rest.
Proof.
  intros [Hn Hf Hr]. rewrite fmap_cons in *. split.
  - by inversion Hn.
  - by inversion Hf.
  - by rewrite last_cons_default in Hr.
Qed.

Lemma chain_pop fresh top f p k rest :
  Wf fresh top ((p, k) :: rest) ->
  delete top (chain top f ((p, k) :: rest))
  = chain p (chain_frame rest None None (AwaitingTask top k)) rest.
Proof.
  intros [Hn _ _]. cbn in Hn. apply NoDup_cons in Hn as [Hnotin _].
  unfold chain. rewrite delete_insert_id; [done|]. apply below_frames_notin. exact Hnotin.
Qed.

Lemma promise_result_final below o : promise_result (final_frame below o) = Val o.
Proof. by destruct o. Qed.

Lemma rep_active s A n :
  Rep s A n -> match waiter s with
    | WaiterBegin => threads s = ∅ /\ pending s = ∅
    | WaiterReturned _ => threads s = ∅ /\ pending s = ∅
    | _ => True end.
Proof.
  destruct 1 as [c|s top f below t a A m n _ _ _ _ _ _ Hb _ _|s top below r k c n _ _ _ _ _ _ Hb _
    |s o n _ ? ? Hb _|s o _ ? ? Hb]; cbn.
  - done.
  - by destruct Hb as [-> |[-> _]].
  - by destruct Hb as [-> |[-> _]].
  - by destruct Hb as [[_ [-> |[-> _]]]|[_ ->]].
  - by rewrite Hb.
Qed.

Lemma chain_parent s top f p k rest :
  Wf (next_frame s) top ((p, k) :: rest) -> frames s = chain top f ((p, k) :: rest) ->
  deref_frame s p = Val (chain_frame rest None None (AwaitingTask top k)).
Proof.
  intros [Hn _ _] Hf.
  unfold deref_frame. rewrite Hf. unfold chain.
  rewrite fmap_cons in Hn. apply NoDup_cons in Hn as [Hn _].
  rewrite lookup_insert_ne by (intros ->; apply Hn; by left).
  cbn. by rewrite lookup_insert_eq.
Qed.

(** Resuming the frame below a finished one. *)
Lemma pop_simulates s top below t p k rest o :
  frames s = chain top (final_frame below o) below -> Wf (next_frame s) top below ->
  threads s = {[t := Resume p]} -> 0 < next_thread s -> pending s = ∅ -> done s = false ->
  blocked (Some t) s -> below = (p, k) :: rest ->
  Simulates s (Ret o below.*2) (2 + waiter_rank (waiter s)) (step (LThread t) s).
Proof.
  intros Hf Hw Ht Hpos Hp Hd Hb ->. cbn [step]. rewrite Ht, lookup_singleton_eq.
  unfold resume_step, destroy. rewrite (chain_parent s _ _ _ _ _ Hw Hf).
  cbn [mret outcome_ret mbind outcome_bind chain_frame point].
  rewrite (chain_top _ _ _ _ Hf). cbn [mbind outcome_bind].
  rewrite promise_result_final. cbn [mbind outcome_bind].
  replace (suspended (point (final_frame ((p, k) :: rest) o))) with true by by destruct o.
  cbn [mbind outcome_bind].
  eapply simulates_silent; [|done|apply a_pop].
  eapply (rep_same_thread s _ p _ rest t); try done.
  - cbn [frames set_thread set_frame at_point]. rewrite Hf, (chain_pop _ _ _ _ _ _ Hw).
    apply chain_set.
  - cbn. by eapply wf_pop.
  - apply at_run.
Qed.

(** The other actions of the active thread concern the top frame only. *)
Section Top.
Context (s : state) (top : handle) (below : stack) (t : nat) (a : @Activity Rpc Resp).
Context (f : @Frame T Exn Rpc Resp) (A : @Abs T Exn Rpc Resp) (n : nat).
Context (Hf : frames s = chain top f below) (Hw : Wf (next_frame s) top below).
Context (Ht : threads s = {[t := a]}) (Hpos : 0 < next_thread s).
Context (Hp : pending s = ∅) (Hd : done s = false) (Hb : blocked (Some t) s).

Lemma move_quiet f' a' n' :
  At top below f' a' A n' -> n' < n ->
  Simulates s A (n + waiter_rank (waiter s))
    (mret (Some (set_thread (set_frame s top f') t a'))).
Proof.
  intros Ha Hn. eapply (simulates_quiet _ _ _ _ (n' + waiter_rank (waiter s))); [|done|lia].
  eapply (rep_same_thread s _ top f' below t a a'); try done.
  cbn. by rewrite Hf, chain_set.
Qed.

Lemma move_step f' a' A' n' :
  At top below f' a' A' n' -> astep A None A' ->
  Simulates s A (n + waiter_rank (waiter s))
    (mret (Some (set_thread (set_frame s top f') t a'))).
Proof.
  intros Ha Hn. eapply (simulates_silent _ _ _ _ A' (n' + waiter_rank (waiter s))); [|done|done].
  eapply (rep_same_thread s _ top f' below t a a'); try done.
  cbn. by rewrite Hf, chain_set.
Qed.

(** [final_suspend]: transfer to the awaiting coroutine, or the end of the task. *)
Lemma final_simulates o :
  f = final_frame below o -> A = Ret o below.*2 -> n = 3 ->
  Simulates s A (n + waiter_rank (waiter s)) (s' ← final_step s t top; mret (Some s')).
Proof.
  intros Ef -> ->. unfold final_step. rewrite (chain_top _ _ _ _ Hf), Ef.
  cbn [mbind outcome_bind].
  destruct below as [|[p k] rest] eqn:Eb.
  - assert (top = 0) as -> by exact (wf_root _ _ _ Hw).
    replace (continuation (final_frame [] o)) with (@None handle) by by destruct o.
    replace (on_complete (final_frame [] o)) with true by by destruct o.
    rewrite Hd. cbn [mbind outcome_bind].
    eapply (simulates_quiet _ _ _ _ (1 + waiter_rank (waiter s))); [|done|lia].
    apply (rep_done _ o); cbn; try done.
    + rewrite Hf. unfold chain. by rewrite insert_insert_eq.
    + by rewrite Ht, delete_singleton_eq.
    + left. split; [done|]. unfold blocked in *. cbn. destruct Hb as [Hb'|[Hb' _]]; [by left|].
      right. by split.
  - replace (continuation (final_frame ((p, k) :: rest) o)) with (Some p) by by destruct o.
    cbn [mbind outcome_bind].
    eapply (simulates_quiet _ _ _ _ (2 + waiter_rank (waiter s))); [|done|lia].
    eapply (rep_same_thread s _ top f ((p, k) :: rest) t a (Resume p)); try done.
    rewrite Ef. by eapply at_pop.
Qed.

(** Awaiting a task pushes a frame. *)
Lemma push_simulates c k :
  f = chain_frame below None None (Running (co_await_task c k)) ->
  A = Eval (co_await_task c k) below.*2 ->
  Simulates s A (n + waiter_rank (waiter s)) (s' ← run_step s t top; mret (Some s')).
Proof.
  intros Ef ->. unfold run_step. rewrite (chain_top _ _ _ _ Hf), Ef.
  cbn [mret outcome_ret mbind outcome_bind chain_frame point].
  eapply (simulates_silent _ _ _ _ _ (6 + waiter_rank (waiter s))); [|done|apply a_task].
  eapply (rep_same_thread s _ (next_frame s) _ ((top, k) :: below) t a); try done.
  - cbn. assert (next_frame s <> top).
    { destruct Hw as [_ Hfr _]. apply Forall_inv in Hfr. lia. }
    rewrite Hf, insert_insert_ne by done. unfold chain. by rewrite insert_insert_eq.
  - cbn. by apply wf_push.
  - apply at_initial.
Qed.
End Top.

Lemma top_simulates s top f below t a A n :
  frames s = chain top f below -> Wf (next_frame s) top below ->
  threads s = {[t := a]} -> 0 < next_thread s -> pending s = ∅ -> done s = false ->
  blocked (Some t) s -> At top below f a A n ->
  Simulates s A (n + waiter_rank (waiter s)) (step (LThread t) s).
Proof.
  intros Hf Hw Ht Hpos Hp Hd Hb Ha.
  destruct Ha as [c|res k|res k|c|r k|o|o p k rest Hbelow];
    [| | | | | |by eapply pop_simulates].
  all: cbn [step]; rewrite Ht, lookup_singleton_eq.
  - unfold resume_step. rewrite (chain_top _ _ _ _ Hf).
    eapply move_quiet; try done; [apply at_run|lia].
  - unfold resume_step. rewrite (chain_top _ _ _ _ Hf).
    eapply move_quiet; try done; [apply at_run|lia].
  - unfold callback_step. rewrite (chain_top _ _ _ _ Hf).
    eapply move_quiet; try done; [apply at_resumed|lia].
  - destruct c as [v|x|c k|r k]; [| |by eapply push_simulates|];
      unfold run_step; rewrite (chain_top _ _ _ _ Hf).
    + eapply move_step; try done; [apply (at_final top below (inl v))|apply a_return].
    + eapply move_step; try done; [apply (at_final top below (inr x))|apply a_throw].
    + eapply move_quiet; try done; [apply at_start|lia].
  - apply simulates_none.
  - by eapply final_simulates.
Qed.

Lemma threads_none s t : threads s = ∅ -> threads s !! t = None.
Proof. intros ->. apply lookup_empty. Qed.

(** An action of [sync_wait] while it is blocked in [resume()]. *)
Lemma blocked_simulates t s A n n' :
  (forall s', s' = set_waiter s WaiterAcquiring -> waiter s = WaiterResuming ->
     threads s !! 0 = None -> Rep s' A n') ->
  (waiter s = WaiterResuming -> n' < n) -> done s = false -> blocked t s ->
  Simulates s A n (waiter_step s).
Proof.
  intros Hr Hn Hd Hb. unfold waiter_step. destruct Hb as [Hw|[Hw _]]; rewrite Hw.
  - destruct (threads s !! 0) eqn:Et; [apply simulates_none|].
    eapply simulates_quiet; [by apply Hr|done|by apply Hn].
  - rewrite Hd. apply simulates_none.
Qed.

Lemma waiter_simulates s A n : Rep s A n -> Simulates s A n (step LWaiter s).
Proof.
  intros Hr. cbn [step].
  destruct Hr as [c|s top f below t a A m n Hf Hw Ht Hpos Hp Hd Hb Ha Hn
    |s top below r k c n Hf Hw Ht Hpos Hp Hd Hb Hn|s o n Hf Ht Hp Hd Hn|s o Hf Ht Hp Hw].
  - cbn. eapply (simulates_quiet _ _ _ _ (6 + 3)); [|done|lia].
    eapply (rep_thread _ 0 (chain_frame [] None None (AtInitial c)) []
              0 (Resume 0) (Eval c []) 6); try done; [|cbn; lia|by left|apply at_initial].
    split; [apply NoDup_singleton|by repeat constructor|done].
  - eapply (blocked_simulates (Some t) _ _ _ (m + 2)); [| |done|done].
    + intros s' -> Hres Hnone. apply (rep_thread _ top f below t a _ m); try done.
      right. split; [done|]. intros [= ->]. by rewrite Ht, lookup_singleton_eq in Hnone.
    + intros Hb'. rewrite Hn, Hb'. cbn. lia.
  - eapply (blocked_simulates None _ _ _ 5); [| |done|done].
    + intros s' -> Hres Hnone. apply (rep_pending _ top below r k c); try done.
      by right.
    + intros Hb'. rewrite Hn, Hb'. cbn. lia.
  - unfold waiter_step. destruct Hd as [[Hd Hb]|[Hd Hw]].
    + destruct Hb as [Hw|[Hw _]]; rewrite Hw in *.
      * rewrite (threads_none s 0 Ht).
        eapply (simulates_quiet _ _ _ _ 3); [|done|subst n; cbn; lia].
        apply (rep_done _ o); try done. left. split; [done|by right].
      * rewrite Hd. eapply (simulates_quiet _ _ _ _ 2); [|done|subst n; cbn; lia].
        apply (rep_done _ o); try done. by right.
    + rewrite Hw. unfold deref_frame. rewrite Hf, lookup_singleton_eq.
      cbn [mret outcome_ret mbind outcome_bind].
      replace (promise_result _) with (Val o) by by destruct o.
      cbn [mbind outcome_bind]. unfold destroy, deref_frame.
      rewrite Hf, lookup_singleton_eq. cbn [mret outcome_ret mbind outcome_bind].
      replace (suspended _) with true by by destruct o.
      eapply (simulates_quiet _ _ _ _ 0); [|done|lia].
      by apply (rep_returned _ o).
  - unfold waiter_step. rewrite Hw. apply simulates_none.
Qed.

(** What [start] does, and the callbacks. *)
Lemma start_simulates s A n t :
  Rep s A n -> Simulates s A n (step (LSent t) s)
  /\ forall res, Simulates s A n (step (LInline t res) s).
Proof.
  intros Hr. cbn [step].
  destruct (threads s !! t) as [a|] eqn:Ea; [|split; [|intros res]; apply simulates_none].
  destruct Hr as [c|s top f below t' a' A m n Hf Hw Ht Hpos Hp Hd Hb Ha Hn
    |s top below r k c n Hf Hw Ht _ _ _ _ _|s o n Hf Ht _ _ _|s o Hf Ht _ _];
    [by rewrite threads_none in Ea| |by rewrite threads_none in Ea..].
  rewrite Ht in Ea. apply lookup_singleton_Some in Ea as [<- <-].
  destruct Ha as [c|res k|res k|c|r k|o|o p k rest Hbelow];
    try (split; [|intros res']; apply simulates_none). split.
  - eapply (simulates_quiet _ _ _ _ (3 + waiter_rank (waiter s))); [|done|lia].
    apply (rep_pending _ top below r k (next_call s)); try done.
    + cbn. by rewrite Ht, delete_singleton_eq.
    + cbn. by rewrite Hp.
    + unfold blocked in *. cbn. destruct Hb as [|[? _]]; [by left|]. by right.
  - intros res. eapply (simulates_step _ _ _ _ _ (7 + waiter_rank (waiter s)) (Some (r, res)));
      [|done|apply a_rpc].
    eapply (rep_same_thread s _ top _ below t'); try done. apply at_callback.
Qed.

Lemma complete_simulates s A n c res :
  Rep s A n -> Simulates s A n (step (LComplete c res) s).
Proof.
  intros Hr. cbn [step].
  destruct (pending s !! c) as [[r0 h]|] eqn:Ec; [|apply simulates_none].
  destruct Hr as [c'|s top f below t' a' A m n _ _ _ _ Hp _ _ _ _
    |s top below r k c' n Hf Hw Ht Hpos Hp Hd Hb Hn|s o n _ _ Hp _ _|s o _ _ Hp _];
    [by cbn in Ec; rewrite lookup_empty in Ec|by rewrite Hp, lookup_empty in Ec|
    |by rewrite Hp, lookup_empty in Ec..].
  rewrite Hp in Ec. apply lookup_singleton_Some in Ec as [<- [= -> ->]].
  eapply (simulates_step _ _ _ _ _ (7 + waiter_rank (waiter s)) (Some (_, res)));
    [|done|apply a_rpc].
  apply (rep_thread _ h (chain_frame below None None (AwaitingRpc None None k)) below
           (next_thread s) (InCallback h res) _ 7); try done.
  - cbn. by rewrite Ht.
  - cbn. lia.
  - cbn. by rewrite Hp, delete_singleton_eq.
  - unfold blocked in *. cbn. destruct Hb as [|[? _]]; [by left|]. right.
    split; [done|]. intros [= E]. lia.
  - apply at_callback.
Qed.

Lemma step_simulates l s A n : Rep s A n -> Simulates s A n (step l s).
Proof.
  intros Hr. destruct l as [|t|t|t res|c res].
  - by apply waiter_simulates.
  - destruct (threads s !! t) as [a|] eqn:Ea;
      [|cbn [step]; rewrite Ea; apply simulates_none].
    destruct Hr as [c|s top f below t' a' A m n Hf Hw Ht Hpos Hp Hd Hb Ha Hn
      |s top below r k c n Hf Hw Ht _ _ _ _ _|s o n Hf Ht _ _ _|s o Hf Ht _ _];
      [by rewrite threads_none in Ea| |by rewrite threads_none in Ea..].
    pose proof Ht as Ht'. rewrite Ht in Ea. apply lookup_singleton_Some in Ea as [<- <-].
    rewrite Hn. by eapply top_simulates.
  - by apply start_simulates.
  - by apply start_simulates.
  - by apply complete_simulates.
Qed.

(** ** Executions *)

(** The actions of a run that are executed, not skipped. *)
Fixpoint actions_taken s (trace : list label) : nat :=
  match trace with
  | [] => 0
  | l :: trace' =>
      match step l s with
      | Val (Some s') => S (actions_taken s' trace')
      | _ => actions_taken s trace'
      end
  end.

Lemma rep_rank s A n : Rep s A n -> n <= 10.
Proof.
  destruct 1 as [c|s top f below t a A m n _ _ _ _ _ _ Hb Ha ->
    |s top below r k c n _ _ _ _ _ _ Hb ->|s o n _ _ _ Hb ->|s o _ _ _ _]; [lia| | | |lia].
  - assert (m <= 7) by (destruct Ha; lia). destruct Hb as [-> |[-> _]]; cbn; lia.
  - destruct Hb as [-> |[-> _]]; cbn; lia.
  - destruct Hb as [[_ [-> |[-> _]]]|[_ ->]]; cbn; lia.
Qed.

(** A run of the machine makes [k] steps of the stack machine, with the same RPCs, and
    at most 11 actions for each. *)
Lemma run_simulates trace s A n :
  Rep s A n -> exists s' A' n' es k, run s trace = Val s' /\ Rep s' A' n'
    /\ log s' = log s ++ es /\ asteps A es k A'
    /\ actions_taken s trace + n' <= n + 11 * k.
Proof.
  revert s A n. induction trace as [|lb trace IH]; intros s A n Hr; cbn [run actions_taken].
  - exists s, A, n, [], 0. rewrite app_nil_r. split_and!; [done..|constructor|lia].
  - destruct (step_simulates lb s A n Hr) as (r & -> & Hs). cbn [mbind outcome_bind].
    destruct r as [s1|]; [|by eapply IH].
    destruct (Hs s1 eq_refl) as (e & A1 & n1 & Hr1 & Hl1 & Ha).
    destruct (IH s1 A1 n1 Hr1) as (s2 & A2 & n2 & es & k & E & Hr2 & Hl2 & Hk & Hle).
    pose proof (rep_rank s1 A1 n1 Hr1).
    destruct Ha as [Ha|(-> & -> & Hn)].
    + exists s2, A2, n2, (option_list e ++ es), (S k).
      split_and!; [done|done|by rewrite Hl2, Hl1, app_assoc|by econstructor|lia].
    + exists s2, A2, n2, es, k. cbn in Hl1. rewrite app_nil_r in Hl1.
      split_and!; [done|done|by rewrite Hl2, Hl1|done|lia].
Qed.

Lemma rep_result s A n o :
  Rep s A n -> waiter s = WaiterReturned o ->
  A = Ret o [] /\ frames s = ∅ /\ threads s = ∅ /\ pending s = ∅.
Proof.
  intros Hr Ew. destruct Hr as [c|s top f below t a A m n _ _ _ _ _ _ Hb _ _
    |s top below r k c n _ _ _ _ _ _ Hb _|s o' n _ _ _ Hb _|s o' ? ? ? Hw]; [done| | | |].
  - destruct Hb as [Hb|[Hb _]]; congruence.
  - destruct Hb as [Hb|[Hb _]]; congruence.
  - destruct Hb as [[_ [Hb|[Hb _]]]|[_ Hb]]; congruence.
  - split_and!; congruence.
Qed.

(** [s'] is reached from [s] by one action that is enabled.  A body of the model being a
    finite tree, no execution is infinite. *)
Definition moves s' s : Prop := exists l, step l s = Val (Some s').

Lemma rep_acc s A n : Rep s A n -> Acc moves s.
Proof.
  revert s n. induction A as [A IHA] using (well_founded_ind (smaller_wf (T := T)
    (Exn := Exn) (Rpc := Rpc) (Resp := Resp))).
  intros s n. revert s. induction n as [n IHn] using (well_founded_ind lt_wf).
  intros s Hr. constructor. intros s' [l E].
  destruct (step_simulates l s A n Hr) as (r & E' & Hs). rewrite E in E'. injection E' as <-.
  destruct (Hs s' eq_refl) as (e & A' & n' & Hr' & _ & [Ha|(-> & -> & Hn)]).
  - eapply IHA; [by exists e|done].
  - by eapply IHn.
Qed.

Definition enabled (l : label) s : Prop := exists s', step l s = Val (Some s').

Definition is_completion (l : @label Resp) : bool :=
  match l with LComplete _ _ => true | _ => false end.

Lemma simulates_enabled s A n l :
  Rep s A n -> step l s <> Val None -> enabled l s.
Proof.
  intros Hr Hne. destruct (step_simulates l s A n Hr) as ([s'|] & E & _); [|done].
  by exists s'.
Qed.

Lemma rep_progress s A n :
  Rep s A n ->
  (exists o, waiter s = WaiterReturned o /\ A = Ret o [])
  \/ (exists l, is_completion l = false /\ enabled l s)
  \/ (exists call r h k b, pending s !! call = Some (r, h) /\ A = Eval (co_await_rpc r k) b
       /\ forall res, enabled (LComplete call res) s).
Proof.
  intros Hr. pose proof (fun l => simulates_enabled s A n l Hr) as He.
  destruct Hr as [c|s top f below t a A m n Hf Hw Ht Hpos Hp Hd Hb Ha Hn
    |s top below r k c n Hf Hw Ht Hpos Hp Hd Hb Hn|s o n Hf Ht Hp Hd Hn|s o Hf Ht Hp Hw].
  - right; left. exists LWaiter. split; [done|]. by apply He.
  - right; left. destruct Ha as [c|res k|res k|c|r k|o|o p k rest Hbelow].
    all: try (exists (LThread t); split; [done|]; apply He; cbn [step];
      rewrite Ht, lookup_singleton_eq; by (destruct (resume_step _ _ _)
        || destruct (run_step _ _ _) || destruct (final_step _ _ _)
        || destruct (callback_step _ _ _ _))).
    exists (LSent t). split; [done|]. apply He. cbn [step].
    by rewrite Ht, lookup_singleton_eq.
  - right; right. exists c, r, top, k, below.*2. rewrite Hp, lookup_singleton_eq.
    split_and!; [done..|]. intros res. apply He. cbn [step]. by rewrite Hp, lookup_singleton_eq.
  - right; left. exists LWaiter. split; [done|]. apply He. cbn [step]. unfold waiter_step.
    destruct Hd as [[Hd [Hw|[Hw _]]]|[Hd Hw]]; rewrite Hw.
    + by rewrite (threads_none s 0 Ht).
    + by rewrite Hd.
    + unfold deref_frame. rewrite Hf, lookup_singleton_eq. cbn.
      destruct (promise_result _); [cbn|done]. by destruct (destroy s 0).
  - left. by exists o.
Qed.

(** Every reachable state of [sync_wait] represents a state of the stack machine, from
    which the body goes on as it would directly. *)
Lemma reachable_rep (c : body) (trace : list label) :
  exists s A n, run (init c) trace = Val s /\ Rep s A n
  /\ forall l o, abs_evals A l o -> evals c (log s ++ l) o.
Proof.
  destruct (run_simulates trace (init c) (Eval c []) 10 (rep_begin c))
    as (s & A & n & es & k & E & Hr & Hl & Hk & _). cbn in Hl. subst es.
  exists s, A, n. split_and!; [done|done|]. intros l o Hlo.
  destruct (asteps_evals _ _ _ _ _ _ Hk Hlo) as (l1 & o1 & l2 & El & Hc & -> & ->).
  by rewrite El, app_nil_r.
Qed.

Lemma returned_evals (c : body) s A n o :
  Rep s A n -> (forall l o, abs_evals A l o -> evals c (log s ++ l) o) ->
  waiter s = WaiterReturned o ->
  evals c (log s) o /\ frames s = ∅ /\ threads s = ∅ /\ pending s = ∅.
Proof.
  intros Hr Hdirect Ho. destruct (rep_result s A n o Hr Ho) as (-> & Hf & Ht & Hp).
  split; [|done]. rewrite <- (app_nil_r (log s)). by apply Hdirect.
Qed.

(** ** Properties *)

(** C27. [sync_wait] on any task refines the direct reading of its body.  In any
    interleaving of the threads, of inline and of later completions, nothing has
    undefined behaviour: no destroyed frame is used, no coroutine is resumed twice
    and no empty result is read.  The RPCs whose callbacks have run are at any
    time a prefix of a direct execution of the body, in program order.  When
    [sync_wait] has returned, they are the whole of it and its value or exception
    is the result; every frame has been destroyed and no thread or call is
    left. *)
Theorem sync_wait_refines (c : body) (trace : list label) :
  exists s, run (init c) trace = Val s
  /\ (exists l o, evals c (log s ++ l) o)
  /\ forall o, waiter s = WaiterReturned o ->
       evals c (log s) o /\ frames s = ∅ /\ threads s = ∅ /\ pending s = ∅.
Proof.
  destruct (reachable_rep c trace) as (s & A & n & E & Hr & Hdirect).
  exists s. split_and!; [done| |].
  - destruct (abs_evals_exists (MkError 0%Z "" "" "" no_ratelimit) A) as (l & o & Hlo).
    exists l, o. by apply Hdirect.
  - intros o Ho. by eapply returned_evals.
Qed.

(** C28. [sync_wait] costs little and never gets stuck.  After any execution the direct
    reading of the body has made [k] of its steps - a return, a throw, the start or the
    end of an awaited task, an RPC - with the RPCs whose callbacks have run, and at
    most 10 + 11 [k] actions have been executed: the frames, the awaiters and
    [sync_wait] itself add no loop of their own.  And either [sync_wait] has returned
    and the direct reading is at its end, with that result; or some action other than
    a callback is enabled; or the direct reading is about to make the RPC that is
    outstanding, whose callback may run with any result.  So [sync_wait] returns as
    soon as the body ends and its RPCs are answered.  (That the body ends is not shown
    here: the bodies of the model are finite, and a task that awaits in an endless
    loop is not one of them.) *)
Theorem sync_wait_returns (c : body) (trace : list label) :
  exists s A k, run (init c) trace = Val s
  /\ asteps (Eval c []) (log s) k A /\ actions_taken (init c) trace <= 10 + 11 * k
  /\ ((exists o, waiter s = WaiterReturned o /\ A = Ret o [])
      \/ (exists l, is_completion l = false /\ enabled l s)
      \/ (exists call r h next b, pending s !! call = Some (r, h)
           /\ A = Eval (co_await_rpc r next) b
           /\ forall res, enabled (LComplete call res) s)).
Proof.
  destruct (run_simulates trace (init c) (Eval c []) 10 (rep_begin c))
    as (s & A & n & es & k & E & Hr & Hl & Hk & Hle). cbn in Hl. subst es.
  exists s, A, k. split_and!; [done|done|lia|by eapply rep_progress].
Qed.
End Refinement.
