(* ===== verification/SandboxTrade.v ===== *)
(** * The sandbox examples ([examples/coro_trade.cpp], [examples/sandbox_trade.cpp])

    The same round trip of an account, as a coroutine driven by [sync_wait] and as
    blocking calls, with the lines that each prints.  A call holds the fields that the
    examples set in its request, [Reply] those they read of the responses. *)

From S2P Require Import Prelude StdStrings FixedDecimal DecimalText PrintedText ErrorResult.
From S2P Require Import Coroutine CoroutineSpec CoroutineTheorems.
From stdpp Require Import base numbers list strings gmap.
From Stdlib Require Import ZArith Lia.

#[local] Open Scope Z_scope.

Record PostOrderRequest := MkPostOrder {
  po_account : string; po_instrument : string; po_quantity : Z;
  po_direction : Z; po_order_type : Z }.

Definition ORDER_DIRECTION_BUY : Z := 1.
Definition ORDER_TYPE_MARKET : Z := 2.

(** The calls of [client.sandbox()] that the examples make. *)
Inductive SandboxCall :=
  | OpenSandboxAccount
  | SandboxPayIn (account_id : string) (amount : MoneyValue)
  | PostSandboxOrder (order : PostOrderRequest)
  | GetSandboxPortfolio (account_id : string)
  | CloseSandboxAccount (account_id : string).

Record Position := MkPosition { figi : string; quantity : Quotation }.

(** The fields of a response; each call reads those of its own message. *)
Record Reply := MkReply {
  account_id : string;               (* OpenSandboxAccountResponse *)
  balance : MoneyValue;              (* SandboxPayInResponse *)
  order_id : string;                 (* PostOrderResponse *)
  execution_report_status : Z;
  executed_order_price : MoneyValue;
  positions : list Position;         (* PortfolioResponse *)
}.

Definition market_buy (account instrument : string) : PostOrderRequest :=
  MkPostOrder account instrument 1 ORDER_DIRECTION_BUY ORDER_TYPE_MARKET.

(** [tinvest::Decimal(n).to_money("rub")] *)
Definition roubles (n : Z) : MoneyValue := MkMoneyValue "rub" n 0.

Example roubles_to_money :
  (d ← decimal 50000 0; mret (to_money d "rub")) = Val (roubles 50000).
Proof. reflexivity. Qed.

(** ** The lines *)

Definition opened_line (o : Reply) : printed_line :=
  Out ("opened sandbox account " +:+ c_str (account_id o)).
Definition failed_line (rpc : string) (e : Error) : printed_line :=
  Err (rpc +:+ " failed: " +:+ c_str (error_to_string e)).
Definition balance_line (r : Reply) : outcome printed_line :=
  t ← money_text (balance r); mret (Out ("balance: " +:+ t)).
Definition closed_line : printed_line := Out "closed sandbox account".

(** The order, as [coro_trade] and as [sandbox_trade] report it. *)
Definition coro_order_line (r : Reply) : outcome printed_line :=
  t ← money_text (executed_order_price r);
  mret (Out ("order " +:+ c_str (order_id r) +:+ " executed=" +:+ t)).
Definition order_line (r : Reply) : outcome printed_line :=
  t ← money_text (executed_order_price r);
  mret (Out ("order " +:+ c_str (order_id r)
             +:+ " status=" +:+ int_to_string (execution_report_status r)
             +:+ " executed=" +:+ t)).
Definition position_line (p : Position) : outcome printed_line :=
  t ← quotation_text (quantity p);
  mret (Out ("position " +:+ c_str (figi p) +:+ " x " +:+ t)).

(** ** The coroutine [run] of coro_trade.cpp *)

(** Undefined behaviour while printing: nothing can be said of what follows, and the
    body ends there with the result [UB]. *)
Definition printing {A Rpc Resp} (screen : outcome (list printed_line))
    (k : list printed_line -> Co (outcome A) string Rpc Resp) : Co (outcome A) string Rpc Resp :=
  match screen with Val lines => k lines | UB => co_return UB end.

(** The exit code, with what was printed. *)
Definition coro_run (instrument : string)
    : Co (outcome (Z * list printed_line)) string SandboxCall Reply :=
  co_await_rpc OpenSandboxAccount (fun opened =>
    match opened with
    | ResultError e => co_return (Val (1, [failed_line "OpenSandboxAccount" e]))
    | ResultValue o =>
        let account := account_id o in
        co_await_rpc (SandboxPayIn account (roubles 50000)) (fun paid =>
        printing (match paid with
                  | ResultValue r => print_line (balance_line r) (mret [opened_line o])
                  | ResultError _ => mret [opened_line o] end) (fun screen =>
        co_await_rpc (PostSandboxOrder (market_buy account instrument)) (fun posted =>
        printing (print_line (match posted with
                              | ResultValue r => coro_order_line r
                              | ResultError e => mret (failed_line "PostSandboxOrder" e) end)
                    (mret screen)) (fun screen =>
        co_await_rpc (CloseSandboxAccount account) (fun _ =>
        co_return (Val (0, screen ++ [closed_line])))))))
    end).

(** [argc > 1 ? argv[1] : "BBG004730N88"] *)
Definition instrument_arg (args : list string) : string :=
  match args with [] => "BBG004730N88" | a :: _ => a end.

Definition no_token : printed_line := Err "Set TINVEST_TOKEN (sandbox token)".

(** [main] of coro_trade.cpp: the coroutine it waits for, if there is a token. *)
Definition coro_main (tok : option string) (args : list string)
    : Co (outcome (Z * list printed_line)) string SandboxCall Reply + Z * list printed_line :=
  match tok with
  | None => inr (1, [no_token])
  | Some _ => inl (coro_run (instrument_arg args))
  end.

(** ** [main] of sandbox_trade.cpp, over blocking calls with state [W] *)

Section Blocking.
Context {W : Type} (call : SandboxCall -> W -> Result Reply * W).

Fixpoint position_lines (ps : list Position) : outcome (list printed_line) :=
  match ps with
  | [] => mret []
  | p :: rest => l ← position_line p; ls ← position_lines rest; mret (l :: ls)
  end.

(** From the first call on: the exit code, the lines, and the state. *)
Definition sandbox_calls (instrument : string) (w : W)
    : outcome (Z * list printed_line * W) :=
  let '(opened, w) := call OpenSandboxAccount w in
  match opened with
  | ResultError e => mret (1, [failed_line "OpenSandboxAccount" e], w)
  | ResultValue o =>
      let account := account_id o in
      let '(paid, w) := call (SandboxPayIn account (roubles 100000)) w in
      l1 ← match paid with
           | ResultValue r => balance_line r
           | ResultError e => mret (failed_line "SandboxPayIn" e) end;
      let '(posted, w) := call (PostSandboxOrder (market_buy account instrument)) w in
      l2 ← match posted with
           | ResultValue r => order_line r
           | ResultError e => mret (failed_line "PostSandboxOrder" e) end;
      let '(p, w) := call (GetSandboxPortfolio account) w in
      l3 ← match p with
           | ResultValue r => position_lines (positions r)
           | ResultError _ => mret [] end;
      let '(closed, w) := call (CloseSandboxAccount account) w in
      let l4 := match closed with ResultValue _ => [closed_line] | ResultError _ => [] end in
      mret (0, opened_line o :: l1 :: l2 :: l3 ++ l4, w)
  end.

Definition sandbox_main (tok : option string) (args : list string) (w : W)
    : outcome (Z * list printed_line * W) :=
  match tok with
  | None => mret (1, [no_token], w)
  | Some _ => sandbox_calls (instrument_arg args) w
  end.
End Blocking.

(** A blocking call that records itself and its result. *)
Definition recorded {W} (call : SandboxCall -> W -> Result Reply * W)
    (c : SandboxCall) (w : W * list (SandboxCall * Result Reply))
    : Result Reply * (W * list (SandboxCall * Result Reply)) :=
  let '(r, w') := call c w.1 in (r, (w', w.2 ++ [(c, r)])).

(** ** Properties *)

(** The account that a log opened is the one it closed, as its last call, and the
    exit code says whether one was opened. *)
Definition OpensAndCloses (log : list (SandboxCall * Result Reply)) (code : Z) : Prop :=
  (exists e, log = [(OpenSandboxAccount, ResultError e)] /\ code = 1)
  \/ (exists o mid r, log = (OpenSandboxAccount, ResultValue o) :: mid
        ++ [(CloseSandboxAccount (account_id o), r)]
      /\ code = 0
      /\ Forall (fun e => match e.1 with
                 | SandboxPayIn a _ | GetSandboxPortfolio a => a = account_id o
                 | PostSandboxOrder p => po_account p = account_id o
                 | _ => False
                 end) mid).

(** The amounts that a response gives can be printed. *)
Definition ReplyFits (e : SandboxCall * Result Reply) : Prop :=
  match e with
  | (SandboxPayIn _ _, ResultValue r) => AmountFits (balance r)
  | (PostSandboxOrder _, ResultValue r) => AmountFits (executed_order_price r)
  | (GetSandboxPortfolio _, ResultValue r) =>
      Forall (fun p => Convertible (quantity p)) (positions r)
  | _ => True
  end.

(** The state after these calls, one after the other. *)
Definition after_calls {W} (call : SandboxCall -> W -> Result Reply * W)
    (cs : list SandboxCall) (w : W) : W := foldl (fun w c => (call c w).2) w cs.

(** The calls whose results [sandbox_trade] prints amounts of, on an account. *)
Definition printed_calls (instrument account : string) : list SandboxCall :=
  [OpenSandboxAccount; SandboxPayIn account (roubles 100000);
   PostSandboxOrder (market_buy account instrument); GetSandboxPortfolio account].

(** One of these calls, made after those before it, gives an amount that cannot be
    printed. *)
Definition GivesUnprintable {W} (call : SandboxCall -> W -> Result Reply * W)
    (instrument : string) (w : W) : Prop :=
  exists o cs c,
    (call OpenSandboxAccount w).1 = ResultValue o
    /\ (cs ++ [c]) `prefix_of` printed_calls instrument (account_id o)
    /\ ~ ReplyFits (c, (call c (after_calls call cs w)).1).

(** The units of the amounts are of the type of their field, an int64. *)
Definition ReplyTyped (e : SandboxCall * Result Reply) : Prop :=
  match e with
  | (SandboxPayIn _ _, ResultValue r) => InRange W64 (m_units (balance r))
  | (PostSandboxOrder _, ResultValue r) => InRange W64 (m_units (executed_order_price r))
  | (GetSandboxPortfolio _, ResultValue r) =>
      Forall (fun p => InRange W64 (q_units (quantity p))) (positions r)
  | _ => True
  end.

(** What is printed after a call, by each program. *)
Inductive Says : bool -> SandboxCall * Result Reply -> list printed_line -> Prop :=
  | says_opened coro o : Says coro (OpenSandboxAccount, ResultValue o) [opened_line o]
  | says_not_opened coro e :
      Says coro (OpenSandboxAccount, ResultError e) [failed_line "OpenSandboxAccount" e]
  | says_paid coro a m r t :
      ShowsAmount t (balance r) ->
      Says coro (SandboxPayIn a m, ResultValue r) [Out ("balance: " +:+ t)]
  | says_not_paid coro a m e :
      Says coro (SandboxPayIn a m, ResultError e)
        (if coro then [] else [failed_line "SandboxPayIn" e])
  | says_ordered coro o r t :
      ShowsAmount t (executed_order_price r) ->
      Says coro (PostSandboxOrder o, ResultValue r)
        [Out ("order " +:+ c_str (order_id r)
              +:+ (if coro then "" else " status=" +:+ int_to_string (execution_report_status r))
              +:+ " executed=" +:+ t)]
  | says_not_ordered coro o e :
      Says coro (PostSandboxOrder o, ResultError e) [failed_line "PostSandboxOrder" e]
  | says_positions coro a r ts :
      Forall2 (fun p t => Shows t (quantity p)) (positions r) ts ->
      Says coro (GetSandboxPortfolio a, ResultValue r)
        (zip_with (fun p t => Out ("position " +:+ c_str (figi p) +:+ " x " +:+ t))
           (positions r) ts)
  | says_no_portfolio coro a e : Says coro (GetSandboxPortfolio a, ResultError e) []
  | says_closed coro a r : Says coro (CloseSandboxAccount a, ResultValue r) [closed_line]
  | says_not_closed coro a e :
      Says coro (CloseSandboxAccount a, ResultError e) (if coro then [closed_line] else []).

Definition Printed (coro : bool) (log : list (SandboxCall * Result Reply))
    (lines : list printed_line) : Prop :=
  exists texts, Forall2 (Says coro) log texts /\ lines = concat texts.

Lemma printed_cons coro e log ls lines :
  Says coro e ls -> Printed coro log lines -> Printed coro (e :: log) (ls ++ lines).
Proof. intros Hs (ts & Hf & ->). exists (ls :: ts). split; [by constructor|done]. Qed.

Lemma printed_nil coro : Printed coro [] [].
Proof. exists []. split; [constructor|done]. Qed.

#[local] Hint Constructors Says : core.
#[local] Hint Resolve printed_nil : core.

Lemma balance_line_says coro a m r :
  AmountFits (balance r) -> exists l, balance_line r = Val l
    /\ Says coro (SandboxPayIn a m, ResultValue r) [l].
Proof.
  intros Hf. destruct (money_text_shows _ Hf) as (t & E & Ht).
  unfold balance_line. rewrite E. eexists. split; [done|]. by constructor.
Qed.

Lemma coro_order_line_says o r :
  AmountFits (executed_order_price r) -> exists l, coro_order_line r = Val l
    /\ Says true (PostSandboxOrder o, ResultValue r) [l].
Proof.
  intros Hf. destruct (money_text_shows _ Hf) as (t & E & Ht).
  unfold coro_order_line. rewrite E. eexists. split; [done|].
  exact (says_ordered true o r t Ht).
Qed.

Lemma order_line_says o r :
  AmountFits (executed_order_price r) -> exists l, order_line r = Val l
    /\ Says false (PostSandboxOrder o, ResultValue r) [l].
Proof.
  intros Hf. destruct (money_text_shows _ Hf) as (t & E & Ht).
  unfold order_line. rewrite E. eexists. split; [done|].
  exact (says_ordered false o r t Ht).
Qed.

Lemma position_lines_say a r :
  Forall (fun p => Convertible (quantity p)) (positions r) ->
  exists ls, position_lines (positions r) = Val ls
    /\ Says false (GetSandboxPortfolio a, ResultValue r) ls.
Proof.
  intros Hf. assert (H : exists ts, Forall2 (fun p t => Shows t (quantity p)) (positions r) ts
    /\ position_lines (positions r) = Val (zip_with (fun p t =>
         Out ("position " +:+ c_str (figi p) +:+ " x " +:+ t)) (positions r) ts)).
  { induction Hf as [|p ps Hp Hf (ts & Hs & IH)]; [exists []; by split; [constructor|]|].
    destruct (quotation_text_shows _ Hp) as (t & E & Ht).
    exists (t :: ts). split; [by constructor|].
    cbn [position_lines zip_with]. unfold position_line. rewrite E, IH. done. }
  destruct H as (ts & Hs & ->). eexists. split; [done|]. by constructor.
Qed.

(** *** The coroutine *)

(** Either the account is closed and all is printed, or the last response could not be
    printed. *)
Definition coro_result (l : list (SandboxCall * Result Reply))
    (o : outcome (Z * list printed_line) + string) : Prop :=
  (exists code lines, o = inl (Val (code, lines)) /\ OpensAndCloses l code
     /\ (Forall ReplyTyped l -> Printed true l lines))
  \/ o = inl UB /\ exists before e, l = before ++ [e] /\ ~ ReplyFits e.

(** A line that is printed says what the call gave; one that cannot be has an amount
    that does not fit. *)
Lemma line_cases {A} (line : outcome A) (fits typed : Prop) (says : A -> Prop) :
  (fits -> exists l, line = Val l /\ says l) -> (forall l, line = Val l -> typed -> fits) ->
  (exists l, line = Val l /\ (typed -> says l)) \/ line = UB /\ ~ fits.
Proof.
  intros Hfits Htyped. destruct line as [l|].
  - left. exists l. split; [done|]. intros Ht.
    by destruct (Hfits (Htyped l eq_refl Ht)) as (l' & [= <-] & Hs).
  - right. split; [done|]. intros Hf. by destruct (Hfits Hf) as (l & ? & _).
Qed.

Lemma balance_cases coro a m r :
  (exists l, balance_line r = Val l
     /\ (ReplyTyped (SandboxPayIn a m, ResultValue r) ->
         Says coro (SandboxPayIn a m, ResultValue r) [l]))
  \/ balance_line r = UB /\ ~ ReplyFits (SandboxPayIn a m, ResultValue r).
Proof.
  apply line_cases; [apply balance_line_says|]. intros l E.
  unfold balance_line in E. destruct (money_text (balance r)) as [t|] eqn:Et; [|done].
  by apply (money_text_fits _ t).
Qed.

Lemma ordered_cases (coro : bool) o (r : Result Reply) :
  (exists l, match r with
             | ResultValue r => if coro then coro_order_line r else order_line r
             | ResultError e => mret (failed_line "PostSandboxOrder" e) end = Val l
     /\ (ReplyTyped (PostSandboxOrder o, r) -> Says coro (PostSandboxOrder o, r) [l]))
  \/ match r with
     | ResultValue r => if coro then coro_order_line r else order_line r
     | ResultError e => mret (failed_line "PostSandboxOrder" e) end = UB
     /\ ~ ReplyFits (PostSandboxOrder o, r).
Proof.
  apply line_cases.
  - destruct r as [r|e]; intros Hf; [|eexists; split; [done|constructor]].
    destruct coro; [by apply coro_order_line_says|by apply order_line_says].
  - destruct r as [r|e]; intros l E; [|done].
    unfold coro_order_line, order_line in E.
    destruct (money_text (executed_order_price r)) as [t|] eqn:Et;
      [by apply (money_text_fits _ t)|by destruct coro].
Qed.

Lemma coro_paid a m before (r : Result Reply) :
  (exists ls, match r with
              | ResultValue r => print_line (balance_line r) (mret before)
              | ResultError _ => mret before end = Val (before ++ ls)
     /\ (ReplyTyped (SandboxPayIn a m, r) -> Says true (SandboxPayIn a m, r) ls))
  \/ match r with
     | ResultValue r => print_line (balance_line r) (mret before)
     | ResultError _ => mret before end = UB
     /\ ~ ReplyFits (SandboxPayIn a m, r).
Proof.
  destruct r as [r|e].
  - destruct (balance_cases true a m r) as [(l & -> & Hs)|[-> Hn]]; [left|by right].
    by exists [l].
  - left. exists []. rewrite app_nil_r. split; [done|]. intros _. exact (says_not_paid true a m e).
Qed.

Lemma coro_closed a (r : Result Reply) : Says true (CloseSandboxAccount a, r) [closed_line].
Proof. destruct r as [r|e]; [constructor|exact (says_not_closed true a e)]. Qed.

Lemma evals_rpc_inv {T Exn Rpc Resp} (r : Rpc) (k : Result Resp -> Co T Exn Rpc Resp) l o :
  evals (co_await_rpc r k) l o -> exists res l', l = (r, res) :: l' /\ evals (k res) l' o.
Proof. inversion 1; subst. by eexists _, _. Qed.

Lemma evals_return_inv {T Exn Rpc Resp} (v : T) l (o : T + Exn) :
  evals (co_return v : Co T Exn Rpc Resp) l o -> l = [] /\ o = inl v.
Proof. by inversion 1. Qed.

Lemma coro_run_evals instrument l o :
  evals (coro_run instrument) l o -> coro_result l o.
Proof.
  unfold coro_run. intros ([a|e] & l1 & -> & H)%evals_rpc_inv; cbv beta iota zeta in H.
  2:{ apply evals_return_inv in H as [-> ->]. left. eexists 1, _. split; [done|].
      split; [left; by exists e|]. intros _. apply (printed_cons _ _ _ [_] []); auto. }
  apply evals_rpc_inv in H as (r1 & l2 & -> & H).
  destruct (coro_paid (account_id a) (roubles 50000) [opened_line a] r1)
    as [(t1 & E1 & S1)|[E1 Hn]]; rewrite E1 in H; cbn [printing] in H.
  2:{ apply evals_return_inv in H as [-> ->]. right. split; [done|]. by eexists [_], _. }
  apply evals_rpc_inv in H as (r2 & l3 & -> & H).
  destruct (ordered_cases true (market_buy (account_id a) instrument) r2)
    as [(t2 & E2 & S2)|[E2 Hn]]; rewrite E2 in H;
    cbn [printing print_line mbind outcome_bind mret outcome_ret] in H.
  2:{ apply evals_return_inv in H as [-> ->]. right. split; [done|]. by eexists [_; _], _. }
  apply evals_rpc_inv in H as (r3 & l4 & -> & [-> ->]%evals_return_inv).
  left. eexists 0, _. split; [done|]. split.
  { right. by eexists a, [_; _], r3; split_and!; [| |repeat constructor]. }
  rewrite !Forall_cons. intros (_ & F1 & F2 & _ & _).
  exists [[opened_line a]; t1; [t2]; [closed_line]]. split.
  - apply Forall2_cons_2; [auto|]. apply Forall2_cons_2; [by apply S1|].
    apply Forall2_cons_2; [by apply S2|]. apply Forall2_cons_2; [apply coro_closed|].
    by apply Forall2_nil_2.
  - cbn. by rewrite <- !app_assoc.
Qed.

(** *** The blocking version *)

Lemma main_paid a m (r : Result Reply) :
  (exists l, match r with
             | ResultValue r => balance_line r
             | ResultError e => mret (failed_line "SandboxPayIn" e) end = Val l
     /\ (ReplyTyped (SandboxPayIn a m, r) -> Says false (SandboxPayIn a m, r) [l]))
  \/ match r with
     | ResultValue r => balance_line r
     | ResultError e => mret (failed_line "SandboxPayIn" e) end = UB
     /\ ~ ReplyFits (SandboxPayIn a m, r).
Proof.
  destruct r as [r|e]; [apply balance_cases|].
  left. eexists. split; [done|]. intros _. exact (says_not_paid false a m e).
Qed.

Lemma position_lines_typed ps ls :
  position_lines ps = Val ls -> Forall (fun p => InRange W64 (q_units (quantity p))) ps ->
  Forall (fun p => Convertible (quantity p)) ps.
Proof.
  intros E Ht. revert ls E. induction Ht as [|p ps Hp Ht IH]; intros ls E; [constructor|].
  cbn in E. unfold position_line in E.
  destruct (quotation_text (quantity p)) as [t|] eqn:Et; [|done]. cbn in E.
  destruct (position_lines ps) as [ls'|]; [|done].
  constructor; [by apply (quotation_text_converts _ t)|by apply (IH ls')].
Qed.

Lemma main_positions a (r : Result Reply) :
  (exists ls, match r with
              | ResultValue r => position_lines (positions r)
              | ResultError _ => mret [] end = Val ls
     /\ (ReplyTyped (GetSandboxPortfolio a, r) -> Says false (GetSandboxPortfolio a, r) ls))
  \/ match r with
     | ResultValue r => position_lines (positions r)
     | ResultError _ => mret [] end = UB
     /\ ~ ReplyFits (GetSandboxPortfolio a, r).
Proof.
  apply line_cases.
  - destruct r as [r|e]; intros Hf; [by apply position_lines_say|].
    exists []. split; [done|constructor].
  - destruct r as [r|e]; intros ls E; [|done]. by apply position_lines_typed with ls.
Qed.

Lemma main_closed a (r : Result Reply) :
  Says false (CloseSandboxAccount a, r)
    (match r with ResultValue _ => [closed_line] | ResultError _ => [] end).
Proof. destruct r as [r|e]; [constructor|exact (says_not_closed false a e)]. Qed.

Lemma sandbox_calls_ok {W} (call : SandboxCall -> W -> Result Reply * W) instrument w :
  match sandbox_calls (recorded call) instrument (w, []) with
  | Val (code, lines, (_, log)) =>
      OpensAndCloses log code /\ (Forall ReplyTyped log -> Printed false log lines)
  | UB => GivesUnprintable call instrument w
  end.
Proof.
  unfold sandbox_calls, recorded. cbn [fst snd].
  destruct (call OpenSandboxAccount w) as [[o|e] w1] eqn:C0.
  2:{ cbn. split; [left; by exists e|]. intros _. apply (printed_cons _ _ _ [_] []); auto. }
  set (a := account_id o). set (m := roubles 100000). set (po := market_buy a instrument).
  cbv beta iota. cbn [fst snd app].
  destruct (call (SandboxPayIn a m) w1) as [r1 w2] eqn:C1. cbv beta iota. cbn [fst snd app].
  destruct (main_paid a m r1) as [(l1 & E1 & S1)|[E1 Hn]]; rewrite E1; cbn [mbind outcome_bind].
  2:{ exists o, [OpenSandboxAccount], (SandboxPayIn a m). cbn [after_calls foldl].
      rewrite C0. cbn [fst snd]. rewrite C1. split_and!; [done|by eexists|done]. }
  destruct (call (PostSandboxOrder po) w2) as [r2 w3] eqn:C2. cbv beta iota. cbn [fst snd app].
  destruct (ordered_cases false po r2) as [(l2 & E2 & S2)|[E2 Hn]]; rewrite E2;
    cbn [mbind outcome_bind].
  2:{ exists o, [OpenSandboxAccount; SandboxPayIn a m], (PostSandboxOrder po).
      cbn [after_calls foldl]. rewrite C0. cbn [fst snd]. rewrite C1. cbn [fst snd].
      rewrite C2. split_and!; [done|by eexists|done]. }
  destruct (call (GetSandboxPortfolio a) w3) as [r3 w4] eqn:C3. cbv beta iota. cbn [fst snd app].
  destruct (main_positions a r3) as [(l3 & E3 & S3)|[E3 Hn]]; rewrite E3;
    cbn [mbind outcome_bind].
  2:{ exists o, [OpenSandboxAccount; SandboxPayIn a m; PostSandboxOrder po],
        (GetSandboxPortfolio a). cbn [after_calls foldl]. rewrite C0. cbn [fst snd].
      rewrite C1. cbn [fst snd]. rewrite C2. cbn [fst snd].
      rewrite C3. split_and!; [done|by exists []|done]. }
  destruct (call (CloseSandboxAccount a) w4) as [r4 w5]. cbv beta iota.
  cbn [mret outcome_ret]. split.
  - right. by eexists o, [_; _; _], r4; split_and!; [| |repeat constructor].
  - rewrite !Forall_cons. intros (_ & F1 & F2 & F3 & _ & _).
    exists [[opened_line o]; [l1]; [l2]; l3;
            match r4 with ResultValue _ => [closed_line] | ResultError _ => [] end]. split.
    + apply Forall2_cons_2; [auto|]. apply Forall2_cons_2; [by apply S1|].
      apply Forall2_cons_2; [by apply S2|]. apply Forall2_cons_2; [by apply S3|].
      apply Forall2_cons_2; [apply main_closed|]. by apply Forall2_nil_2.
    + cbn. by rewrite app_nil_r.
Qed.

(** C35. Both examples clean up and say what they did, in every interleaving of the
    coroutine's threads, and the coroutine never throws.  Unless a response holds an
    amount that cannot be printed, an account that was opened is closed by the last
    call, with only calls for that account in between; the exit code is 0 then, and 1
    when no account was opened; and both programs print, call by call, the account, the
    balance, the order and - [sandbox_trade] only - its status and the positions, every
    number as a text that reads back; a failed call is reported by its error.  They
    differ in what they pass over: [coro_trade] says nothing of a failed [SandboxPayIn]
    and announces the account as closed even if closing it failed.  An amount whose
    units and nanos together leave int64 is undefined behaviour where it is printed,
    and is the only such case: of the coroutine, it is in the last response, and of the
    blocking program in the response of one of the calls it makes. *)
Theorem sandbox_account_closed (instrument : string) :
  (forall trace, exists s, Coroutine.run (init (coro_run instrument)) trace = Val s
     /\ forall o, waiter s = WaiterReturned o ->
          (exists code lines, o = inl (Val (code, lines))
             /\ OpensAndCloses (Coroutine.log s) code
             /\ (Forall ReplyTyped (Coroutine.log s) -> Printed true (Coroutine.log s) lines))
          \/ o = inl UB /\ exists before e, Coroutine.log s = before ++ [e] /\ ~ ReplyFits e)
  /\ (forall W (call : SandboxCall -> W -> Result Reply * W) w,
        match sandbox_calls (recorded call) instrument (w, []) with
        | Val (code, lines, (_, log)) =>
            OpensAndCloses log code /\ (Forall ReplyTyped log -> Printed false log lines)
        | UB => GivesUnprintable call instrument w
        end).
Proof.
  split.
  - intros trace. destruct (reachable_rep (coro_run instrument) trace)
      as (s & A & n & E & Hr & Hdirect).
    exists s. split; [done|]. intros o Ho.
    destruct (returned_evals _ s A n o Hr Hdirect Ho) as [Hev _].
    exact (coro_run_evals _ _ _ Hev).
  - intros W call w. by apply sandbox_calls_ok.
Qed.

(** ** Concrete runs *)

(** A server that opens account "acc" and refuses to close it. *)
Definition stubborn (c : SandboxCall) (calls : nat) : Result Reply * nat :=
  (match c with
   | CloseSandboxAccount _ => ResultError (MkError 13 "busy" "" "" no_ratelimit)
   | _ => ResultValue (MkReply "acc" (MkMoneyValue "rub" 100000 0) "o1" 1
            (MkMoneyValue "rub" 300 50000000)
            [MkPosition "BBG" (MkQuotation 1 0)])
   end, S calls).

Example sandbox_main_run :
  sandbox_main stubborn (Some "t"%string) [] 0%nat
  = Val (0, [Out "opened sandbox account acc"; Out "balance: 100000 rub";
             Out "order o1 status=1 executed=300.05 rub"; Out "position BBG x 1"], 5%nat)
  /\ sandbox_main stubborn None [] 0%nat
     = Val (1, [Err "Set TINVEST_TOKEN (sandbox token)"], 0%nat).
Proof. split; vm_compute; reflexivity. Qed.

(** The same answers, given to the coroutine one by one. *)
Fixpoint answered {T Exn} (fuel : nat) (c : Co T Exn SandboxCall Reply) : option T :=
  match fuel, c with
  | S fuel, co_await_rpc r k => answered fuel (k (stubborn r 0).1)
  | _, co_return v => Some v
  | _, _ => None
  end.

(** [coro_trade] says that it closed an account that is still open. *)
Example coro_says_closed :
  answered 4 (coro_run "SBER")
  = Some (Val (0, [Out "opened sandbox account acc"; Out "balance: 100000 rub";
                   Out "order o1 executed=300.05 rub"; Out "closed sandbox account"])).
Proof. vm_compute. reflexivity. Qed.

(** An amount that overflows when it is normalised: the account stays open. *)
Definition overflowing (c : SandboxCall) (calls : nat) : Result Reply * nat :=
  (ResultValue (MkReply "acc" (MkMoneyValue "rub" (wmax W64) 1000000000) "o1" 1
     (MkMoneyValue "rub" 300 0) []), S calls).

Example sandbox_overflow :
  sandbox_main overflowing (Some "t"%string) [] 0%nat = UB.
Proof. vm_compute. reflexivity. Qed.
