(* ===== verification/StreamCommon.v ===== *)
(** * What both streams share ([include/tinvest/streams/server_stream.hpp],
    the part of [run] that [src/market_data_stream.cpp] repeats)

    The states reported to the user, the options, the error and the delay of one
    failed attempt, and the protocol of the notifications. *)

From S2P Require Import Prelude StdStrings ErrorResult.
From stdpp Require Import base numbers list strings.
From Stdlib Require Import ZArith Lia.

#[local] Open Scope Z_scope.

Inductive StreamState := connecting | connected | disconnected | stopped.

#[export] Instance StreamState_eq_dec : EqDecision StreamState.
Proof. solve_decision. Defined.

Record StreamOptions := MkStreamOptions {
  initial_backoff : Z;  (* ms *)
  max_backoff : Z;      (* ms *)
  reconnect : bool;
}.
Definition default_stream_options : StreamOptions := MkStreamOptions 100 30000 true.

(** [Error err; err.code = status.error_code(); err.message = ...] *)
Definition status_error (status : Status) : Error :=
  MkError (error_code status) (error_message status) "" "" no_ratelimit.

(** [opts_.initial_backoff * (1 << std::min(attempt, 8))], capped. *)
Definition backoff_delay (opts : StreamOptions) (attempt : Z) : outcome Z :=
  delay ← checked W64 (initial_backoff opts * Z.shiftl 1 (Z.min attempt 8));
  mret (if delay >? max_backoff opts then max_backoff opts else delay).

(** The delays of [n] failures in a row from a given attempt number on. *)
Fixpoint backoff_run (opts : StreamOptions) (attempt : Z) (n : nat) : outcome (list Z) :=
  match n with
  | O => mret []
  | S n' =>
      d ← backoff_delay opts attempt;
      attempt' ← checked W32 (attempt + 1);
      ds ← backoff_run opts attempt' n';
      mret (d :: ds)
  end.

(** ** The protocol of the callbacks

    What the user observes: state notifications and messages.  [protocol] is the
    automaton of the permitted sequences. *)
Inductive event (Resp : Type) :=
  | Notified (s : StreamState) (e : option Error)
  | Delivered (r : Resp).
Arguments Notified {Resp}. Arguments Delivered {Resp}.

Inductive phase := Idle | AwaitingData | Receiving | Broken.

#[export] Instance phase_eq_dec : EqDecision phase.
Proof. solve_decision. Defined.

Definition protocol {Resp} (p : phase) (e : event Resp) : option phase :=
  match p, e with
  | Idle, Notified connecting None => Some AwaitingData
  | Idle, Notified stopped None => Some Idle
  | AwaitingData, Notified connected None => Some Receiving
  | AwaitingData, Notified disconnected (Some _) => Some Broken
  | AwaitingData, Notified stopped None => Some Idle
  | Receiving, Delivered _ => Some Receiving
  | Receiving, Notified disconnected (Some _) => Some Broken
  | Receiving, Notified stopped None => Some Idle
  | Broken, Notified connecting None => Some AwaitingData
  | Broken, Notified stopped None => Some Idle
  | _, _ => None
  end.

Definition follows {Resp} (log : list (event Resp)) : option phase :=
  foldl (fun p e => p ← p; protocol p e) (Some Idle) log.

#[global] Arguments follows {Resp} log : simpl never.

Lemma follows_snoc {Resp} (log : list (event Resp)) e :
  follows (log ++ [e]) = (p ← follows log; protocol p e).
Proof. unfold follows. by rewrite foldl_app. Qed.

(** Logging callbacks. *)
Definition log_data {Resp} (r : Resp) (log : list (event Resp)) := log ++ [Delivered r].
Definition log_state {Resp} (s : StreamState) (e : option Error)
    (log : list (event Resp)) := log ++ [Notified s e].

(** The messages in a log. *)
Definition deliveries {Resp} (log : list (event Resp)) : list Resp :=
  omap (fun e : event Resp => match e with Delivered r => Some r | _ => None end) log.

Lemma deliveries_state {Resp} st e (log : list (event Resp)) : deliveries (log_state st e log) = deliveries log.
Proof. unfold deliveries, log_state. by rewrite omap_app, app_nil_r. Qed.
Lemma deliveries_data {Resp} (r : Resp) log : deliveries (log_data r log) = deliveries log ++ [r].
Proof. unfold deliveries, log_data. by rewrite omap_app. Qed.
#[global] Arguments deliveries {Resp} log : simpl never.

(** ** The backoff schedule *)

Definition BackoffRange (opts : StreamOptions) : Prop :=
  0 <= initial_backoff opts /\ 0 <= max_backoff opts
  /\ initial_backoff opts * 256 <= wmax W64.

Lemma pow2_le_256 n : 0 <= n -> 1 <= 2 ^ Z.min n 8 <= 256.
Proof.
  intros Hn. split.
  - pose proof (Z.pow_pos_nonneg 2 (Z.min n 8)). lia.
  - change 256 with (2 ^ 8). apply Z.pow_le_mono_r; lia.
Qed.

Lemma backoff_delay_val opts n :
  BackoffRange opts -> 0 <= n ->
  backoff_delay opts n
  = Val (Z.min (initial_backoff opts * 2 ^ Z.min n 8) (max_backoff opts)).
Proof.
  intros (Hi & Hm & Hr) Hn. unfold backoff_delay.
  rewrite Z.shiftl_1_l. pose proof (pow2_le_256 n Hn).
  assert (0 <= initial_backoff opts * 2 ^ Z.min n 8
          <= initial_backoff opts * 256) by nia.
  rewrite checked_in by range. cbn. f_equal. split_ifs; lia.
Qed.

Lemma backoff_run_val opts n k :
  BackoffRange opts -> 0 <= k -> k + Z.of_nat n <= wmax W32 ->
  backoff_run opts k n
  = Val ((fun i => Z.min (initial_backoff opts * 2 ^ Z.min (k + Z.of_nat i) 8)
                         (max_backoff opts)) <$> seq 0 n).
Proof.
  intros Hr. revert k. induction n as [|n IH]; intros k Hk Hn; cbn [backoff_run]; [done|].
  rewrite backoff_delay_val by done. cbn [mbind outcome_bind].
  rewrite checked_in by range. cbn [mbind outcome_bind].
  rewrite IH by lia. cbn. rewrite Z.add_0_r. f_equal. f_equal.
  rewrite <- seq_shift, <- list_fmap_compose. apply list_fmap_ext.
  intros i x _. cbn. by replace (k + 1 + Z.of_nat x) with (k + Z.pos (Pos.of_succ_nat x)) by lia.
Qed.

(** The waits between failed connection attempts: as long as the options are
    in range and fewer than 2^31 attempts fail in a row, the code computes the
    [i]-th wait without overflow, doubling the initial one up to eight times and
    capped by [max_backoff]; the waits never decrease; with the default options
    they go from 0.1 s to 25.6 s, so the cap of 30 s is never reached. *)
Theorem backoff_schedule opts n :
  BackoffRange opts -> Z.of_nat n <= wmax W32 ->
  exists ds, backoff_run opts 0 n = Val ds /\ length ds = n
  /\ (forall i, (i < n)%nat -> ds !! i
        = Some (Z.min (initial_backoff opts * 2 ^ Z.min (Z.of_nat i) 8) (max_backoff opts)))
  /\ (forall i j x y, (i <= j)%nat -> ds !! i = Some x -> ds !! j = Some y -> x <= y)
  /\ (opts = default_stream_options -> Forall (fun d => 100 <= d <= 25600) ds).
Proof.
  intros Hr Hn. rewrite backoff_run_val by (done || lia).
  eexists. split; [done|].
  assert (Hl : forall i, (i < n)%nat -> ((fun i => Z.min (initial_backoff opts
      * 2 ^ Z.min (0 + Z.of_nat i) 8) (max_backoff opts)) <$> seq 0 n) !! i
    = Some (Z.min (initial_backoff opts * 2 ^ Z.min (Z.of_nat i) 8) (max_backoff opts))).
  { intros i Hi. rewrite list_lookup_fmap, lookup_seq_lt by done. done. }
  split_and!; [by rewrite length_fmap, length_seq|done| |].
  - intros i j x y Hij Hx Hy.
    pose proof (lookup_lt_Some _ _ _ Hy) as Hj. rewrite length_fmap, length_seq in Hj.
    rewrite Hl in Hx, Hy by lia. injection Hx as <-. injection Hy as <-.
    destruct Hr as (Hi & _ & _).
    assert (2 ^ Z.min (Z.of_nat i) 8 <= 2 ^ Z.min (Z.of_nat j) 8)
      by (apply Z.pow_le_mono_r; lia).
    apply Z.min_le_compat_r, Z.mul_le_mono_nonneg_l; done.
  - intros ->. apply Forall_fmap, Forall_forall. intros i _. cbn.
    pose proof (pow2_le_256 (Z.of_nat i) ltac:(lia)). change (0 + Z.of_nat i) with (Z.of_nat i). lia.
Qed.

Lemma backoff_schedule_witness :
  exists ds, backoff_run default_stream_options 0 12 = Val ds /\ length ds = 12%nat.
Proof.
  destruct (backoff_schedule default_stream_options 12) as (ds & H1 & H2 & _).
  - split_and!; vm_compute; discriminate.
  - vm_compute; discriminate.
  - exists ds. split; [exact H1|exact H2].
Defined.
