(* ===== verification/MarketData.v ===== *)
(** * Market-data requests and the subscription registry
    ([src/market_data_stream.cpp], messages of [contracts/marketdata.proto])

    The request messages, the helpers [single], [keys_of] and [action_of], the
    registry kept by [remember_locked] and [forget_locked], the requests the
    convenience methods build, and [dispatch].  The registry is a
    [std::map<std::string, MarketDataRequest>]: a [gmap], iterated in the order
    of its keys.  Protobuf enums are open, so their values are ints. *)

From S2P Require Import Prelude StdStrings.
From stdpp Require Import base numbers list strings gmap sorting.
From Stdlib Require Import ZArith Lia Ascii.

#[local] Open Scope Z_scope.

(** ** Messages *)

Definition SUBSCRIPTION_ACTION_UNSPECIFIED : Z := 0.
Definition SUBSCRIPTION_ACTION_SUBSCRIBE : Z := 1.
Definition SUBSCRIPTION_ACTION_UNSUBSCRIBE : Z := 2.
Definition SUBSCRIPTION_INTERVAL_ONE_MINUTE : Z := 1.
Definition ORDERBOOK_TYPE_UNSPECIFIED : Z := 0.

Record CandleInstrument := MkCandleInstrument {
  ci_figi : string; ci_interval : Z; ci_instrument_id : string }.
Record OrderBookInstrument := MkOrderBookInstrument {
  ob_figi : string; ob_depth : Z; ob_instrument_id : string; ob_type : Z }.

(** TradeInstrument, InfoInstrument and LastPriceInstrument have the same two
    fields. *)
Record Instrument := MkInstrument { i_figi : string; i_instrument_id : string }.

Record CandleOptions := MkCandleOptions {
  waiting_close : bool; candle_source_type : option Z }.
Record TradeOptions := MkTradeOptions { trade_source : Z; with_open_interest : bool }.

(** The five Subscribe*Request messages: an action, the instruments, and the
    other fields. *)
Record Subscribe (I O : Type) := MkSubscribe {
  subscription_action : Z; instruments : list I; options : O }.
Arguments MkSubscribe {I O}. Arguments subscription_action {I O}.
Arguments instruments {I O}. Arguments options {I O}.

Inductive MarketDataRequest :=
  | SubscribeCandles (r : Subscribe CandleInstrument CandleOptions)
  | SubscribeOrderBook (r : Subscribe OrderBookInstrument unit)
  | SubscribeTrades (r : Subscribe Instrument TradeOptions)
  | SubscribeInfo (r : Subscribe Instrument unit)
  | SubscribeLastPrice (r : Subscribe Instrument unit)
  | GetMySubscriptions
  | PingRequest (time : option (Z * Z))
  | PingDelaySettings (ping_delay_ms : option Z)
  | PayloadNotSet.

#[export] Instance CandleInstrument_eq_dec : EqDecision CandleInstrument.
Proof. solve_decision. Defined.
#[export] Instance OrderBookInstrument_eq_dec : EqDecision OrderBookInstrument.
Proof. solve_decision. Defined.
#[export] Instance Instrument_eq_dec : EqDecision Instrument.
Proof. solve_decision. Defined.
#[export] Instance CandleOptions_eq_dec : EqDecision CandleOptions.
Proof. solve_decision. Defined.
#[export] Instance TradeOptions_eq_dec : EqDecision TradeOptions.
Proof. solve_decision. Defined.
#[export] Instance Subscribe_eq_dec {I O : Type} `{EqDecision I, EqDecision O} :
  EqDecision (Subscribe I O).
Proof. solve_decision. Defined.
#[export] Instance MarketDataRequest_eq_dec : EqDecision MarketDataRequest.
Proof. solve_decision. Defined.

(** ** Helpers of the registry *)

(** The body shared by the five cases of [single]: copy the message, keep one
    instrument.  [instruments(i)] is undefined out of range. *)
Definition pick {I O} (r : Subscribe I O) (i : nat) : outcome (Subscribe I O) :=
  match instruments r !! i with
  | Some inst => Val (MkSubscribe (subscription_action r) [inst] (options r))
  | None => UB
  end.

Definition single (src : MarketDataRequest) (i : nat) : outcome MarketDataRequest :=
  match src with
  | SubscribeCandles r => p ← pick r i; mret (SubscribeCandles p)
  | SubscribeOrderBook r => p ← pick r i; mret (SubscribeOrderBook p)
  | SubscribeTrades r => p ← pick r i; mret (SubscribeTrades p)
  | SubscribeInfo r => p ← pick r i; mret (SubscribeInfo p)
  | SubscribeLastPrice r => p ← pick r i; mret (SubscribeLastPrice p)
  | _ => mret PayloadNotSet
  end.

(** [i.instrument_id().empty() ? i.figi() : i.instrument_id()]. *)
Definition id_of (instrument_id figi : string) : string :=
  if bool_decide (instrument_id = ""%string) then figi else instrument_id.

Definition candle_key (i : CandleInstrument) : string :=
  "candles|" +:+ id_of (ci_instrument_id i) (ci_figi i) +:+ "|"
  +:+ int_to_string (ci_interval i).
Definition order_book_key (i : OrderBookInstrument) : string :=
  "orderbook|" +:+ id_of (ob_instrument_id i) (ob_figi i) +:+ "|"
  +:+ int_to_string (ob_depth i) +:+ "|" +:+ int_to_string (ob_type i).
Definition trade_key (i : Instrument) : string :=
  "trades|" +:+ id_of (i_instrument_id i) (i_figi i).
Definition info_key (i : Instrument) : string :=
  "info|" +:+ id_of (i_instrument_id i) (i_figi i).
Definition last_price_key (i : Instrument) : string :=
  "last_price|" +:+ id_of (i_instrument_id i) (i_figi i).

Definition keys_of (r : MarketDataRequest) : list string :=
  match r with
  | SubscribeCandles r => candle_key <$> instruments r
  | SubscribeOrderBook r => order_book_key <$> instruments r
  | SubscribeTrades r => trade_key <$> instruments r
  | SubscribeInfo r => info_key <$> instruments r
  | SubscribeLastPrice r => last_price_key <$> instruments r
  | _ => []
  end.

Definition action_of (r : MarketDataRequest) : Z :=
  match r with
  | SubscribeCandles r => subscription_action r
  | SubscribeOrderBook r => subscription_action r
  | SubscribeTrades r => subscription_action r
  | SubscribeInfo r => subscription_action r
  | SubscribeLastPrice r => subscription_action r
  | _ => SUBSCRIPTION_ACTION_UNSPECIFIED
  end.

(** ** The registry *)

Abbreviation registry := (gmap string MarketDataRequest).

(** [for (i = 0; i < keys.size(); ++i) subscriptions_[keys[i]] = single(request, i);] *)
Fixpoint remember_from (request : MarketDataRequest) (i : nat) (keys : list string)
    (subs : registry) : outcome registry :=
  match keys with
  | [] => mret subs
  | k :: keys' =>
      one ← single request i;
      remember_from request (S i) keys' (<[k := one]> subs)
  end.

Definition remember_locked (subs : registry) (request : MarketDataRequest)
    : outcome registry :=
  remember_from request 0 (keys_of request) subs.

Definition forget_locked (subs : registry) (request : MarketDataRequest) : registry :=
  fold_left (fun s k => delete k s) (keys_of request) subs.

(** The part of [send] that updates the registry. *)
Definition track (remember : bool) (subs : registry) (request : MarketDataRequest)
    : outcome registry :=
  if remember
  then if action_of request =? SUBSCRIPTION_ACTION_SUBSCRIBE
       then remember_locked subs request
       else if action_of request =? SUBSCRIPTION_ACTION_UNSUBSCRIBE
       then mret (forget_locked subs request)
       else mret subs
  else mret subs.

(** Iteration over the [std::map]: the stored requests in the order of their
    keys. *)
Definition key_le (a b : string * MarketDataRequest) : Prop := String.le a.1 b.1.
#[export] Instance key_le_dec : RelDecision key_le.
Proof. unfold key_le. intros a b. apply _. Defined.

Definition replay (subs : registry) : list MarketDataRequest :=
  (merge_sort key_le (map_to_list subs)).*2.

(** ** The requests of the convenience methods *)

Definition subscribe_candles (ids : list string) (interval : Z) (waiting : bool) :=
  SubscribeCandles (MkSubscribe SUBSCRIPTION_ACTION_SUBSCRIBE
    ((fun id => MkCandleInstrument "" interval id) <$> ids)
    (MkCandleOptions waiting None)).
Definition unsubscribe_candles (ids : list string) (interval : Z) :=
  SubscribeCandles (MkSubscribe SUBSCRIPTION_ACTION_UNSUBSCRIBE
    ((fun id => MkCandleInstrument "" interval id) <$> ids)
    (MkCandleOptions false None)).
Definition subscribe_order_book (ids : list string) (depth type : Z) :=
  SubscribeOrderBook (MkSubscribe SUBSCRIPTION_ACTION_SUBSCRIBE
    ((fun id => MkOrderBookInstrument "" depth id type) <$> ids) tt).
Definition unsubscribe_order_book (ids : list string) (depth type : Z) :=
  SubscribeOrderBook (MkSubscribe SUBSCRIPTION_ACTION_UNSUBSCRIBE
    ((fun id => MkOrderBookInstrument "" depth id type) <$> ids) tt).
Definition subscribe_trades (ids : list string) (open_interest : bool) :=
  SubscribeTrades (MkSubscribe SUBSCRIPTION_ACTION_SUBSCRIBE
    (MkInstrument "" <$> ids) (MkTradeOptions 0 open_interest)).
Definition unsubscribe_trades (ids : list string) :=
  SubscribeTrades (MkSubscribe SUBSCRIPTION_ACTION_UNSUBSCRIBE
    (MkInstrument "" <$> ids) (MkTradeOptions 0 false)).
Definition subscribe_last_prices (ids : list string) :=
  SubscribeLastPrice (MkSubscribe SUBSCRIPTION_ACTION_SUBSCRIBE
    (MkInstrument "" <$> ids) tt).
Definition unsubscribe_last_prices (ids : list string) :=
  SubscribeLastPrice (MkSubscribe SUBSCRIPTION_ACTION_UNSUBSCRIBE
    (MkInstrument "" <$> ids) tt).
Definition subscribe_info (ids : list string) :=
  SubscribeInfo (MkSubscribe SUBSCRIPTION_ACTION_SUBSCRIBE
    (MkInstrument "" <$> ids) tt).
Definition unsubscribe_info (ids : list string) :=
  SubscribeInfo (MkSubscribe SUBSCRIPTION_ACTION_UNSUBSCRIBE
    (MkInstrument "" <$> ids) tt).
Definition get_my_subscriptions : MarketDataRequest := GetMySubscriptions.

(** ** Responses and their dispatch

    The payload messages are not inspected, so they are type parameters; a
    handler is an optional state transformer on the user's state [W]. *)

Section Dispatch.
Context {Candle Trade OrderBook LastPrice TradingStatus OpenInterest : Type}.
Context {CandlesResult OrderBookResult TradesResult InfoResult LastPriceResult : Type}.
Context {Ping W : Type}.

Inductive MarketDataResponse :=
  | kSubscribeCandlesResponse (r : CandlesResult)
  | kSubscribeOrderBookResponse (r : OrderBookResult)
  | kSubscribeTradesResponse (r : TradesResult)
  | kSubscribeInfoResponse (r : InfoResult)
  | kCandle (c : Candle)
  | kTrade (t : Trade)
  | kOrderbook (o : OrderBook)
  | kTradingStatus (s : TradingStatus)
  | kPing (p : Ping)
  | kSubscribeLastPriceResponse (r : LastPriceResult)
  | kLastPrice (p : LastPrice)
  | kOpenInterest (i : OpenInterest)
  | kResponseNotSet.

Record MarketDataHandlers := MkHandlers {
  on_candle : option (Candle -> W -> W);
  on_trade : option (Trade -> W -> W);
  on_order_book : option (OrderBook -> W -> W);
  on_last_price : option (LastPrice -> W -> W);
  on_trading_status : option (TradingStatus -> W -> W);
  on_open_interest : option (OpenInterest -> W -> W);
  on_subscription_result : option (MarketDataResponse -> W -> W);
  on_raw : option (MarketDataResponse -> W -> W);
}.

(** [if (h) h(x);] *)
Definition call {A} (h : option (A -> W -> W)) (x : A) (w : W) : W :=
  match h with Some f => f x w | None => w end.

Definition dispatch (h : MarketDataHandlers) (r : MarketDataResponse) (w : W) : W :=
  let w := call (on_raw h) r w in
  match r with
  | kCandle c => call (on_candle h) c w
  | kTrade t => call (on_trade h) t w
  | kOrderbook o => call (on_order_book h) o w
  | kLastPrice p => call (on_last_price h) p w
  | kTradingStatus s => call (on_trading_status h) s w
  | kOpenInterest i => call (on_open_interest h) i w
  | kSubscribeCandlesResponse _ | kSubscribeOrderBookResponse _
  | kSubscribeTradesResponse _ | kSubscribeInfoResponse _
  | kSubscribeLastPriceResponse _ => call (on_subscription_result h) r w
  | kPing _ | kResponseNotSet => w
  end.
End Dispatch.

Example test_keys :
  keys_of (subscribe_order_book ["a"; "b"] 10 3)
  = ["orderbook|a|10|3"; "orderbook|b|10|3"]%string.
Proof. vm_compute. reflexivity. Qed.

Example test_replay :
  (s ← track true ∅ (subscribe_trades ["b"; "a"] true);
   s ← track true s (unsubscribe_trades ["b"]);
   mret (replay s)) = Val [subscribe_trades ["a"] true].
Proof. vm_compute. reflexivity. Qed.

(** ** What the registry means

    A reference view: the targets a request names, without its options. *)
Inductive target :=
  | Candles (id : string) (interval : Z)
  | OrderBook (id : string) (depth type : Z)
  | Trades (id : string)
  | Info (id : string)
  | LastPrices (id : string).

Definition targets_of (r : MarketDataRequest) : list target :=
  match r with
  | SubscribeCandles r =>
      (fun i => Candles (id_of (ci_instrument_id i) (ci_figi i)) (ci_interval i))
      <$> instruments r
  | SubscribeOrderBook r =>
      (fun i => OrderBook (id_of (ob_instrument_id i) (ob_figi i)) (ob_depth i)
                  (ob_type i)) <$> instruments r
  | SubscribeTrades r =>
      (fun i => Trades (id_of (i_instrument_id i) (i_figi i))) <$> instruments r
  | SubscribeInfo r =>
      (fun i => Info (id_of (i_instrument_id i) (i_figi i))) <$> instruments r
  | SubscribeLastPrice r =>
      (fun i => LastPrices (id_of (i_instrument_id i) (i_figi i))) <$> instruments r
  | _ => []
  end.

Definition target_key (t : target) : string :=
  match t with
  | Candles id iv => "candles|" +:+ id +:+ "|" +:+ int_to_string iv
  | OrderBook id d ty =>
      "orderbook|" +:+ id +:+ "|" +:+ int_to_string d +:+ "|" +:+ int_to_string ty
  | Trades id => "trades|" +:+ id
  | Info id => "info|" +:+ id
  | LastPrices id => "last_price|" +:+ id
  end.

(** The numeric parts are 32-bit ints in the messages. *)
Definition WfTarget (t : target) : Prop :=
  match t with
  | Candles _ iv => InRange W32 iv
  | OrderBook _ d ty => InRange W32 d /\ InRange W32 ty
  | _ => True
  end.

(** A request with its instruments removed: its kind, action and options. *)
Definition frame_of (r : MarketDataRequest) : MarketDataRequest :=
  match r with
  | SubscribeCandles r =>
      SubscribeCandles (MkSubscribe (subscription_action r) [] (options r))
  | SubscribeOrderBook r =>
      SubscribeOrderBook (MkSubscribe (subscription_action r) [] (options r))
  | SubscribeTrades r =>
      SubscribeTrades (MkSubscribe (subscription_action r) [] (options r))
  | SubscribeInfo r =>
      SubscribeInfo (MkSubscribe (subscription_action r) [] (options r))
  | SubscribeLastPrice r =>
      SubscribeLastPrice (MkSubscribe (subscription_action r) [] (options r))
  | r => r
  end.

(** Every entry of the registry is a subscribe request for its own key only. *)
Definition RegistryOk (subs : registry) : Prop :=
  map_Forall (fun k r => keys_of r = [k]
                         /\ action_of r = SUBSCRIPTION_ACTION_SUBSCRIBE) subs.

(** Tracking a sequence of requests. *)
Definition track_all (subs : registry) (rs : list (bool * MarketDataRequest))
    : outcome registry :=
  foldl (fun s br => s ← s; track br.1 s br.2) (Val subs) rs.

#[global] Arguments track_all : simpl never.

(** ** Keys *)

Lemma append_cons c s t : String c s +:+ t = String c (s +:+ t).
Proof. done. Qed.

Lemma list_ascii_app s t :
  String.list_ascii_of_string (s +:+ t)
  = String.list_ascii_of_string s ++ String.list_ascii_of_string t.
Proof. induction s as [|c s IH]; [done|]. rewrite append_cons. cbn. by rewrite IH. Qed.

Lemma list_ascii_inj s t :
  String.list_ascii_of_string s = String.list_ascii_of_string t -> s = t.
Proof.
  intros E. rewrite <- (String.string_of_list_ascii_of_string s),
    <- (String.string_of_list_ascii_of_string t). by f_equal.
Qed.

(** The text after the last separator is determined. *)
Lemma split_last {A} (c : A) l1 l2 r1 r2 :
  c ∉ r1 -> c ∉ r2 -> l1 ++ c :: r1 = l2 ++ c :: r2 -> l1 = l2 /\ r1 = r2.
Proof.
  intros H1 H2. revert l2. induction l1 as [|x l1 IH]; intros [|y l2]; cbn.
  - by intros [= ->].
  - intros [= <- ->]. set_solver.
  - intros [= <- <-]. set_solver.
  - intros [= -> [-> ->]%IH]. done.
Qed.

Lemma digits_no_bar l : Digits l -> "|"%char ∉ l.
Proof.
  intros H Hin. unfold Digits in H. rewrite Forall_forall in H.
  by apply H in Hin.
Qed.

Lemma int_no_bar n : InRange W32 n -> "|"%char ∉ int_to_chars n.
Proof.
  intros H. unfold int_to_chars. destruct (n <? 0) eqn:E.
  - rewrite not_elem_of_cons. split; [done|].
    apply digits_no_bar, udec_digits. range.
  - apply digits_no_bar, udec_digits. range.
Qed.

(** One [id|number] step of the injectivity of keys. *)
Lemma bar_int_inj s t a b :
  InRange W32 a -> InRange W32 b ->
  s +:+ "|" +:+ int_to_string a = t +:+ "|" +:+ int_to_string b -> s = t /\ a = b.
Proof.
  intros Ha Hb E%(f_equal String.list_ascii_of_string).
  rewrite !list_ascii_app in E. unfold int_to_string in E.
  rewrite !String.list_ascii_of_string_of_list_ascii in E. cbn in E.
  apply split_last in E as [E1%list_ascii_inj E2%int_to_chars_inj];
    auto using int_no_bar.
Qed.

Lemma string_app_assoc (a b c : string) : (a +:+ b) +:+ c = a +:+ b +:+ c.
Proof. induction a as [|x a IH]; [done|]. by rewrite !append_cons, IH. Qed.

Lemma target_key_inj a b :
  WfTarget a -> WfTarget b -> target_key a = target_key b -> a = b.
Proof.
  destruct a, b; cbn [WfTarget]; intros Ha Hb E; try discriminate E;
    cbn in E; simplify_eq; try done.
  - by apply bar_int_inj in E as [-> ->].
  - destruct Ha, Hb.
    assert (R : forall x y z : string,
      x +:+ "|" +:+ y +:+ "|" +:+ z = (x +:+ "|" +:+ y) +:+ "|" +:+ z)
      by (intros; by rewrite !string_app_assoc).
    rewrite !R in E. apply bar_int_inj in E as [E ->]; [|done..].
    by apply bar_int_inj in E as [-> ->].
Qed.

Lemma keys_of_targets r : keys_of r = target_key <$> targets_of r.
Proof. destruct r; cbn; rewrite <- ?list_fmap_compose; done. Qed.

(** ** Remembering and forgetting *)

Lemma pick_lookup {I O} (r : Subscribe I O) i x :
  instruments r !! i = Some x ->
  pick r i = Val (MkSubscribe (subscription_action r) [x] (options r)).
Proof. intros H. unfold pick. by rewrite H. Qed.

Lemma single_lookup r i k :
  keys_of r !! i = Some k ->
  exists one, single r i = Val one /\ keys_of one = [k] /\ frame_of one = frame_of r.
Proof.
  destruct r; cbn; try done;
    rewrite list_lookup_fmap_Some; intros (x & -> & Hx);
    rewrite (pick_lookup _ _ _ Hx); eexists; split_and!; reflexivity.
Qed.

Lemma single_id r k : keys_of r = [k] -> single r 0 = Val r.
Proof.
  destruct r as [r|r|r|r|r| | | | ]; cbn; try done;
    destruct r as [act insts opts]; cbn; intros E;
    (destruct insts as [|x [|y insts]]; try discriminate E); done.
Qed.

Lemma action_of_frame r : action_of (frame_of r) = action_of r.
Proof. by destruct r. Qed.

Lemma frame_action r one : frame_of one = frame_of r -> action_of one = action_of r.
Proof. intros E. by rewrite <- (action_of_frame one), E, action_of_frame. Qed.

(** [keys] is the part of [keys_of r] from position [i] on. *)
Lemma remember_from_spec r keys i subs :
  (forall j k, keys !! j = Some k -> keys_of r !! (i + j)%nat = Some k) ->
  exists subs', remember_from r i keys subs = Val subs'
    /\ (forall k, k ∉ keys -> subs' !! k = subs !! k)
    /\ (forall j k, keys !! j = Some k ->
          (forall j', (j < j')%nat -> keys !! j' <> Some k) ->
          exists one, single r (i + j) = Val one /\ subs' !! k = Some one).
Proof.
  revert i subs. induction keys as [|k0 keys IH]; intros i subs Hk.
  - exists subs. split_and!; [done..|]. by intros j k.
  - destruct (single_lookup r i k0) as (one & Ho & _ & _).
    { specialize (Hk 0%nat k0 eq_refl). by rewrite Nat.add_0_r in Hk. }
    cbn [remember_from]. rewrite Ho. cbn [mbind outcome_bind].
    destruct (IH (S i) (<[k0:=one]> subs)) as (subs' & -> & Hout & Hin).
    { intros j k Hj. specialize (Hk (S j) k Hj). by rewrite Nat.add_succ_r in Hk. }
    exists subs'. split_and!; [done| |].
    + intros k [Hne Hni]%not_elem_of_cons. rewrite Hout by done.
      by rewrite lookup_insert_ne.
    + intros [|j] k Hj Hlast.
      * injection Hj as ->. exists one. rewrite Nat.add_0_r. split; [done|].
        rewrite Hout; [by rewrite lookup_insert_eq|].
        intros [j' Hj']%list_elem_of_lookup_1. apply (Hlast (S j')); [lia|done].
      * rewrite Nat.add_succ_r. apply Hin; [done|].
        intros j' Hlt. apply (Hlast (S j')). lia.
Qed.

Lemma remember_locked_spec subs r :
  exists subs', remember_locked subs r = Val subs'
    /\ (forall k, k ∉ keys_of r -> subs' !! k = subs !! k)
    /\ (forall i k, keys_of r !! i = Some k ->
          (forall j, (i < j)%nat -> keys_of r !! j <> Some k) ->
          exists one, single r i = Val one /\ subs' !! k = Some one).
Proof. apply (remember_from_spec r (keys_of r) 0 subs). done. Qed.

Lemma forget_locked_lookup subs r k :
  forget_locked subs r !! k = if decide (k ∈ keys_of r) then None else subs !! k.
Proof.
  unfold forget_locked. generalize (keys_of r) as ks. intros ks. revert subs.
  induction ks as [|k0 ks IH]; intros subs; cbn [fold_left].
  - by rewrite decide_False by set_solver.
  - rewrite IH. destruct (decide (k ∈ ks)) as [Hin|Hni].
    + rewrite decide_True by set_solver. done.
    + destruct (decide (k = k0)) as [->|Hne].
      * rewrite decide_True by set_solver. by rewrite lookup_delete_eq.
      * rewrite decide_False by set_solver. by rewrite lookup_delete_ne.
Qed.

(** The last position of a key. *)
Lemma last_index {A} `{EqDecision A} (l : list A) x :
  x ∈ l -> exists i, l !! i = Some x /\ forall j, (i < j)%nat -> l !! j <> Some x.
Proof.
  induction l as [|y l IH]; [set_solver|]. intros Hx.
  destruct (decide (x ∈ l)) as [Hin|Hni].
  - destruct (IH Hin) as (i & Hi & Hlast). exists (S i). split; [done|].
    intros [|j] Hj; [lia|]. apply Hlast. lia.
  - exists 0%nat. split; [set_solver|]. intros [|j] Hj; [lia|]. cbn.
    intros H%list_elem_of_lookup_2. done.
Qed.

Lemma remember_locked_in subs r subs' k :
  remember_locked subs r = Val subs' -> k ∈ keys_of r ->
  exists one, subs' !! k = Some one /\ keys_of one = [k] /\ frame_of one = frame_of r.
Proof.
  intros E Hk. destruct (remember_locked_spec subs r) as (s & E' & _ & Hin).
  assert (s = subs') as -> by congruence.
  destruct (last_index _ _ Hk) as (i & Hi & Hlast).
  destruct (Hin i k Hi Hlast) as (one & Ho & Hl).
  destruct (single_lookup r i k Hi) as (one' & Ho' & Hk' & Hf).
  assert (one = one') as -> by congruence. eauto.
Qed.

Lemma remember_locked_out subs r subs' k :
  remember_locked subs r = Val subs' -> k ∉ keys_of r -> subs' !! k = subs !! k.
Proof.
  intros E Hk. destruct (remember_locked_spec subs r) as (s & E' & Hout & _).
  assert (s = subs') as -> by congruence. auto.
Qed.

Lemma track_total b subs r : exists subs', track b subs r = Val subs'.
Proof.
  unfold track. destruct b; [|by eexists].
  split_ifs; try by eexists.
  destruct (remember_locked_spec subs r) as (s & -> & _). by eexists.
Qed.

Lemma track_ok b subs r subs' :
  RegistryOk subs -> track b subs r = Val subs' -> RegistryOk subs'.
Proof.
  intros Hok E k x Hx. unfold track in E.
  destruct b; [|injection E as <-; by apply Hok].
  destruct (action_of r =? SUBSCRIPTION_ACTION_SUBSCRIBE) eqn:Ha.
  - destruct (decide (k ∈ keys_of r)) as [Hin|Hni].
    + destruct (remember_locked_in _ _ _ _ E Hin) as (one & Hl & Hk & Hf).
      assert (x = one) as -> by congruence.
      split; [done|]. apply Z.eqb_eq in Ha. by rewrite (frame_action _ _ Hf).
    + rewrite (remember_locked_out _ _ _ _ E Hni) in Hx. by apply Hok.
  - destruct (action_of r =? SUBSCRIPTION_ACTION_UNSUBSCRIBE);
      injection E as <-; [|by apply Hok].
    rewrite forget_locked_lookup in Hx. case_decide; [done|]. by apply Hok.
Qed.

(** ** Tracking sequences of requests *)

Lemma track_all_app subs l1 l2 :
  track_all subs (l1 ++ l2) = (s ← track_all subs l1; track_all s l2).
Proof.
  unfold track_all. rewrite foldl_app.
  destruct (foldl _ _ l1) as [s|]; cbn; [done|].
  induction l2 as [|x l2 IH]; cbn; [done|]. apply IH.
Qed.

Lemma track_all_snoc subs l b r :
  track_all subs (l ++ [(b, r)]) = (s ← track_all subs l; track b s r).
Proof. rewrite track_all_app. by destruct (track_all subs l). Qed.

Lemma track_all_total subs l : exists subs', track_all subs l = Val subs'.
Proof.
  induction l as [|[b r] l (s & IH)] using rev_ind; [by exists subs|].
  rewrite track_all_snoc, IH. apply track_total.
Qed.

Lemma track_all_ok subs l subs' :
  RegistryOk subs -> track_all subs l = Val subs' -> RegistryOk subs'.
Proof.
  intros Hok. revert subs'.
  induction l as [|[b r] l IH] using rev_ind; intros subs' E.
  - injection E as <-. done.
  - rewrite track_all_snoc in E. destruct (track_all subs l) as [s|]; [|done].
    eapply track_ok; [|exact E]. by apply IH.
Qed.

Lemma registry_empty_ok : RegistryOk ∅.
Proof. by apply map_Forall_empty. Qed.

(** Tracking a stored request stores it again. *)
Lemma track_stored subs k r :
  keys_of r = [k] -> action_of r = SUBSCRIPTION_ACTION_SUBSCRIBE ->
  track true subs r = Val (<[k := r]> subs).
Proof.
  intros Hk Ha. unfold track. rewrite Ha. cbn [Z.eqb].
  unfold remember_locked. rewrite Hk. cbn [remember_from].
  by rewrite (single_id r k Hk).
Qed.

Lemma track_all_stored l subs :
  Forall (fun kr => keys_of kr.2 = [kr.1]
                    /\ action_of kr.2 = SUBSCRIPTION_ACTION_SUBSCRIBE) l ->
  track_all subs ((fun r => (true, r)) <$> l.*2)
  = Val (list_to_map (reverse l) ∪ subs).
Proof.
  induction l as [|[k r] l IH] using rev_ind; intros H.
  - cbn. by rewrite (left_id_L ∅ (∪)).
  - apply Forall_app in H as [Hl [[Hk Ha] _]%Forall_cons].
    rewrite !fmap_app. change (_ <$> [(k, r)].*2) with [(true, r)].
    rewrite track_all_snoc, (IH Hl). cbn [mbind outcome_bind].
    rewrite (track_stored _ k r Hk Ha), reverse_snoc. cbn [list_to_map foldr uncurry].
    by rewrite insert_union_l.
Qed.

Lemma replay_rebuilds subs :
  RegistryOk subs -> track_all ∅ ((fun r => (true, r)) <$> replay subs) = Val subs.
Proof.
  intros Hok. unfold replay.
  pose proof (merge_sort_Permutation key_le (map_to_list subs)) as HP.
  rewrite track_all_stored.
  - rewrite (right_id_L ∅ (∪)). f_equal.
    rewrite <- (list_to_map_to_list subs) at 2. apply list_to_map_proper.
    + rewrite reverse_Permutation, HP. apply NoDup_fst_map_to_list.
    + by rewrite reverse_Permutation.
  - rewrite HP. apply Forall_forall. intros [k r] Hin%elem_of_map_to_list.
    by apply (Hok k r).
Qed.

(** ** Properties *)

(** C23. The registry key of a request's instrument is a function of the target it
    names (kind, instrument and the numeric parameters), whatever the options are,
    and two targets have the same key only when they are the same target: no
    instrument id, even one that contains the separator, makes two subscriptions
    share an entry. *)
Theorem keys_identify_targets :
  (forall r, keys_of r = target_key <$> targets_of r)
  /\ (forall a b, WfTarget a -> WfTarget b -> target_key a = target_key b <-> a = b).
Proof.
  split; [apply keys_of_targets|].
  intros a b Ha Hb. split; [by apply target_key_inj|by intros ->].
Qed.

Lemma keys_identify_targets_witness :
  target_key (Candles "a|1" 2) = target_key (Candles "a" 2)
  <-> Candles "a|1" 2 = Candles "a" 2.
Proof. apply (proj2 keys_identify_targets); vm_compute; split; discriminate. Defined.

(** C21. [track], the registry update of [send], never has undefined behaviour.
    A subscribe request stores, under each of its keys and no other, the request
    restricted to one instrument (the last one with this key), with its kind,
    action and options; an unsubscribe request removes exactly its keys; any other
    request, and one sent with [remember = false], changes nothing. *)
Theorem registry_update subs r :
  exists subs', track true subs r = Val subs' /\ track false subs r = Val subs
  /\ (forall k, k ∉ keys_of r -> subs' !! k = subs !! k)
  /\ (action_of r = SUBSCRIPTION_ACTION_SUBSCRIBE ->
        (forall k, k ∈ keys_of r -> exists one, subs' !! k = Some one
           /\ keys_of one = [k] /\ frame_of one = frame_of r)
        /\ (forall i k, keys_of r !! i = Some k ->
              (forall j, (i < j)%nat -> keys_of r !! j <> Some k) ->
              exists one, single r i = Val one /\ subs' !! k = Some one))
  /\ (action_of r = SUBSCRIPTION_ACTION_UNSUBSCRIBE ->
        forall k, k ∈ keys_of r -> subs' !! k = None)
  /\ (action_of r <> SUBSCRIPTION_ACTION_SUBSCRIBE ->
      action_of r <> SUBSCRIPTION_ACTION_UNSUBSCRIBE -> subs' = subs).
Proof.
  unfold track.
  destruct (action_of r =? SUBSCRIPTION_ACTION_SUBSCRIBE) eqn:Ea;
    [apply Z.eqb_eq in Ea|apply Z.eqb_neq in Ea;
     destruct (action_of r =? SUBSCRIPTION_ACTION_UNSUBSCRIBE) eqn:Eu;
     [apply Z.eqb_eq in Eu|apply Z.eqb_neq in Eu]].
  - destruct (remember_locked_spec subs r) as (s & E & Hout & Hin).
    exists s. rewrite Ea. split_and!; try done.
    intros _. split; [|done]. intros k. by apply (remember_locked_in subs).
  - exists (forget_locked subs r). split_and!; try done.
    + intros k Hk. by rewrite forget_locked_lookup, decide_False.
    + intros _ k Hk. by rewrite forget_locked_lookup, decide_True.
  - exists subs. by split_and!.
Qed.

Lemma registry_update_witness :
  exists subs', track true ∅ (subscribe_info ["a"]%string) = Val subs'
  /\ exists one, subs' !! "info|a"%string = Some one.
Proof.
  destruct (registry_update ∅ (subscribe_info ["a"]%string))
    as (s & E & _ & _ & Hs & _).
  exists s. split; [exact E|]. destruct (Hs eq_refl) as [H _].
  destruct (H "info|a"%string) as (one & Ho & _); [by left|]. by exists one.
Defined.

(** C22. Whatever requests were sent, every entry of the registry is a subscribe
    request for its own key alone, and replaying the registry in the order of the
    map into an empty registry, as a reconnection does, rebuilds it exactly. *)
Theorem replay_restores rs :
  exists subs, track_all ∅ rs = Val subs /\ RegistryOk subs
  /\ track_all ∅ ((fun r => (true, r)) <$> replay subs) = Val subs.
Proof.
  destruct (track_all_total ∅ rs) as (subs & E). exists subs.
  assert (Hok : RegistryOk subs) by (eapply track_all_ok; [apply registry_empty_ok|done]).
  split_and!; [done..|by apply replay_rebuilds].
Qed.

(** [u] undoes [s]: together they remove the targets of [u] and nothing else. *)
Definition Cancels (s u : MarketDataRequest) : Prop :=
  forall subs, exists subs', track_all subs [(true, s); (true, u)] = Val subs'
    /\ forall k, subs' !! k = if decide (k ∈ keys_of u) then None else subs !! k.

Lemma cancels_same_keys s u :
  keys_of s = keys_of u -> action_of s = SUBSCRIPTION_ACTION_SUBSCRIBE ->
  action_of u = SUBSCRIPTION_ACTION_UNSUBSCRIBE -> Cancels s u.
Proof.
  intros Hk Hs Hu subs. unfold track_all, track. cbn. rewrite Hs, Hu. cbn.
  destruct (remember_locked_spec subs s) as (s1 & -> & Hout & _). cbn.
  eexists. split; [done|]. intros k. rewrite forget_locked_lookup.
  case_decide as Hd; [done|]. apply Hout. by rewrite Hk.
Qed.

(** Each unsubscribe method undoes the subscribe method of the same name on
    the same instruments (and, for candles, the interval; for order books, the
    depth and type), whatever the other options were: the registry afterwards is
    the one before, without these targets. *)
Theorem unsubscribe_cancels ids :
  (forall interval waiting,
     Cancels (subscribe_candles ids interval waiting) (unsubscribe_candles ids interval))
  /\ (forall depth type,
     Cancels (subscribe_order_book ids depth type) (unsubscribe_order_book ids depth type))
  /\ (forall open_interest,
     Cancels (subscribe_trades ids open_interest) (unsubscribe_trades ids))
  /\ Cancels (subscribe_last_prices ids) (unsubscribe_last_prices ids)
  /\ Cancels (subscribe_info ids) (unsubscribe_info ids).
Proof. split_and!; intros; by apply cancels_same_keys. Qed.
