(* ===== verification/MarketDataStream.v ===== *)
(** * The bidirectional market-data stream ([src/market_data_stream.cpp],
    [include/tinvest/streams/market_data_stream.hpp])

    The stream object is shared by a worker thread ([run]), the thread that owns
    it ([start], [stop]), any thread that calls [send], and gRPC's callbacks
    ([OnReadDone], [OnWriteDone], [OnDone]).  [step] executes one atomic action
    of one of them: a critical section of [mu_], or the code between two of
    them.  A label chooses which.  The result is [UB] when the action breaks
    the contract of the gRPC reactor or uses a dead object, and [None] inside
    when it is not enabled.  The owner's calls of [start] and [stop] do not
    overlap each other; everything else interleaves. *)

From S2P Require Import Prelude StdStrings ErrorResult StreamCommon MarketData.
From stdpp Require Import base numbers list strings gmap.
From Stdlib Require Import ZArith Lia.

#[local] Open Scope Z_scope.

(** ** State *)

(** The data members guarded by [mu_].  [ctx_] and [reactor_] point to objects
    that one [run_once] creates together; the number identifies the session. *)
Record Members := MkMembers {
  stopping : bool; done : bool; got_data : bool; broken : bool;
  hold_released : bool;
  status : Status;
  ctx : option nat; reactor : option nat;
  write_queue : list MarketDataRequest; write_in_flight : bool;
  subscriptions : registry;
}.

(** The call that belongs to a [Reactor] object, as gRPC sees it: [bound] after
    [StartCall], the holds, the outstanding [StartRead] and [StartWrite], the
    requests written, and whether [OnDone] was delivered. *)
Record Call := MkCall {
  session : nat;
  bound : bool; holds : nat; reading : bool; writing : bool;
  written : list MarketDataRequest;
  finished : bool; cancelled : bool;
}.

Section Stream.
Context `{GrpcCodes}.
Context {Resp W : Type}.
(** [dispatch(handlers_, _)] and [on_state_], as transformers of the user's state. *)
Context (deliver : Resp -> W -> W).
Context (on_state : option (StreamState -> option Error -> W -> W)).
Context (opts : StreamOptions).

(** Where each thread is. *)
Inductive Worker :=
  | NoThread
  | LoopTop                      (* while (true) *)
  | Connecting                   (* notify(connecting); run_once() *)
  | Entering                     (* run_once: the first critical section *)
  | Starting                     (* MarketDataStream(ctx, &reactor); Begin() *)
  | Publishing                   (* run_once: the second critical section *)
  | Releasing                    (* if (release) release->RemoveHold() *)
  | AwaitingDone                 (* cv_.wait(lk, done_) *)
  | Returned (st : Status)       (* run: the check after run_once *)
  | Reporting (st : Status)      (* error, notify(disconnected), delay *)
  | Sleeping (delay : Z)         (* cv_.wait_for(lk, delay, stopping_) *)
  | Finishing                    (* notify(stopped) *)
  | Exited.

Inductive Owner :=
  | OwnerIdle
  | StopReleasing (release : option nat) (joins : bool)
  | StopJoining (joins : bool).

Inductive Reader :=
  | ReaderIdle
  | ReadResponse (r : Resp)          (* handle_response: the critical section *)
  | ReadNotify (first : bool) (r : Resp)
  | ReadRestart                      (* StartRead(&response_) *)
  | ReadClosed                       (* handle_read_closed *)
  | ReadRelease (release : option nat).

Inductive Writer :=
  | WriterIdle
  | WriteOk                          (* handle_write_done(true) *)
  | WriteClosed                      (* handle_read_closed *)
  | WriteRelease (release : option nat).

Record Sys := MkSys {
  mem : Members;
  joinable : bool;                   (* worker_.joinable() *)
  worker : Worker; attempt : Z;      (* the thread and its local *)
  owner : Owner; reader : Reader; writer : Writer;
  call : option Call; next_session : nat;
  world : W;
}.

Definition init (w : W) : Sys :=
  MkSys (MkMembers false false false false false (MkStatus OK "") None None [] false ∅)
    false NoThread 0 OwnerIdle ReaderIdle WriterIdle None 0 w.

(** ** Record updates *)

Definition with_mem (s : Sys) m := MkSys m (joinable s) (worker s) (attempt s) (owner s)
  (reader s) (writer s) (call s) (next_session s) (world s).
Definition with_call (s : Sys) c := MkSys (mem s) (joinable s) (worker s) (attempt s)
  (owner s) (reader s) (writer s) c (next_session s) (world s).
Definition with_worker (s : Sys) w := MkSys (mem s) (joinable s) w (attempt s)
  (owner s) (reader s) (writer s) (call s) (next_session s) (world s).
Definition with_owner (s : Sys) o := MkSys (mem s) (joinable s) (worker s) (attempt s) o
  (reader s) (writer s) (call s) (next_session s) (world s).
Definition with_reader (s : Sys) r := MkSys (mem s) (joinable s) (worker s) (attempt s)
  (owner s) r (writer s) (call s) (next_session s) (world s).
Definition with_writer (s : Sys) w := MkSys (mem s) (joinable s) (worker s) (attempt s)
  (owner s) (reader s) w (call s) (next_session s) (world s).
Definition with_attempt (s : Sys) n := MkSys (mem s) (joinable s) (worker s) n
  (owner s) (reader s) (writer s) (call s) (next_session s) (world s).
Definition with_world (s : Sys) w := MkSys (mem s) (joinable s) (worker s) (attempt s)
  (owner s) (reader s) (writer s) (call s) (next_session s) w.

(** ** What the stream uses of gRPC *)

(** The live call of a session that has been started and not finished. *)
Definition live (c : option Call) (n : nat) : option Call :=
  match c with
  | Some c => if bool_decide (session c = n) && bound c && negb (finished c)
              then Some c else None
  | None => None
  end.

Definition StartWrite (c : option Call) (n : nat) (r : MarketDataRequest)
    : outcome (option Call) :=
  match live c n with
  | Some c => if writing c then UB else
      mret (Some (MkCall (session c) true (holds c) (reading c) true
                    (written c ++ [r]) false (cancelled c)))
  | None => UB
  end.

Definition StartRead (c : option Call) (n : nat) : outcome (option Call) :=
  match live c n with
  | Some c => if reading c then UB else
      mret (Some (MkCall (session c) true (holds c) true (writing c) (written c)
                    false (cancelled c)))
  | None => UB
  end.

Definition RemoveHold (c : option Call) (n : nat) : outcome (option Call) :=
  match live c n with
  | Some c =>
      match holds c with
      | O => UB
      | S h => mret (Some (MkCall (session c) true h (reading c) (writing c)
                             (written c) false (cancelled c)))
      end
  | None => UB
  end.

Definition TryCancel (c : option Call) (n : nat) : outcome (option Call) :=
  match c with
  | Some c => if bool_decide (session c = n)
      then mret (Some (MkCall (session c) (bound c) (holds c) (reading c) (writing c)
                         (written c) (finished c) true))
      else UB
  | None => UB
  end.

(** [stub_->async()->MarketDataStream(ctx, &reactor)] and [Reactor::Begin]:
    [AddHold], [StartRead], [StartCall]. *)
Definition Begin (c : option Call) : outcome (option Call) :=
  match c with
  | Some c => if bound c then UB else
      mret (Some (MkCall (session c) true (S (holds c)) true (writing c) (written c)
                    (finished c) (cancelled c)))
  | None => UB
  end.

(** The end of the scope of [reactor] and [ctx]: the call must be finished. *)
Definition destroy (c : option Call) : outcome (option Call) :=
  match c with
  | Some c => if finished c then mret None else UB
  | None => UB
  end.

(** ** The operations *)

Definition notify (s : StreamState) (e : option Error) (w : W) : W :=
  match on_state with Some f => f s e w | None => w end.

(** [if (release) release->RemoveHold()] *)
Definition release_hold (c : option Call) (release : option nat) : outcome (option Call) :=
  match release with Some n => RemoveHold c n | None => mret c end.

Definition maybe_write_locked (m : Members) (c : option Call)
    : outcome (Members * option Call) :=
  match reactor m with
  | None => mret (m, c)
  | Some n =>
      if broken m || hold_released m || write_in_flight m then mret (m, c) else
      match write_queue m with
      | [] => mret (m, c)
      | next :: q =>
          c' ← StartWrite c n next;
          mret (MkMembers (stopping m) (done m) (got_data m) (broken m)
                  (hold_released m) (status m) (ctx m) (reactor m) q true
                  (subscriptions m), c')
      end
  end.

Definition start (s : Sys) : Sys :=
  if joinable s then s else
  let m := mem s in
  MkSys (MkMembers false (done m) (got_data m) (broken m) (hold_released m) (status m)
           (ctx m) (reactor m) (write_queue m) (write_in_flight m) (subscriptions m))
    true LoopTop 0 (owner s) (reader s) (writer s) (call s) (next_session s) (world s).

(** The critical section of [stop], up to [t = std::move(worker_)]. *)
Definition stop_locked (s : Sys) : outcome Sys :=
  let m := mem s in
  let release := if hold_released m then None else reactor m in
  c ← match ctx m with Some n => TryCancel (call s) n | None => mret (call s) end;
  mret (MkSys
    (MkMembers true (done m) (got_data m) true
       (match release with Some _ => true | None => hold_released m end) (status m)
       (ctx m) (reactor m) (write_queue m) (write_in_flight m) (subscriptions m))
    false (worker s) (attempt s) (StopReleasing release (joinable s))
    (reader s) (writer s) c (next_session s) (world s)).

(** [stop] after its critical section: [release->RemoveHold()], then [t.join()]. *)
Definition owner_step (s : Sys) : outcome (option Sys) :=
  match owner s with
  | OwnerIdle => mret None
  | StopReleasing release joins =>
      c ← release_hold (call s) release;
      mret (Some (with_owner (with_call s c) (StopJoining joins)))
  | StopJoining true =>
      match worker s with
      | Exited => mret (Some (with_owner (with_worker s NoThread) OwnerIdle))
      | _ => mret None
      end
  | StopJoining false => mret (Some (with_owner s OwnerIdle))
  end.

Definition send (s : Sys) (request : MarketDataRequest) (remember : bool) : outcome Sys :=
  let m := mem s in
  if stopping m then mret s else
  subs ← track remember (subscriptions m) request;
  let queued := match reactor m with
                | Some _ => negb (broken m) && negb (hold_released m)
                | None => false end in
  let m' := MkMembers (stopping m) (done m) (got_data m) (broken m) (hold_released m)
    (status m) (ctx m) (reactor m)
    (if queued then write_queue m ++ [request] else write_queue m)
    (write_in_flight m) subs in
  if queued then
    '(m'', c) ← maybe_write_locked m' (call s);
    mret (with_call (with_mem s m'') c)
  else mret (with_mem s m').

(** The first critical section of [run_once]; [None] is the early return. *)
Definition run_once_enter (s : Sys) : option Sys :=
  let m := mem s in
  if stopping m then None else
  let n := next_session s in
  Some (MkSys
    (MkMembers (stopping m) false false false false (status m) (Some n) (reactor m)
       (replay (subscriptions m)) false (subscriptions m))
    (joinable s) Starting (attempt s) (owner s) (reader s) (writer s)
    (Some (MkCall n false 0 false false [] false false)) (S n) (world s)).

(** The second critical section: the worker's own reactor is published. *)
Definition run_once_publish (s : Sys) : outcome Sys :=
  let m := mem s in
  if done m then mret (with_worker s AwaitingDone) else
  let reactor' := session <$> call s in
  if (stopping m || broken m) && negb (hold_released m) then
    mret (with_worker (with_mem s
      (MkMembers (stopping m) (done m) (got_data m) (broken m) true (status m) (ctx m)
         reactor' (write_queue m) (write_in_flight m) (subscriptions m))) Releasing)
  else
    '(m', c) ← maybe_write_locked
      (MkMembers (stopping m) (done m) (got_data m) (broken m) (hold_released m)
         (status m) (ctx m) reactor' (write_queue m) (write_in_flight m)
         (subscriptions m)) (call s);
    mret (with_worker (with_call (with_mem s m') c) AwaitingDone).

(** The end of [run_once], when [done_] is set. *)
Definition run_once_return (s : Sys) : outcome Sys :=
  let m := mem s in
  c ← destroy (call s);
  mret (with_worker (with_call (with_mem s
    (MkMembers (stopping m) (done m) (got_data m) (broken m) (hold_released m)
       (status m) None (reactor m) (write_queue m) (write_in_flight m)
       (subscriptions m))) c) (Returned (status m))).

(** [run], between the check after [run_once] and the wait. *)
Definition report (s : Sys) (st : Status) : outcome Sys :=
  let n := if got_data (mem s) then 0 else attempt s in
  let s' := with_world (with_attempt s n)
              (notify disconnected (Some (status_error st)) (world s)) in
  if reconnect opts then
    delay ← backoff_delay opts n;
    n' ← checked W32 (n + 1);
    mret (with_worker (with_attempt s' n') (Sleeping delay))
  else mret (with_worker s' Finishing).

Definition worker_step (s : Sys) : outcome (option Sys) :=
  match worker s with
  | NoThread | Exited => mret None
  | LoopTop => mret (Some (with_worker s
      (if stopping (mem s) then Finishing else Connecting)))
  | Connecting => mret (Some (with_worker (with_world s
      (notify connecting None (world s))) Entering))
  | Entering => mret (Some
      match run_once_enter s with
      | Some s' => s'
      | None => with_worker s (Returned (MkStatus CANCELLED ""))
      end)
  | Starting => c ← Begin (call s); mret (Some (with_worker (with_call s c) Publishing))
  | Publishing => s' ← run_once_publish s; mret (Some s')
  | Releasing =>
      c ← release_hold (call s) (session <$> call s);
      mret (Some (with_worker (with_call s c) AwaitingDone))
  | AwaitingDone =>
      if done (mem s) then s' ← run_once_return s; mret (Some s') else mret None
  | Returned st => mret (Some (with_worker s
      (if stopping (mem s) then Finishing else Reporting st)))
  | Reporting st => s' ← report s st; mret (Some s')
  | Sleeping _ => mret (Some (with_worker s
      (if stopping (mem s) then Finishing else LoopTop)))
  | Finishing => mret (Some (with_worker (with_world s
      (notify stopped None (world s))) Exited))
  end.

(** The critical section of [handle_read_closed]: the members and [release]. *)
Definition handle_read_closed (m : Members) : Members * option nat :=
  let release := if hold_released m then None else reactor m in
  (MkMembers (stopping m) (done m) (got_data m) true
     (match release with Some _ => true | None => hold_released m end) (status m)
     (ctx m) (reactor m) (write_queue m) (write_in_flight m) (subscriptions m), release).

(** [OnReadDone]. *)
Definition reader_step (s : Sys) : outcome (option Sys) :=
  let m := mem s in
  match reader s with
  | ReaderIdle => mret None
  | ReadResponse r =>
      mret (Some (with_reader (with_mem s
        (MkMembers (stopping m) (done m) true (broken m) (hold_released m) (status m)
           (ctx m) (reactor m) (write_queue m) (write_in_flight m) (subscriptions m)))
        (ReadNotify (negb (got_data m)) r)))
  | ReadNotify first r =>
      let w := if first then notify connected None (world s) else world s in
      mret (Some (with_reader (with_world s (deliver r w)) ReadRestart))
  | ReadRestart =>
      c ← match call s with Some c => StartRead (Some c) (session c) | None => UB end;
      mret (Some (with_reader (with_call s c) ReaderIdle))
  | ReadClosed =>
      let '(m', release) := handle_read_closed m in
      mret (Some (with_reader (with_mem s m') (ReadRelease release)))
  | ReadRelease release =>
      c ← release_hold (call s) release;
      mret (Some (with_reader (with_call s c) ReaderIdle))
  end.

(** [OnWriteDone], [handle_write_done]. *)
Definition writer_step (s : Sys) : outcome (option Sys) :=
  let m := mem s in
  match writer s with
  | WriterIdle => mret None
  | WriteOk =>
      '(m', c) ← maybe_write_locked
        (MkMembers (stopping m) (done m) (got_data m) (broken m) (hold_released m)
           (status m) (ctx m) (reactor m) (write_queue m) false (subscriptions m))
        (call s);
      mret (Some (with_writer (with_call (with_mem s m') c) WriterIdle))
  | WriteClosed =>
      let '(m', release) := handle_read_closed m in
      mret (Some (with_writer (with_mem s m') (WriteRelease release)))
  | WriteRelease release =>
      c ← release_hold (call s) release;
      mret (Some (with_writer (with_call s c) WriterIdle))
  end.

Definition handle_done (m : Members) (st : Status) : Members :=
  MkMembers (stopping m) true (got_data m) (broken m) (hold_released m) st (ctx m)
    None (write_queue m) (write_in_flight m) (subscriptions m).

(** ** gRPC's events

    An operation completes, in any order and with any result, and the callback
    of its kind starts; [OnDone] comes when the call was started, the holds are
    removed, nothing is outstanding and no callback runs. *)
Definition read_done (s : Sys) (res : option Resp) : option Sys :=
  match call s, reader s with
  | Some c, ReaderIdle =>
      if reading c then
        Some (with_reader (with_call s (Some (MkCall (session c) (bound c) (holds c) false
                (writing c) (written c) (finished c) (cancelled c))))
          (match res with Some r => ReadResponse r | None => ReadClosed end))
      else None
  | _, _ => None
  end.

Definition write_done (s : Sys) (ok : bool) : option Sys :=
  match call s, writer s with
  | Some c, WriterIdle =>
      if writing c then
        Some (with_writer (with_call s (Some (MkCall (session c) (bound c) (holds c)
                (reading c) false (written c) (finished c) (cancelled c))))
          (if ok then WriteOk else WriteClosed))
      else None
  | _, _ => None
  end.

Definition on_done (s : Sys) (st : Status) : option Sys :=
  match call s, reader s, writer s with
  | Some c, ReaderIdle, WriterIdle =>
      if bound c && negb (finished c) && bool_decide (holds c = 0%nat)
         && negb (reading c) && negb (writing c)
      then Some (with_mem (with_call s (Some (MkCall (session c) true 0 false false
                   (written c) true (cancelled c)))) (handle_done (mem s) st))
      else None
  | _, _, _ => None
  end.

(** ** The transition system *)

Inductive label :=
  | LStart | LStop | LSend (r : MarketDataRequest) (remember : bool)
  | LOwner | LWorker | LReader | LWriter
  | LReadDone (res : option Resp) | LWriteDone (ok : bool) | LDone (st : Status).

Definition step (l : label) (s : Sys) : outcome (option Sys) :=
  match l with
  | LStart => mret (match owner s with OwnerIdle => Some (start s) | _ => None end)
  | LStop => match owner s with
             | OwnerIdle => s' ← stop_locked s; mret (Some s')
             | _ => mret None end
  | LSend r remember => s' ← send s r remember; mret (Some s')
  | LOwner => owner_step s
  | LWorker => worker_step s
  | LReader => reader_step s
  | LWriter => writer_step s
  | LReadDone res => mret (read_done s res)
  | LWriteDone ok => mret (write_done s ok)
  | LDone st => mret (on_done s st)
  end.

(** An action that is not enabled is skipped. *)
Fixpoint run (s : Sys) (trace : list label) : outcome Sys :=
  match trace with
  | [] => mret s
  | l :: trace' =>
      o ← step l s;
      run (match o with Some s' => s' | None => s end) trace'
  end.
End Stream.

Arguments MkSys {Resp W}. Arguments init {_ Resp W}.

(** Unfolds the step behind [E] and splits it into the actions that succeed. *)
Ltac unfold_step E :=
  unfold worker_step, reader_step, writer_step, read_done, write_done, on_done,
    run_once_enter, run_once_publish, run_once_return, report, destroy, Begin,
    StartRead, live in E.
Ltac step_cases E :=
  unfold mbind, outcome_bind, mret, outcome_ret in E; cbn in E;
  repeat match type of E with
         | context [match ?x with _ => _ end] =>
             lazymatch x with
             | context [match _ with _ => _ end] => fail
             | _ => destruct x eqn:?; cbv beta iota in E; try discriminate E
             end
         end;
  try done.
