(* ===== verification/StreamInvariant.v ===== *)
(** * The invariant of the market-data stream

    What holds in every reachable state of [MarketDataStream.v]: the registry is
    well formed, the thread bookkeeping of [start] and [stop] is consistent, and
    inside a session the members, the call and the positions of the threads fit
    together ([CallOk]).  Every step preserves it and breaks no contract of
    gRPC. *)

From S2P Require Import Prelude StdStrings ErrorResult StreamCommon MarketData MarketDataStream.
From stdpp Require Import base numbers list strings gmap.
From Stdlib Require Import ZArith Lia.

#[local] Open Scope Z_scope.

(** ** The invariant *)

Section Invariant.
Context `{GrpcCodes}.
Context {Resp W : Type}.
Implicit Types (s : @Sys Resp W) (m : Members) (c : Call) (rd : @Reader Resp).

(** The worker is inside [run_once], past its first critical section. *)
Definition in_session (w : Worker) : bool :=
  match w with Starting | Publishing | Releasing | AwaitingDone => true | _ => false end.
(** ... past the second one. *)
Definition published (w : Worker) : bool :=
  match w with Releasing | AwaitingDone => true | _ => false end.

(** The reactor pointers whose [RemoveHold] is decided but not yet made. *)
Definition owner_release (o : Owner) : option nat :=
  match o with StopReleasing r _ => r | _ => None end.
Definition reader_release rd : option nat :=
  match rd with ReadRelease r => r | _ => None end.
Definition writer_release (w : Writer) : option nat :=
  match w with WriteRelease r => r | _ => None end.
Definition count (r : option nat) : nat := match r with Some _ => 1 | None => 0 end.
Definition pending (w : Worker) (o : Owner) rd (wr : Writer) : nat :=
  (match w with Releasing => 1 | _ => 0 end)
  + count (owner_release o) + count (reader_release rd) + count (writer_release wr).

Definition points (r : option nat) (n : nat) : Prop :=
  match r with Some k => k = n | None => True end.

Record CallOk m (w : Worker) (o : Owner) rd (wr : Writer) c : Prop := {
  co_bound : bound c = match w with Starting => false | _ => true end;
  co_done : done m = finished c;
  co_ctx : ctx m = Some (session c);
  co_reactor : reactor m = if finished c then None
                           else if published w then Some (session c) else None;
  co_unbound : bound c = false ->
    holds c = 0%nat /\ reading c = false /\ writing c = false /\ finished c = false
    /\ rd = ReaderIdle /\ wr = WriterIdle /\ hold_released m = false;
  co_holds : bound c = true ->
    holds c = ((if hold_released m then 0 else 1) + pending w o rd wr)%nat;
  co_pending : hold_released m = false -> pending w o rd wr = 0%nat;
  co_finished : finished c = true ->
    holds c = 0%nat /\ reading c = false /\ writing c = false
    /\ rd = ReaderIdle /\ wr = WriterIdle;
  co_ptrs : points (owner_release o) (session c) /\ points (reader_release rd) (session c)
            /\ points (writer_release wr) (session c);
  co_reading : reading c = true -> rd = ReaderIdle;
  co_writing : writing c = true -> wr = WriterIdle /\ write_in_flight m = true;
  co_writer : wr <> WriterIdle -> write_in_flight m = true;
  co_broken : hold_released m = true -> broken m = true;
  co_stopping : stopping m = true -> broken m = true;
  co_released : broken m = true -> published w = true -> finished c = false ->
    hold_released m = true;
  co_cancelled : stopping m = true -> cancelled c = true;
}.

(** Between sessions nothing points to a reactor or a context. *)
Record IdleOk m (o : Owner) rd (wr : Writer) (c : option Call) : Prop := {
  io_call : c = None; io_ctx : ctx m = None; io_reactor : reactor m = None;
  io_reader : rd = ReaderIdle; io_writer : wr = WriterIdle;
  io_owner : owner_release o = None;
}.

Definition joins (o : Owner) : bool :=
  match o with OwnerIdle => false | StopReleasing _ j | StopJoining j => j end.

Record Inv s : Prop := {
  inv_registry : RegistryOk (subscriptions (mem s));
  inv_thread : joinable s || joins (owner s)
               = match worker s with NoThread => false | _ => true end;
  inv_owner : owner s <> OwnerIdle -> joinable s = false /\ stopping (mem s) = true;
  inv_session : if in_session (worker s)
    then exists c, call s = Some c
                   /\ CallOk (mem s) (worker s) (owner s) (reader s) (writer s) c
    else IdleOk (mem s) (owner s) (reader s) (writer s) (call s);
}.

Lemma init_inv w : Inv (init w : @Sys Resp W).
Proof. split; cbn; [apply registry_empty_ok|done|done|by split]. Qed.

(** *** The operations on the call *)

Lemma live_some m w o rd wr c :
  CallOk m w o rd wr c -> bound c = true -> finished c = false ->
  live (Some c) (session c) = Some c.
Proof. intros Hc Hb Hf. unfold live. by rewrite bool_decide_true, Hb, Hf. Qed.

Lemma published_bound m w o rd wr c :
  CallOk m w o rd wr c -> published w = true -> bound c = true.
Proof. intros Hc Hp. rewrite (co_bound _ _ _ _ _ _ Hc). by destruct w. Qed.

Lemma maybe_write_ok m w o rd wr c :
  CallOk m w o rd wr c ->
  exists m' c', maybe_write_locked m (Some c) = Val (m', Some c')
    /\ CallOk m' w o rd wr c' /\ subscriptions m' = subscriptions m
    /\ stopping m' = stopping m.
Proof.
  intros Hc. unfold maybe_write_locked.
  destruct (reactor m) as [n|] eqn:Er; [|by exists m, c].
  destruct (broken m || hold_released m || write_in_flight m) eqn:Eb; [by exists m, c|].
  destruct (write_queue m) as [|next q] eqn:Eq; [by exists m, c|].
  rewrite (co_reactor _ _ _ _ _ _ Hc) in Er.
  destruct (finished c) eqn:Ef; [done|]. destruct (published w) eqn:Ep; [|done].
  injection Er as <-.
  pose proof (published_bound _ _ _ _ _ _ Hc Ep) as Hb.
  assert (write_in_flight m = false /\ hold_released m = false /\ broken m = false)
    as (Ei & Eh & Ebr) by (destruct (broken m), (hold_released m), (write_in_flight m); done).
  assert (Hw : writing c = false).
  { destruct (writing c) eqn:Hw; [|done].
    destruct (co_writing _ _ _ _ _ _ Hc Hw). congruence. }
  assert (Hwr : wr = WriterIdle).
  { destruct wr; try done;
      (assert (write_in_flight m = true) by (apply (co_writer _ _ _ _ _ _ Hc); done);
       congruence). }
  unfold StartWrite. rewrite (live_some _ _ _ _ _ _ Hc Hb Ef), Hw. cbn.
  eexists _, _. split; [done|]. split_and!; [|done..].
  destruct Hc. split; cbn; try done.
  - by rewrite <- co_bound0.
  - by rewrite co_done0.
  - by rewrite Ep.
  - intros _. by apply co_holds0.
  - intros E. congruence.
Qed.

Ltac call_fin :=
  first
  [ done | congruence | lia
  | repeat match goal with
    | E : ?x = _, Hx : context [if ?x then _ else _] |- _ => rewrite E in Hx
    | E : ?x = _ |- context [if ?x then _ else _] => rewrite E
    end; cbn in *; first [done | congruence | lia] ].

(** Solves the obligations of a [CallOk] after a step, from those before it. *)
Ltac call_ok :=
  match goal with Hc : CallOk _ _ _ _ _ _ |- _ => destruct Hc end;
  unfold pending in *; cbn in *; split; unfold pending in *; cbn in *;
  intuition call_fin.

Lemma pending_bound m w o rd wr c :
  CallOk m w o rd wr c -> (0 < pending w o rd wr)%nat ->
  bound c = true /\ finished c = false /\ (0 < holds c)%nat /\ hold_released m = true.
Proof.
  intros Hc Hp. destruct (hold_released m) eqn:Eh;
    [|pose proof (co_pending _ _ _ _ _ _ Hc Eh); lia].
  destruct (bound c) eqn:Eb;
    [|pose proof (co_unbound _ _ _ _ _ _ Hc Eb); intuition congruence].
  pose proof (co_holds _ _ _ _ _ _ Hc Eb). rewrite Eh in *.
  destruct (finished c) eqn:Ef;
    [pose proof (co_finished _ _ _ _ _ _ Hc Ef); lia|]. split_and!; try done; lia.
Qed.

Definition drop_hold c (r : option nat) : Call :=
  MkCall (session c) (bound c) (holds c - count r) (reading c) (writing c) (written c)
    (finished c) (cancelled c).

Lemma release_hold_ok m w o rd wr c r :
  CallOk m w o rd wr c -> points r (session c) -> (count r <= pending w o rd wr)%nat ->
  release_hold (Some c) r = Val (Some (drop_hold c r)).
Proof.
  intros Hc Hr Hp. destruct r as [n|]; cbn in *.
  - subst n. destruct (pending_bound _ _ _ _ _ _ Hc Hp) as (Hb & Hf & Hh & _).
    unfold RemoveHold. rewrite (live_some _ _ _ _ _ _ Hc Hb Hf).
    unfold drop_hold, count. rewrite Hb, Hf. destruct (holds c) as [|h]; [lia|].
    by rewrite Nat.sub_succ, Nat.sub_0_r.
  - unfold drop_hold, count. rewrite Nat.sub_0_r. by destruct c.
Qed.

Lemma owner_release_ok m w o rd wr c j :
  CallOk m w o rd wr c ->
  exists c', release_hold (Some c) (owner_release o) = Val (Some c')
    /\ CallOk m w (StopJoining j) rd wr c'.
Proof.
  intros Hc. eexists. split.
  - eapply release_hold_ok; [done|apply Hc|unfold pending; lia].
  - call_ok.
Qed.

Lemma worker_release_ok m o rd wr c :
  CallOk m Releasing o rd wr c ->
  exists c', release_hold (Some c) (Some (session c)) = Val (Some c')
    /\ CallOk m AwaitingDone o rd wr c'.
Proof.
  intros Hc. eexists. split.
  - eapply release_hold_ok; [done|done|unfold pending; cbn; lia].
  - call_ok.
Qed.

Lemma reader_release_ok m w o r wr c :
  CallOk m w o (ReadRelease r : @Reader Resp) wr c ->
  exists c', release_hold (Some c) r = Val (Some c')
    /\ CallOk m w o (ReaderIdle : @Reader Resp) wr c'.
Proof.
  intros Hc. eexists. split.
  - eapply release_hold_ok; [done|apply Hc|unfold pending; cbn; lia].
  - call_ok.
Qed.

Lemma writer_release_ok m w o rd r c :
  CallOk m w o rd (WriteRelease r) c ->
  exists c', release_hold (Some c) r = Val (Some c') /\ CallOk m w o rd WriterIdle c'.
Proof.
  intros Hc. eexists. split.
  - eapply release_hold_ok; [done|apply Hc|unfold pending; cbn; lia].
  - call_ok.
Qed.

(** Deciding the release under the lock, in [handle_read_closed] and [stop]. *)
Lemma reader_closed_ok m w o wr c :
  CallOk m w o (ReadClosed : @Reader Resp) wr c ->
  CallOk (handle_read_closed m).1 w o
    (ReadRelease (handle_read_closed m).2 : @Reader Resp) wr c.
Proof.
  intros Hc. unfold handle_read_closed. pose proof (co_reactor _ _ _ _ _ _ Hc) as Hr.
  destruct (hold_released m) eqn:Eh, (reactor m) as [n|] eqn:Er,
    (finished c) eqn:Ef, (published w) eqn:Ep; try done; try injection Hr as ->;
    call_ok.
Qed.

Lemma writer_closed_ok m w o rd c :
  CallOk m w o rd WriteClosed c ->
  CallOk (handle_read_closed m).1 w o rd (WriteRelease (handle_read_closed m).2) c.
Proof.
  intros Hc. unfold handle_read_closed. pose proof (co_reactor _ _ _ _ _ _ Hc) as Hr.
  destruct (hold_released m) eqn:Eh, (reactor m) as [n|] eqn:Er,
    (finished c) eqn:Ef, (published w) eqn:Ep; try done; try injection Hr as ->;
    call_ok.
Qed.

Lemma begin_ok m o rd wr c :
  CallOk m Starting o rd wr c ->
  exists c', Begin (Some c) = Val (Some c') /\ CallOk m Publishing o rd wr c'.
Proof.
  intros Hc. pose proof (co_bound _ _ _ _ _ _ Hc) as Hb. unfold Begin. rewrite Hb.
  eexists. split; [done|]. pose proof (co_unbound _ _ _ _ _ _ Hc Hb). call_ok.
Qed.

(** *** Steps of the whole system *)

Ltac unpack s := destruct s as [m jn wk at0 o rd wr cl nx u0]; cbn in *.

Lemma inv_call s :
  Inv s -> in_session (worker s) = true ->
  exists c, call s = Some c
    /\ CallOk (mem s) (worker s) (owner s) (reader s) (writer s) c.
Proof. intros Hi Hw. pose proof (inv_session _ Hi) as E. by rewrite Hw in E. Qed.

Lemma inv_idle s :
  Inv s -> in_session (worker s) = false ->
  IdleOk (mem s) (owner s) (reader s) (writer s) (call s).
Proof. intros Hi Hw. pose proof (inv_session _ Hi) as E. by rewrite Hw in E. Qed.

Lemma reader_in_session s :
  Inv s -> reader s <> ReaderIdle -> in_session (worker s) = true.
Proof.
  intros Hi Hr. destruct (in_session (worker s)) eqn:E; [done|].
  by destruct (inv_idle s Hi E).
Qed.

Lemma writer_in_session s :
  Inv s -> writer s <> WriterIdle -> in_session (worker s) = true.
Proof.
  intros Hi Hr. destruct (in_session (worker s)) eqn:E; [done|].
  by destruct (inv_idle s Hi E).
Qed.

Lemma call_in_session s c :
  Inv s -> call s = Some c -> in_session (worker s) = true.
Proof.
  intros Hi Hr. destruct (in_session (worker s)) eqn:E; [done|].
  destruct (inv_idle s Hi E). congruence.
Qed.

Lemma stop_locked_ok s :
  Inv s -> owner s = OwnerIdle -> exists s', stop_locked s = Val s' /\ Inv s'.
Proof.
  intros Hi Ho. destruct (in_session (worker s)) eqn:Ew.
  - destruct (inv_call s Hi Ew) as (c & Ec & Hc). pose proof (co_ctx _ _ _ _ _ _ Hc) as Hx.
    destruct Hi as [Hr Ht _ _]. unpack s. subst. unfold stop_locked. cbn.
    rewrite Hx. cbn. rewrite bool_decide_true by done. cbn.
    eexists. split; [done|]. split; cbn; [done|by rewrite orb_false_r in Ht|done|].
    rewrite Ew. eexists. split; [done|].
    pose proof (co_reactor _ _ _ _ _ _ Hc) as Hre.
    pose proof (published_bound _ _ _ _ _ _ Hc) as Hpb.
    destruct (hold_released m) eqn:Eh, (reactor m) as [k|] eqn:Er,
      (finished c) eqn:Ef, (published wk) eqn:Ep; try done; try injection Hre as ->;
      call_ok.
  - destruct (inv_idle s Hi Ew) as [H1 H2 H3 H4 H5 H6].
    destruct Hi as [Hr Ht _ _]. unpack s. subst. unfold stop_locked. cbn.
    rewrite H2, H3. cbn. eexists. split; [done|].
    split; cbn; [done|by rewrite orb_false_r in Ht|done|]. rewrite Ew.
    split; cbn; try done. by destruct (hold_released m).
Qed.

(** A step whose new state keeps the members and the threads' bookkeeping. *)
Lemma inv_mem_change s m' :
  Inv s -> RegistryOk (subscriptions m') -> stopping m' = stopping (mem s) ->
  (forall c, CallOk (mem s) (worker s) (owner s) (reader s) (writer s) c ->
             CallOk m' (worker s) (owner s) (reader s) (writer s) c) ->
  ctx m' = ctx (mem s) -> reactor m' = reactor (mem s) ->
  Inv (with_mem s m').
Proof.
  intros Hi Hr Hs Hc E1 E2. destruct Hi as [Hr0 Ht Ho Hx]. unpack s.
  split; cbn; [done|done|by rewrite Hs|].
  destruct (in_session wk); [|by destruct Hx; split; congruence].
  destruct Hx as (c & -> & Hk). exists c. auto.
Qed.

Lemma send_ok s r b : Inv s -> exists s', send s r b = Val s' /\ Inv s'.
Proof.
  intros Hi. unfold send. destruct (stopping (mem s)) eqn:Es; [by exists s|].
  destruct (track_total b (subscriptions (mem s)) r) as (subs & Et). rewrite Et.
  cbn [mbind outcome_bind].
  assert (Hsub : RegistryOk subs) by (eapply track_ok; [apply Hi|done]).
  match goal with |- context [if ?q then _ else _] => destruct q eqn:Eq end.
  - destruct (in_session (worker s)) eqn:Ew.
    2:{ pose proof (io_reactor _ _ _ _ _ (inv_idle s Hi Ew)) as E. by rewrite E in Eq. }
    destruct (inv_call s Hi Ew) as (c & Ec & Hc). rewrite Ec.
    match goal with |- context [maybe_write_locked ?m' _] => set (m1 := m') end.
    assert (Hc1 : CallOk m1 (worker s) (owner s) (reader s) (writer s) c)
      by (destruct Hc; split; done).
    destruct (maybe_write_ok _ _ _ _ _ _ Hc1) as (m2 & c' & -> & Hc2 & Hs2 & Hst).
    cbn. eexists. split; [done|].
    destruct Hi as [Hr0 Ht Ho Hx]. unpack s.
    split; cbn; [by rewrite Hs2|done|intros Hn; destruct (Ho Hn); congruence|]. rewrite Ew. eauto.
  - eexists. split; [done|]. apply inv_mem_change; try done.
    intros c Hc. destruct Hc; split; done.
Qed.

Lemma start_ok s : Inv s -> owner s = OwnerIdle -> Inv (start s).
Proof.
  intros Hi Ho. unfold start. destruct (joinable s) eqn:Ej; [done|].
  destruct Hi as [Hr Ht _ Hx]. unpack s. subst. cbn in Ht.
  destruct wk; try done. split; cbn; try done. destruct Hx. by split.
Qed.

Lemma owner_step_ok s :
  Inv s -> exists o, owner_step s = Val o /\ forall s', o = Some s' -> Inv s'.
Proof.
  intros Hi. unfold owner_step. destruct (owner s) as [|r j|[]] eqn:Eo.
  - eexists. split; [done|]. done.
  - destruct (in_session (worker s)) eqn:Ew.
    + destruct (inv_call s Hi Ew) as (c & Ec & Hc). rewrite Ec.
      destruct (owner_release_ok _ _ _ _ _ _ j Hc) as (c' & E & Hc').
      rewrite Eo in E. cbn [owner_release] in E. rewrite E. cbn.
      eexists. split; [done|]. intros s' [= <-].
      destruct Hi as [Hr Ht Ho Hx]. unpack s. subst. split; cbn; try done.
      * intros _. by apply Ho.
      * rewrite Ew. eauto.
    + destruct (inv_idle s Hi Ew) as [H1 H2 H3 H4 H5 H6]. rewrite Eo in H6.
      cbn in H6. subst r. cbn. eexists. split; [done|]. intros s' [= <-].
      destruct Hi as [Hr Ht Ho Hx]. unpack s. subst. split; cbn; try done.
      * intros _. by apply Ho.
      * by rewrite Ew.
  - destruct (worker s) eqn:Ew; eexists; (split; [done|]); try done.
    intros s' [= <-]. destruct Hi as [Hr Ht Ho Hx]. unpack s. subst.
    destruct (Ho ltac:(done)) as [-> Hst]. split; cbn; try done. by destruct Hx.
  - eexists. split; [done|]. intros s' [= <-].
    destruct Hi as [Hr Ht Ho Hx]. unpack s. subst.
    destruct (Ho ltac:(done)) as [-> Hst]. split; cbn; try done.
    revert Hx. destruct (in_session wk); intros Hx; [|by destruct Hx; split].
    destruct Hx as (c & -> & Hc). exists c. split; [done|]. call_ok.
Qed.

(** Moving the worker between two points outside a session. *)
Lemma inv_worker_idle s w att u :
  Inv s -> in_session (worker s) = false -> worker s <> NoThread ->
  in_session w = false -> w <> NoThread ->
  Inv (with_worker (with_attempt (with_world s u) att) w).
Proof.
  intros Hi Hw Hn Hw' Hn'. pose proof (inv_idle s Hi Hw) as Hx.
  destruct Hi as [Hr Ht Ho _]. unpack s.
  split; cbn; [done| |done|by rewrite Hw'].
  rewrite Ht. by destruct wk, w.
Qed.

(** ... and inside one, with a new state of the members and the call. *)
Lemma inv_worker_session s w m' c' :
  Inv s -> in_session (worker s) = true -> in_session w = true ->
  RegistryOk (subscriptions m') -> stopping m' = stopping (mem s) ->
  CallOk m' w (owner s) (reader s) (writer s) c' ->
  Inv (with_worker (with_call (with_mem s m') (Some c')) w).
Proof.
  intros Hi Hw Hw' Hr' Hst Hc. destruct Hi as [Hr Ht Ho _]. unpack s.
  split; cbn; [done| |by rewrite Hst|rewrite Hw'; eauto].
  rewrite Ht. by destruct wk, w.
Qed.

Lemma with_call_same s c m' :
  call s = Some c -> with_call (with_mem s m') (Some c) = with_mem s m'.
Proof. destruct s. cbn. by intros ->. Qed.

Lemma with_mem_same s : with_mem s (mem s) = s.
Proof. by destruct s. Qed.

Lemma enter_ok s :
  Inv s -> worker s = Entering -> stopping (mem s) = false ->
  exists s', run_once_enter s = Some s' /\ Inv s'.
Proof.
  intros Hi Hw Hs. unfold run_once_enter. rewrite Hs. eexists. split; [done|].
  pose proof (inv_idle s Hi) as Hx. rewrite Hw in Hx. specialize (Hx eq_refl).
  destruct Hx as [H1 H2 H3 H4 H5 H6]. destruct Hi as [Hr Ht Ho _]. unpack s. subst.
  split; cbn; [done|done|by rewrite Hs in Ho|]. eexists. split; [done|].
  assert (Hp : pending Starting o (ReaderIdle : @Reader Resp) WriterIdle = 0%nat)
    by (unfold pending; rewrite H6; done).
  split; cbn; rewrite ?H6, ?Hs; done.
Qed.

Lemma publish_ok s :
  Inv s -> worker s = Publishing -> exists s', run_once_publish s = Val s' /\ Inv s'.
Proof.
  intros Hi Hw. destruct (inv_call s Hi) as (c & Ec & Hc); [by rewrite Hw|].
  unfold run_once_publish. rewrite Hw in Hc. pose proof (co_bound _ _ _ _ _ _ Hc) as Hb.
  pose proof (co_done _ _ _ _ _ _ Hc) as Hd.
  symmetry in Hd. rewrite Ec. cbn [fmap option_fmap option_map].
  destruct (done (mem s)) eqn:Ed.
  - eexists. split; [done|].
    rewrite <- (with_mem_same s), <- (with_call_same s c _ Ec). apply inv_worker_session; try done; [by rewrite Hw|apply Hi|]. call_ok.
  - destruct ((stopping (mem s) || broken (mem s)) && negb (hold_released (mem s))) eqn:Er.
    + apply andb_prop in Er as [Er Eh]. apply negb_true_iff in Eh.
      assert (Hbr : broken (mem s) = true).
      { apply orb_prop in Er as [Er|Er]; [|done]. by apply (co_stopping _ _ _ _ _ _ Hc). }
      eexists. split; [done|].
      rewrite <- (with_call_same s c _ Ec). apply inv_worker_session; try done; [by rewrite Hw|apply Hi|]. call_ok.
    + match goal with |- context [maybe_write_locked ?m' _] => set (m1 := m') end.
      assert (Hnb : broken (mem s) = true -> hold_released (mem s) = true)
        by (intros E; rewrite E, orb_true_r in Er; by destruct (hold_released (mem s))).
      assert (Hc1 : CallOk m1 AwaitingDone (owner s) (reader s) (writer s) c) by call_ok.
      destruct (maybe_write_ok _ _ _ _ _ _ Hc1) as (m2 & c' & -> & Hc2 & Hs2 & Hst).
      cbn. eexists. split; [done|]. apply inv_worker_session; try done; [by rewrite Hw|].
      rewrite Hs2. apply Hi.
Qed.

Lemma return_ok s :
  Inv s -> worker s = AwaitingDone -> done (mem s) = true ->
  exists s', run_once_return s = Val s' /\ Inv s'.
Proof.
  intros Hi Hw Hd. destruct (inv_call s Hi) as (c & Ec & Hc); [by rewrite Hw|].
  unfold run_once_return. rewrite Ec. pose proof (co_done _ _ _ _ _ _ Hc) as Hf.
  rewrite Hd in Hf. cbn [destroy]. rewrite <- Hf. cbn. eexists. split; [done|].
  pose proof (co_finished _ _ _ _ _ _ Hc (eq_sym Hf)) as (H0 & _ & _ & Hrd & Hwr).
  pose proof (co_reactor _ _ _ _ _ _ Hc) as Hre. rewrite <- Hf in Hre.
  pose proof (co_holds _ _ _ _ _ _ Hc) as Hh. rewrite (co_bound _ _ _ _ _ _ Hc), Hw in Hh.
  specialize (Hh eq_refl). unfold pending in Hh.
  destruct Hi as [Hr Ht Ho _]. unpack s. subst.
  split; cbn; [done|done|done|]. split; cbn; try done.
  destruct (owner_release o); [cbn in Hh; lia|done].
Qed.

Lemma report_ok on_state opts s st :
  BackoffRange opts -> 0 <= attempt s < wmax W32 ->
  Inv s -> worker s = Reporting st ->
  exists s', report on_state opts s st = Val s' /\ Inv s'
    /\ 0 <= attempt s' <= attempt s + 1.
Proof.
  intros Hb Ha Hi Hw. unfold report.
  set (n := if got_data (mem s) then 0 else attempt s).
  assert (Hn : 0 <= n <= attempt s) by (unfold n; destruct (got_data _); lia).
  destruct (reconnect opts).
  - rewrite backoff_delay_val by (done || lia). cbn.
    rewrite checked_in by range. cbn. eexists. split; [done|]. split; [|cbn; lia].
    apply (inv_worker_idle s _ (n + 1) _); try done; by rewrite Hw.
  - eexists. split; [done|]. split; [|cbn; lia].
    apply (inv_worker_idle s _ n _); try done; by rewrite Hw.
Qed.

(** A step that only moves the worker to another point of the same kind. *)
Lemma inv_worker_same s w u :
  Inv s -> in_session (worker s) = false -> worker s <> NoThread ->
  in_session w = false -> w <> NoThread -> Inv (with_worker (with_world s u) w).
Proof.
  intros Hi Hw Hn Hw' Hn'.
  replace (with_world s u) with (with_attempt (with_world s u) (attempt s))
    by by destruct s.
  by apply inv_worker_idle.
Qed.

Lemma inv_worker_move s w :
  Inv s -> in_session (worker s) = false -> worker s <> NoThread ->
  in_session w = false -> w <> NoThread -> Inv (with_worker s w).
Proof.
  intros Hi Hw Hn Hw' Hn'.
  replace s with (with_world s (world s)) by by destruct s. by apply inv_worker_same.
Qed.

Definition attempt_grows s s' := 0 <= attempt s' <= attempt s + 1.

Lemma worker_step_ok on_state opts s :
  BackoffRange opts -> 0 <= attempt s < wmax W32 -> Inv s ->
  exists o, worker_step on_state opts s = Val o
    /\ forall s', o = Some s' -> Inv s' /\ attempt_grows s s'.
Proof.
  intros Hb Ha Hi. unfold attempt_grows, worker_step.
  destruct (worker s) as [ | | | | | | | |st|st|d| | ] eqn:Ew.
  all: try (by eexists).
  all: try (eexists; split; [done|]; intros s' [= <-]; split; [|cbn; lia];
    apply inv_worker_same; rewrite ?Ew; done).
  all: try (eexists; split; [done|]; intros s' [= <-]; split; [|cbn; lia];
    apply inv_worker_move; rewrite ?Ew; try destruct (stopping _); done).
  - (* Entering *)
    eexists. split; [done|]. intros s' [= <-]. destruct (stopping (mem s)) eqn:Es.
    + unfold run_once_enter. rewrite Es. split; [|cbn; lia].
      apply inv_worker_move; by rewrite ?Ew.
    + destruct (enter_ok s Hi Ew Es) as (s2 & E & Hi2). rewrite E. split; [done|].
      unfold run_once_enter in E. rewrite Es in E. injection E as <-. cbn. lia.
  - (* Starting *)
    destruct (inv_call s Hi) as (c & Ec & Hc); [by rewrite Ew|]. rewrite Ew in Hc.
    destruct (begin_ok _ _ _ _ _ Hc) as (c' & E & Hc'). rewrite Ec, E. cbn.
    eexists. split; [done|]. intros s' [= <-]. split; [|cbn; lia].
    rewrite <- (with_mem_same s). apply inv_worker_session; try done;
      [by rewrite Ew|apply Hi].
  - (* Publishing *)
    destruct (publish_ok s Hi Ew) as (s2 & E & Hi2). rewrite E. cbn.
    eexists. split; [done|]. intros s' [= <-]. split; [done|].
    assert (attempt s2 = attempt s); [|lia]. unfold run_once_publish in E.
    destruct (done (mem s)); [by injection E as <-|].
    destruct (_ && _) in E; [by injection E as <-|].
    destruct (maybe_write_locked _ _) as [[m c]|] in E; [by injection E as <-|done].
  - (* Releasing *)
    destruct (inv_call s Hi) as (c & Ec & Hc); [by rewrite Ew|]. rewrite Ew in Hc.
    destruct (worker_release_ok _ _ _ _ _ Hc) as (c' & E & Hc').
    rewrite Ec. cbn [fmap option_fmap option_map]. rewrite E. cbn.
    eexists. split; [done|]. intros s' [= <-]. split; [|cbn; lia].
    rewrite <- (with_mem_same s). apply inv_worker_session; try done;
      [by rewrite Ew|apply Hi].
  - (* AwaitingDone *)
    destruct (done (mem s)) eqn:Ed; [|by eexists].
    destruct (return_ok s Hi Ew Ed) as (s2 & E & Hi2). rewrite E. cbn.
    eexists. split; [done|]. intros s' [= <-]. split; [done|].
    assert (attempt s2 = attempt s); [|lia]. unfold run_once_return in E.
    destruct (destroy (call s)); [by injection E as <-|done].
  - (* Reporting *)
    destruct (report_ok on_state opts s st Hb Ha Hi Ew) as (s2 & E & Hi2 & Ha2).
    rewrite E. cbn. eexists. split; [done|]. by intros s' [= <-].
Qed.

(** Steps of the callbacks inside a session. *)
Lemma inv_callbacks s m' rd' wr' c' :
  Inv s -> in_session (worker s) = true -> RegistryOk (subscriptions m') ->
  stopping m' = stopping (mem s) ->
  CallOk m' (worker s) (owner s) rd' wr' c' ->
  Inv (with_writer (with_reader (with_call (with_mem s m') (Some c')) rd') wr').
Proof.
  intros Hi Hw Hr' Hst Hc. destruct Hi as [Hr Ht Ho _]. unpack s.
  split; cbn; [done|done|by rewrite Hst|]. rewrite Hw. eauto.
Qed.

Lemma inv_reader s m' rd' c' :
  Inv s -> in_session (worker s) = true -> RegistryOk (subscriptions m') ->
  stopping m' = stopping (mem s) ->
  CallOk m' (worker s) (owner s) rd' (writer s) c' ->
  Inv (with_reader (with_call (with_mem s m') (Some c')) rd').
Proof. intros. by apply (inv_callbacks s m' rd' (writer s) c'). Qed.

Lemma inv_writer s m' wr' c' :
  Inv s -> in_session (worker s) = true -> RegistryOk (subscriptions m') ->
  stopping m' = stopping (mem s) ->
  CallOk m' (worker s) (owner s) (reader s) wr' c' ->
  Inv (with_writer (with_call (with_mem s m') (Some c')) wr').
Proof. intros. by apply (inv_callbacks s m' (reader s) wr' c'). Qed.

Lemma reader_idle_or rd : rd = ReaderIdle \/ rd <> ReaderIdle.
Proof. destruct rd; by (left + right). Qed.
Lemma writer_idle_or (wr : Writer) : wr = WriterIdle \/ wr <> WriterIdle.
Proof. destruct wr; by (left + right). Qed.

Lemma reader_active m w o rd wr c :
  CallOk m w o rd wr c -> rd <> ReaderIdle -> bound c = true /\ finished c = false.
Proof.
  intros Hc Hr. split.
  - destruct (bound c) eqn:E; [done|]. by destruct (co_unbound _ _ _ _ _ _ Hc E) as
      (_ & _ & _ & _ & ? & _).
  - destruct (finished c) eqn:E; [|done]. by destruct (co_finished _ _ _ _ _ _ Hc E) as
      (_ & _ & _ & ? & _).
Qed.

Lemma reader_step_ok deliver on_state s :
  Inv s -> exists o, reader_step deliver on_state s = Val o
    /\ forall s', o = Some s' -> Inv s' /\ attempt s' = attempt s.
Proof.
  intros Hi. unfold reader_step.
  destruct (reader_idle_or (reader s)) as [E|Hne]; [rewrite E; by eexists|].
  pose proof (reader_in_session s Hi Hne) as Hw.
  destruct (inv_call s Hi Hw) as (c & Ec & Hc).
  destruct (reader_active _ _ _ _ _ _ Hc Hne) as [Hb Hf].
  pose proof (inv_registry _ Hi) as Hreg.
  destruct (reader s) as [|r|first r| | |r] eqn:Er; [done| | | | |].
  - eexists. split; [done|]. intros s' [= <-]. split; [|done].
    rewrite <- (with_call_same s c _ Ec). apply inv_reader; try done. call_ok.
  - eexists. split; [done|]. intros s' [= <-]. split; [|done].
    destruct Hi as [_ Ht Ho _]. unpack s. subst. split; cbn; try done. rewrite Hw.
    eexists. split; [done|]. call_ok.
  - rewrite Ec. unfold StartRead. rewrite (live_some _ _ _ _ _ _ Hc Hb Hf).
    destruct (reading c) eqn:Erd;
      [by pose proof (co_reading _ _ _ _ _ _ Hc Erd)|]. cbn.
    eexists. split; [done|]. intros s' [= <-]. split; [|done].
    rewrite <- (with_mem_same s). apply inv_reader; try done. call_ok.
  - pose proof (reader_closed_ok _ _ _ _ _ Hc) as Hc'.
    destruct (handle_read_closed (mem s)) as [m' rel] eqn:Em.
    eexists. split; [done|]. intros s' [= <-]. split; [|done].
    rewrite <- (with_call_same s c _ Ec).
    unfold handle_read_closed in Em. injection Em as <- <-. by apply inv_reader.
  - destruct (reader_release_ok _ _ _ _ _ _ Hc) as (c' & E & Hc'). rewrite Ec, E. cbn.
    eexists. split; [done|]. intros s' [= <-]. split; [|done].
    rewrite <- (with_mem_same s). by apply inv_reader.
Qed.

Lemma writer_step_ok s :
  Inv s -> exists o, writer_step s = Val o
    /\ forall s', o = Some s' -> Inv s' /\ attempt s' = attempt s.
Proof.
  intros Hi. unfold writer_step.
  destruct (writer_idle_or (writer s)) as [E|Hne]; [rewrite E; by eexists|].
  pose proof (writer_in_session s Hi Hne) as Hw.
  destruct (inv_call s Hi Hw) as (c & Ec & Hc).
  pose proof (inv_registry _ Hi) as Hreg.
  destruct (writer s) as [| | |r] eqn:Er; [done| | |].
  - match goal with |- context [maybe_write_locked ?m' _] => set (m1 := m') end.
    assert (Hnw : writing c = false).
    { destruct (writing c) eqn:E; [|done].
      by destruct (co_writing _ _ _ _ _ _ Hc E). }
    assert (Hc1 : CallOk m1 (worker s) (owner s) (reader s) WriterIdle c) by call_ok.
    destruct (maybe_write_ok _ _ _ _ _ _ Hc1) as (m2 & c' & E & Hc2 & Hs2 & Hst).
    rewrite Ec, E. cbn. eexists. split; [done|]. intros s' [= <-]. split; [|done].
    apply inv_writer; try done. by rewrite Hs2.
  - pose proof (writer_closed_ok _ _ _ _ _ Hc) as Hc'.
    destruct (handle_read_closed (mem s)) as [m' rel] eqn:Em.
    eexists. split; [done|]. intros s' [= <-]. split; [|done].
    rewrite <- (with_call_same s c _ Ec).
    unfold handle_read_closed in Em. injection Em as <- <-. by apply inv_writer.
  - destruct (writer_release_ok _ _ _ _ _ _ Hc) as (c' & E & Hc'). rewrite Ec, E. cbn.
    eexists. split; [done|]. intros s' [= <-]. split; [|done].
    rewrite <- (with_mem_same s). by apply inv_writer.
Qed.

Lemma read_done_ok s res s' : Inv s -> read_done s res = Some s' -> Inv s'.
Proof.
  intros Hi. unfold read_done. destruct (call s) as [c|] eqn:Ec; [|done].
  destruct (reader s) eqn:Er; try done. destruct (reading c) eqn:Erd; [|done].
  intros [= <-]. pose proof (call_in_session s c Hi Ec) as Hw.
  destruct (inv_call s Hi Hw) as (c' & Ec' & Hc). assert (c' = c) as -> by congruence.
  rewrite Er in Hc. rewrite <- (with_mem_same s).
  apply inv_reader; try done; [apply Hi|]. destruct res; call_ok.
Qed.

Lemma write_done_ok s ok s' : Inv s -> write_done s ok = Some s' -> Inv s'.
Proof.
  intros Hi. unfold write_done. destruct (call s) as [c|] eqn:Ec; [|done].
  destruct (writer s) eqn:Er; try done. destruct (writing c) eqn:Erd; [|done].
  intros [= <-]. pose proof (call_in_session s c Hi Ec) as Hw.
  destruct (inv_call s Hi Hw) as (c' & Ec' & Hc). assert (c' = c) as -> by congruence.
  rewrite Er in Hc. rewrite <- (with_mem_same s).
  apply inv_writer; try done; [apply Hi|]. destruct ok; call_ok.
Qed.

Lemma on_done_ok s st s' : Inv s -> on_done s st = Some s' -> Inv s'.
Proof.
  intros Hi. unfold on_done. destruct (call s) as [c|] eqn:Ec; [|done].
  destruct (reader s) eqn:Er; try done. destruct (writer s) eqn:Ew; try done.
  case_match eqn:Eg; [|done]. intros [= <-].
  apply andb_prop in Eg as [Eg E5]. apply andb_prop in Eg as [Eg E4].
  apply andb_prop in Eg as [Eg E3]. apply andb_prop in Eg as [E1 E2].
  apply negb_true_iff in E5, E4, E2. apply bool_decide_eq_true in E3.
  pose proof (call_in_session s c Hi Ec) as Hw.
  destruct (inv_call s Hi Hw) as (c' & Ec' & Hc). assert (c' = c) as -> by congruence.
  rewrite Er, Ew in Hc. destruct Hi as [Hr Ht Ho _]. unpack s. subst.
  split; cbn; try done. rewrite Hw. eexists. split; [done|]. call_ok.
Qed.

Lemma step_ok deliver on_state opts l s :
  BackoffRange opts -> 0 <= attempt s < wmax W32 -> Inv s ->
  exists o, step deliver on_state opts l s = Val o
    /\ forall s', o = Some s' -> Inv s' /\ attempt_grows s s'.
Proof.
  intros Hb Ha Hi. unfold attempt_grows.
  destruct l as [| |r b| | | | |res|ok|st]; cbn [step].
  - eexists. split; [done|]. intros s'. destruct (owner s) eqn:Eo; try done.
    intros [= <-]. split; [by apply start_ok|]. unfold start.
    destruct (joinable s); cbn; lia.
  - destruct (owner s) eqn:Eo; try by eexists.
    destruct (stop_locked_ok s Hi Eo) as (s1 & E & Hi1). rewrite E. cbn.
    eexists. split; [done|]. intros s' [= <-]. split; [done|].
    unfold stop_locked in E. destruct (match ctx _ with Some _ => _ | None => _ end);
      [|done]. injection E as <-. cbn. lia.
  - destruct (send_ok s r b Hi) as (s1 & E & Hi1). rewrite E. cbn.
    eexists. split; [done|]. intros s' [= <-]. split; [done|].
    assert (attempt s1 = attempt s); [|lia]. unfold send in E.
    destruct (stopping (mem s)); [by injection E as <-|].
    destruct (track _ _ _) in E; [|done]. cbn in E.
    case_match; [|by injection E as <-].
    destruct (maybe_write_locked _ _) as [[m c]|] in E; [by injection E as <-|done].
  - destruct (owner_step_ok s Hi) as (o & E & Ho). rewrite E. eexists. split; [done|].
    intros s' ->. split; [by apply Ho|]. assert (attempt s' = attempt s); [|lia].
    unfold owner_step in E. destruct (owner s) as [|r j|[]]; [done| | |].
    + destruct (release_hold _ _) in E; [by injection E as <-|done].
    + destruct (worker s); try done. by injection E as <-.
    + by injection E as <-.
  - by apply worker_step_ok.
  - destruct (reader_step_ok deliver on_state s Hi) as (o & E & Ho). rewrite E.
    eexists. split; [done|]. intros s' ->. destruct (Ho s' eq_refl) as [? ->].
    split; [done|lia].
  - destruct (writer_step_ok s Hi) as (o & E & Ho). rewrite E.
    eexists. split; [done|]. intros s' ->. destruct (Ho s' eq_refl) as [? ->].
    split; [done|lia].
  - eexists. split; [done|]. intros s' E. split; [by eapply read_done_ok|].
    unfold read_done in E. repeat case_match; simplify_eq; cbn; lia.
  - eexists. split; [done|]. intros s' E. split; [by eapply write_done_ok|].
    unfold write_done in E. repeat case_match; simplify_eq; cbn; lia.
  - eexists. split; [done|]. intros s' E. split; [by eapply on_done_ok|].
    unfold on_done in E. repeat case_match; simplify_eq; cbn; lia.
Qed.

Lemma run_ok deliver on_state opts trace s :
  BackoffRange opts -> 0 <= attempt s ->
  attempt s + Z.of_nat (length trace) <= wmax W32 -> Inv s ->
  exists s', run deliver on_state opts s trace = Val s' /\ Inv s'
    /\ 0 <= attempt s' <= attempt s + Z.of_nat (length trace).
Proof.
  intros Hb. revert s.
  induction trace as [|l trace IH]; intros s Ha Hl Hi; cbn [run length] in *.
  - exists s. split_and!; [done|done|lia|lia].
  - destruct (step_ok deliver on_state opts l s Hb ltac:(lia) Hi) as (o & -> & Ho).
    cbn [mbind outcome_bind]. destruct o as [s'|].
    + destruct (Ho s' eq_refl) as [Hi' Hg]. unfold attempt_grows in Hg.
      destruct (IH s') as (s2 & E & H2 & H3); [lia|lia|done|].
      exists s2. split_and!; [done|done|lia|lia].
    + destruct (IH s) as (s2 & E & H2 & H3); [lia|lia|done|].
      exists s2. split_and!; [done|done|lia|lia].
Qed.
End Invariant.
