(* ===== verification/StreamHistory.v ===== *)
(** * What the user and the server observe of the market-data stream

    The sequence of notifications follows [StreamCommon.protocol], and the
    requests of a session are the replayed registry and the accepted sends. *)

From S2P Require Import Prelude StdStrings ErrorResult StreamCommon MarketData MarketDataStream StreamInvariant.
From stdpp Require Import base numbers list strings gmap.
From Stdlib Require Import ZArith Lia.

#[local] Open Scope Z_scope.

(** ** The order of the notifications

    The user's state is now the log of what the callbacks were given. *)
Section Notifications.
Context `{GrpcCodes}.
Context {Resp : Type}.
Context (opts : StreamOptions).
Abbreviation log := (list (event Resp)).
Implicit Types (s : @Sys Resp log) (m : Members) (rd : @Reader Resp).

Abbreviation logged_step := (step log_data (Some log_state) opts).
Abbreviation logged_run := (run log_data (Some log_state) opts).

(** The phases of the protocol the log may be in, by where the worker and the
    read callback are. *)
Definition phase_ok (w : Worker) (got : bool) rd (p : phase) : Prop :=
  match w with
  | NoThread | Exited => p = Idle
  | LoopTop | Connecting => p = Idle \/ p = Broken
  | Entering => p = AwaitingData
  | Starting | Publishing | Releasing | AwaitingDone =>
      match rd with
      | ReadNotify true _ => p = AwaitingData
      | ReadNotify false _ => p = Receiving /\ got = true
      | _ => p = if got then Receiving else AwaitingData
      end
      /\ match rd with ReadNotify _ _ | ReadRestart => got = true | _ => True end
  | Returned _ | Reporting _ => p = AwaitingData \/ p = Receiving
  | Sleeping _ => p = Broken
  | Finishing => True
  end.

Definition LogOk s : Prop :=
  exists p, follows (world s) = Some p
    /\ phase_ok (worker s) (got_data (mem s)) (reader s) p.

Lemma maybe_write_frame m c m' c' :
  maybe_write_locked m c = Val (m', c') ->
  got_data m' = got_data m /\ stopping m' = stopping m /\ broken m' = broken m
  /\ done m' = done m /\ hold_released m' = hold_released m
  /\ reactor m' = reactor m /\ ctx m' = ctx m /\ subscriptions m' = subscriptions m.
Proof.
  unfold maybe_write_locked. intros E.
  destruct (reactor m) eqn:Er; [|injection E as <- <-; by split_and!].
  destruct (_ || _) in E; [injection E as <- <-; by split_and!|].
  destruct (write_queue m); [injection E as <- <-; by split_and!|].
  destruct (StartWrite _ _ _) in E; [|done]. injection E as <- <-. by split_and!.
Qed.

(** The steps that notify nobody and move neither the worker nor the reader. *)
Lemma log_ok_same s s' :
  LogOk s -> world s' = world s -> worker s' = worker s ->
  got_data (mem s') = got_data (mem s) -> reader s' = reader s -> LogOk s'.
Proof.
  intros (p & Hf & Hp) E1 E2 E3 E4. exists p. by rewrite E1, E2, E3, E4.
Qed.

Lemma send_log s r b s' : send s r b = Val s' -> LogOk s -> LogOk s'.
Proof.
  unfold send. intros E Hl. destruct (stopping (mem s)); [by injection E as <-|].
  destruct (track _ _ _) in E; [|done]. cbn in E. case_match.
  - destruct (maybe_write_locked _ _) as [[m c]|] eqn:Em in E; [|done].
    injection E as <-. apply maybe_write_frame in Em as (Eg & _).
    by eapply log_ok_same.
  - injection E as <-. by eapply log_ok_same.
Qed.

Lemma log_ok_notify s s' st e p p' :
  follows (world s) = Some p -> protocol p (Notified st e : event Resp) = Some p' ->
  world s' = log_state st e (world s) ->
  phase_ok (worker s') (got_data (mem s')) (reader s') p' -> LogOk s'.
Proof.
  intros Hf Hp E Hq. exists p'. rewrite E. unfold log_state.
  by rewrite follows_snoc, Hf.
Qed.

Lemma worker_log s s' :
  Inv s -> LogOk s -> worker_step (Some log_state) opts s = Val (Some s') -> LogOk s'.
Proof.
  intros Hi (p & Hf & Hp) E. unfold worker_step in E.
  pose proof (inv_idle s Hi) as Hidle.
  destruct (worker s) as [ | | | | | | | |st|st|d| | ] eqn:Ew; cbn in E, Hp; try done.
  - injection E as <-. exists p. cbn. by destruct (stopping _).
  - injection E as <-. eapply (log_ok_notify s); [done| |done|done].
    by destruct Hp as [-> | ->].
  - injection E as <-. exists p. split; [|unfold run_once_enter].
    + unfold run_once_enter. by destruct (stopping _).
    + destruct (stopping _); cbn; [by left|].
      by rewrite (io_reader _ _ _ _ _ (Hidle eq_refl)).
  - destruct (Begin _) in E; [|done]. injection E as <-. by exists p.
  - unfold run_once_publish in E. destruct (done (mem s)); [injection E as <-; by exists p|].
    destruct (_ && _) in E; [injection E as <-; by exists p|].
    destruct (maybe_write_locked _ _) as [[m c]|] eqn:Em in E; [|done].
    injection E as <-. apply maybe_write_frame in Em as (Eg & _). exists p. cbn.
    by rewrite Eg.
  - destruct (release_hold _ _) in E; [|done]. injection E as <-. by exists p.
  - destruct (done (mem s)) eqn:Ed; [|done].
    destruct (inv_call s Hi) as (c & Ec & Hc); [by rewrite Ew|].
    pose proof (co_done _ _ _ _ _ _ Hc) as Hfin. rewrite Ed in Hfin.
    pose proof (co_finished _ _ _ _ _ _ Hc (eq_sym Hfin)) as (_ & _ & _ & Hrd & _).
    unfold run_once_return in E. destruct (destroy _) in E; [|done].
    injection E as <-. exists p. split; [done|]. cbn. rewrite Hrd in Hp.
    destruct Hp as [-> _]. destruct (got_data _); auto.
  - injection E as <-. exists p. cbn. by destruct (stopping _).
  - unfold report in E. destruct (reconnect opts).
    + destruct (backoff_delay _ _) in E; [|done]. cbn in E.
      destruct (checked _ _) in E; [|done]. injection E as <-.
      eapply (log_ok_notify s); [done| |done|done]. by destruct Hp as [-> | ->].
    + injection E as <-. eapply (log_ok_notify s); [done| |done|done].
      by destruct Hp as [-> | ->].
  - injection E as <-. exists p. split; [done|]. cbn. destruct (stopping _); cbn; auto.
  - injection E as <-. eapply (log_ok_notify s); [done| |done|done]. by destruct p.
Qed.
Lemma reader_log s s' :
  Inv s -> LogOk s -> reader_step log_data (Some log_state) s = Val (Some s') -> LogOk s'.
Proof.
  intros Hi (p & Hf & Hp) E. unfold reader_step in E.
  destruct (reader_idle_or (reader s)) as [Hr|Hr]; [by rewrite Hr in E|].
  pose proof (reader_in_session s Hi Hr) as Hw.
  assert (Hsess : forall rd got q,
    phase_ok (worker s) got rd q <-> phase_ok AwaitingDone got rd q)
    by (intros; by destruct (worker s)).
  apply Hsess in Hp. cbn in Hp.
  assert (Hq : forall q s2, worker s2 = worker s -> follows (world s2) = Some q ->
     phase_ok AwaitingDone (got_data (mem s2)) (reader s2) q -> LogOk s2).
  { intros q s2 E1 E2 E3. exists q. rewrite E1. split; [done|by apply Hsess]. }
  destruct (reader s) as [|r|first r| | |r] eqn:Er; [done| | | | |].
  - injection E as <-. destruct Hp as [-> _]. eapply Hq; [done..|]. cbn.
    by destruct (got_data (mem s)).
  - injection E as <-. destruct first, Hp as [Hp Hg].
    + apply (Hq Receiving); [done| |cbn; by rewrite Hg].
      cbn. unfold log_data, log_state. rewrite !follows_snoc, Hf, Hp. done.
    + destruct Hp as [-> _]. apply (Hq Receiving); [done| |cbn; by rewrite Hg].
      cbn. unfold log_data. by rewrite follows_snoc, Hf.
  - destruct (call s); [|done]. destruct (StartRead _ _) in E; [|done].
    injection E as <-. apply (Hq p); try done. cbn. by destruct Hp.
  - injection E as <-. apply (Hq p); done.
  - destruct (release_hold _ _) in E; [|done]. injection E as <-. by apply (Hq p).
Qed.

Lemma step_log l s s' : Inv s -> LogOk s -> logged_step l s = Val (Some s') -> LogOk s'.
Proof.
  intros Hi Hl. destruct l as [| |r b| | | | |res|ok|st]; cbn [step].
  - destruct (owner s) eqn:Eo; try done. intros [= <-]. unfold start.
    destruct (joinable s) eqn:Ej; [done|]. pose proof (inv_thread _ Hi) as Ht.
    destruct Hl as (p & Hf & Hp). rewrite Ej, Eo in Ht. cbn in Ht.
    exists p. split; [done|]. cbn. left. by destruct (worker s).
  - destruct (owner s); try done. destruct (stop_locked s) eqn:E; [|done].
    intros [= <-]. unfold stop_locked in E.
    destruct (match ctx _ with Some _ => _ | None => _ end) in E; [|done].
    injection E as <-. by eapply log_ok_same.
  - destruct (send s r b) eqn:E; [|done]. intros [= <-]. by eapply send_log.
  - unfold owner_step. destruct (owner s) as [|rl j|[]]; try done.
    + destruct (release_hold _ _); [|done]. intros [= <-]. by eapply log_ok_same.
    + destruct (worker s) eqn:Ew; try done. intros [= <-].
      destruct Hl as (p & Hf & Hp). exists p. split; [done|]. by rewrite Ew in Hp.
    + intros [= <-]. by eapply log_ok_same.
  - by apply worker_log.
  - by apply reader_log.
  - unfold writer_step. destruct (writer s) as [| | |rl]; try done.
    + destruct (maybe_write_locked _ _) as [[m c]|] eqn:Em; [|done]. intros [= <-].
      apply maybe_write_frame in Em as (Eg & _). by eapply log_ok_same.
    + intros [= <-]. by eapply log_ok_same.
    + destruct (release_hold _ _); [|done]. intros [= <-]. by eapply log_ok_same.
  - intros [= E]. unfold read_done in E. destruct (call s) as [c|] eqn:Ec; [|done].
    destruct (reader s) eqn:Er; try done. destruct (reading c); [|done].
    injection E as <-. destruct Hl as (p & Hf & Hp). exists p. split; [done|].
    pose proof (call_in_session s c Hi Ec) as Hw. rewrite Er in Hp. cbn.
    destruct (worker s); try done; by destruct res.
  - intros [= E]. unfold write_done in E. destruct (call s) as [c|] eqn:Ec; [|done].
    destruct (writer s); try done. destruct (writing c); [|done].
    injection E as <-. by eapply log_ok_same.
  - intros [= E]. unfold on_done in E. destruct (call s) as [c|]; [|done].
    destruct (reader s) eqn:Er; try done. destruct (writer s); try done.
    destruct (_ && _) in E; [|done]. injection E as <-.
    eapply log_ok_same; [exact Hl|done..].
Qed.

Lemma run_log trace s s' :
  BackoffRange opts -> 0 <= attempt s ->
  attempt s + Z.of_nat (length trace) <= wmax W32 -> Inv s -> LogOk s ->
  logged_run s trace = Val s' -> LogOk s'.
Proof.
  intros Hb. revert s. induction trace as [|l trace IH]; intros s Ha Hl Hi Ho E; cbn in *.
  - by injection E as <-.
  - destruct (step_ok log_data (Some log_state) opts l s Hb ltac:(cbn; lia) Hi)
      as (o & Es & Hs). rewrite Es in E. cbn in E. destruct o as [s1|].
    + destruct (Hs s1 eq_refl) as [Hi' Hg]. unfold attempt_grows in Hg.
      apply (IH s1); try done; [lia|cbn; lia|]. apply (step_log l s s1 Hi Ho Es).
    + apply (IH s); try done. cbn; lia.
Qed.
End Notifications.

(** ** What the server was asked for *)

Section Coverage.
Context `{GrpcCodes}.
Context {Resp W : Type}.
Context (deliver : Resp -> W -> W).
Context (on_state : option (StreamState -> option Error -> W -> W)).
Context (opts : StreamOptions).
Implicit Types (s : @Sys Resp W) (m : Members).

(** Sends are put on the queue only in this situation. *)
Definition accepting m : bool :=
  match reactor m with
  | Some _ => negb (broken m) && negb (hold_released m)
  | None => false
  end.

(** An observer of a run.  [script]: the requests the current session was given,
    the replayed ones first, with their [remember] flags; [missed]: whether a
    request was sent during the session while it was not accepting. *)
Record Observer := MkObserver {
  script : list (bool * MarketDataRequest); missed : bool }.

Definition observe (l : @label Resp) s (g : Observer) : Observer :=
  match l with
  | LWorker =>
      match worker s with
      | Entering => if stopping (mem s) then g else
          MkObserver ((fun r => (true, r)) <$> replay (subscriptions (mem s))) false
      | _ => g
      end
  | LSend r remember =>
      if stopping (mem s) then g
      else if accepting (mem s) then MkObserver (script g ++ [(remember, r)]) (missed g)
      else MkObserver (script g) true
  | _ => g
  end.

Fixpoint run_observed s (g : Observer) (trace : list (@label Resp))
    : outcome (Sys * Observer) :=
  match trace with
  | [] => mret (s, g)
  | l :: trace' =>
      o ← step deliver on_state opts l s;
      match o with
      | Some s' => run_observed s' (observe l s g) trace'
      | None => run_observed s g trace'
      end
  end.

(** Nothing waits in the queue of an accepting stream unless a write is under way. *)
Definition Drained m : Prop :=
  accepting m = true -> write_in_flight m = false -> write_queue m = [].

Definition Covered s (g : Observer) : Prop :=
  Drained (mem s) /\
  forall c, call s = Some c ->
    written c ++ write_queue (mem s) = (script g).*2
    /\ (missed g = false -> track_all ∅ (script g) = Val (subscriptions (mem s))).

Lemma maybe_write_drained m c m' c' :
  maybe_write_locked m c = Val (m', c') -> Drained m'.
Proof.
  unfold maybe_write_locked, Drained, accepting. intros E.
  destruct (reactor m) eqn:Er; [|injection E as <- <-; by rewrite Er].
  destruct (broken m || hold_released m || write_in_flight m) eqn:Eb.
  { injection E as <- <-. rewrite Er.
    by destruct (broken m), (hold_released m), (write_in_flight m). }
  destruct (write_queue m) eqn:Eq; [by injection E as <- <-|].
  destruct (StartWrite _ _ _) in E; [|done]. by injection E as <- <-.
Qed.

Lemma maybe_write_order m c m' c' :
  maybe_write_locked m (Some c) = Val (m', c') ->
  exists d, c' = Some d /\ written d ++ write_queue m' = written c ++ write_queue m.
Proof.
  unfold maybe_write_locked. intros E.
  destruct (reactor m) as [n|]; [|injection E as <- <-; by exists c].
  destruct (_ || _) in E; [injection E as <- <-; by exists c|].
  destruct (write_queue m) as [|r q] eqn:Eq; [injection E as <- <-; exists c; by rewrite Eq|].
  unfold StartWrite in E. destruct (live (Some c) n) as [d|] eqn:El; [|done].
  assert (d = c) as -> by (unfold live in El; destruct (_ && _) in El; congruence).
  destruct (writing c); [done|]. cbn in E. injection E as <- <-.
  eexists. split; [done|]. cbn. by rewrite <- app_assoc.
Qed.

(** The steps that change neither the queue nor what was written. *)
Lemma covered_same s s' g :
  Covered s g -> write_queue (mem s') = write_queue (mem s) ->
  subscriptions (mem s') = subscriptions (mem s) ->
  (Drained (mem s) -> Drained (mem s')) ->
  (forall c', call s' = Some c' -> exists c, call s = Some c /\ written c' = written c) ->
  Covered s' g.
Proof.
  intros [Hd Hc] E1 E2 Hd' Hw. split; [auto|].
  intros c' Ec'. destruct (Hw c' Ec') as (c & Ec & E). rewrite E, E1, E2. auto.
Qed.

Lemma release_written c r c' :
  release_hold c r = Val c' ->
  forall d', c' = Some d' -> exists d, c = Some d /\ written d' = written d.
Proof.
  destruct r as [n|]; cbn; [|intros [= <-] d' ->; by exists d'].
  unfold RemoveHold, live. destruct c as [c|]; [|done].
  destruct (_ && _); [|done]. destruct (holds c); [done|].
  intros [= <-] d' [= <-]. by exists c.
Qed.

Lemma accepting_broken m : broken m = true -> accepting m = false.
Proof. intros E. unfold accepting. rewrite E. by destruct (reactor m). Qed.

Lemma send_covered s r b s' g :
  Covered s g -> Inv s -> send s r b = Val s' ->
  Covered s' (observe (LSend r b) s g).
Proof.
  intros Hcov Hi E. unfold send in E. cbn [observe].
  destruct (stopping (mem s)); [by injection E as <-|].
  destruct (track b _ r) as [subs|] eqn:Et; [|done]. cbn in E.
  fold (accepting (mem s)) in E. destruct (accepting (mem s)) eqn:Ea.
  - destruct (maybe_write_locked _ _) as [[m' c']|] eqn:Em in E; [|done].
    injection E as <-. cbn. split; cbn [mem with_mem with_call].
    { by eapply maybe_write_drained. }
    cbn. intros d ->. destruct (call s) as [c|] eqn:Ec.
    + pose proof (maybe_write_frame _ _ _ _ Em) as (_ & _ & _ & _ & _ & _ & _ & Hs).
      apply maybe_write_order in Em as (d' & [= <-] & ->). cbn.
      destruct Hcov as [_ Hcov]. destruct (Hcov c Ec) as [Hq Hr]. split.
      * rewrite app_assoc, Hq, fmap_app. done.
      * intros Hm. rewrite track_all_snoc, (Hr Hm), Hs. done.
    + exfalso. unfold accepting in Ea.
      destruct (in_session (worker s)) eqn:Ew.
      * destruct (inv_call s Hi Ew) as (c & Ec' & _). congruence.
      * by rewrite (io_reactor _ _ _ _ _ (inv_idle s Hi Ew)) in Ea.
  - injection E as <-. destruct Hcov as [Hd Hcov]. split; [|].
    + intros Ha. unfold accepting in Ha, Ea. cbn in Ha. congruence.
    + intros c Ec. destruct (Hcov c Ec) as [Hq _]. by split.
Qed.

Lemma worker_covered s s' g :
  Covered s g -> Inv s -> worker_step on_state opts s = Val (Some s') ->
  Covered s' (observe LWorker s g).
Proof.
  intros Hcov Hi E. unfold worker_step in E. cbn [observe].
  pose proof (inv_idle s Hi) as Hidle.
  destruct (worker s) as [ | | | | | | | |st|st|d| | ] eqn:Ew; try done.
  all: try (injection E as <-; eapply covered_same; [exact Hcov|done..|]; cbn; eauto; fail).
  - injection E as <-. unfold run_once_enter. destruct (stopping (mem s)) eqn:Es.
    { eapply covered_same; [exact Hcov|done..|]. cbn. eauto. }
    split.
    + intros Ha. unfold accepting in Ha. cbn in Ha.
      by rewrite (io_reactor _ _ _ _ _ (Hidle eq_refl)) in Ha.
    + cbn. intros c [= <-]. cbn. split.
      * by rewrite <- list_fmap_compose, list_fmap_id.
      * intros _. apply replay_rebuilds, Hi.
  - destruct (Begin (call s)) as [c'|] eqn:Eb; [|done]. injection E as <-.
    eapply covered_same; [exact Hcov|done..|]. cbn. intros d ->.
    unfold Begin in Eb. destruct (call s) as [c|]; [|done].
    destruct (bound c); [done|]. injection Eb as <-. by exists c.
  - destruct (run_once_publish s) as [s1|] eqn:Ep; [|done]. injection E as <-.
    unfold run_once_publish in Ep. destruct (done (mem s)).
    { injection Ep as <-. eapply covered_same; [exact Hcov|done..|]. cbn. eauto. }
    destruct (_ && _) in Ep.
    { injection Ep as <-. eapply covered_same; [exact Hcov|done..| |cbn; eauto].
      intros _ Ha. unfold accepting in Ha. cbn in Ha.
      by destruct (call s), (broken (mem s)). }
    destruct (maybe_write_locked _ _) as [[m' c']|] eqn:Em in Ep; [|done].
    injection Ep as <-. split; [by eapply maybe_write_drained|].
    cbn. intros d ->. destruct (inv_call s Hi) as (c & Ec & _); [by rewrite Ew|].
    rewrite Ec in Em.
    pose proof (maybe_write_frame _ _ _ _ Em) as (_ & _ & _ & _ & _ & _ & _ & Hs).
    apply maybe_write_order in Em as (d' & [= <-] & ->). cbn. rewrite Hs. by apply Hcov.
  - destruct (release_hold _ _) as [c'|] eqn:Er in E; [|done]. injection E as <-.
    eapply covered_same; [exact Hcov|done..|]. cbn. by apply (release_written _ _ _ Er).
  - destruct (done (mem s)); [|done]. unfold run_once_return in E.
    destruct (destroy (call s)) as [c'|] eqn:Ed; [|done]. injection E as <-.
    eapply covered_same; [exact Hcov|done..|]. cbn. unfold destroy in Ed.
    intros d ->. destruct (call s) as [c|]; [|done]. by destruct (finished c).
  - unfold report in E. destruct (reconnect opts).
    + destruct (backoff_delay _ _); [|done]. cbn in E.
      destruct (checked _ _); [|done]. injection E as <-.
      eapply covered_same; [exact Hcov|done..|]. cbn. eauto.
    + injection E as <-. eapply covered_same; [exact Hcov|done..|]. cbn. eauto.
Qed.

(** A step that changes neither what is written nor what is accepted. *)
#[local] Ltac covered_frame :=
  eapply covered_same; [eassumption|done..|]; cbn; eauto.
#[local] Ltac covered_release E :=
  let Er := fresh "Er" in
  destruct (release_hold _ _) as [?|] eqn:Er in E; [|done]; injection E as <-;
  eapply covered_same; [eassumption|done..|]; cbn; by apply (release_written _ _ _ Er).

Lemma closed_covered s g rd wr :
  Covered s g ->
  Covered (with_writer (with_reader (with_mem s (handle_read_closed (mem s)).1) rd) wr) g.
Proof.
  intros Hcov. eapply covered_same; [exact Hcov|done..| |cbn; eauto].
  intros _ Ha. by rewrite accepting_broken in Ha.
Qed.

Lemma stop_covered s s' g :
  Covered s g -> stop_locked s = Val s' -> Covered s' g.
Proof.
  intros Hcov Es. unfold stop_locked in Es.
  destruct (match ctx _ with Some _ => _ | None => _ end) as [c'|] eqn:Et in Es; [|done].
  injection Es as <-. eapply covered_same; [exact Hcov|done..| |].
  - intros _ Ha. by rewrite accepting_broken in Ha.
  - cbn. intros d ->. destruct (ctx (mem s)); [|injection Et as ->; by exists d].
    unfold TryCancel in Et. destruct (call s) as [c|]; [|done].
    destruct (bool_decide _); [|done]. injection Et as <-. by exists c.
Qed.

Lemma owner_covered s s' g :
  Covered s g -> owner_step s = Val (Some s') -> Covered s' g.
Proof.
  intros Hcov E. unfold owner_step in E. destruct (owner s) as [|rl j|[]]; try done.
  - covered_release E.
  - destruct (worker s); try done. injection E as <-. covered_frame.
  - injection E as <-. covered_frame.
Qed.

Lemma reader_covered s s' g :
  Covered s g -> reader_step deliver on_state s = Val (Some s') -> Covered s' g.
Proof.
  intros Hcov E. unfold reader_step in E. destruct (reader s) as [|r|f r| | |rl]; try done.
  - injection E as <-. covered_frame.
  - injection E as <-. covered_frame.
  - destruct (call s) as [c|] eqn:Ec; [|done].
    destruct (StartRead _ _) as [c'|] eqn:Er in E; [|done]. injection E as <-.
    eapply covered_same; [exact Hcov|done..|]. cbn. intros d ->. exists c.
    split; [done|]. unfold StartRead, live in Er.
    destruct (_ && _); [|done]. destruct (reading c); [done|]. by injection Er as <-.
  - injection E as <-. by apply (closed_covered s g (ReadRelease _) (writer s)).
  - covered_release E.
Qed.

Lemma writer_covered s s' g :
  Covered s g -> Inv s -> writer_step s = Val (Some s') -> Covered s' g.
Proof.
  intros Hcov Hi E. unfold writer_step in E. destruct (writer s) as [| | |rl] eqn:Ewr; try done.
  - destruct (maybe_write_locked _ _) as [[m' c']|] eqn:Em in E; [|done].
    injection E as <-. split; [by eapply maybe_write_drained|].
    cbn. intros d ->.
    destruct (inv_call s Hi) as (c & Ec & _);
      [apply writer_in_session; [done|by rewrite Ewr]|]. rewrite Ec in Em.
    pose proof (maybe_write_frame _ _ _ _ Em) as (_ & _ & _ & _ & _ & _ & _ & Hs).
    apply maybe_write_order in Em as (d' & [= <-] & ->). cbn. rewrite Hs. by apply Hcov.
  - injection E as <-. by apply (closed_covered s g (reader s) (WriteRelease _)).
  - covered_release E.
Qed.

Lemma step_covered l s s' g :
  Covered s g -> Inv s -> step deliver on_state opts l s = Val (Some s') ->
  Covered s' (observe l s g).
Proof.
  intros Hcov Hi E. destruct l as [| |r b| | | | |res|ok|st]; cbn [step] in E.
  - injection E as E. destruct (owner s); try done. injection E as <-. unfold start.
    destruct (joinable s); [done|]. covered_frame.
  - destruct (owner s); try done. destruct (stop_locked s) as [s1|] eqn:Es; [|done].
    injection E as <-. by apply (stop_covered s).
  - destruct (send s r b) eqn:Es; [|done]. injection E as <-. by apply send_covered.
  - by apply (owner_covered s).
  - by apply worker_covered.
  - by apply (reader_covered s).
  - by apply (writer_covered s).
  - injection E as E. unfold read_done in E. destruct (call s) as [c|] eqn:Ec; [|done].
    destruct (reader s); try done. destruct (reading c); [|done]. injection E as <-.
    eapply covered_same; [exact Hcov|done..|]. cbn. intros d [= <-]. by exists c.
  - injection E as E. unfold write_done in E. destruct (call s) as [c|] eqn:Ec; [|done].
    destruct (writer s); try done. destruct (writing c); [|done]. injection E as <-.
    eapply covered_same; [exact Hcov|done..|]. cbn. intros d [= <-]. by exists c.
  - injection E as E. unfold on_done in E. destruct (call s) as [c|] eqn:Ec; [|done].
    destruct (reader s); try done. destruct (writer s); try done.
    destruct (_ && _) in E; [|done]. injection E as <-.
    eapply covered_same; [exact Hcov|done..|done|]. cbn. intros d [= <-]. by exists c.
Qed.

Lemma run_covered trace s g s' g' :
  BackoffRange opts -> 0 <= attempt s ->
  attempt s + Z.of_nat (length trace) <= wmax W32 -> Inv s -> Covered s g ->
  run_observed s g trace = Val (s', g') -> Covered s' g'.
Proof.
  intros Hb. revert s g.
  induction trace as [|l trace IH]; intros s g Ha Hl Hi Hc E; cbn [run_observed length] in *.
  - by injection E as <- <-.
  - destruct (step_ok deliver on_state opts l s Hb ltac:(lia) Hi) as (o & Es & Hs).
    rewrite Es in E. cbn [mbind outcome_bind] in E. destruct o as [s1|].
    + destruct (Hs s1 eq_refl) as [Hi' Hg]. unfold attempt_grows in Hg.
      apply (IH s1 (observe l s g)); [lia|lia|done| |done].
      by apply (step_covered l s s1).
    + by apply (IH s g); [lia|lia|..].
Qed.

(** The observer only watches. *)
Lemma run_observed_run trace s g s' :
  run deliver on_state opts s trace = Val s' ->
  exists g', run_observed s g trace = Val (s', g').
Proof.
  revert s g. induction trace as [|l trace IH]; intros s g E; cbn in *.
  - injection E as <-. by exists g.
  - destruct (step deliver on_state opts l s) as [[s1|]|]; [|by apply IH|done].
    by apply IH.
Qed.
End Coverage.
