(* ===== verification/StreamStopping.v ===== *)
(** * Stopping the market-data stream

    A rank of the states in which [stop] has not returned, lowered by every
    action other than a [send] or the arrival of a message, and progress: an action
    that is bound to come is always enabled. *)

From S2P Require Import Prelude StdStrings ErrorResult StreamCommon MarketData MarketDataStream StreamInvariant.
From stdpp Require Import base numbers list strings gmap.
From Stdlib Require Import ZArith Lia.

#[local] Open Scope Z_scope.

(** ** The stop of the stream terminates *)

Section Stopping.
Context `{GrpcCodes}.
Context {Resp W : Type}.
Context (deliver : Resp -> W -> W).
Context (on_state : option (StreamState -> option Error -> W -> W)).
Context (opts : StreamOptions).
Implicit Types (s q : @Sys Resp W).

(** How much is left to do, at most, for each participant while [stop] runs. *)
Definition worker_rank (w : Worker) : nat :=
  match w with
  | NoThread => 0 | Exited => 1 | Finishing => 2 | Returned _ => 3
  | AwaitingDone => 4 | Releasing => 5 | Publishing => 6 | Starting => 11
  | Entering => 12 | Connecting => 13 | LoopTop => 14 | Sleeping _ => 15
  | Reporting _ => 16
  end.
Definition reader_rank (rd : @Reader Resp) (c : option Call) : nat :=
  match rd with
  | ReaderIdle => match c with Some c => if reading c then 3 else 0 | None => 0 end
  | ReadResponse _ => 6 | ReadNotify _ _ => 5 | ReadRestart => 4
  | ReadClosed => 2 | ReadRelease _ => 1
  end.
Definition writer_rank (wr : Writer) (c : option Call) : nat :=
  match wr with
  | WriterIdle => match c with Some c => if writing c then 3 else 0 | None => 0 end
  | WriteOk => 1 | WriteClosed => 2 | WriteRelease _ => 1
  end.
Definition done_rank (c : option Call) : nat :=
  match c with Some c => if bound c && negb (finished c) then 1 else 0 | None => 0 end.
Definition owner_rank (o : Owner) : nat :=
  match o with OwnerIdle => 0 | StopReleasing _ _ => 2 | StopJoining _ => 1 end.
Definition stop_rank s : nat :=
  worker_rank (worker s) + reader_rank (reader s) (call s)
  + writer_rank (writer s) (call s) + done_rank (call s) + owner_rank (owner s).

Lemma stop_rank_bound s : (stop_rank s <= 28)%nat.
Proof.
  unfold stop_rank.
  assert (worker_rank (worker s) <= 16)%nat by (destruct (worker s); cbn; lia).
  assert (reader_rank (reader s) (call s) <= 6)%nat
    by (destruct (reader s), (call s) as [c|]; cbn; try destruct (reading c); lia).
  assert (writer_rank (writer s) (call s) <= 3)%nat
    by (destruct (writer s), (call s) as [c|]; cbn; try destruct (writing c); lia).
  assert (done_rank (call s) <= 1)%nat
    by (destruct (call s) as [c|]; cbn; try destruct (_ && _); lia).
  assert (owner_rank (owner s) <= 2)%nat by (destruct (owner s); cbn; lia).
  lia.
Qed.

(** A stopped stream writes nothing. *)
Lemma maybe_write_broken m c : broken m = true -> maybe_write_locked m c = Val (m, c).
Proof. intros E. unfold maybe_write_locked. destruct (reactor m); [|done]. by rewrite E. Qed.

Definition is_message (l : @label Resp) : bool :=
  match l with LReadDone (Some _) => true | _ => false end.
Definition is_send (l : @label Resp) : bool :=
  match l with LSend _ _ => true | _ => false end.
Definition is_control (l : @label Resp) : bool :=
  match l with LStart | LStop => true | _ => false end.

(** The calls of the user's threads. *)
Definition is_call (l : @label Resp) : bool :=
  match l with LStart | LStop | LSend _ _ => true | _ => false end.

Definition ranks_kept (c c' : option Call) : Prop :=
  (forall rd, reader_rank rd c' = reader_rank rd c)
  /\ (forall wr, writer_rank wr c' = writer_rank wr c) /\ done_rank c' = done_rank c.

Lemma release_ranks c r c' : release_hold c r = Val c' -> ranks_kept c c'.
Proof.
  destruct r as [n|]; cbn; [|by intros [= <-]].
  unfold RemoveHold, live. destruct c as [c|]; [|done].
  destruct (bool_decide _ && bound c && negb (finished c)) eqn:E; [|done].
  apply andb_prop in E as [E Ef]. apply andb_prop in E as [_ Eb].
  destruct (holds c); [done|]. intros [= <-].
  split_and!; cbn; [by intros []|by intros []|by rewrite Eb, Ef].
Qed.

Lemma owner_step_rank s s' :
  owner_step s = Val (Some s') -> (stop_rank s' < stop_rank s)%nat.
Proof.
  intros E. unfold owner_step in E. destruct (owner s) as [|rl j|[]] eqn:Eo; try done.
  - destruct (release_hold (call s) rl) as [c|] eqn:Er; [|done]. injection E as <-.
    destruct (release_ranks _ _ _ Er) as (E1 & E2 & E3).
    unfold stop_rank. cbn. rewrite E1, E2, E3, Eo. cbn. lia.
  - destruct (worker s) eqn:Ew; try done. injection E as <-.
    unfold stop_rank. cbn. rewrite Ew, Eo. cbn. lia.
  - injection E as <-. unfold stop_rank. cbn. rewrite Eo. cbn. lia.
Qed.

Lemma worker_step_rank s s' :
  Inv s -> stopping (mem s) = true ->
  worker_step on_state opts s = Val (Some s') -> (stop_rank s' < stop_rank s)%nat.
Proof.
  intros Hi Hst E. unfold worker_step in E. pose proof (inv_call s Hi) as Hcall.
  destruct (worker s) as [ | | | | | | | |st|st|d| | ] eqn:Ew; try done;
    rewrite ?Hst in E;
    try (injection E as <-; unfold stop_rank; cbn; rewrite Ew; cbn; lia).
  - unfold run_once_enter in E. rewrite Hst in E. injection E as <-.
    unfold stop_rank. cbn. rewrite Ew. cbn. lia.
  - destruct (Hcall eq_refl) as (c & Ec & Hc).
    pose proof (co_bound _ _ _ _ _ _ Hc) as Hb. cbn in Hb.
    destruct (co_unbound _ _ _ _ _ _ Hc Hb) as (_ & E2 & E3 & E4 & E5 & E6 & _).
    rewrite Ec in E. unfold Begin in E. rewrite Hb in E. injection E as <-.
    unfold stop_rank. cbn. rewrite Ec, Ew, E3, E4, E5, E6. cbn. rewrite Hb. cbn. lia.
  - destruct (Hcall eq_refl) as (c & Ec & Hc). unfold run_once_publish in E.
    rewrite Hst in E. destruct (done (mem s));
      [injection E as <-; unfold stop_rank; cbn; rewrite Ew; cbn; lia|].
    destruct (_ && _) in E; [injection E as <-; unfold stop_rank; cbn; rewrite Ew; cbn; lia|].
    rewrite maybe_write_broken in E by (cbn; by apply (co_stopping _ _ _ _ _ _ Hc)).
    injection E as <-; unfold stop_rank; cbn; rewrite Ew; cbn; lia.
  - destruct (release_hold _ _) as [c|] eqn:Er in E; [|done]. injection E as <-.
    destruct (release_ranks _ _ _ Er) as (E1 & E2 & E3).
    unfold stop_rank. cbn. rewrite E1, E2, E3, Ew. cbn. lia.
  - destruct (done (mem s)) eqn:Ed; [|done].
    destruct (Hcall eq_refl) as (c & Ec & Hc).
    pose proof (co_done _ _ _ _ _ _ Hc) as Hf. rewrite Ed in Hf.
    destruct (co_finished _ _ _ _ _ _ Hc (eq_sym Hf)) as (_ & E2 & E3 & E5 & E6).
    unfold run_once_return in E. destruct (destroy _) as [c'|] eqn:Er in E; [|done].
    unfold destroy in Er. rewrite Ec, <- Hf in Er. injection Er as <-.
    injection E as <-. unfold stop_rank. cbn. rewrite Ew, E5, E6. cbn. lia.
  - unfold report in E. destruct (reconnect opts).
    + destruct (backoff_delay _ _) in E; [|done]. cbn in E.
      destruct (checked _ _) in E; [|done]. injection E as <-.
      unfold stop_rank. cbn. rewrite Ew. cbn. lia.
    + injection E as <-. unfold stop_rank. cbn. rewrite Ew. cbn. lia.
Qed.

Lemma reader_step_rank s s' :
  Inv s -> reader_step deliver on_state s = Val (Some s') -> (stop_rank s' < stop_rank s)%nat.
Proof.
  intros Hi E. unfold reader_step in E.
  destruct (reader_idle_or (reader s)) as [Hr|Hr]; [by rewrite Hr in E|].
  destruct (inv_call s Hi (reader_in_session s Hi Hr)) as (c & Ec & Hc).
  destruct (reader_active _ _ _ _ _ _ Hc Hr) as [Hb Hf].
  destruct (reader s) as [|r|first r| | |rl] eqn:Er; [done| | | | |].
  - injection E as <-. unfold stop_rank. cbn. rewrite Er. cbn. lia.
  - injection E as <-. unfold stop_rank. cbn. rewrite Er. cbn. lia.
  - rewrite Ec in E. unfold StartRead in E. rewrite (live_some _ _ _ _ _ _ Hc Hb Hf) in E.
    destruct (reading c); [done|]. injection E as <-.
    unfold stop_rank. cbn. rewrite Er, Ec. cbn. rewrite Hb, Hf.
    destruct (writer s); cbn; lia.
  - injection E as <-. unfold stop_rank. cbn. rewrite Er. cbn. lia.
  - destruct (release_hold _ _) as [c'|] eqn:Eh in E; [|done]. injection E as <-.
    destruct (release_ranks _ _ _ Eh) as (E1 & E2 & E3).
    unfold stop_rank. cbn [with_reader with_call worker reader writer call owner].
    rewrite E1, E2, E3, Er, Ec. cbn.
    destruct (reading c) eqn:Erd; [|lia]. by pose proof (co_reading _ _ _ _ _ _ Hc Erd).
Qed.

Lemma writer_step_rank s s' :
  Inv s -> stopping (mem s) = true ->
  writer_step s = Val (Some s') -> (stop_rank s' < stop_rank s)%nat.
Proof.
  intros Hi Hst E. unfold writer_step in E.
  destruct (writer_idle_or (writer s)) as [Hr|Hr]; [by rewrite Hr in E|].
  destruct (inv_call s Hi (writer_in_session s Hi Hr)) as (c & Ec & Hc).
  assert (Hnw : writing c = false).
  { destruct (writing c) eqn:Ew; [|done]. by destruct (co_writing _ _ _ _ _ _ Hc Ew). }
  destruct (writer s) as [| | |rl] eqn:Er; [done| | |].
  - rewrite maybe_write_broken in E by (cbn; by apply (co_stopping _ _ _ _ _ _ Hc)).
    injection E as <-. unfold stop_rank. cbn. rewrite Er, Ec, Hnw. cbn. lia.
  - injection E as <-. unfold stop_rank. cbn. rewrite Er. cbn. lia.
  - destruct (release_hold _ _) as [c'|] eqn:Eh in E; [|done]. injection E as <-.
    destruct (release_ranks _ _ _ Eh) as (E1 & E2 & E3).
    unfold stop_rank. cbn [with_writer with_call worker reader writer call owner].
    rewrite E1, E2, E3, Er, Ec. cbn. rewrite Hnw. lia.
Qed.

(** A step of a stopping stream that is neither a [send] nor the arrival of a
    message lowers the rank. *)
Lemma stopping_step l s s' :
  Inv s -> owner s <> OwnerIdle -> step deliver on_state opts l s = Val (Some s') ->
  if is_send l then s' = s
  else if is_message l then (stop_rank s' <= stop_rank s + 3)%nat
  else (stop_rank s' < stop_rank s)%nat.
Proof.
  intros Hi Ho E. destruct (inv_owner _ Hi Ho) as [_ Hst].
  destruct l as [| |r b| | | | |res|ok|st]; cbn [step is_send is_message] in *.
  - destruct (owner s); done.
  - destruct (owner s); done.
  - unfold send in E. rewrite Hst in E. by injection E as <-.
  - by apply owner_step_rank.
  - by apply worker_step_rank.
  - by apply reader_step_rank.
  - by apply writer_step_rank.
  - injection E as E. unfold read_done in E. destruct (call s) as [c|] eqn:Ec; [|done].
    destruct (reader s) eqn:Er; try done. destruct (reading c) eqn:Erd; [|done].
    injection E as <-. unfold stop_rank. cbn. rewrite Er, Ec. cbn. rewrite Erd.
    destruct res, (writer s); cbn; lia.
  - injection E as E. unfold write_done in E. destruct (call s) as [c|] eqn:Ec; [|done].
    destruct (writer s) eqn:Er; try done. destruct (writing c) eqn:Erd; [|done].
    injection E as <-. unfold stop_rank. cbn. rewrite Er, Ec. cbn. rewrite Erd.
    destruct ok, (reader s); cbn; lia.
  - injection E as E. unfold on_done in E. destruct (call s) as [c|] eqn:Ec; [|done].
    destruct (reader s) eqn:Er; try done. destruct (writer s) eqn:Ew; try done.
    destruct (_ && _) eqn:Eg in E; [|done]. injection E as <-.
    unfold stop_rank. cbn. rewrite Er, Ew, Ec. cbn.
    apply andb_prop in Eg as [Eg _]. apply andb_prop in Eg as [Eg _].
    apply andb_prop in Eg as [Eg _]. rewrite Eg. lia.
Qed.

(** [l] can be executed. *)
Definition enabled (l : label) s : Prop :=
  exists s', step deliver on_state opts l s = Val (Some s').

(** The actions that are bound to come: the threads and the running callbacks go on,
    and gRPC ends what is outstanding on a call, and then the call, once the call is
    cancelled.  Nothing else obliges it: a server may leave a stream silent for ever. *)
Definition due (l : @label Resp) s : bool :=
  match l with
  | LOwner | LWorker | LReader | LWriter => true
  | LReadDone None | LWriteDone _ | LDone _ =>
      match call s with Some c => cancelled c | None => false end
  | LStart | LStop | LSend _ _ | LReadDone (Some _) => false
  end.

Lemma enabled_worker s :
  BackoffRange opts -> 0 <= attempt s < wmax W32 -> Inv s ->
  worker s <> NoThread -> worker s <> Exited ->
  (worker s = AwaitingDone -> done (mem s) = true) -> enabled LWorker s.
Proof.
  intros Hb Ha Hi H1 H2 H3.
  destruct (worker_step_ok on_state opts s Hb Ha Hi) as ([s'|] & E & _); [by exists s'|].
  exfalso. unfold worker_step in E.
  destruct (worker s) eqn:Ew; try done.
  - by destruct (Begin _).
  - by destruct (run_once_publish s).
  - by destruct (release_hold _ _).
  - rewrite (H3 eq_refl) in E. by destruct (run_once_return s).
  - by destruct (report _ _ _ _).
Qed.

(** A call of a stopping stream that is not finished ends, being cancelled. *)
Lemma call_progress s :
  Inv s -> worker s = AwaitingDone -> stopping (mem s) = true -> done (mem s) = false ->
  owner_release (owner s) = None ->
  exists l, due l s = true /\ enabled l s.
Proof.
  intros Hi Hw Hst Hd Ho.
  destruct (inv_call s Hi) as (c & Ec & Hc); [by rewrite Hw|]. rewrite Hw in Hc.
  pose proof (co_cancelled _ _ _ _ _ _ Hc Hst) as Hcan.
  destruct (reader_idle_or (reader s)) as [Hr|Hr].
  2:{ exists LReader. split; [done|].
      destruct (reader_step_ok deliver on_state s Hi) as ([s'|] & E & _); [by exists s'|].
      exfalso. unfold reader_step in E. destruct (reader s); try done.
      - destruct (call s); [|done]. by destruct (StartRead _ _).
      - by destruct (release_hold _ _). }
  destruct (writer_idle_or (writer s)) as [Hwr|Hwr].
  2:{ exists LWriter. split; [done|].
      destruct (writer_step_ok s Hi) as ([s'|] & E & _); [by exists s'|].
      exfalso. unfold writer_step in E. destruct (writer s); try done.
      - by destruct (maybe_write_locked _ _) as [[]|].
      - by destruct (release_hold _ _). }
  destruct (reading c) eqn:Erd.
  { exists (LReadDone None). split; [by cbn; rewrite Ec|]. eexists. cbn. unfold read_done.
    by rewrite Ec, Hr, Erd. }
  destruct (writing c) eqn:Ewr.
  { exists (LWriteDone false). split; [by cbn; rewrite Ec|]. eexists. cbn. unfold write_done.
    by rewrite Ec, Hwr, Ewr. }
  exists (LDone (MkStatus CANCELLED "")). split; [by cbn; rewrite Ec|]. eexists. cbn. unfold on_done.
  rewrite Ec, Hr, Hwr, Erd, Ewr. pose proof (co_done _ _ _ _ _ _ Hc) as Hf.
  rewrite Hd in Hf. pose proof (co_bound _ _ _ _ _ _ Hc) as Hb. cbn in Hb.
  pose proof (co_released _ _ _ _ _ _ Hc
    (co_stopping _ _ _ _ _ _ Hc Hst) eq_refl (eq_sym Hf)) as Hh.
  pose proof (co_holds _ _ _ _ _ _ Hc Hb) as Hn. rewrite Hh, Hr, Hwr in Hn.
  unfold pending in Hn. rewrite Ho in Hn. cbn in Hn.
  by rewrite Hb, <- Hf, bool_decide_true.
Qed.

(** While [stop] has not returned, something is due. *)
Lemma stop_progress s :
  BackoffRange opts -> 0 <= attempt s < wmax W32 -> Inv s -> owner s <> OwnerIdle ->
  exists l, due l s = true /\ enabled l s.
Proof.
  intros Hb Ha Hi Ho. destruct (inv_owner _ Hi Ho) as [Hj Hst].
  pose proof (inv_thread _ Hi) as Ht. rewrite Hj in Ht.
  destruct (owner s) as [|rl j|j] eqn:Eo; [done| |].
  - exists LOwner. split; [done|].
    destruct (owner_step_ok s Hi) as ([s'|] & E & _); [by exists s'|].
    exfalso. unfold owner_step in E. rewrite Eo in E. by destruct (release_hold _ _).
  - destruct j.
    2:{ exists LOwner. split; [done|]. unfold enabled. cbn. unfold owner_step.
        rewrite Eo. by eexists. }
    cbn in Ht. destruct (worker s) eqn:Ew; try done.
    all: try (exists LWorker; split; [done|]; apply enabled_worker;
      try done; rewrite Ew; done).
    + destruct (done (mem s)) eqn:Ed.
      * exists LWorker. split; [done|]. apply enabled_worker; rewrite ?Ew; done.
      * apply call_progress; try done. by rewrite Eo.
    + exists LOwner. split; [done|]. unfold enabled. cbn. unfold owner_step.
      rewrite Eo, Ew. by eexists.
Qed.

(** The enabled steps of a run that are not [send]s, and the messages among them. *)
Fixpoint moves s (trace : list (@label Resp)) : nat :=
  match trace with
  | [] => 0
  | l :: trace' =>
      match step deliver on_state opts l s with
      | Val (Some s') => (if is_send l then 0 else 1) + moves s' trace'
      | _ => moves s trace'
      end
  end.

Definition messages (trace : list (@label Resp)) : nat :=
  length (filter (fun l => is_message l = true) trace).

(** The labels of the worker, the senders and gRPC. *)
Definition is_owner (l : @label Resp) : bool :=
  match l with LStart | LStop | LOwner => true | _ => false end.

Lemma with_owner_twice q o o' : with_owner (with_owner q o) o' = with_owner q o'.
Proof. done. Qed.
Lemma with_owner_same q : with_owner q (owner q) = q.
Proof. by destruct q. Qed.

(** The other threads neither read nor change the position of [stop]. *)
Lemma step_owner l q o :
  is_owner l = false ->
  step deliver on_state opts l (with_owner q o)
  = (r ← step deliver on_state opts l q; mret (fmap (M := option) (fun q' => with_owner q' o) r)).
Proof.
  destruct l as [| |r b| | | | |res|ok|st]; intros Hl; try done; cbn [step].
  - unfold send. cbn. destruct (stopping (mem q)); [done|].
    destruct (track _ _ _); [|done]. cbn. case_match; [|done].
    by destruct (maybe_write_locked _ _) as [[]|].
  - unfold worker_step. cbn. destruct (worker q); cbn; try done; try by case_match.
    + unfold run_once_enter. cbn. by destruct (stopping _).
    + by destruct (Begin _).
    + unfold run_once_publish. cbn. destruct (done _); [done|].
      destruct (_ && _); [done|]. by destruct (maybe_write_locked _ _) as [[]|].
    + destruct (session <$> call q) as [n|]; [|done]. cbn. by destruct (RemoveHold (call q) n).
    + destruct (done _); [|done]. unfold run_once_return. cbn. by destruct (destroy _).
    + unfold report. cbn. destruct (reconnect opts); [|done].
      destruct (backoff_delay _ _); [|done]. cbn. by destruct (checked _ _).
  - unfold reader_step. cbn. destruct (reader q) as [|r|f r| | |rl]; cbn; try done.
    + destruct (call q); [|done]. by destruct (StartRead _ _).
    + by destruct (release_hold _ _).
  - unfold writer_step. cbn. destruct (writer q) as [| | |rl]; cbn; try done.
    + by destruct (maybe_write_locked _ _) as [[]|].
    + by destruct (release_hold _ _).
  - unfold read_done. cbn. destruct (call q), (reader q); try done. by destruct (reading _).
  - unfold write_done. cbn. destruct (call q), (writer q); try done. by destruct (writing _).
  - unfold on_done. cbn. destruct (call q), (reader q), (writer q); try done.
    by destruct (_ && _).
Qed.

Lemma step_keeps_owner l q q' :
  is_owner l = false -> step deliver on_state opts l q = Val (Some q') -> owner q' = owner q.
Proof.
  intros Hl E. pose proof (step_owner l q (owner q) Hl) as Hc.
  rewrite with_owner_same, E in Hc. injection Hc as Hc. by rewrite Hc.
Qed.

Lemma owner_stays_idle l s s' :
  owner s = OwnerIdle -> is_control l = false ->
  step deliver on_state opts l s = Val (Some s') -> owner s' = OwnerIdle.
Proof.
  intros Ho Hl E. destruct (is_owner l) eqn:El.
  - destruct l; try done. cbn in E. unfold owner_step in E. by rewrite Ho in E.
  - by rewrite (step_keeps_owner l s s').
Qed.

Lemma run_stays_idle trace s s' :
  owner s = OwnerIdle -> Forall (fun l => is_control l = false) trace ->
  run deliver on_state opts s trace = Val s' -> owner s' = OwnerIdle.
Proof.
  intros Ho Ht. revert s Ho. induction Ht as [|l trace Hl Ht IH]; intros s Ho E; cbn in E.
  - by injection E as <-.
  - destruct (step deliver on_state opts l s) as [[s1|]|] eqn:Es; [| |done].
    + apply (IH s1); [by eapply owner_stays_idle|done].
    + by apply (IH s).
Qed.

Lemma stream_run_app q tr1 tr2 q1 :
  run deliver on_state opts q tr1 = Val q1 -> run deliver on_state opts q (tr1 ++ tr2) = run deliver on_state opts q1 tr2.
Proof.
  revert q. induction tr1 as [|l tr1 IH]; intros q E; cbn in *; [by injection E as ->|].
  destruct (step deliver on_state opts l q) as [o|]; [|done]. cbn in *. by apply IH.
Qed.

Lemma owner_idle_or (o : Owner) : o = OwnerIdle \/ o <> OwnerIdle.
Proof. destruct o; by (left + right). Qed.

Lemma stopping_moves trace s s' :
  BackoffRange opts -> 0 <= attempt s ->
  attempt s + Z.of_nat (length trace) <= wmax W32 -> Inv s -> owner s <> OwnerIdle ->
  Forall (fun l => is_control l = false) trace ->
  run deliver on_state opts s trace = Val s' -> owner s' <> OwnerIdle ->
  (moves s trace <= stop_rank s + 4 * messages trace)%nat.
Proof.
  intros Hb. revert s.
  induction trace as [|l trace IH]; intros s Ha Hl Hi Ho Hc E Ho'; cbn [moves]; [lia|].
  apply Forall_cons in Hc as [Hcl Hc]. cbn [run] in E. cbn [length] in Hl.
  destruct (step_ok deliver on_state opts l s Hb ltac:(lia) Hi) as (o & Es & Hs).
  rewrite Es in E |- *. cbn [mbind outcome_bind] in E.
  assert (Em : messages (l :: trace)
               = ((if is_message l then 1 else 0) + messages trace)%nat).
  { unfold messages. rewrite filter_cons. by destruct (is_message l). }
  destruct o as [s1|].
  - destruct (Hs s1 eq_refl) as [Hi1 Hg]. unfold attempt_grows in Hg.
    destruct (owner_idle_or (owner s1)) as [Hid|Hno].
    { by rewrite (run_stays_idle trace s1 s' Hid Hc E) in Ho'. }
    pose proof (IH s1 ltac:(lia) ltac:(lia) Hi1 Hno Hc E Ho').
    pose proof (stopping_step l s s1 Hi Ho Es) as Hr.
    rewrite Em. destruct (is_send l) eqn:Esd; [subst s1; destruct (is_message l); lia|].
    destruct (is_message l); lia.
  - pose proof (IH s ltac:(lia) ltac:(lia) Hi Ho Hc E Ho'). rewrite Em. lia.
Qed.

(** Every action of the run is due, and enabled, when its turn comes. *)
Fixpoint all_due s (trace : list (@label Resp)) : bool :=
  match trace with
  | [] => true
  | l :: trace' =>
      due l s && match step deliver on_state opts l s with
                 | Val (Some s') => all_due s' trace'
                 | _ => false
                 end
  end.

Lemma due_lowers l s s' :
  Inv s -> owner s <> OwnerIdle -> due l s = true ->
  step deliver on_state opts l s = Val (Some s') -> (stop_rank s' < stop_rank s)%nat.
Proof.
  intros Hi Ho Hd E. pose proof (stopping_step l s s' Hi Ho E) as Hr.
  by destruct l as [| | | | | | |[]| |].
Qed.

(** Doing what is due, in whatever order it comes, [stop] returns. *)
Lemma stop_finishes n s :
  BackoffRange opts -> 0 <= attempt s -> attempt s + Z.of_nat n < wmax W32 ->
  Inv s -> (stop_rank s <= n)%nat -> owner s <> OwnerIdle ->
  exists rest s', all_due s rest = true /\ run deliver on_state opts s rest = Val s'
    /\ owner s' = OwnerIdle /\ (length rest <= n)%nat.
Proof.
  intros Hb. revert s. induction n as [|n IH]; intros s Ha Hl Hi Hr Ho.
  { unfold stop_rank, owner_rank in Hr. destruct (owner s); [done|lia..]. }
  destruct (stop_progress s Hb ltac:(lia) Hi Ho) as (l & Hd & s1 & E).
  pose proof (due_lowers l s s1 Hi Ho Hd E) as Hlow.
  destruct (step_ok deliver on_state opts l s Hb ltac:(lia) Hi) as (o & E' & Hs).
  rewrite E in E'. injection E' as <-. destruct (Hs s1 eq_refl) as [Hi1 Hg].
  unfold attempt_grows in Hg. destruct (owner_idle_or (owner s1)) as [Ho1|Ho1].
  - exists [l], s1. cbn [all_due run length]. rewrite Hd, E. split_and!; [done..|lia].
  - destruct (IH s1 ltac:(lia) ltac:(lia) Hi1 ltac:(lia) Ho1)
      as (rest & s' & H1 & H2 & H3 & H4).
    exists (l :: rest), s'. cbn [all_due run length]. rewrite Hd, E. split_and!; [done..|lia].
Qed.

(** ** A callback of the reader that does not return *)

Definition is_reader (l : @label Resp) : bool :=
  match l with LReader => true | _ => false end.

(** What a step leaves as it was. *)
Lemma step_frame l s s' :
  step deliver on_state opts l s = Val (Some s') ->
  (is_control l = false -> joinable s' = joinable s)
  /\ (is_reader l = false -> reader s <> ReaderIdle -> reader s' = reader s).
Proof.
  intros E. destruct l; cbn [step] in E; unfold_step E;
    unfold start, owner_step, stop_locked, send in E; step_cases E; injection E as <-;
    split; intros; cbn in *; congruence.
Qed.

Lemma stop_locked_fields s s' :
  stop_locked s = Val s' ->
  exists rl, owner s' = StopReleasing rl (joinable s) /\ worker s' = worker s
    /\ reader s' = reader s /\ attempt s' = attempt s.
Proof.
  unfold stop_locked. intros E.
  destruct (match ctx (mem s) with Some n => TryCancel (call s) n | None => mret (call s) end);
    [|done]. injection E as <-. by eexists.
Qed.

(** While the reader is inside a callback, the call cannot finish, the worker cannot
    leave it, and a [stop] that holds the worker cannot return. *)
Lemma held_step l s s' :
  Inv s -> reader s <> ReaderIdle -> joins (owner s) = true ->
  step deliver on_state opts l s = Val (Some s') -> joins (owner s') = true.
Proof.
  intros Hi Hr Hj E. destruct (is_control l) eqn:Hl.
  { destruct l; try done; cbn [step] in E; by destruct (owner s). }
  destruct (is_owner l) eqn:El; [|by rewrite (step_keeps_owner l s s')].
  assert (l = LOwner) as -> by by destruct l.
  cbn in E.
  unfold owner_step in E. pose proof (reader_in_session s Hi Hr) as Hw.
  destruct (owner s) as [|rl j|[]]; try done.
  - destruct (release_hold _ _); [|done]. by injection E as <-.
  - by destruct (worker s).
Qed.

Lemma held_run trace s s' :
  BackoffRange opts -> 0 <= attempt s ->
  attempt s + Z.of_nat (length trace) <= wmax W32 -> Inv s ->
  reader s <> ReaderIdle -> joins (owner s) = true ->
  Forall (fun l => is_reader l = false) trace ->
  run deliver on_state opts s trace = Val s' ->
  reader s' = reader s /\ joins (owner s') = true.
Proof.
  intros Hb. revert s.
  induction trace as [|l trace IH]; intros s Ha Hl Hi Hr Hj Hf E; cbn [run length] in *.
  { by injection E as <-. }
  apply Forall_cons in Hf as [Hfl Hf].
  destruct (step_ok deliver on_state opts l s Hb ltac:(lia) Hi) as (o & Es & Hs).
  rewrite Es in E. cbn [mbind outcome_bind] in E. destruct o as [s1|].
  - destruct (Hs s1 eq_refl) as [Hi1 Hg]. unfold attempt_grows in Hg.
    pose proof (proj2 (step_frame l s s1 Es) Hfl Hr) as Hr1.
    pose proof (held_step l s s1 Hi Hr Hj Es) as Hj1. rewrite <- Hr1.
    apply IH; try done; try lia. by rewrite Hr1.
  - apply IH; try done; lia.
Qed.

(** ** A stream that is stopped *)

Definition is_start (l : @label Resp) : bool :=
  match l with LStart => true | _ => false end.

(** No thread, no caller inside [stop]: only the callers can move, and no callback
    is running. *)
Definition Quiet s : Prop :=
  worker s = NoThread /\ reader s = ReaderIdle /\ writer s = WriterIdle
  /\ call s = None.

Lemma no_thread_quiet s : Inv s -> worker s = NoThread -> Quiet s.
Proof. intros Hi Hw. destruct (inv_idle s Hi) as [? _ _ ? ? _]; [by rewrite Hw|]. by split_and!. Qed.

Lemma quiet_step l s s' :
  is_start l = false -> Quiet s -> step deliver on_state opts l s = Val (Some s') ->
  Quiet s' /\ world s' = world s.
Proof.
  intros Hl (Hw & Hr & Hwr & Hc) E. unfold Quiet.
  destruct l as [| |r b| | | | |res|ok|st]; try done; cbn [step] in E.
  - destruct (owner s); try done. unfold stop_locked in E. rewrite Hc in E.
    destruct (ctx (mem s)); [done|]. by injection E as <-.
  - unfold send in E. rewrite Hc in E. destruct (stopping _); [by injection E as <-|].
    destruct (track _ _ _) in E; [|done]. cbn in E. case_match; [|by injection E as <-].
    destruct (maybe_write_locked _ _) as [[m c]|] eqn:Em in E; [|done]. injection E as <-.
    unfold maybe_write_locked in Em. cbn in Em.
    repeat (case_match; try done); by injection Em as <- <-.
  - unfold owner_step in E. rewrite Hw, Hc in E. destruct (owner s) as [|[n|] j|[]]; try done;
      by injection E as <-.
  - unfold worker_step in E. by rewrite Hw in E.
  - unfold reader_step in E. by rewrite Hr in E.
  - unfold writer_step in E. by rewrite Hwr in E.
  - unfold read_done in E. by rewrite Hc in E.
  - unfold write_done in E. by rewrite Hc in E.
  - unfold on_done in E. by rewrite Hc in E.
Qed.

(** What is left for others to do in a quiet stream: nothing. *)
Lemma quiet_disabled l s :
  Quiet s -> is_owner l = false -> is_send l = false ->
  step deliver on_state opts l s = Val None.
Proof.
  intros (Hw & Hr & Hwr & Hc) Ho Hs.
  destruct l as [| |r b| | | | |res|ok|st]; try done; cbn [step].
  - unfold worker_step. by rewrite Hw.
  - unfold reader_step. by rewrite Hr.
  - unfold writer_step. by rewrite Hwr.
  - unfold read_done. by rewrite Hc.
  - unfold write_done. by rewrite Hc.
  - unfold on_done. by rewrite Hc.
Qed.

Lemma step_not_joinable l s s' :
  is_start l = false -> step deliver on_state opts l s = Val (Some s') ->
  joinable s = false -> joinable s' = false.
Proof.
  intros Hl E Hj. destruct (is_control l) eqn:Ec.
  - destruct l; try done. cbn [step] in E. destruct (owner s); try done.
    unfold stop_locked in E.
    destruct (match ctx (mem s) with Some n => TryCancel (call s) n | None => mret (call s) end);
      [|done]. by injection E as <-.
  - by rewrite (proj1 (step_frame l s s' E) Ec).
Qed.

Lemma run_not_joinable trace s s' :
  Forall (fun l => is_start l = false) trace ->
  run deliver on_state opts s trace = Val s' -> joinable s = false -> joinable s' = false.
Proof.
  intros Hf. revert s. induction Hf as [|l trace Hl Hf IH]; intros s E Hj; cbn [run] in E.
  { by injection E as <-. }
  destruct (step deliver on_state opts l s) as [[s1|]|] eqn:Es; [| |done].
  - eapply (IH s1); [done|]. by eapply step_not_joinable.
  - by apply (IH s).
Qed.

(** Executed or not, a call of [stop] finds or leaves no thread in the object. *)
Lemma stop_not_joinable trace s s' :
  Inv s -> Forall (fun l => is_start l = false) trace ->
  run deliver on_state opts s (LStop :: trace) = Val s' -> joinable s' = false.
Proof.
  intros Hi Hf E. cbn [run step] in E. destruct (owner_idle_or (owner s)) as [Ho|Ho].
  - rewrite Ho in E. destruct (stop_locked s) as [s1|] eqn:E1; [|done].
    apply (run_not_joinable trace s1 s' Hf); [exact E|]. unfold stop_locked in E1.
    destruct (match ctx (mem s) with Some n => TryCancel (call s) n | None => mret (call s) end);
      [|done]. by injection E1 as <-.
  - destruct (inv_owner _ Hi Ho) as [Hj _]. apply (run_not_joinable trace s s' Hf); [|done].
    destruct (owner s); done.
Qed.

Lemma quiet_run trace s s' :
  Forall (fun l => is_start l = false) trace -> Quiet s ->
  run deliver on_state opts s trace = Val s' -> Quiet s' /\ world s' = world s.
Proof.
  intros Hf. revert s. induction Hf as [|l trace Hl Hf IH]; intros s Hq E; cbn [run] in E.
  { by injection E as <-. }
  destruct (step deliver on_state opts l s) as [[s1|]|] eqn:Es; [| |done].
  - destruct (quiet_step l s s1 Hl Hq Es) as [Hq1 Ew1].
    destruct (IH s1 Hq1 E) as [Hq' Ew']. split; [done|congruence].
  - by apply IH.
Qed.
End Stopping.
