(* ===== verification/StreamTheorems.v ===== *)
(** * The theorems about the market-data stream, and concrete runs of it *)

From S2P Require Import Prelude StdStrings ErrorResult StreamCommon MarketData MarketDataStream StreamInvariant StreamHistory StreamStopping.
From stdpp Require Import base numbers list strings gmap.
From Stdlib Require Import ZArith Lia.

#[local] Open Scope Z_scope.

(** ** Properties *)

Section Properties.
Context `{GrpcCodes}.
Context {Resp W : Type}.
Implicit Types (deliver : Resp -> W -> W)
  (on_state : option (StreamState -> option Error -> W -> W)).

(** The initial state and the invariant, packaged for the theorems below. *)
Lemma reachable deliver on_state opts w trace :
  BackoffRange opts -> Z.of_nat (length trace) <= wmax W32 ->
  exists s, run deliver on_state opts (init w) trace = Val s /\ Inv s
    /\ 0 <= attempt s <= Z.of_nat (length trace).
Proof.
  intros Hb Hl. apply (run_ok deliver on_state opts trace (init w)); done.
Qed.

(** C8. Whatever the callers, the worker and gRPC do, in any interleaving of fewer
    than 2^31 actions, the stream keeps gRPC's contract: it never starts a write
    while another is outstanding, before the call is started or after it is done,
    never starts a second read, removes the hold at most once and only while it is
    held, cancels only a live context, and destroys a reactor only after [OnDone];
    a published [reactor_] always points to the live call and [ctx_] to its
    context.  (Each violation is [UB] in the model.) *)
Theorem stream_keeps_contract deliver on_state opts w trace :
  BackoffRange opts -> Z.of_nat (length trace) <= wmax W32 ->
  exists s, run deliver on_state opts (init w) trace = Val s
  /\ (forall n, reactor (mem s) = Some n -> exists c, live (call s) n = Some c)
  /\ (forall n, ctx (mem s) = Some n -> exists c, call s = Some c /\ session c = n).
Proof.
  intros Hb Hl. destruct (reachable deliver on_state opts w trace Hb Hl)
    as (s & E & Hi & _). exists s. split; [done|].
  destruct (in_session (worker s)) eqn:Ew.
  - destruct (inv_call s Hi Ew) as (c & Ec & Hc). split.
    + intros n Hn. rewrite (co_reactor _ _ _ _ _ _ Hc) in Hn.
      destruct (finished c) eqn:Ef; [done|]. destruct (published _) eqn:Ep; [|done].
      injection Hn as <-. exists c. rewrite Ec. apply (live_some _ _ _ _ _ _ Hc); [|done].
      by apply (published_bound _ _ _ _ _ _ Hc).
    + intros n Hn. rewrite (co_ctx _ _ _ _ _ _ Hc) in Hn. exists c. by simplify_eq.
  - destruct (inv_idle s Hi Ew) as [_ E1 E2 _ _ _]. rewrite E1, E2. by split.
Qed.

(** C10. [stop] returns.  From any reachable state in which a call of [stop] has
    not returned yet, an enabled action is always due: a step of [stop], of the worker
    or of a running callback, or the end of an operation of the call, which gRPC owes
    only once the call is cancelled - so [stop] does not depend on the server sending
    anything or closing the stream.  Doing what is due ends [stop] within 28 actions;
    and whatever is done, at most 28 enabled actions other than [send]s, plus four for
    each message that gRPC still delivers, can come before it returns. *)
Theorem stop_returns deliver on_state opts w trace rest s s' :
  BackoffRange opts -> Z.of_nat (length (trace ++ rest)) + 28 < wmax W32 ->
  run deliver on_state opts (init w) trace = Val s -> owner s <> OwnerIdle ->
  (exists l, due l s = true /\ enabled deliver on_state opts l s)
  /\ (exists last s1, all_due deliver on_state opts s last = true
        /\ run deliver on_state opts s last = Val s1 /\ owner s1 = OwnerIdle
        /\ (length last <= 28)%nat)
  /\ (Forall (fun l => is_control l = false) rest ->
      run deliver on_state opts s rest = Val s' -> owner s' <> OwnerIdle ->
      (moves deliver on_state opts s rest <= 28 + 4 * messages rest)%nat).
Proof.
  intros Hb Hl E Ho. rewrite length_app in Hl.
  destruct (reachable deliver on_state opts w trace Hb) as (s0 & E0 & Hi & Ha); [lia|].
  assert (s0 = s) as -> by congruence. pose proof (stop_rank_bound s). split_and!.
  - apply stop_progress; try done. lia.
  - apply stop_finishes; try done; lia.
  - intros Hc Er Ho'.
    pose proof (stopping_moves deliver on_state opts rest s s' Hb ltac:(lia) ltac:(lia)
      Hi Ho Hc Er Ho'). lia.
Qed.

(** C9. What the server is asked for.  In every session, the requests written so
    far followed by those still queued are, in order, the replayed registry and
    then the requests sent while the stream accepted them: none is lost,
    duplicated or reordered; unless a request was sent while the session did not
    accept any, interpreting them as the registry does gives exactly the
    registry; and an accepting stream with no write in flight has an empty queue,
    so all of them have been written. *)
Theorem session_covers_registry deliver on_state opts w trace :
  BackoffRange opts -> Z.of_nat (length trace) <= wmax W32 ->
  exists s g, run deliver on_state opts (init w) trace = Val s
  /\ run_observed deliver on_state opts (init w) (MkObserver [] false) trace = Val (s, g)
  /\ forall c, call s = Some c ->
       written c ++ write_queue (mem s) = (script g).*2
       /\ (missed g = false -> track_all ∅ (script g) = Val (subscriptions (mem s)))
       /\ (accepting (mem s) = true -> write_in_flight (mem s) = false ->
           written c = (script g).*2).
Proof.
  intros Hb Hl. destruct (reachable deliver on_state opts w trace Hb Hl)
    as (s & E & Hi & _).
  destruct (run_observed_run deliver on_state opts trace (init w) (MkObserver [] false) s E)
    as (g & Eg).
  assert (Hcov : Covered s g).
  { eapply (run_covered deliver on_state opts trace (init w)); [done|done|exact Hl| | |exact Eg].
    - apply init_inv.
    - by split. }
  destruct Hcov as [Hd Hc].
  exists s, g. split_and!; [done|done|]. intros c Ec. destruct (Hc c Ec) as [Hq Hr].
  split_and!; [done|done|]. intros Ha Hw.
  by rewrite (Hd Ha Hw), app_nil_r in Hq.
Qed.

(** C16. [stop] must not be called from a message handler.  A handler runs between
    two steps of gRPC's reader; when it calls [stop], the reader makes no step until
    the call returns.  From every reachable state with a handler running, such a
    [stop] has defined behaviour and never returns, whatever the worker, gRPC's other
    callbacks and the other callers do: the call cannot finish while the handler
    runs, and the worker that [stop] joins waits for the call. *)
Theorem stop_in_handler_never_returns deliver on_state opts w trace rest s first r :
  BackoffRange opts -> Z.of_nat (length (trace ++ LStop :: rest)) <= wmax W32 ->
  run deliver on_state opts (init w) trace = Val s ->
  owner s = OwnerIdle -> reader s = ReadNotify first r ->
  Forall (fun l => is_reader l = false) rest ->
  exists s', run deliver on_state opts s (LStop :: rest) = Val s'
    /\ owner s' <> OwnerIdle /\ reader s' = ReadNotify first r.
Proof.
  intros Hb Hl E Ho Hr Hf. rewrite length_app in Hl. cbn [length] in Hl.
  destruct (reachable deliver on_state opts w trace Hb) as (s0 & E0 & Hi & Ha); [lia|].
  assert (s0 = s) as -> by congruence.
  destruct (stop_locked_ok s Hi Ho) as (s1 & E1 & Hi1).
  destruct (stop_locked_fields s s1 E1) as (rl & Ho1 & _ & Hr1 & Ha1).
  assert (Hj : joinable s = true).
  { pose proof (reader_in_session s Hi ltac:(by rewrite Hr)) as Hw.
    pose proof (inv_thread _ Hi) as Ht. rewrite Ho, orb_false_r in Ht. rewrite Ht.
    by destruct (worker s). }
  cbn [run step]. rewrite Ho, E1. cbn [mbind outcome_bind mret outcome_ret].
  destruct (run_ok deliver on_state opts rest s1 Hb) as (s' & E' & _); [lia|lia|done|].
  exists s'. split; [done|].
  destruct (held_run deliver on_state opts rest s1 s') as [Hr' Hj']; try done; try lia.
  - by rewrite Hr1, Hr.
  - by rewrite Ho1.
  - split; [|by rewrite Hr', Hr1]. intros Ho'. by rewrite Ho' in Hj'.
Qed.

(** After a [stop] that is not followed by a [start], once no [stop] is under way. *)
Lemma stopped_quiet deliver on_state opts w before during s :
  BackoffRange opts -> Z.of_nat (length (before ++ LStop :: during)) <= wmax W32 ->
  run deliver on_state opts (init w) (before ++ LStop :: during) = Val s ->
  owner s = OwnerIdle -> Forall (fun l => is_start l = false) during ->
  Quiet s /\ Inv s /\ 0 <= attempt s <= Z.of_nat (length (before ++ LStop :: during)).
Proof.
  intros Hb Hl E Ho Hd.
  destruct (reachable deliver on_state opts w before Hb) as (s0 & E0 & Hi0 & _);
    [rewrite length_app in Hl; cbn [length] in Hl; lia|].
  destruct (reachable deliver on_state opts w (before ++ LStop :: during) Hb Hl)
    as (s1 & E1 & Hi & Ha). assert (s1 = s) as -> by congruence.
  split; [|by split]. rewrite (stream_run_app deliver on_state opts _ _ _ _ E0) in E.
  pose proof (stop_not_joinable deliver on_state opts during s0 s Hi0 Hd E) as Hj.
  apply no_thread_quiet; [done|].
  pose proof (inv_thread _ Hi) as Ht. rewrite Ho, Hj in Ht. by destruct (worker s).
Qed.

(** C15. After [stop] has returned nobody uses the stream.  Take any execution in which
    [stop] is called, [start] is not called after it, and every call of [stop] has
    returned - so also the end of the destructor, which calls [stop].  The call and
    its reactor are destroyed, no handler is running, the worker thread and gRPC
    have no action left, and whatever the callers do next short of a [start] has
    defined behaviour and never touches the user's state. *)
Theorem no_callback_after_stop deliver on_state opts w before during rest s :
  BackoffRange opts ->
  Z.of_nat (length (before ++ (LStop :: during) ++ rest)) <= wmax W32 ->
  run deliver on_state opts (init w) (before ++ LStop :: during) = Val s ->
  owner s = OwnerIdle -> Forall (fun l => is_start l = false) (during ++ rest) ->
  call s = None /\ reader s = ReaderIdle /\ writer s = WriterIdle
  /\ exists s', run deliver on_state opts s rest = Val s' /\ world s' = world s
       /\ forall l, is_owner l = false -> is_send l = false ->
            step deliver on_state opts l s' = Val None.
Proof.
  intros Hb Hl E Ho [Hd Hf]%Forall_app. rewrite !app_assoc, length_app in Hl.
  destruct (stopped_quiet deliver on_state opts w before during s Hb) as (Hq & Hi & Ha);
    [lia|done..|].
  destruct (run_ok deliver on_state opts rest s Hb) as (s' & E' & _); [lia|lia|done|].
  destruct (quiet_run deliver on_state opts rest s s' Hf Hq E') as [Hq' Ew].
  destruct Hq as (_ & Hr & Hwr & Hc). split_and!; try done. exists s'.
  split_and!; try done. intros l. by apply quiet_disabled.
Qed.
End Properties.

Section Order.
Context `{GrpcCodes}.
Context {Resp : Type}.

(** C11. What the user's callbacks observe, in any interleaving of fewer than 2^31
    actions: [connecting] opens every attempt; [connected] comes at most once in
    an attempt, before its first message; messages arrive only between
    [connected] and the end of the attempt; [disconnected] carries an error and
    ends an attempt; [stopped] carries none, and after it nothing comes until
    [start] is called again. *)
Theorem notifications_follow_protocol (opts : StreamOptions) (trace : list (@label Resp)) :
  BackoffRange opts -> Z.of_nat (length trace) <= wmax W32 ->
  exists s p, run log_data (Some log_state) opts (init []) trace = Val s
    /\ follows (world s) = Some p
    /\ (worker s = NoThread \/ worker s = Exited -> p = Idle).
Proof.
  intros Hb Hl. destruct (reachable log_data (Some log_state) opts [] trace Hb Hl)
    as (s & E & Hi & _).
  assert (Ho : LogOk s).
  { apply (run_log opts trace (init []) s); try done.
    by exists Idle. }
  destruct Ho as (p & Hf & Hp). exists s, p. split_and!; [done..|].
  by intros [Ew|Ew]; rewrite Ew in Hp.
Qed.
End Order.

(** ** Concrete runs *)

Section Witnesses.
#[local] Abbreviation go := (run (Resp := nat) log_data (Some log_state)
  default_stream_options (init [])).

(** The stream is started, connects, receives a message, breaks and is stopped. *)
Definition sample_trace : list (@label nat) :=
  [LSend (subscribe_trades ["a"%string] false) true; LStart; LWorker; LWorker; LWorker;
   LWorker; LWorker; LReadDone (Some 7%nat); LReader; LReader; LReader; LWriteDone true;
   LWriter; LReadDone None; LReader; LReader; LDone (MkStatus 14 "gone"); LWorker;
   LWorker; LWorker; LStop; LOwner; LWorker; LWorker; LOwner].

Example sample_run :
  (s ← go sample_trace; mret (world s, owner s, joinable s, worker s, call s)) = Val
  ([Notified connecting None; Notified connected None; Delivered 7%nat;
    Notified disconnected (Some (MkError 14 "gone" "" "" no_ratelimit));
    Notified stopped None], OwnerIdle, false, NoThread, None).
Proof. vm_compute. reflexivity. Qed.

Lemma stream_keeps_contract_witness :
  exists s, go sample_trace = Val s.
Proof.
  destruct (stream_keeps_contract (Resp := nat) log_data (Some log_state)
    default_stream_options [] sample_trace) as (s & E & _).
  - split_and!; vm_compute; discriminate.
  - vm_compute. discriminate.
  - exists s. exact E.
Defined.

Lemma session_covers_registry_witness :
  exists s g, run_observed (Resp := nat) log_data (Some log_state) default_stream_options
    (init []) (MkObserver [] false) (take 7 sample_trace) = Val (s, g).
Proof.
  destruct (session_covers_registry (Resp := nat) log_data (Some log_state)
    default_stream_options [] (take 7 sample_trace)) as (s & g & _ & E & _).
  - split_and!; vm_compute; discriminate.
  - vm_compute. discriminate.
  - exists s, g. exact E.
Defined.

Lemma notifications_follow_protocol_witness :
  exists s p, go sample_trace = Val s /\ follows (world s) = Some p.
Proof.
  destruct (notifications_follow_protocol (Resp := nat) default_stream_options sample_trace)
    as (s & p & E & Hf & _).
  - split_and!; vm_compute; discriminate.
  - vm_compute. discriminate.
  - exists s, p. split; [exact E|exact Hf].
Defined.

(** The state inside [stop], before the join. *)
Lemma stop_returns_witness :
  exists s, go (take 22 sample_trace) = Val s
  /\ exists l, due l s = true
     /\ enabled log_data (Some log_state) default_stream_options l s.
Proof.
  eexists. split; [vm_compute; reflexivity|].
  refine (proj1 (stop_returns (Resp := nat) log_data (Some log_state)
    default_stream_options [] (take 22 sample_trace) [] _ (init []) _ _ _ _)).
  - split_and!; vm_compute; discriminate.
  - vm_compute. reflexivity.
  - vm_compute. reflexivity.
  - discriminate.
Defined.

(** The handler of the first message calls [stop]. *)
Lemma stop_in_handler_never_returns_witness :
  exists s, go (take 9 sample_trace) = Val s
  /\ exists s', run log_data (Some log_state) default_stream_options s
       [LStop; LOwner; LWriteDone false; LWriter; LWriter; LOwner; LWorker] = Val s'
     /\ owner s' <> OwnerIdle /\ reader s' = ReadNotify true 7%nat.
Proof.
  eexists. split; [vm_compute; reflexivity|].
  refine (stop_in_handler_never_returns (Resp := nat) log_data (Some log_state)
    default_stream_options [] (take 9 sample_trace)
    [LOwner; LWriteDone false; LWriter; LWriter; LOwner; LWorker] _ true 7%nat
    _ _ _ _ _ _).
  - split_and!; vm_compute; discriminate.
  - vm_compute. discriminate.
  - vm_compute. reflexivity.
  - reflexivity.
  - reflexivity.
  - repeat (apply Forall_cons; split; [reflexivity|]). by apply Forall_nil.
Defined.

(** Sends and a second stop after the end of [sample_trace]. *)
Lemma no_callback_after_stop_witness :
  exists s, go sample_trace = Val s /\ call s = None /\ reader s = ReaderIdle
  /\ writer s = WriterIdle
  /\ exists s', run log_data (Some log_state) default_stream_options s
         [LSend GetMySubscriptions true; LWorker; LStop; LOwner; LOwner; LReader] = Val s'
       /\ world s' = world s
       /\ forall l, is_owner l = false -> is_send l = false ->
            step log_data (Some log_state) default_stream_options l s' = Val None.
Proof.
  eexists. split; [vm_compute; reflexivity|].
  refine (no_callback_after_stop (Resp := nat) log_data (Some log_state)
    default_stream_options [] (take 20 sample_trace) (drop 21 sample_trace)
    [LSend GetMySubscriptions true; LWorker; LStop; LOwner; LOwner; LReader] _
    _ _ _ _ _).
  - split_and!; vm_compute; discriminate.
  - vm_compute. discriminate.
  - vm_compute. reflexivity.
  - reflexivity.
  - repeat (apply Forall_cons; split; [reflexivity|]). by apply Forall_nil.
Defined.
End Witnesses.
