(* ===== verification/StreamWindow.v ===== *)
(** * The window of [run_once]

    Between its first critical section, which copies the registry into the write queue,
    and its second one, which publishes the reactor, [run_once] accepts no requests:
    what is sent then is recorded and reaches the server with the next connection. *)

From S2P Require Import Prelude StdStrings ErrorResult StreamCommon MarketData MarketDataStream StreamInvariant StreamHistory StreamStopping StreamTheorems.
From stdpp Require Import base numbers list strings gmap.
From Stdlib Require Import ZArith Lia.

#[local] Open Scope Z_scope.

(** ** The identity of the call *)

Definition same_session (c c' : option Call) : Prop := session <$> c' = session <$> c.

Section Identity.
Context `{GrpcCodes}.
Context {Resp W : Type}.
Context (deliver : Resp -> W -> W).
Context (on_state : option (StreamState -> option Error -> W -> W)).
Context (opts : StreamOptions).
Implicit Types (s q : @Sys Resp W) (m : Members) (c : option Call) (l : @label Resp).

Lemma release_session c r c' : release_hold c r = Val c' -> same_session c c'.
Proof.
  destruct r as [n|]; cbn; [|by intros [= <-]]. unfold RemoveHold, live.
  destruct c as [c|]; [|done]. destruct (_ && _); [|done]. destruct (holds c); [done|].
  by intros [= <-].
Qed.

Lemma maybe_write_session m c m' c' :
  maybe_write_locked m c = Val (m', c') -> same_session c c'.
Proof.
  unfold maybe_write_locked. destruct (reactor m) as [n|]; [|by intros [= _ <-]].
  destruct (_ || _); [by intros [= _ <-]|]. destruct (write_queue m); [by intros [= _ <-]|].
  unfold StartWrite, live. destruct c as [c|]; [|done]. destruct (_ && _); [|done].
  destruct (writing c); [done|]. by intros [= _ <-].
Qed.

Lemma send_session q r b q' : send q r b = Val q' -> same_session (call q) (call q').
Proof.
  unfold send. destruct (stopping _); [by intros [= <-]|].
  destruct (track _ _ _); [|done]. cbn. destruct (reactor _) as [n|]; [|by intros [= <-]].
  case_match; [|by intros [= <-]].
  destruct (maybe_write_locked _ _) as [[m c]|] eqn:E; [|done].
  intros [= <-]. by eapply maybe_write_session.
Qed.

Lemma send_number q r b q' : send q r b = Val q' -> next_session q' = next_session q.
Proof.
  unfold send. destruct (stopping _); [by intros [= <-]|].
  destruct (track _ _ _); [|done]. cbn. case_match; [|by intros [= <-]].
  destruct (maybe_write_locked _ _) as [[m c]|]; [|done]. by intros [= <-].
Qed.

Lemma stop_locked_session q q' :
  stop_locked q = Val q' -> same_session (call q) (call q').
Proof.
  unfold stop_locked. destruct (ctx _) as [n|]; [|by intros [= <-]].
  unfold TryCancel. destruct (call q) as [c|]; [|done].
  case_bool_decide; [|done]. by intros [= <-].
Qed.

Lemma cancel_session c n c' : TryCancel c n = Val c' -> same_session c c'.
Proof.
  unfold TryCancel. destruct c as [c|]; [|done]. case_bool_decide; [|done]. by intros [= <-].
Qed.

(** [run_once] makes calls with increasing numbers, and nobody else makes one. *)
Lemma step_session l s s' :
  step deliver on_state opts l s = Val (Some s') ->
  next_session s' = S (next_session s) /\ session <$> call s' = Some (next_session s)
  \/ next_session s' = next_session s /\ (call s' = None \/ same_session (call s) (call s'))
     /\ (l = LWorker -> worker s = Entering -> stopping (mem s) = true).
Proof.
  intros E. destruct (is_send l) eqn:Hl.
  { destruct l; try done. right. cbn [step] in E.
    destruct (send s r remember) as [s1|] eqn:Es; [|done]. injection E as <-.
    split_and!; [by eapply send_number|right; by eapply send_session|done]. }
  destruct l; try done; cbn [step] in E; unfold_step E;
    unfold start, owner_step, stop_locked in E; step_cases E; injection E as <-;
    cbn in *; simplify_eq; cbn; try (by left); right; (split; [done|split; [|done]]);
    try (by left); right;
    first [by eapply release_session | by eapply maybe_write_session
          | by eapply cancel_session | unfold same_session; cbn; congruence].
Qed.
End Identity.

(** ** The requests of one session *)

(** The requests of the sends of an execution. *)
Definition sent_after {Resp} (trace : list (@label Resp)) : list MarketDataRequest :=
  omap (fun l => match l with LSend r _ => Some r | _ => None end) trace.

Section Window.
Context `{GrpcCodes}.
Context {Resp W : Type}.
Context (deliver : Resp -> W -> W).
Context (on_state : option (StreamState -> option Error -> W -> W)).
Context (opts : StreamOptions).
Implicit Types (s : @Sys Resp W) (l : @label Resp) (k : Call).

(** The worker is between the two critical sections of [run_once]. *)
Definition in_window (w : Worker) : bool :=
  match w with Starting | Publishing => true | _ => false end.

Definition Numbered s : Prop := forall k, call s = Some k -> (session k < next_session s)%nat.

(** A call of the new state is that of a fresh session or that of the old state. *)
Lemma step_call l s s' k :
  step deliver on_state opts l s = Val (Some s') -> call s' = Some k ->
  next_session s' = S (next_session s) /\ session k = next_session s
  \/ next_session s' = next_session s
     /\ (exists k0, call s = Some k0 /\ session k0 = session k)
     /\ (l = LWorker -> worker s = Entering -> stopping (mem s) = true).
Proof.
  intros E Ek. destruct (step_session deliver on_state opts l s s' E)
    as [[En Hs]|(En & Hs & Hw)]; rewrite Ek in Hs.
  - left. split; [done|]. by injection Hs.
  - right. split_and!; [done| |done]. destruct Hs as [?|Hs]; [done|].
    unfold same_session in Hs. destruct (call s) as [k0|]; [|done].
    exists k0. split; [done|]. by injection Hs.
Qed.

Lemma step_sessions l s s' :
  step deliver on_state opts l s = Val (Some s') -> (next_session s <= next_session s')%nat.
Proof. intros E. destruct (step_session deliver on_state opts l s s' E) as [[-> _]|[-> _]]; lia. Qed.

Lemma step_numbered l s s' :
  step deliver on_state opts l s = Val (Some s') -> Numbered s -> Numbered s'.
Proof.
  intros E Hn k Ek. destruct (step_call l s s' k E Ek)
    as [[En ->]|(En & (k0 & E0 & <-) & _)]; [lia|]. rewrite En. by apply Hn.
Qed.

Lemma run_numbered trace s s' :
  run deliver on_state opts s trace = Val s' -> Numbered s -> Numbered s'.
Proof.
  revert s. induction trace as [|l trace IH]; intros s E Hn; cbn in E; [by injection E as <-|].
  destruct (step deliver on_state opts l s) as [[s1|]|] eqn:Es; [| |done].
  - apply (IH s1); [exact E|]. by eapply step_numbered.
  - by apply (IH s).
Qed.

(** What session [n] was given: [base], and then some of [sent]. *)
Definition Given (n : nat) (base sent : list MarketDataRequest) s (g : Observer) : Prop :=
  forall k, call s = Some k -> session k = n ->
  exists later, (script g).*2 = base ++ later /\ later `sublist_of` sent.

Lemma step_given n base sent l s s' g :
  step deliver on_state opts l s = Val (Some s') -> (n < next_session s)%nat ->
  Given n base sent s g ->
  Given n base (sent ++ match l with LSend r _ => [r] | _ => [] end) s' (observe l s g).
Proof.
  intros E Hn Hg k Ek Hk.
  destruct (step_call l s s' k E Ek) as [[_ ?]|(_ & (k0 & E0 & Hs) & Hw)]; [lia|].
  destruct (Hg k0 E0 ltac:(lia)) as (later & Eb & Hsub).
  destruct l as [| |r b| | | | |res|ok|st]; rewrite ?app_nil_r; cbn [observe]; eauto.
  - destruct (stopping (mem s)); [|destruct (accepting (mem s)); cbn].
    + exists later. split; [done|]. by apply sublist_inserts_r.
    + exists (later ++ [r]). rewrite fmap_app, Eb, <- app_assoc. split; [done|].
      by apply sublist_app.
    + exists later. split; [done|]. by apply sublist_inserts_r.
  - destruct (worker s) eqn:Ew; eauto. rewrite Hw by done. eauto.
Qed.

Lemma run_given n base sent trace s g s' g' :
  run_observed deliver on_state opts s g trace = Val (s', g') -> (n < next_session s)%nat ->
  Given n base sent s g -> Given n base (sent ++ sent_after trace) s' g'.
Proof.
  revert sent s g. induction trace as [|l trace IH]; intros sent s g E Hn Hg; cbn in E.
  { injection E as <- <-. by rewrite app_nil_r. }
  destruct (step deliver on_state opts l s) as [[s1|]|] eqn:Es; [| |done].
  - pose proof (step_given n base sent l s s1 g Es Hn Hg) as Hg1.
    pose proof (step_sessions l s s1 Es).
    pose proof (IH _ s1 _ E ltac:(lia) Hg1) as Hr. rewrite <- app_assoc in Hr.
    by destruct l.
  - pose proof (IH sent s g E Hn Hg) as Hr. intros k Ek Hk.
    destruct (Hr k Ek Hk) as (later & Eb & Hsub). exists later. split; [done|].
    etrans; [exact Hsub|]. apply sublist_app; [done|].
    destruct l; try done. by apply sublist_cons.
Qed.

Lemma reachable_covered w trace s :
  BackoffRange opts -> Z.of_nat (length trace) <= wmax W32 ->
  run deliver on_state opts (init w) trace = Val s -> exists g, Covered s g.
Proof.
  intros Hb Hl E.
  destruct (run_observed_run deliver on_state opts trace (init w) (MkObserver [] false) s E)
    as (g & Eg). exists g.
  eapply (run_covered deliver on_state opts trace (init w)); [done|done|exact Hl| | |exact Eg].
  - apply init_inv.
  - by split.
Qed.

(** In the window there is a call and no reactor to write to. *)
Lemma send_in_window request remember s :
  Inv s -> in_window (worker s) = true -> stopping (mem s) = false ->
  exists s1 k, step deliver on_state opts (LSend request remember) s = Val (Some s1)
  /\ track remember (subscriptions (mem s)) request = Val (subscriptions (mem s1))
  /\ call s = Some k /\ call s1 = Some k /\ write_queue (mem s1) = write_queue (mem s)
  /\ accepting (mem s) = false.
Proof.
  intros Hi Hw Hst. destruct (inv_call s Hi) as (k & Ek & Hk); [by destruct (worker s)|].
  assert (Hre : reactor (mem s) = None).
  { rewrite (co_reactor _ _ _ _ _ _ Hk). destruct (finished k); [done|].
    by destruct (worker s). }
  destruct (track_total remember (subscriptions (mem s)) request) as (subs & Et).
  cbn [step]. unfold send. rewrite Hst, Et, Hre. cbn. eexists _, k. split; [done|].
  unfold accepting. by rewrite Hre.
Qed.

(** C36. The window of [run_once].  Take any reachable state in which the worker is
    between the two critical sections of [run_once] and the stream is not stopping, and
    send any request there: it is recorded in the registry as usual, and neither queued
    nor written.  Nor does it reach the server later in this session: whatever happens
    next, as long as the session lasts, what was written followed by what is queued is
    what there was before the request - the registry as it was copied - and then some
    of the requests sent after it; and a stream that accepts requests and has no write
    in flight has written all of that and nothing else. *)
Theorem window_loses_subscription w trace rest request remember s s2 :
  BackoffRange opts ->
  Z.of_nat (length (trace ++ LSend request remember :: rest)) <= wmax W32 ->
  run deliver on_state opts (init w) trace = Val s ->
  in_window (worker s) = true -> stopping (mem s) = false ->
  run deliver on_state opts s (LSend request remember :: rest) = Val s2 ->
  exists s1 k, step deliver on_state opts (LSend request remember) s = Val (Some s1)
  /\ track remember (subscriptions (mem s)) request = Val (subscriptions (mem s1))
  /\ call s = Some k /\ call s1 = Some k /\ write_queue (mem s1) = write_queue (mem s)
  /\ forall k2, call s2 = Some k2 -> session k2 = session k ->
       exists later, later `sublist_of` sent_after rest
         /\ written k2 ++ write_queue (mem s2)
            = (written k ++ write_queue (mem s)) ++ later
         /\ (accepting (mem s2) = true -> write_in_flight (mem s2) = false ->
             written k2 = (written k ++ write_queue (mem s)) ++ later).
Proof.
  intros Hb Hl E Hw Hst E2. rewrite length_app in Hl. cbn [length] in Hl.
  destruct (reachable deliver on_state opts w trace Hb) as (s0 & E0 & Hi & Ha); [lia|].
  assert (s0 = s) as -> by congruence. clear E0.
  destruct (send_in_window request remember s Hi Hw Hst)
    as (s1 & k & Es & Et & Ek & Ek1 & Eq & Hacc).
  destruct (step_ok deliver on_state opts (LSend request remember) s Hb ltac:(lia) Hi)
    as (o & Eo & Ho). rewrite Es in Eo. injection Eo as <-.
  destruct (Ho s1 eq_refl) as [Hi1 Hg1]. unfold attempt_grows in Hg1.
  exists s1, k. split_and!; try done. intros k2 Ek2 Hk2.
  cbn [run] in E2. rewrite Es in E2. cbn [mbind outcome_bind] in E2.
  destruct (reachable_covered w trace s Hb ltac:(lia) E) as (g & Hcov).
  destruct (proj2 Hcov k Ek) as [Hbase _].
  set (g1 := observe (LSend request remember) s g).
  assert (Hscript : script g1 = script g) by (unfold g1; cbn; by rewrite Hst, Hacc).
  destruct (run_observed_run deliver on_state opts rest s1 g1 s2 E2) as (g2 & Eg2).
  destruct (run_covered deliver on_state opts rest s1 g1 s2 g2 Hb) as [Hdr Hcov2];
    [lia|lia|done|by apply (step_covered deliver on_state opts _ s)|exact Eg2|].
  destruct (Hcov2 k2 Ek2) as [Hq2 _].
  pose proof (run_numbered trace (init w) s E ltac:(done) k Ek).
  pose proof (step_sessions _ _ _ Es).
  destruct (run_given (session k) (written k ++ write_queue (mem s)) [] rest s1 g1 s2 g2 Eg2
    ltac:(lia)) with (k := k2) as (later & El & Hsub); [|done|done|].
  { intros k' _ _. exists []. by rewrite Hscript, Hbase, app_nil_r. }
  exists later. rewrite Hq2. split_and!; [done|done|]. intros Hacc2 Hwf.
  by rewrite <- El, <- Hq2, (Hdr Hacc2 Hwf), app_nil_r.
Qed.
End Window.

(** A connection that is being made: the request for the trades of "a" is recorded, and
    the stream is then connected, accepts requests and has written nothing. *)
Lemma window_loses_subscription_witness :
  exists s s2 k k2, run (Resp := nat) log_data (Some log_state) default_stream_options
      (init []) [LStart; LWorker; LWorker; LWorker] = Val s
  /\ run (Resp := nat) log_data (Some log_state) default_stream_options s
       [LSend (subscribe_trades ["a"%string] false) true; LWorker; LWorker] = Val s2
  /\ call s = Some k /\ call s2 = Some k2 /\ accepting (mem s2) = true
  /\ subscriptions (mem s2)
     = <["trades|a"%string := subscribe_trades ["a"%string] false]> ∅
  /\ exists later, later `sublist_of` [] /\ written k2 = (written k ++ write_queue (mem s)) ++ later.
Proof.
  eexists _, _, _, _. split; [vm_compute; reflexivity|]. split; [vm_compute; reflexivity|].
  split; [reflexivity|]. split; [reflexivity|]. split; [reflexivity|].
  split; [vm_compute; reflexivity|].
  edestruct (window_loses_subscription (Resp := nat) log_data (Some log_state)
    default_stream_options [] [LStart; LWorker; LWorker; LWorker] [LWorker; LWorker]
    (subscribe_trades ["a"%string] false) true) as (s1 & k & _ & _ & Ek & _ & _ & H).
  - split_and!; vm_compute; discriminate.
  - vm_compute. discriminate.
  - vm_compute. reflexivity.
  - reflexivity.
  - reflexivity.
  - vm_compute. reflexivity.
  - injection Ek as <-. destruct (H _ eq_refl eq_refl) as (later & Hs & _ & Hw).
    exists later. split; [exact Hs|]. exact (Hw eq_refl eq_refl).
Defined.
