(* ===== verification/MarketDataStreamOwners.v ===== *)
(** * A market-data stream that several threads stop

    [stop] of [src/market_data_stream.cpp] called by any number of user threads at
    once, interleaved with the worker, the senders and gRPC's callbacks.  Every
    caller has its own locals [release] and [t].  A [start] is only enabled when no
    [stop] is under way: one that overlaps a [stop] creates a second worker, which
    [MarketDataStreamThreads.v] models.  All other steps are those of [MarketDataStream.v]. *)

From S2P Require Import Prelude StdStrings ErrorResult StreamCommon MarketData MarketDataStream StreamInvariant StreamHistory StreamStopping StreamTheorems.
From stdpp Require Import base numbers list strings gmap.
From Stdlib Require Import ZArith Lia.

#[local] Open Scope Z_scope.

Section Owners.
Context `{GrpcCodes}.
Context {Resp W : Type}.
Context (deliver : Resp -> W -> W).
Context (on_state : option (StreamState -> option Error -> W -> W)).
Context (opts : StreamOptions).

(** [stops] are the calls of [stop] past their critical section, by caller; the
    stream itself is kept with an idle owner. *)
Record Shared := MkShared { stream : @Sys Resp W; stops : gmap nat Owner }.

Definition shared_init (w : W) : Shared := MkShared (init w) ∅.

(** The critical section of [stop]. *)
Definition stop_enter (s : Shared) (u : nat) : outcome Shared :=
  q ← stop_locked (stream s);
  mret (MkShared (with_owner q OwnerIdle) (<[u := owner q]> (stops s))).

(** One of the two statements of [stop] after it. *)
Definition stop_continue (s : Shared) (u : nat) : outcome (option Shared) :=
  match stops s !! u with
  | None => mret None
  | Some o =>
      r ← owner_step (with_owner (stream s) o);
      mret (match r with
            | None => None
            | Some q => Some (MkShared (with_owner q OwnerIdle)
                (match owner q with
                 | OwnerIdle => delete u (stops s)
                 | o' => <[u := o']> (stops s)
                 end))
            end)
  end.

Inductive action :=
  | Start
  | Stop (u : nat)
  | Continue (u : nat)
  | In (l : @label Resp).

Definition shared_step (a : action) (s : Shared) : outcome (option Shared) :=
  match a with
  | Start => mret (if bool_decide (stops s = ∅)
                   then Some (MkShared (start (stream s)) (stops s)) else None)
  | Stop u => match stops s !! u with
              | None => s' ← stop_enter s u; mret (Some s')
              | Some _ => mret None end
  | Continue u => stop_continue s u
  | In l =>
      if is_owner l then mret None else
      r ← step deliver on_state opts l (stream s);
      mret (match r with Some q => Some (MkShared q (stops s)) | None => None end)
  end.

Fixpoint shared_run (s : Shared) (trace : list action) : outcome Shared :=
  match trace with
  | [] => mret s
  | a :: trace' =>
      o ← shared_step a s;
      shared_run (match o with Some s' => s' | None => s end) trace'
  end.
End Owners.
Arguments Shared : clear implicits.
Arguments action : clear implicits.

(** ** Overlapping stops

    Of the stops that overlap, the first holds the thread; the others find the call
    cancelled, the hold released and no thread to join. *)

Section Simulation.
Context `{GrpcCodes}.
Context {Resp W : Type}.
Context (deliver : Resp -> W -> W).
Context (on_state : option (StreamState -> option Error -> W -> W)).
Context (opts : StreamOptions).
Implicit Types (s : Shared Resp W) (q : @Sys Resp W) (l : @label Resp) (c : Call).

Abbreviation mdstep := (step deliver on_state opts).
Abbreviation mdrun := (run deliver on_state opts).
Abbreviation ostep := (shared_step deliver on_state opts).
Abbreviation orun := (shared_run deliver on_state opts).

(** ** A stopping stream *)

Definition CallCancelled (oc : option Call) : Prop :=
  forall k, oc = Some k -> cancelled k = true.
Definition Halted q : Prop := broken (mem q) = true /\ CallCancelled (call q).

Lemma release_cancelled oc r oc' :
  release_hold oc r = Val oc' -> CallCancelled oc -> CallCancelled oc'.
Proof.
  destruct r as [n|]; cbn; [|by intros [= <-]].
  unfold RemoveHold, live. destruct oc as [c|]; [|done].
  destruct (bool_decide _ && bound c && negb (finished c)); [|done].
  destruct (holds c); [done|]. intros [= <-] Hk k [= <-]. exact (Hk c eq_refl).
Qed.

Lemma step_halted l q q' :
  is_owner l = false -> mdstep l q = Val (Some q') -> stopping (mem q) = true ->
  Halted q -> Halted q'.
Proof.
  intros Hl E Hst [Hb Hc]. unfold Halted.
  assert (Hw : forall m oc, broken m = broken (mem q) -> maybe_write_locked m oc = Val (m, oc))
    by (intros m oc Em; apply maybe_write_broken; congruence).
  destruct l; try done; cbn [step] in E; unfold_step E; unfold send in E;
    rewrite ?Hst in E; cbn in E; rewrite ?Hw in E by done; step_cases E; injection E as <-;
    (split; [done|]); cbn;
    first [done | by eapply release_cancelled
          | intros ? [= <-]; cbn; by apply Hc | congruence].
Qed.

Lemma stop_locked_halts q q' : Inv q -> stop_locked q = Val q' -> Halted q'.
Proof.
  intros Hi E. unfold stop_locked in E.
  destruct (in_session (worker q)) eqn:Ew.
  - destruct (inv_call q Hi Ew) as (c & Ec & Hc). rewrite (co_ctx _ _ _ _ _ _ Hc), Ec in E.
    cbn in E. rewrite bool_decide_true in E by done. injection E as <-.
    split; [done|]. by intros ? [= <-].
  - destruct (inv_idle q Hi Ew) as [H1 H2 _ _ _ _]. rewrite H2, H1 in E.
    injection E as <-. by split.
Qed.

(** A [stop] with nothing left to do. *)
Definition trivial_stop (o : Owner) : bool :=
  match o with StopReleasing None false | StopJoining false => true | _ => false end.

Lemma trivial_no_join o : trivial_stop o = true -> joins o = false.
Proof. by destruct o as [|[] []|[]]. Qed.

(** The pointer that [stop] would release, and its absence. *)
Lemma stopping_no_release q :
  Inv q -> broken (mem q) = true ->
  (if hold_released (mem q) then None else reactor (mem q)) = None.
Proof.
  intros Hi Hb. destruct (in_session (worker q)) eqn:Ew.
  - destruct (inv_call q Hi Ew) as (c & _ & Hc).
    destruct (hold_released (mem q)) eqn:Eh; [done|].
    rewrite (co_reactor _ _ _ _ _ _ Hc). destruct (finished c) eqn:Ef; [done|].
    destruct (published (worker q)) eqn:Ep; [|done].
    pose proof (co_released _ _ _ _ _ _ Hc Hb Ep Ef). congruence.
  - destruct (inv_idle q Hi Ew) as [_ _ Hr _ _ _]. rewrite Hr. by destruct (hold_released _).
Qed.

(** A [stop] that follows another changes nothing. *)
Lemma stop_locked_again q :
  Inv q -> Halted q -> stopping (mem q) = true -> joinable q = false ->
  stop_locked q = Val (with_owner q (StopReleasing None false)).
Proof.
  intros Hi [Hb Hc] Hs Hj. unfold stop_locked.
  rewrite (stopping_no_release q Hi Hb), Hj.
  assert (Ec : (match ctx (mem q) with
                | Some n => TryCancel (call q) n | None => mret (call q) end) = Val (call q)).
  { destruct (in_session (worker q)) eqn:Ew.
    - destruct (inv_call q Hi Ew) as (c & Ec & Hk). rewrite (co_ctx _ _ _ _ _ _ Hk), Ec.
      cbn. rewrite bool_decide_true by done. specialize (Hc c Ec).
      destruct c. cbn in *. by subst.
    - by destruct (inv_idle q Hi Ew) as [_ -> _ _ _ _]. }
  rewrite Ec. cbn. do 2 f_equal. destruct q as [m jn wk at0 o rd wr cl nx u0].
  cbn in *. subst. unfold with_owner. cbn. f_equal. destruct m. cbn in *. by subst.
Qed.

Lemma stop_locked_owner_irrel q o : stop_locked (with_owner q o) = stop_locked q.
Proof. done. Qed.

(** ** Representation *)

Definition others_trivial s (u : nat) : Prop :=
  forall u' o, u' <> u -> stops s !! u' = Some o -> trivial_stop o = true.
Definition all_trivial s : Prop :=
  forall u o, stops s !! u = Some o -> trivial_stop o = true.
(** The one caller that holds the thread. *)
Definition holder s q (u : nat) : Prop :=
  stops s !! u = Some (owner q) /\ joins (owner q) = true /\ others_trivial s u
  /\ Halted q.

Record Sim s q : Prop := {
  sim_stream : stream s = with_owner q OwnerIdle;
  sim_stops : owner q = OwnerIdle /\ all_trivial s \/ exists u, holder s q u;
}.

(** One action is at most three of the stream with one owner. *)
Definition Simulated q (o : outcome (option (Shared Resp W))) : Prop :=
  exists r, o = Val r /\ forall s', r = Some s' ->
  exists tr q', (length tr <= 3)%nat /\ mdrun q tr = Val q' /\ Sim s' q'.

Lemma owners_simulated_none q : Simulated q (mret None).
Proof. by eexists. Qed.

Lemma owners_simulated_some q s' tr q' :
  (length tr <= 3)%nat -> mdrun q tr = Val q' -> Sim s' q' -> Simulated q (mret (Some s')).
Proof.
  intros H1 H2 H3. eexists. split; [done|]. intros ? [= <-]. by exists tr, q'.
Qed.

Lemma holder_stopping s q u :
  Inv q -> holder s q u -> joinable q = false /\ stopping (mem q) = true.
Proof.
  intros Hi (_ & Hj & _). apply (inv_owner _ Hi). intros E. by rewrite E in Hj.
Qed.

(** Adding or removing a trivial stop, and moving the holder. *)
Lemma all_trivial_insert s st u o :
  all_trivial s -> trivial_stop o = true -> all_trivial (MkShared st (<[u := o]> (stops s))).
Proof.
  intros Ha Ho u' o'. cbn. destruct (decide (u' = u)) as [->|Hne].
  - rewrite lookup_insert_eq. by intros [= <-].
  - rewrite lookup_insert_ne by done. apply Ha.
Qed.

Lemma holder_insert s st q u u' o :
  holder s q u -> u' <> u -> trivial_stop o = true ->
  holder (MkShared st (<[u' := o]> (stops s))) q u.
Proof.
  intros (H1 & H2 & H3 & H4) Hne Ho. split_and!; try done; cbn.
  - by rewrite lookup_insert_ne.
  - intros u2 o2 Hne2. cbn. destruct (decide (u2 = u')) as [->|Hne'].
    + rewrite lookup_insert_eq. by intros [= <-].
    + rewrite lookup_insert_ne by done. by apply H3.
Qed.

Lemma all_trivial_delete s st u :
  all_trivial s -> all_trivial (MkShared st (delete u (stops s))).
Proof. intros Ha u' o'. cbn. intros [_ E]%lookup_delete_Some. by eapply Ha. Qed.

Lemma holder_delete s st q u u' :
  holder s q u -> u' <> u -> holder (MkShared st (delete u' (stops s))) q u.
Proof.
  intros (H1 & H2 & H3 & H4) Hne. split_and!; try done; cbn.
  - by rewrite lookup_delete_ne.
  - intros u2 o2 Hne2. cbn. intros [_ E]%lookup_delete_Some. by apply (H3 u2).
Qed.

Lemma owners_sim_start s q : Sim s q -> stops s = ∅ -> Simulated q (ostep Start s).
Proof.
  intros [H1 H2] Hs. cbn [shared_step]. rewrite bool_decide_true by done.
  destruct H2 as [[Ho Ha]|(u & Hu & _)]; [|by rewrite Hs in Hu].
  apply (owners_simulated_some q _ [LStart] (start q)); [cbn; lia|cbn; by rewrite Ho|].
  rewrite <- Ho, with_owner_same in H1. rewrite H1. split; cbn.
  - assert (owner (start q) = OwnerIdle) as <-
      by (unfold start; by destruct (joinable q)).
    by rewrite with_owner_same.
  - left. split; [unfold start; by destruct (joinable q)|]. intros u o. cbn. by rewrite Hs.
Qed.

Lemma owners_sim_stop s q u : Sim s q -> Inv q -> Simulated q (ostep (Stop u) s).
Proof.
  intros [H1 H2] Hi. cbn [shared_step]. destruct (stops s !! u) eqn:Eu;
    [apply owners_simulated_none|]. unfold stop_enter.
  destruct H2 as [[Ho Ha]|(u0 & Hu)].
  - rewrite <- Ho, with_owner_same in H1. rewrite H1.
    destruct (stop_locked_ok q Hi Ho) as (q1 & E & Hi1). rewrite E.
    cbn [mbind outcome_bind]. pose proof (stop_locked_halts q q1 Hi E) as Hh.
    destruct (stop_locked_fields q q1 E) as (rl & Eo1 & Ew1 & _).
    destruct (joinable q) eqn:Ej.
    + apply (owners_simulated_some q _ [LStop] q1); [cbn; lia|cbn; by rewrite Ho, E|].
      split; [done|]. right. exists u. split_and!; cbn; [by rewrite lookup_insert_eq|by rewrite Eo1| |done].
      intros u' o' Hne. cbn. rewrite lookup_insert_ne by done. apply Ha.
    + assert (Hw : worker q1 = NoThread).
      { rewrite Ew1. pose proof (inv_thread _ Hi) as Ht. rewrite Ej, Ho in Ht. by destruct (worker q). }
      assert (rl = None) as ->.
      { destruct (inv_idle q1 Hi1) as [_ _ _ _ _ Hr]; [by rewrite Hw|].
        by rewrite Eo1 in Hr. }
      apply (owners_simulated_some q _ [LStop; LOwner; LOwner] (with_owner q1 OwnerIdle));
        [cbn; lia| |].
      * cbn [run step]. rewrite Ho, E. cbn. unfold owner_step. rewrite Eo1. cbn.
        by destruct q1.
      * split; [done|]. left. split; [done|]. apply all_trivial_insert; [done|by rewrite Eo1].
  - destruct (holder_stopping s q u0 Hi Hu) as [Hj Hst].
    assert (Hne : u <> u0) by (intros ->; destruct Hu as [Hu _]; congruence).
    rewrite H1, stop_locked_owner_irrel.
    rewrite (stop_locked_again q Hi) by (done || apply Hu). cbn [mbind outcome_bind].
    apply (owners_simulated_some q _ [] q); [cbn; lia|done|].
    split; [done|]. right. exists u0. by apply holder_insert.
Qed.

Lemma sim_in l s q :
  BackoffRange opts -> 0 <= attempt q < wmax W32 -> Sim s q -> Inv q ->
  Simulated q (ostep (In l) s).
Proof.
  intros Hb Ha [H1 H2] Hi. cbn [shared_step]. destruct (is_owner l) eqn:El;
    [apply owners_simulated_none|]. rewrite H1, step_owner by done.
  destruct (step_ok deliver on_state opts l q Hb Ha Hi) as (r & E & _). rewrite E.
  destruct r as [q'|]; cbn; [|apply owners_simulated_none].
  pose proof (step_keeps_owner deliver on_state opts l q q' El E) as Eo.
  apply (owners_simulated_some q _ [l] q'); [cbn; lia|cbn; by rewrite E|].
  split; [done|]. rewrite Eo. destruct H2 as [H2|(u & Hu)]; [by left|]. right. exists u.
  destruct (holder_stopping s q u Hi Hu) as [_ Hst]. destruct Hu as (Hu & Hj & Ht & Hh).
  unfold holder. rewrite Eo. split_and!; try done. by eapply step_halted.
Qed.

Lemma owner_step_trivial q o :
  trivial_stop o = true ->
  exists o', owner_step (with_owner q o) = Val (Some (with_owner q o'))
    /\ (o' = OwnerIdle \/ trivial_stop o' = true).
Proof.
  destruct o as [|[n|] [|]|[|]]; try done; intros _; unfold owner_step; cbn.
  - exists (StopJoining false). split; [by destruct q|by right].
  - exists OwnerIdle. split; [done|by left].
Qed.

Lemma sim_continue s q u : Sim s q -> Inv q -> Simulated q (ostep (Continue u) s).
Proof.
  intros [H1 H2] Hi. cbn [shared_step]. unfold stop_continue.
  destruct (stops s !! u) as [o|] eqn:Eu; [|apply owners_simulated_none].
  rewrite H1, with_owner_twice.
  destruct (trivial_stop o) eqn:Et.
  - destruct (owner_step_trivial q o Et) as (o' & -> & Ho'). cbn [mbind outcome_bind owner with_owner].
    apply (owners_simulated_some q _ [] q); [cbn; lia|done|]. split; [done|].
    destruct H2 as [[Ho Ha]|(u0 & Hu)]; [left|right].
    + split; [done|]. destruct Ho' as [->|Ho']; [by apply all_trivial_delete|].
      destruct o'; try done; by apply all_trivial_insert.
    + exists u0. assert (Hne : u <> u0).
      { intros ->. destruct Hu as (Hu & Hj & _). assert (o = owner q) as -> by congruence.
        by rewrite trivial_no_join in Hj. }
      destruct Ho' as [->|Ho']; [by apply holder_delete|].
      destruct o'; try done; by apply holder_insert.
  - destruct H2 as [[Ho Ha]|(u0 & Hu)]; [apply Ha in Eu; congruence|].
    assert (u = u0) as ->.
    { destruct (decide (u = u0)) as [|Hne]; [done|]. destruct Hu as (_ & _ & Hot & _).
      rewrite (Hot u o) in Et; done. }
    destruct Hu as (Hu & Hj & Hot & Hh). assert (o = owner q) as -> by congruence.
    rewrite with_owner_same. destruct (owner_step_ok q Hi) as (r & E & _). rewrite E.
    destruct r as [q'|]; cbn [mbind outcome_bind]; [|apply owners_simulated_none].
    apply (owners_simulated_some q _ [LOwner] q'); [cbn; lia|cbn; by rewrite E|].
    split; [done|]. unfold owner_step in E. destruct (owner q) as [|rl j|[]] eqn:Eo; try done.
    + destruct (release_hold _ _) as [c|] eqn:Er in E; [|done]. injection E as <-.
      right. exists u0. unfold holder. split_and!; cbn; [by rewrite lookup_insert_eq|done| |split; [apply Hh|]].
      * intros u' o' Hne. cbn. rewrite lookup_insert_ne by done. by apply Hot.
      * eapply release_cancelled; [done|apply Hh].
    + destruct (worker q); try done. injection E as <-. left. split; [done|].
      intros u' o'. cbn. intros [Hne E]%lookup_delete_Some. by apply (Hot u').
Qed.

Lemma owners_sim_step a s q :
  BackoffRange opts -> 0 <= attempt q < wmax W32 -> Sim s q -> Inv q ->
  Simulated q (ostep a s).
Proof.
  intros Hb Ha Hm Hi. destruct a as [|u|u|l].
  - cbn [shared_step]. case_bool_decide as Hs; [|apply owners_simulated_none].
    pose proof (owners_sim_start s q Hm Hs) as Hr. cbn [shared_step] in Hr.
    by rewrite bool_decide_true in Hr.
  - by apply owners_sim_stop.
  - by apply sim_continue.
  - by apply sim_in.
Qed.

Lemma owners_sim_run trace s q :
  BackoffRange opts -> 0 <= attempt q ->
  attempt q + 3 * Z.of_nat (length trace) < wmax W32 -> Sim s q -> Inv q ->
  exists s' q' tr, orun s trace = Val s' /\ mdrun q tr = Val q'
    /\ (length tr <= 3 * length trace)%nat /\ Sim s' q' /\ Inv q'
    /\ 0 <= attempt q' <= attempt q + Z.of_nat (length tr).
Proof.
  intros Hb. revert s q. induction trace as [|a trace IH]; intros s q Ha Hl Hm Hi.
  { exists s, q, []. cbn. split_and!; try done; lia. }
  cbn [shared_run length] in *.
  destruct (owners_sim_step a s q Hb ltac:(lia) Hm Hi) as (r & E & Hr).
  rewrite E. cbn [mbind outcome_bind]. destruct r as [s1|].
  - destruct (Hr s1 eq_refl) as (tr & q1 & Hlen & Eq & Hm1).
    destruct (run_ok deliver on_state opts tr q Hb Ha ltac:(lia) Hi)
      as (q1' & Eq' & Hi1 & Ha1). rewrite Eq in Eq'. injection Eq' as <-.
    destruct (IH s1 q1) as (s' & q' & tr' & E1 & E2 & Hl' & Hm' & Hi' & Ha');
      [lia|lia|done..|].
    exists s', q', (tr ++ tr'). rewrite length_app.
    split_and!; try done; try lia. by rewrite (stream_run_app deliver on_state opts q tr tr' q1).
  - destruct (IH s q) as (s' & q' & tr' & H'); [lia|lia|done..|].
    exists s', q', tr'. destruct H' as (?&?&?&?&?&?). split_and!; try done; lia.
Qed.

Lemma owners_shared_init_sim w : Sim (shared_init w) (init w).
Proof. split; [done|]. left. done. Qed.

(** An action of a caller of [stop], of the worker or of gRPC that is enabled. *)
Lemma owners_sim_progress s q u o :
  BackoffRange opts -> 0 <= attempt q < wmax W32 -> Sim s q -> Inv q ->
  stops s !! u = Some o ->
  exists a s', ostep a s = Val (Some s')
    /\ match a with
       | Start | Stop _ => False
       | Continue _ => True
       | In l => due l (stream s) = true
       end.
Proof.
  intros Hb Ha [H1 H2] Hi Hu. destruct (trivial_stop o) eqn:Et.
  { destruct (owner_step_trivial q o Et) as (o' & E & _).
    eexists (Continue u), _. split; [|done]. cbn. unfold stop_continue.
    rewrite Hu, H1, with_owner_twice, E. done. }
  destruct H2 as [[Ho Hn]|(u0 & Hu0 & Hj & Hot & Hh)]; [apply Hn in Hu; congruence|].
  destruct (stop_progress deliver on_state opts q Hb Ha Hi) as (l & Hint & q' & E);
    [intros Eo; by rewrite Eo in Hj|].
  destruct (is_owner l) eqn:El.
  - assert (l = LOwner) as -> by by destruct l. cbn [step] in E.
    eexists (Continue u0), _. split; [|done]. cbn. unfold stop_continue.
    rewrite Hu0, H1, with_owner_twice, with_owner_same, E. done.
  - eexists (In l), _. split; [|by rewrite H1; destruct l as [| | | | | | |[]| |]].
    cbn [shared_step]. rewrite El, H1, step_owner, E by done. done.
Qed.
End Simulation.

(** ** Properties *)

Section Properties.
Context `{GrpcCodes}.
Context {Resp W : Type}.
Context (deliver : Resp -> W -> W).
Context (on_state : option (StreamState -> option Error -> W -> W)).
Context (opts : StreamOptions).

(** Any number of threads may stop the market-data stream at once, whatever
    others send, the worker does and gRPC delivers meanwhile.  If no [start] is
    called while some [stop] has not returned, every interleaving has defined
    behaviour, and the stream - its members, its call, its worker and what the
    user's callbacks see - is that of an execution with a single owner, with at most
    three actions for one.  At most one of the callers removes the hold or waits for
    the worker, and while a [stop] has not returned an enabled action of such a caller,
    of the worker or of its cancelled call is due. *)
Theorem market_data_stops_refine (w : W) (trace : list (action Resp)) :
  BackoffRange opts -> 3 * Z.of_nat (length trace) < wmax W32 ->
  exists s q single,
    shared_run deliver on_state opts (shared_init w) trace = Val s
    /\ run deliver on_state opts (init w) single = Val q
    /\ (length single <= 3 * length trace)%nat
    /\ stream s = with_owner q OwnerIdle
    /\ (forall u o, stops s !! u = Some o -> trivial_stop o = true \/ o = owner q)
    /\ (forall u u' o o', stops s !! u = Some o -> stops s !! u' = Some o' ->
          trivial_stop o = false -> trivial_stop o' = false -> u = u')
    /\ forall u o, stops s !! u = Some o ->
         exists a s', shared_step deliver on_state opts a s = Val (Some s')
           /\ match a with
              | Start | Stop _ => False
              | Continue _ => True
              | In l => due l (stream s) = true
              end.
Proof.
  intros Hb Hl.
  destruct (owners_sim_run deliver on_state opts trace (shared_init w) (init w))
    as (s & q & tr & Es & Eq & Hlen & Hm & Hi & Ha);
    [done|done|exact Hl|apply owners_shared_init_sim|apply init_inv|].
  change (attempt (init w)) with 0 in Ha.
  exists s, q, tr. pose proof Hm as [H1 H2]. split_and!; try done.
  - intros u o Hu. destruct H2 as [[_ Hn]|(u0 & Hu0 & _ & Hn & _)].
    + left. by eapply Hn.
    + destruct (decide (u = u0)) as [->|Hne]; [right; congruence|left; by eapply Hn].
  - intros u u' o o' Hu Hu' Ht Ht'. destruct H2 as [[_ Hn]|(u0 & _ & _ & Hn & _)].
    + apply Hn in Hu. congruence.
    + destruct (decide (u = u0)) as [->|Hne]; [|apply Hn in Hu; congruence].
      destruct (decide (u' = u0)) as [->|Hne]; [done|]. apply Hn in Hu'; congruence.
  - intros u o Hu. apply (owners_sim_progress deliver on_state opts s q u o); try done. lia.
Qed.
End Properties.

(** Two threads stop a connected stream: the second finds nothing to do and returns
    while the first still waits. *)
Definition two_owners : list (action nat) :=
  [Start] ++ replicate 5 (In LWorker)
  ++ [Stop 1; Stop 2; Continue 2; Continue 2; Start; Continue 1; In (LReadDone None);
      In LReader; In LReader; In (LDone (MkStatus 1 ""))]
  ++ replicate 3 (In LWorker) ++ [Continue 1; Start].

Example two_owners_run :
  (s ← shared_run log_data (Some log_state) default_stream_options
         (shared_init []) two_owners;
   mret (world (stream s), bool_decide (stops s = ∅), worker (stream s)))
  = Val ([Notified connecting None; Notified stopped None], true, LoopTop).
Proof. vm_compute. reflexivity. Qed.

Lemma market_data_stops_refine_witness :
  exists s, shared_run log_data (Some log_state) default_stream_options
      (shared_init []) two_owners = Val s
    /\ exists q, stream s = with_owner q OwnerIdle.
Proof.
  destruct (market_data_stops_refine log_data (Some log_state)
    default_stream_options [] two_owners) as (s & q & tr & E & _ & _ & Hs & _).
  - split_and!; vm_compute; discriminate.
  - vm_compute. reflexivity.
  - exists s. split; [exact E|]. exists q. exact Hs.
Defined.
