(* ===== verification/MarketDataStreamThreads.v ===== *)
(** * A market-data stream that several threads start and stop

    [start] and [stop] of [src/market_data_stream.cpp] called by any number of user
    threads at once.  [stop] moves the worker's [std::thread] out of the object under
    [mu_] and joins it outside, so a [start] in between creates another worker.  Each
    worker has its own [run] and its own reactor with its two callbacks; the members
    are shared, so a callback of one reactor can act on another: [reactor_] and [ctx_]
    are looked up in the heap of calls, by session.  The actions are those of
    [MarketDataStream.v]. *)

From S2P Require Import Prelude StdStrings ErrorResult StreamCommon MarketData MarketDataStream StreamInvariant StreamHistory StreamStopping StreamTheorems StreamWindow.
From S2P Require MarketDataStreamOwners.
From stdpp Require Import base numbers list strings gmap.
From Stdlib Require Import ZArith Lia.

#[local] Open Scope Z_scope.

Section Pool.
Context `{GrpcCodes}.
Context {Resp W : Type}.
Context (deliver : Resp -> W -> W).
Context (on_state : option (StreamState -> option Error -> W -> W)).
Context (opts : StreamOptions).

(** A thread that executes [run], with the session of its [run_once] and the
    callbacks of its reactor. *)
Record RunThread := MkRun {
  t_worker : Worker; t_attempt : Z; t_session : option nat;
  t_reader : @Reader Resp; t_writer : Writer }.

Definition new_run_thread : RunThread := MkRun LoopTop 0 None ReaderIdle WriterIdle.

(** A user thread in [stop], past its critical section: the reactor it is about to
    release, and the [std::thread] it moved to its local [t]. *)
Inductive Leaving :=
  | LeaveReleasing (release handle : option nat)
  | LeaveJoining (handle : option nat).

Record Pool := MkPool {
  members : Members;
  worker_ : option nat;
  threads : gmap nat RunThread; next_thread : nat;
  calls : gmap nat Call; sessions : nat;
  leaving : gmap nat Leaving;
  user : W;
}.

Definition pool_init (w : W) : Pool :=
  MkPool (mem (init w : @Sys Resp W)) None ∅ 0 ∅ 0 ∅ w.

(** ** The heap of calls *)

Definition deref_call (cs : gmap nat Call) (p : option nat) : option Call :=
  match p with Some n => cs !! n | None => None end.

(** What an action leaves of the call it was given through [p]. *)
Definition store_call (cs : gmap nat Call) (p : option nat) (c : option Call)
    : gmap nat Call :=
  match c with
  | Some c => <[session c := c]> cs
  | None => match p with Some n => delete n cs | None => cs end
  end.

(** The call that an action of a thread uses: its own, except where the code goes
    through [reactor_] or through the pointer [release]. *)
Definition pointed (p own : option nat) : option nat :=
  match p with Some _ => p | None => own end.

Definition touched (m : Members) (th : RunThread) (l : @label Resp) : option nat :=
  match l with
  | LReader => match t_reader th with
               | ReadRelease r => pointed r (t_session th) | _ => t_session th end
  | LWriter => match t_writer th with
               | WriteOk => pointed (reactor m) (t_session th)
               | WriteRelease r => pointed r (t_session th)
               | _ => t_session th end
  | _ => t_session th
  end.

(** ** One thread's view of the stream *)

Definition view (s : Pool) (th : RunThread) (c : option Call) : @Sys Resp W :=
  MkSys (members s) false (t_worker th) (t_attempt th) OwnerIdle (t_reader th)
    (t_writer th) c (sessions s) (user s).

Definition outside (s : Pool) (c : option Call) : @Sys Resp W :=
  MkSys (members s) false NoThread 0 OwnerIdle ReaderIdle WriterIdle c (sessions s) (user s).

Definition put (s : Pool) (t : nat) (own p : option nat) (q : @Sys Resp W) : Pool :=
  MkPool (mem q) (worker_ s)
    (<[t := MkRun (worker q) (attempt q) own (reader q) (writer q)]> (threads s))
    (next_thread s) (store_call (calls s) p (call q)) (next_session q) (leaving s) (world q).

(** The actions of [run] and of the callbacks of a reactor. *)
Definition thread_step (l : label) (q : @Sys Resp W) : outcome (option (@Sys Resp W)) :=
  match l with
  | LWorker => worker_step on_state opts q
  | LReader => reader_step deliver on_state q
  | LWriter => writer_step q
  | LReadDone res => mret (read_done q res)
  | LWriteDone ok => mret (write_done q ok)
  | LDone st => mret (on_done q st)
  | LStart | LStop | LOwner | LSend _ _ => mret None
  end.

Definition on_thread (s : Pool) (t : nat) (l : label) : outcome (option Pool) :=
  match threads s !! t with
  | Some th =>
      let p := touched (members s) th l in
      r ← thread_step l (view s th (deref_call (calls s) p));
      mret (match r with
            | Some q => Some (put s t (match l with
                                       | LWorker => session <$> call q
                                       | _ => t_session th end) p q)
            | None => None
            end)
  | None => mret None
  end.

(** ** The calls of the users *)

Definition start_pool (s : Pool) : Pool :=
  match worker_ s with
  | Some _ => s
  | None =>
      let m := members s in
      MkPool (MkMembers false (done m) (got_data m) (broken m) (hold_released m) (status m)
                (ctx m) (reactor m) (write_queue m) (write_in_flight m) (subscriptions m))
        (Some (next_thread s)) (<[next_thread s := new_run_thread]> (threads s))
        (S (next_thread s)) (calls s) (sessions s) (leaving s) (user s)
  end.

(** The critical section of [stop]. *)
Definition stop_pool (s : Pool) (u : nat) : outcome Pool :=
  let p := ctx (members s) in
  q ← stop_locked (outside s (deref_call (calls s) p));
  mret (MkPool (mem q) None (threads s) (next_thread s)
          (store_call (calls s) p (call q)) (sessions s)
          (<[u := LeaveReleasing (owner_release (owner q)) (worker_ s)]> (leaving s))
          (user s)).

(** [if (release) release->RemoveHold(); if (t.joinable()) t.join();] *)
Definition leave_step (s : Pool) (u : nat) : outcome (option Pool) :=
  match leaving s !! u with
  | None => mret None
  | Some (LeaveReleasing release h) =>
      c ← release_hold (deref_call (calls s) release) release;
      mret (Some (MkPool (members s) (worker_ s) (threads s) (next_thread s)
                    (store_call (calls s) release c) (sessions s)
                    (<[u := LeaveJoining h]> (leaving s)) (user s)))
  | Some (LeaveJoining h) =>
      let back ts := MkPool (members s) (worker_ s) ts (next_thread s) (calls s)
                       (sessions s) (delete u (leaving s)) (user s) in
      mret (match h with
            | None => Some (back (threads s))
            | Some t => match t_worker <$> threads s !! t with
                        | Some Exited => Some (back (delete t (threads s)))
                        | _ => None
                        end
            end)
  end.

Definition send_pool (s : Pool) (r : MarketDataRequest) (remember : bool) : outcome Pool :=
  let p := reactor (members s) in
  q ← send (outside s (deref_call (calls s) p)) r remember;
  mret (MkPool (mem q) (worker_ s) (threads s) (next_thread s)
          (store_call (calls s) p (call q)) (sessions s) (leaving s) (user s)).

Inductive pool_action :=
  | PStart
  | PStop (u : nat)
  | PLeave (u : nat)
  | PSend (r : MarketDataRequest) (remember : bool)
  | PIn (t : nat) (l : @label Resp).

Definition pool_step (a : pool_action) (s : Pool) : outcome (option Pool) :=
  match a with
  | PStart => mret (Some (start_pool s))
  | PStop u => match leaving s !! u with
               | None => s' ← stop_pool s u; mret (Some s')
               | Some _ => mret None end
  | PLeave u => leave_step s u
  | PSend r remember => s' ← send_pool s r remember; mret (Some s')
  | PIn t l => on_thread s t l
  end.

Fixpoint pool_run (s : Pool) (trace : list pool_action) : outcome Pool :=
  match trace with
  | [] => mret s
  | a :: trace' =>
      o ← pool_step a s;
      pool_run (match o with Some s' => s' | None => s end) trace'
  end.

(** No [start] while some [stop] has not returned. *)
Fixpoint pool_separate (s : Pool) (trace : list pool_action) : bool :=
  match trace with
  | [] => true
  | a :: trace' =>
      match a with PStart => bool_decide (leaving s = ∅) | _ => true end
      && match pool_step a s with
         | Val (Some s') => pool_separate s' trace'
         | Val None => pool_separate s trace'
         | UB => true
         end
  end.
End Pool.
Arguments RunThread : clear implicits.
Arguments Pool : clear implicits.
Arguments pool_action : clear implicits.

(** ** One worker at a time

    With no [start] while a [stop] is under way there is at most one worker and one
    call, so every pointer is to the thread's own reactor: the pool is the stream of
    [MarketDataStreamOwners.v], action by action. *)

Section Mirror.
Context `{GrpcCodes}.
Context {Resp W : Type}.
Context (deliver : Resp -> W -> W).
Context (on_state : option (StreamState -> option Error -> W -> W)).
Context (opts : StreamOptions).
Implicit Types (s : Pool Resp W) (q x : @Sys Resp W) (l : @label Resp).
Implicit Types (o : MarketDataStreamOwners.Shared Resp W).

Abbreviation mdstep := (step deliver on_state opts).
Abbreviation mdrun := (run deliver on_state opts).
Abbreviation tstep := (thread_step deliver on_state opts).
Abbreviation ostep := (MarketDataStreamOwners.shared_step deliver on_state opts).
Abbreviation orun := (MarketDataStreamOwners.shared_run deliver on_state opts).
Abbreviation pstep := (pool_step deliver on_state opts).
Abbreviation prun := (pool_run deliver on_state opts).

(** *** The pointers of a stream with one worker *)

Definition own_call x : option nat := session <$> call x.

Record OwnPointers x : Prop := {
  op_ctx : ctx (mem x) = own_call x;
  op_reactor : reactor (mem x) = None \/ reactor (mem x) = own_call x;
  op_reader : reader_release (reader x) = None \/ reader_release (reader x) = own_call x;
  op_writer : writer_release (writer x) = None \/ writer_release (writer x) = own_call x;
  op_idle : in_session (worker x) = false -> call x = None;
  op_no_call : call x = None -> reader x = ReaderIdle /\ writer x = WriterIdle;
}.

Lemma points_own (r : option nat) (c : Call) :
  points r (session c) -> r = None \/ r = Some (session c).
Proof. destruct r as [n|]; cbn; [intros ->; by right|by left]. Qed.

Lemma own_pointers q u : Inv q -> OwnPointers (with_owner q u).
Proof.
  intros Hi. unfold own_call. destruct (in_session (worker q)) eqn:Ew.
  - destruct (inv_call q Hi Ew) as (c & Ec & Hc).
    destruct (co_ptrs _ _ _ _ _ _ Hc) as (_ & Hr & Hw).
    split; unfold own_call; cbn; rewrite ?Ec; cbn; try done.
    + apply (co_ctx _ _ _ _ _ _ Hc).
    + rewrite (co_reactor _ _ _ _ _ _ Hc).
      destruct (finished c); [by left|]. destruct (published _); by (left + right).
    + by apply points_own.
    + by apply points_own.
    + by rewrite Ew.
  - destruct (inv_idle q Hi Ew) as [E1 E2 E3 E4 E5 _].
    split; unfold own_call; cbn; rewrite ?E1, ?E2, ?E3, ?E4, ?E5; cbn; by try left.
Qed.

Lemma own_release q : Inv q ->
  owner_release (owner q) = None \/ owner_release (owner q) = own_call q.
Proof.
  intros Hi. unfold own_call. destruct (in_session (worker q)) eqn:Ew.
  - destruct (inv_call q Hi Ew) as (c & Ec & Hc). rewrite Ec.
    by apply points_own, (co_ptrs _ _ _ _ _ _ Hc).
  - left. apply (io_owner _ _ _ _ _ (inv_idle q Hi Ew)).
Qed.

(** The thread that a stream with one worker runs, and its heap. *)
Definition run_of x : RunThread Resp :=
  MkRun (worker x) (attempt x) (own_call x) (reader x) (writer x).
Definition run_threads (t : nat) x : gmap nat (RunThread Resp) :=
  match worker x with NoThread => ∅ | _ => {[t := run_of x]} end.
Definition heap_of (c : option Call) : gmap nat Call :=
  match c with Some c => {[session c := c]} | None => ∅ end.

Lemma pointed_own (p own : option nat) : p = None \/ p = own -> pointed p own = own.
Proof. by intros [->| ->]; [|destruct own]. Qed.

Lemma touched_own l x : OwnPointers x -> touched (mem x) (run_of x) l = own_call x.
Proof.
  intros [H1 H2 H3 H4 _ _]. destruct l; try done; cbn [touched run_of t_reader t_writer t_session].
  - destruct (reader x); try done. by apply pointed_own.
  - destruct (writer x); try done; by apply pointed_own.
Qed.

Lemma deref_heap (c : option Call) : deref_call (heap_of c) (session <$> c) = c.
Proof. destruct c as [c|]; [|done]. cbn. by rewrite lookup_singleton_eq. Qed.

Lemma store_heap (c c' : option Call) :
  (forall k k', c = Some k -> c' = Some k' -> session k' = session k) ->
  store_call (heap_of c) (session <$> c) c' = heap_of c'.
Proof.
  intros Hs. destruct c as [k|], c' as [k'|]; cbn; try done.
  { by rewrite (Hs k k' eq_refl eq_refl), insert_singleton_eq. }
  by rewrite delete_singleton_eq.
Qed.

(** *** The actions keep the identity of the call *)

Lemma same_session_store (c c' : option Call) :
  same_session c c' -> store_call (heap_of c) (session <$> c) c' = heap_of c'.
Proof.
  intros Hs. apply store_heap. intros k k' -> ->. unfold same_session in Hs. cbn in Hs. congruence.
Qed.

(** What a callback leaves of the call. *)
Lemma callback_session l q q' :
  l <> LWorker -> tstep l q = Val (Some q') -> same_session (call q) (call q').
Proof.
  intros Hl E. destruct l; try done; cbn [thread_step] in E; unfold_step E;
    step_cases E; injection E as <-; cbn;
    first [done | by eapply release_session | by eapply maybe_write_session
          | unfold same_session; cbn; congruence].
Qed.

(** [run] keeps its call until it destroys it. *)
Lemma worker_session q q' k k' :
  (in_session (worker q) = false -> call q = None) ->
  worker_step on_state opts q = Val (Some q') ->
  call q = Some k -> call q' = Some k' -> session k' = session k.
Proof.
  intros Hidle E Ec Ec'. unfold worker_step in E.
  destruct (worker q) eqn:Ew; cbn in E, Hidle; try (by rewrite Hidle in Ec).
  - unfold Begin in E. rewrite Ec in E. destruct (bound k); [done|].
    injection E as <-. cbn in Ec'. by injection Ec' as <-.
  - unfold run_once_publish in E. destruct (done _); [injection E as <-; cbn in Ec'; congruence|].
    destruct (_ && _) in E; [injection E as <-; cbn in Ec'; congruence|].
    destruct (maybe_write_locked _ _) as [[m c]|] eqn:Er in E; [|done].
    injection E as <-. cbn in Ec'. apply maybe_write_session in Er.
    unfold same_session in Er. rewrite Ec, Ec' in Er. cbn in Er. congruence.
  - destruct (release_hold _ _) as [c|] eqn:Er in E; [|done].
    injection E as <-. cbn in Ec'. apply release_session in Er.
    unfold same_session in Er. rewrite Ec, Ec' in Er. cbn in Er. congruence.
  - destruct (done _); [|done]. unfold run_once_return, destroy in E. rewrite Ec in E.
    destruct (finished k); [|done]. by injection E as <-.
Qed.

(** *** [start] and [stop] keep out of the threads' way *)

Definition with_joinable x (j : bool) : @Sys Resp W :=
  MkSys (mem x) j (worker x) (attempt x) (owner x) (reader x) (writer x) (call x)
    (next_session x) (world x).

Lemma thread_step_joinable l x j :
  tstep l (with_joinable x j)
  = (r ← tstep l x; mret (fmap (M := option) (fun x' => with_joinable x' j) r)).
Proof.
  destruct l as [| | | | | | |res|ok|st]; cbn [thread_step]; try done.
  - unfold worker_step. cbn. destruct (worker x); cbn; try done; try by case_match.
    + unfold run_once_enter. cbn. by destruct (stopping _).
    + by destruct (Begin _).
    + unfold run_once_publish. cbn. destruct (done _); [done|].
      destruct (_ && _); [done|]. by destruct (maybe_write_locked _ _) as [[]|].
    + destruct (session <$> call x) as [n|]; [|done]. cbn. by destruct (RemoveHold (call x) n).
    + destruct (done _); [|done]. unfold run_once_return. cbn. by destruct (destroy _).
    + unfold report. cbn. destruct (reconnect opts); [|done].
      destruct (backoff_delay _ _); [|done]. cbn. by destruct (checked _ _).
  - unfold reader_step. cbn. destruct (reader x) as [|r|f r| | |rl]; cbn; try done.
    + destruct (call x); [|done]. by destruct (StartRead _ _).
    + by destruct (release_hold _ _).
  - unfold writer_step. cbn. destruct (writer x) as [| | |rl]; cbn; try done.
    + by destruct (maybe_write_locked _ _) as [[]|].
    + by destruct (release_hold _ _).
  - unfold read_done. cbn. destruct (call x), (reader x); try done. by destruct (reading _).
  - unfold write_done. cbn. destruct (call x), (writer x); try done. by destruct (writing _).
  - unfold on_done. cbn. destruct (call x), (reader x), (writer x); try done.
    by destruct (_ && _).
Qed.

Definition is_thread_label l : bool :=
  match l with LStart | LStop | LOwner | LSend _ _ => false | _ => true end.

Lemma pool_thread_step_sys l x : is_thread_label l = true -> tstep l x = mdstep l x.
Proof. by destruct l. Qed.

Lemma thread_step_keeps l x x' :
  tstep l x = Val (Some x') -> joinable x' = joinable x /\ owner x' = owner x.
Proof.
  intros E. split.
  - pose proof (thread_step_joinable l x (joinable x)) as Hc.
    replace (with_joinable x (joinable x)) with x in Hc by by destruct x.
    rewrite E in Hc. injection Hc as Hc. by rewrite Hc.
  - destruct (is_thread_label l) eqn:El; [|by destruct l].
    rewrite pool_thread_step_sys in E by done.
    eapply step_keeps_owner; [|exact E]. by destruct l.
Qed.

(** A thread that runs goes on existing. *)
Lemma thread_step_exists l x x' :
  tstep l x = Val (Some x') -> worker x <> NoThread -> worker x' <> NoThread.
Proof.
  intros E Hw. destruct l; cbn [thread_step] in E; unfold_step E;
    step_cases E; injection E as <-; cbn; congruence.
Qed.

Lemma run_threads_session t x x' :
  worker x' = worker x -> attempt x' = attempt x -> reader x' = reader x ->
  writer x' = writer x -> same_session (call x) (call x') ->
  run_threads t x' = run_threads t x.
Proof.
  intros E1 E2 E3 E4 Hs. unfold run_threads, run_of, own_call. by rewrite E1, E2, E3, E4, Hs.
Qed.

(** *** Representation *)

Definition handle_of (t : nat) (j : bool) : option nat := if j then Some t else None.

Definition leave_of (t : nat) (u : Owner) : Leaving :=
  match u with
  | StopReleasing r j => LeaveReleasing r (handle_of t j)
  | StopJoining j => LeaveJoining (handle_of t j)
  | OwnerIdle => LeaveJoining None
  end.

Abbreviation stream_of := MarketDataStreamOwners.stream.
Abbreviation stops_of := MarketDataStreamOwners.stops.

(** The only thread is [t]. *)
Record Rep (t : nat) s o : Prop := {
  rep_mem : members s = mem (stream_of o);
  rep_world : user s = world (stream_of o);
  rep_session : sessions s = next_session (stream_of o);
  rep_threads : threads s = run_threads t (stream_of o);
  rep_calls : calls s = heap_of (call (stream_of o));
  rep_handle : worker_ s = handle_of t (joinable (stream_of o));
  rep_leaving : leaving s = leave_of t <$> stops_of o;
}.

(** Both do nothing, both are undefined, or both move and correspond. *)
Definition Mirrors (r : outcome (option (Pool Resp W)))
    (r' : outcome (option (MarketDataStreamOwners.Shared Resp W))) : Prop :=
  match r, r' with
  | UB, UB | Val None, Val None => True
  | Val (Some s'), Val (Some o') => exists t', Rep t' s' o'
  | _, _ => False
  end.

Definition IdleStream o : Prop := owner (stream_of o) = OwnerIdle.

Lemma mirror_start t s o :
  Rep t s o -> OwnPointers (stream_of o) -> stops_of o = ∅ ->
  (joinable (stream_of o) = false -> worker (stream_of o) = NoThread) ->
  Mirrors (pstep PStart s) (ostep MarketDataStreamOwners.Start o).
Proof.
  intros [R1 R2 R3 R4 R5 R6 R7] [P1 P2 P3 P4 P5 P6] Hs Hn.
  cbn [pool_step MarketDataStreamOwners.shared_step].
  rewrite bool_decide_true by done. unfold start_pool, start. rewrite R6.
  destruct (joinable (stream_of o)) eqn:Ej; cbn [handle_of].
  { exists t. split; cbn; try done. by rewrite R6, Ej. }
  specialize (Hn eq_refl). rewrite Hn in P5. destruct (P6 (P5 eq_refl)) as [Hr Hw].
  exists (next_thread s). split; cbn; try done.
  - by rewrite R1.
  - rewrite R4. unfold run_threads. rewrite Hn. cbn. unfold run_of, own_call. cbn.
    rewrite Hr, Hw, P5 by done. by rewrite insert_empty.
  - by rewrite R7, Hs, !fmap_empty.
Qed.

Lemma pool_threads_cases t x :
  worker x = NoThread /\ run_threads t x = ∅
  \/ worker x <> NoThread /\ run_threads t x = {[t := run_of x]}.
Proof. unfold run_threads. destruct (worker x); [by left|by right..]. Qed.

(** The session that a step of the thread leaves it. *)
Lemma thread_step_own l x x' :
  OwnPointers x -> tstep l x = Val (Some x') ->
  match l with LWorker => session <$> call x' | _ => own_call x end = own_call x'
  /\ store_call (heap_of (call x)) (own_call x) (call x') = heap_of (call x').
Proof.
  intros HP E. split.
  - destruct l; try done; symmetry;
      (eapply (callback_session _ x x'); [|exact E]; discriminate).
  - apply store_heap. intros k k' Ek Ek'. destruct l; try done.
    1: by eapply worker_session; [apply (op_idle _ HP)| |exact Ek|exact Ek'].
    all: apply callback_session in E; [|done]; unfold same_session in E;
      rewrite Ek, Ek' in E; cbn in E; congruence.
Qed.

Lemma mirror_thread t s o l :
  Rep t s o -> OwnPointers (stream_of o) -> owner (stream_of o) = OwnerIdle ->
  is_thread_label l = true ->
  (worker (stream_of o) = NoThread -> mdstep l (stream_of o) = Val None) ->
  Mirrors (pstep (PIn t l) s) (ostep (MarketDataStreamOwners.In l) o).
Proof.
  intros [R1 R2 R3 R4 R5 R6 R7] HP Ho Hl Hno.
  cbn [pool_step MarketDataStreamOwners.shared_step]. unfold on_thread.
  replace (is_owner l) with false by by destruct l. rewrite R4.
  destruct (pool_threads_cases t (stream_of o)) as [[Hw Hth]|[Hw Hth]]; rewrite Hth.
  { by rewrite lookup_empty, Hno. }
  rewrite lookup_singleton_eq, R1, (touched_own _ _ HP), R5. unfold own_call at 1.
  rewrite deref_heap, <- pool_thread_step_sys by done.
  replace (view s (run_of (stream_of o)) (call (stream_of o)))
    with (with_joinable (stream_of o) false)
    by (unfold view, with_joinable; cbn; by rewrite R1, R2, R3, Ho).
  rewrite thread_step_joinable.
  destruct (tstep l (stream_of o)) as [[x'|]|] eqn:E; cbn; try done.
  destruct (thread_step_own l _ _ HP E) as [Hown Hst].
  destruct (thread_step_keeps l _ _ E) as [Ej Eo].
  exists t. split; cbn; try done.
  - rewrite R4, Hth, insert_singleton_eq.
    pose proof (thread_step_exists l _ _ E Hw) as Hw'.
    destruct (pool_threads_cases t x') as [[? _]|[_ ->]]; [done|].
    unfold run_of. by rewrite Hown.
  - by rewrite R5.
  - by rewrite R6, Ej.
Qed.

(** [send] and the critical section of [stop] read the members and one call. *)
Lemma send_parts q x r b :
  mem q = mem x -> call q = call x ->
  send q r b = (x' ← send x r b; mret (with_call (with_mem q (mem x')) (call x'))).
Proof.
  intros Em Ec. unfold send. rewrite Em, Ec. destruct (stopping (mem x)).
  { cbn. rewrite <- Em, <- Ec. by destruct q. }
  destruct (track _ _ _); [|done]. cbn. case_match; [|cbn; rewrite <- Ec; by destruct q].
  by destruct (maybe_write_locked _ _) as [[]|].
Qed.

Lemma send_without_reactor x r b c :
  reactor (mem x) = None ->
  send (with_call x c) r b = (x' ← send x r b; mret (with_call x' c))
  /\ forall x', send x r b = Val x' -> call x' = call x.
Proof.
  intros Er. unfold send. cbn. rewrite Er. destruct (stopping (mem x)).
  { split; [done|]. by intros x' [= <-]. }
  destruct (track _ _ _); [|done]. cbn. split; [done|]. by intros x' [= <-].
Qed.

Lemma send_keeps x r b x' :
  send x r b = Val x' -> x' = with_call (with_mem x (mem x')) (call x').
Proof.
  intros E. pose proof (send_parts x x r b eq_refl eq_refl) as Hp. rewrite E in Hp. cbn in Hp.
  by injection Hp.
Qed.

Lemma mirror_send t s o r b :
  Rep t s o -> OwnPointers (stream_of o) ->
  Mirrors (pstep (PSend r b) s) (ostep (MarketDataStreamOwners.In (LSend r b)) o).
Proof.
  intros [R1 R2 R3 R4 R5 R6 R7] HP.
  cbn [pool_step MarketDataStreamOwners.shared_step is_owner step]. unfold send_pool.
  rewrite R1, R5.
  assert (Hs : match send (stream_of o) r b, send (outside s (deref_call
        (heap_of (call (stream_of o))) (reactor (mem (stream_of o))))) r b with
    | UB, UB => True
    | Val x', Val q => mem q = mem x'
        /\ store_call (heap_of (call (stream_of o))) (reactor (mem (stream_of o))) (call q)
           = heap_of (call x')
    | _, _ => False
    end).
  { destruct (op_reactor _ HP) as [Er|Er]; rewrite Er.
    - cbn [deref_call].
      rewrite (send_parts (outside s None) (with_call (stream_of o) None)) by (cbn; congruence).
      destruct (send_without_reactor (stream_of o) r b None Er) as [-> Hc].
      destruct (send (stream_of o) r b) as [x'|]; cbn; [|done].
      by rewrite (Hc x' eq_refl).
    - unfold own_call. rewrite deref_heap.
      rewrite (send_parts (outside s (call (stream_of o))) (stream_of o)) by (cbn; congruence).
      destruct (send (stream_of o) r b) as [x'|] eqn:E; cbn; [|done].
      split; [done|]. by apply send_session, same_session_store in E. }
  destruct (send (stream_of o) r b) as [x'|] eqn:E, (send (outside _ _) r b) as [q|];
    cbn; try done.
  destruct Hs as [Em Ec]. pose proof (send_session _ _ _ _ E) as Hses.
  apply send_keeps in E. exists t. rewrite E. split; cbn; try done.
  rewrite R4. symmetry. by apply run_threads_session.
Qed.

Lemma stop_locked_parts q x :
  mem q = mem x -> call q = call x ->
  stop_locked q
  = (x' ← stop_locked x;
     mret (MkSys (mem x') false (worker q) (attempt q)
             (StopReleasing (owner_release (owner x')) (joinable q)) (reader q) (writer q)
             (call x') (next_session q) (world q))).
Proof.
  intros Em Ec. unfold stop_locked. rewrite Em, Ec.
  destruct (ctx (mem x)) as [n|]; [|done]. by destruct (TryCancel _ _).
Qed.

Lemma mirror_stop t s o u :
  Rep t s o -> OwnPointers (stream_of o) ->
  Mirrors (pstep (PStop u) s) (ostep (MarketDataStreamOwners.Stop u) o).
Proof.
  intros [R1 R2 R3 R4 R5 R6 R7] HP.
  cbn [pool_step MarketDataStreamOwners.shared_step]. rewrite R7, lookup_fmap.
  destruct (stops_of o !! u); cbn [fmap option_fmap option_map]; [done|].
  unfold stop_pool, MarketDataStreamOwners.stop_enter.
  rewrite R1, R5, (op_ctx _ HP). unfold own_call. rewrite deref_heap.
  rewrite (stop_locked_parts (outside s _) (stream_of o)) by (cbn; congruence).
  rewrite (stop_locked_parts (stream_of o) (stream_of o)) by done.
  destruct (stop_locked (stream_of o)) as [x'|] eqn:E; cbn; [|done].
  exists t. split; cbn; try done.
  - rewrite R4. symmetry. apply run_threads_session; try done. by apply stop_locked_session in E.
  - by apply stop_locked_session, same_session_store in E.
  - by rewrite fmap_insert, R7, R6.
Qed.

(** What a caller of [stop] goes on to release, if anything, is the own reactor. *)
Lemma mirror_leave t s o u :
  Rep t s o -> OwnPointers (stream_of o) ->
  (forall w, stops_of o !! u = Some w -> w <> OwnerIdle
     /\ (owner_release w = None \/ owner_release w = own_call (stream_of o))) ->
  Mirrors (pstep (PLeave u) s) (ostep (MarketDataStreamOwners.Continue u) o).
Proof.
  intros [R1 R2 R3 R4 R5 R6 R7] HP Hu.
  cbn [pool_step MarketDataStreamOwners.shared_step].
  unfold leave_step, MarketDataStreamOwners.stop_continue. rewrite R7, lookup_fmap.
  destruct (stops_of o !! u) as [w|] eqn:Eu; cbn [fmap option_fmap option_map]; [|done].
  destruct (Hu w eq_refl) as [Hidle Hrel]. unfold owner_step.
  destruct w as [|rl j|j]; cbn [leave_of owner with_owner call]; [done| |].
  - cbn in Hrel. rewrite R5. destruct Hrel as [->|Hrel].
    + cbn. exists t. split; cbn; try done. by rewrite fmap_insert.
    + rewrite Hrel at 1. unfold own_call. rewrite deref_heap.
      destruct (release_hold (call (stream_of o)) rl) as [c|] eqn:E; cbn; [|done].
      exists t. split; cbn; try done.
      * rewrite R4. symmetry. apply run_threads_session; try done. by apply release_session in E.
      * rewrite Hrel. by apply release_session, same_session_store in E.
      * by rewrite fmap_insert.
  - destruct j; cbn [handle_of].
    + rewrite R4. destruct (pool_threads_cases t (stream_of o)) as [[Hw Hth]|[Hw Hth]];
        rewrite Hth; cbn.
      { rewrite Hw. by rewrite lookup_empty. }
      rewrite lookup_singleton_eq. cbn. destruct (worker (stream_of o)) eqn:Ew; try done.
      cbn. exists t. split; cbn; try done.
      * by rewrite delete_singleton_eq.
      * by rewrite fmap_delete.
    + cbn. exists t. split; cbn; try done. by rewrite fmap_delete.
Qed.

(** *** Executions *)

Abbreviation OwnersSim := MarketDataStreamOwners.Sim.

(** One action of the pool is at most one of the stream with several owners. *)
Definition Mirrored o (r : outcome (option (Pool Resp W))) : Prop :=
  exists r', r = Val r' /\ forall s', r' = Some s' ->
  exists t' a o', ostep a o = Val (Some o') /\ Rep t' s' o'.

Lemma mirrored_by o a r r' :
  Mirrors r (ostep a o) -> ostep a o = Val r' -> Mirrored o r.
Proof.
  intros Hm E. rewrite E in Hm. destruct r as [[s'|]|]; [|by eexists|by destruct r'].
  destruct r' as [o'|]; [|done]. destruct Hm as [t' Hr].
  eexists. split; [done|]. intros ? [= <-]. by exists t', a, o'.
Qed.

Lemma stopper_points o q u w :
  OwnersSim o q -> Inv q -> stops_of o !! u = Some w ->
  w <> OwnerIdle
  /\ (owner_release w = None \/ owner_release w = own_call (stream_of o)).
Proof.
  intros [H1 H2] Hi Hu.
  assert (Hw : MarketDataStreamOwners.trivial_stop w = true
               \/ w = owner q /\ joins w = true).
  { destruct H2 as [[_ Hn]|(u0 & Hu0 & Hj & Hn & _)]; [left; by eapply Hn|].
    destruct (decide (u = u0)) as [->|Hne]; [right|left; by eapply Hn].
    rewrite Hu in Hu0. by injection Hu0 as ->. }
  rewrite H1. destruct Hw as [Hw|[-> Hj]].
  - by destruct w as [|[] []|[]]; try done; (split; [|left]).
  - split; [by destruct (owner q)|]. exact (own_release q Hi).
Qed.

Lemma no_thread_step l q :
  Inv q -> worker q = NoThread -> is_thread_label l = true ->
  mdstep l (with_owner q OwnerIdle) = Val None.
Proof.
  intros Hi Hw Hl. destruct (inv_idle q Hi) as [Hc _ _ Hr Hwr _]; [by rewrite Hw|].
  destruct l; try done; cbn; unfold worker_step, reader_step, writer_step, read_done,
    write_done, on_done; cbn; by rewrite ?Hw, ?Hc, ?Hr, ?Hwr.
Qed.

Lemma pool_sim_step a t s o q :
  BackoffRange opts -> 0 <= attempt q < wmax W32 ->
  Rep t s o -> OwnersSim o q -> Inv q -> (a = PStart -> leaving s = ∅) ->
  Mirrored o (pstep a s).
Proof.
  intros Hb Ha HR HS Hi Hsep. pose proof HS as [H1 H2].
  assert (HP : OwnPointers (stream_of o)) by (rewrite H1; by apply own_pointers).
  assert (Hval : forall b, exists r, ostep b o = Val r).
  { intros b. destruct (MarketDataStreamOwners.owners_sim_step deliver on_state opts b o q
      Hb Ha HS Hi) as (r & E & _). by exists r. }
  destruct a as [|u|u|r b|t' l].
  - assert (Hs : stops_of o = ∅).
    { specialize (Hsep eq_refl). rewrite (rep_leaving _ _ _ HR) in Hsep.
      by apply fmap_empty_inv in Hsep. }
    destruct (Hval MarketDataStreamOwners.Start) as [r' E].
    eapply mirrored_by; [|exact E]. apply (mirror_start t); try done.
    destruct H2 as [[Ho _]|(u & Hu & _)]; [|by rewrite Hs in Hu].
    rewrite H1. cbn. intros Ej. pose proof (inv_thread _ Hi) as Ht. rewrite Ej, Ho in Ht.
    by destruct (worker q).
  - destruct (Hval (MarketDataStreamOwners.Stop u)) as [r' E].
    eapply mirrored_by; [|exact E]. by apply (mirror_stop t).
  - destruct (Hval (MarketDataStreamOwners.Continue u)) as [r' E].
    eapply mirrored_by; [|exact E]. apply (mirror_leave t); try done.
    intros w Hu. by eapply stopper_points.
  - destruct (Hval (MarketDataStreamOwners.In (LSend r b))) as [r' E].
    eapply mirrored_by; [|exact E]. by apply (mirror_send t).
  - destruct (decide (t' = t)) as [->|Hne].
    + destruct (is_thread_label l) eqn:El.
      * destruct (Hval (MarketDataStreamOwners.In l)) as [r' E].
        eapply mirrored_by; [|exact E]. apply mirror_thread; try done; rewrite H1; [done|].
        intros Hw. by apply no_thread_step.
      * exists None. split; [|done]. cbn [pool_step]. unfold on_thread.
        destruct (threads s !! t); [by destruct l|done].
    + exists None. split; [|done]. cbn [pool_step]. unfold on_thread.
      rewrite (rep_threads _ _ _ HR).
      destruct (pool_threads_cases t (stream_of o)) as [[_ ->]|[_ ->]];
        [by rewrite lookup_empty|by rewrite lookup_singleton_ne].
Qed.

Lemma pool_sim_run trace t s o q :
  BackoffRange opts -> 0 <= attempt q ->
  attempt q + 3 * Z.of_nat (length trace) < wmax W32 ->
  Rep t s o -> OwnersSim o q -> Inv q ->
  pool_separate deliver on_state opts s trace = true ->
  exists s' o' q' tr t', prun s trace = Val s' /\ mdrun q tr = Val q'
    /\ (length tr <= 3 * length trace)%nat /\ Rep t' s' o' /\ OwnersSim o' q' /\ Inv q'
    /\ 0 <= attempt q' <= attempt q + Z.of_nat (length tr).
Proof.
  intros Hb. revert t s o q. induction trace as [|a trace IH]; intros t s o q Ha Hl HR HS Hi Hsep.
  { exists s, o, q, [], t. cbn. split_and!; try done; lia. }
  cbn [pool_run pool_separate length] in *. apply andb_true_iff in Hsep as [Hst Hsep].
  destruct (pool_sim_step a t s o q Hb ltac:(lia) HR HS Hi) as (r & E & Hr).
  { intros ->. by apply bool_decide_eq_true in Hst. }
  rewrite E in Hsep |- *. cbn [mbind outcome_bind]. destruct r as [s1|].
  - destruct (Hr s1 eq_refl) as (t1 & b & o1 & Eb & HR1).
    destruct (MarketDataStreamOwners.owners_sim_step deliver on_state opts b o q
      Hb ltac:(lia) HS Hi) as (r' & Eb' & Hr').
    rewrite Eb in Eb'. injection Eb' as <-.
    destruct (Hr' o1 eq_refl) as (tr & q1 & Hlen & Eq & HS1).
    destruct (run_ok deliver on_state opts tr q Hb Ha ltac:(lia) Hi)
      as (q1' & Eq' & Hi1 & Ha1). rewrite Eq in Eq'. injection Eq' as <-.
    destruct (IH t1 s1 o1 q1) as (s' & o' & q' & tr' & t' & E1 & E2 & Hl' & H3 & H4 & H5 & Ha');
      [lia|lia|done..|].
    exists s', o', q', (tr ++ tr'), t'. rewrite length_app.
    split_and!; try done; try lia.
    by rewrite (stream_run_app deliver on_state opts q tr tr' q1).
  - destruct (IH t s o q) as (s' & o' & q' & tr' & t' & H'); [lia|lia|done..|].
    exists s', o', q', tr', t'. destruct H' as (?&?&?&?&?&?&?). split_and!; try done; lia.
Qed.

Lemma pool_init_rep w : Rep 0 (pool_init w) (MarketDataStreamOwners.shared_init w).
Proof. by split. Qed.

(** What is bound to come while some [stop] has not returned: a step of a caller of
    [stop], of a worker or of a running callback, or the end of an operation of the
    worker's call, if that is cancelled. *)
Definition proceeds s (a : pool_action Resp) : Prop :=
  match a with
  | PStart | PStop _ | PSend _ _ => False
  | PLeave _ => True
  | PIn t l => exists th, threads s !! t = Some th
      /\ due l (view s th (deref_call (calls s) (t_session th))) = true
  end.

Lemma mirrors_some r o' :
  Mirrors r (Val (Some o')) -> exists s', r = Val (Some s').
Proof. destruct r as [[s'|]|]; try done. by exists s'. Qed.

Lemma pool_progress t s o q u w :
  BackoffRange opts -> 0 <= attempt q < wmax W32 ->
  Rep t s o -> OwnersSim o q -> Inv q -> leaving s !! u = Some w ->
  exists a s', pstep a s = Val (Some s') /\ proceeds s a.
Proof.
  intros Hb Ha HR HS Hi Hu. pose proof HS as [H1 H2].
  assert (HP : OwnPointers (stream_of o)) by (rewrite H1; by apply own_pointers).
  rewrite (rep_leaving _ _ _ HR), lookup_fmap in Hu.
  destruct (stops_of o !! u) as [ow|] eqn:Eu; [|done].
  destruct (MarketDataStreamOwners.owners_sim_progress deliver on_state opts o q u ow)
    as (a & o' & E & Hint); try done.
  destruct a as [|v|v|l]; try done.
  - destruct (mirrors_some (pstep (PLeave v) s) o') as [s' Es]; [|by exists (PLeave v), s'].
    rewrite <- E. apply (mirror_leave t); try done. intros w' Hv. by eapply stopper_points.
  - assert (Hl : is_thread_label l = true) by by destruct l.
    destruct (mirrors_some (pstep (PIn t l) s) o') as [s' Es].
    { rewrite <- E. apply mirror_thread; try done; rewrite H1; [done|].
      intros Hw. by apply no_thread_step. }
    exists (PIn t l), s'. split; [done|]. cbn [pool_step] in Es. unfold on_thread in Es.
    rewrite (rep_threads _ _ _ HR) in Es.
    destruct (pool_threads_cases t (stream_of o)) as [[_ Hth]|[_ Hth]]; rewrite Hth in Es;
      [by rewrite lookup_empty in Es|].
    exists (run_of (stream_of o)). rewrite (rep_threads _ _ _ HR), Hth, lookup_singleton_eq.
    split; [done|]. rewrite (rep_calls _ _ _ HR). cbn [t_session run_of].
    unfold own_call. rewrite deref_heap. by destruct l as [| | | | | | |[]| |].
Qed.
End Mirror.

(** ** Properties *)

Section Properties.
Context `{GrpcCodes}.
Context {Resp W : Type}.
Context (deliver : Resp -> W -> W).
Context (on_state : option (StreamState -> option Error -> W -> W)).
Context (opts : StreamOptions).

Abbreviation prun := (pool_run deliver on_state opts).

(** A caller of [stop] that has a hold to release or a thread to join. *)
Definition has_work (w : Leaving) : bool :=
  match w with LeaveReleasing None None | LeaveJoining None => false | _ => true end.

Lemma has_work_trivial t (u : Owner) :
  has_work (leave_of t u) = true -> MarketDataStreamOwners.trivial_stop u = false.
Proof. by destruct u as [|[] []|[]]. Qed.

(** C13. Threads, reactors and calls of their own do not matter as long as no [start]
    overlaps a [stop]: then, with any number of threads calling [start], [stop] and
    [send], every interleaving has defined behaviour; there is at most one worker and
    one call; and the members, the call, the worker's locals and what the callbacks see
    are those of the stream with a single owner, with at most three actions for one.
    At most one caller of [stop] has a hold to release or a thread to join, and while a
    [stop] has not returned an enabled action of such a caller, of the worker or of its
    cancelled call is due. *)
Theorem market_data_threads_refine (w : W) (trace : list (pool_action Resp)) :
  BackoffRange opts -> 3 * Z.of_nat (length trace) < wmax W32 ->
  pool_separate deliver on_state opts (pool_init w) trace = true ->
  exists s q single,
    prun (pool_init w) trace = Val s
    /\ run deliver on_state opts (init w) single = Val q
    /\ (length single <= 3 * length trace)%nat
    /\ members s = mem q /\ user s = world q /\ calls s = heap_of (call q)
    /\ (size (threads s) <= 1)%nat
    /\ (forall t th, threads s !! t = Some th -> th = run_of q)
    /\ (forall u u' x x', leaving s !! u = Some x -> leaving s !! u' = Some x' ->
          has_work x = true -> has_work x' = true -> u = u')
    /\ forall u x, leaving s !! u = Some x ->
         exists a s', pool_step deliver on_state opts a s = Val (Some s') /\ proceeds s a.
Proof.
  intros Hb Hl Hsep.
  destruct (pool_sim_run deliver on_state opts trace 0 (pool_init w)
              (MarketDataStreamOwners.shared_init w) (init w))
    as (s & o & q & tr & t & Es & Eq & Hlen & HR & HS & Hi & Ha);
    [done|done|exact Hl|apply pool_init_rep|apply MarketDataStreamOwners.owners_shared_init_sim
    |apply init_inv|done|].
  change (attempt (init w)) with 0 in Ha.
  exists s, q, tr. pose proof HR as [R1 R2 R3 R4 R5 R6 R7]. pose proof HS as [H1 H2].
  rewrite H1 in R1, R2, R4, R5. split_and!; try done.
  - rewrite R4. destruct (pool_threads_cases t (with_owner q OwnerIdle)) as [[_ ->]|[_ ->]].
    + rewrite map_size_empty. lia.
    + by rewrite map_size_singleton.
  - intros t' th. rewrite R4.
    destruct (pool_threads_cases t (with_owner q OwnerIdle)) as [[_ ->]|[_ ->]]; [done|].
    by intros [_ <-]%lookup_singleton_Some.
  - intros u u' x x'. rewrite R7, !lookup_fmap.
    destruct (MarketDataStreamOwners.stops o !! u) as [y|] eqn:Eu; [|done].
    destruct (MarketDataStreamOwners.stops o !! u') as [y'|] eqn:Eu'; [|done].
    intros [= <-] [= <-] Hw%has_work_trivial Hw'%has_work_trivial.
    destruct H2 as [[_ Hn]|(u0 & _ & _ & Hn & _)]; [apply Hn in Eu; congruence|].
    destruct (decide (u = u0)) as [->|Hne]; [|apply Hn in Eu; congruence].
    destruct (decide (u' = u0)) as [->|Hne]; [done|]. apply Hn in Eu'; congruence.
  - intros u x Hu. apply (pool_progress deliver on_state opts t s o q u x); try done. lia.
Qed.

(** The calls that user threads make in an execution. *)
Definition user_calls (trace : list (pool_action Resp)) : list (pool_action Resp) :=
  filter (fun a => match a with PStart | PStop _ | PSend _ _ => true | _ => false end = true)
    trace.

(** A [start] right after the critical section of a [stop]: the old worker waits for
    its cancelled call when the new one begins. *)
Definition market_race_prefix : list (pool_action Resp) :=
  PStart :: replicate 5 (PIn 0 LWorker) ++ [PStop 1; PStart].

(** The old call breaks after the new [run_once] has reset [hold_released_] and before
    it has replaced [reactor_]. *)
Definition double_release : list (pool_action Resp) :=
  market_race_prefix ++ replicate 3 (PIn 1 LWorker)
    ++ [PIn 0 (LReadDone None); PIn 0 LReader; PIn 0 LReader; PLeave 1].

(** ... or after the new reactor is published. *)
Definition wrong_reactor : list (pool_action Resp) :=
  market_race_prefix ++ replicate 5 (PIn 1 LWorker)
    ++ [PIn 0 (LReadDone None); PIn 0 LReader; PIn 0 LReader].

(** ... and then ends, setting [done_]. *)
Definition live_destroyed : list (pool_action Resp) :=
  wrong_reactor
    ++ [PLeave 1; PIn 0 (LDone (MkStatus CANCELLED "")); PIn 1 LWorker].

(** C30. [start] and [stop] race on the market-data stream too, for all callbacks and
    options.  One thread calls [start] and then [stop], another calls [start] before
    the [stop] has joined the worker: two threads may then execute [run] with
    [stopping_] reset, so that the [stop] waits for a worker nobody asks to finish.
    When the cancelled call breaks, its callback may release the hold of the old
    reactor a second time, or that of the new reactor, whose call is neither broken
    nor cancelled; and the [done_] it sets makes the new worker destroy its reactor
    under a live call. *)
Theorem market_data_start_races_stop (w : W) :
  Forall (fun tr => user_calls tr = [PStart; PStop 1; PStart])
    [market_race_prefix; double_release; wrong_reactor; live_destroyed]
  /\ (exists s, prun (pool_init w) market_race_prefix = Val s
        /\ size (threads s) = 2%nat /\ stopping (members s) = false
        /\ worker_ s = Some 1%nat
        /\ leaving s !! 1%nat = Some (LeaveReleasing (Some 0%nat) (Some 0%nat)))
  /\ (exists s c, prun (pool_init w) wrong_reactor = Val s
        /\ reactor (members s) = Some 1%nat /\ calls s !! 1%nat = Some c
        /\ holds c = 0%nat /\ reading c = true /\ finished c = false /\ cancelled c = false
        /\ broken (members s) = true)
  /\ prun (pool_init w) double_release = UB
  /\ prun (pool_init w) live_destroyed = UB.
Proof.
  split; [by repeat constructor|]. split; [|split; [|split; vm_compute; reflexivity]].
  - eexists. split; [vm_compute; reflexivity|]. vm_compute. by split_and!.
  - eexists _, _. split; [vm_compute; reflexivity|]. vm_compute. by split_and!.
Qed.
End Properties.

(** Two threads stop a connected stream, a third sends, and it is started again. *)
Definition pool_stops : list (pool_action nat) :=
  [PStart] ++ replicate 5 (PIn 0 LWorker)
  ++ [PStop 1; PStop 2; PLeave 2; PLeave 2; PLeave 1; PIn 0 (LReadDone None);
      PIn 0 LReader; PIn 0 LReader; PIn 0 (LDone (MkStatus 1 ""))]
  ++ replicate 3 (PIn 0 LWorker) ++ [PLeave 1; PStart; PIn 1 LWorker].

Example pool_stops_run :
  (s ← pool_run log_data (Some log_state) default_stream_options (pool_init []) pool_stops;
   mret (user s, bool_decide (leaving s = ∅), bool_decide (calls s = ∅),
         t_worker <$> threads s !! 1%nat))
  = Val ([Notified connecting None; Notified stopped None], true, true, Some Connecting).
Proof. vm_compute. reflexivity. Qed.

Lemma market_data_threads_refine_witness :
  exists s, pool_run log_data (Some log_state) default_stream_options
      (pool_init []) pool_stops = Val s
    /\ exists q : @Sys nat (list (event nat)),
         members s = mem q /\ calls s = heap_of (call q).
Proof.
  destruct (market_data_threads_refine log_data (Some log_state)
    default_stream_options [] pool_stops) as (s & q & tr & E & _ & _ & Hm & _ & Hc & _).
  - split_and!; vm_compute; discriminate.
  - vm_compute. reflexivity.
  - vm_compute. reflexivity.
  - exists s. split; [exact E|]. exists q. exact (conj Hm Hc).
Defined.
