(* ===== verification/StreamCallbacks.v ===== *)
(** * What the callbacks of the market-data stream do to the user's state

    The stream of [MarketDataStream.v] is parameterised by the user's callbacks.
    Running it with callbacks that only log the events, and then applying the
    user's callbacks to the log, is the same as running it with them; and the
    messages in the log are those that gRPC read, in order. *)

From S2P Require Import Prelude StdStrings ErrorResult StreamCommon MarketData MarketDataStream StreamInvariant StreamHistory StreamStopping StreamTheorems.
From stdpp Require Import base numbers list strings gmap.
From Stdlib Require Import ZArith Lia.

#[local] Open Scope Z_scope.

(** ** Interpreting the log *)

Section Interpret.
Context `{GrpcCodes}.
Context {Resp W : Type}.
Context (deliver : Resp -> W -> W).
Context (on_state : option (StreamState -> option Error -> W -> W)).
Context (opts : StreamOptions).
Implicit Types (s : @Sys Resp (list (event Resp))) (l : @label Resp).

(** The callback that an event is, applied to the user's state. *)
Definition callback (w : W) (e : event Resp) : W :=
  match e with
  | Notified st err => notify on_state st err w
  | Delivered r => deliver r w
  end.

Definition interpret_log (w : W) (log : list (event Resp)) : W := foldl callback w log.

#[local] Arguments interpret_log : simpl never.

Definition interpret (w : W) s : @Sys Resp W :=
  MkSys (mem s) (joinable s) (worker s) (attempt s) (owner s) (reader s) (writer s)
    (call s) (next_session s) (interpret_log w (world s)).

Abbreviation log_step := (step log_data (Some log_state) opts).
Abbreviation log_run := (run log_data (Some log_state) opts).

Lemma interpret_state w st e log :
  interpret_log w (log_state st e log) = notify on_state st e (interpret_log w log).
Proof. unfold interpret_log, log_state. by rewrite foldl_app. Qed.
Lemma interpret_data w r log :
  interpret_log w (log_data r log) = deliver r (interpret_log w log).
Proof. unfold interpret_log, log_data. by rewrite foldl_app. Qed.

(** Each step of the stream makes the same calls on both states. *)
Lemma step_interpret w l s :
  step deliver on_state opts l (interpret w s)
  = (r ← log_step l s; mret (fmap (M := option) (interpret w) r)).
Proof.
  destruct l as [| |r b| | | | |res|ok|st]; cbn [step].
  - cbn. destruct (owner s); try done. cbn. unfold start. cbn. by destruct (joinable s).
  - cbn. destruct (owner s); try done. unfold stop_locked. cbn.
    by destruct (match ctx (mem s) with
                 | Some n => TryCancel (call s) n | None => mret (call s) end).
  - unfold send. cbn. destruct (stopping (mem s)); [done|].
    destruct (track _ _ _); [|done]. cbn. case_match; [|done].
    by destruct (maybe_write_locked _ _) as [[]|].
  - unfold owner_step. cbn. destruct (owner s) as [|rl j|[]]; try done.
    + by destruct (release_hold _ _).
    + by destruct (worker s).
  - unfold worker_step. cbn. destruct (worker s) eqn:Ew; cbn; try done; try by case_match.
    + unfold with_worker, with_world, interpret. cbn. by rewrite interpret_state.
    + unfold run_once_enter. cbn. by destruct (stopping _).
    + by destruct (Begin _).
    + unfold run_once_publish. cbn. destruct (done _); [done|].
      destruct (_ && _); [done|]. by destruct (maybe_write_locked _ _) as [[]|].
    + destruct (session <$> call s) as [n|]; [|done]. cbn. by destruct (RemoveHold (call s) n).
    + destruct (done _); [|done]. unfold run_once_return. cbn. by destruct (destroy _).
    + unfold report. cbn. destruct (reconnect opts).
      * destruct (backoff_delay _ _); [|done]. cbn. destruct (checked _ _); [|done].
        cbn. unfold with_worker, with_world, with_attempt, interpret. cbn.
        by rewrite interpret_state.
      * cbn. unfold with_worker, with_world, with_attempt, interpret. cbn.
        by rewrite interpret_state.
    + unfold with_worker, with_world, interpret. cbn. by rewrite interpret_state.
  - unfold reader_step. cbn. destruct (reader s) as [|r|first r| | |rl]; cbn; try done.
    + unfold with_reader, with_world, interpret. cbn.
      destruct first; by rewrite interpret_data, ?interpret_state.
    + destruct (call s); [|done]. by destruct (StartRead _ _).
    + by destruct (release_hold _ _).
  - unfold writer_step. cbn. destruct (writer s) as [| | |rl]; cbn; try done.
    + by destruct (maybe_write_locked _ _) as [[]|].
    + by destruct (release_hold _ _).
  - unfold read_done. cbn. destruct (call s), (reader s); try done. by destruct (reading _).
  - unfold write_done. cbn. destruct (call s), (writer s); try done. by destruct (writing _).
  - unfold on_done. cbn. destruct (call s), (reader s), (writer s); try done.
    by destruct (_ && _).
Qed.

Lemma run_interpret w trace s :
  run deliver on_state opts (interpret w s) trace
  = (s' ← log_run s trace; mret (interpret w s')).
Proof.
  revert s. induction trace as [|l trace IH]; intros s; cbn [run]; [done|].
  rewrite step_interpret. destruct (log_step l s) as [[s1|]|]; [| |done].
  - apply IH.
  - apply IH.
Qed.

(** ** The messages read *)

(** The messages of the executed [LReadDone] actions, in order. *)
Fixpoint received s (trace : list (@label Resp)) : list Resp :=
  match trace with
  | [] => []
  | l :: trace' =>
      match log_step l s with
      | Val (Some s') =>
          match l with LReadDone (Some r) => r :: received s' trace' | _ => received s' trace' end
      | _ => received s trace'
      end
  end.

(** The message that the reader holds, not delivered yet. *)
Definition in_reader (rd : @Reader Resp) : list Resp :=
  match rd with ReadResponse r | ReadNotify _ r => [r] | _ => [] end.

Definition taken s : list Resp := deliveries (world s) ++ in_reader (reader s).

Lemma step_taken l s s' :
  log_step l s = Val (Some s') ->
  taken s' = taken s ++ match l with LReadDone (Some r) => [r] | _ => [] end.
Proof.
  intros E. unfold taken. rewrite <- ?app_assoc.
  destruct l; cbn [step] in E; unfold_step E;
    unfold start, owner_step, stop_locked, send in E; step_cases E; injection E as <-;
    repeat case_match; simplify_eq; cbn;
    rewrite ?deliveries_data, ?deliveries_state, ?app_nil_r; try congruence.
  by rewrite Heqr, app_nil_r.
Qed.

Lemma run_taken trace s s' :
  log_run s trace = Val s' -> taken s' = taken s ++ received s trace.
Proof.
  revert s. induction trace as [|l trace IH]; intros s E; cbn [run received] in *.
  { injection E as <-. by rewrite app_nil_r. }
  destruct (log_step l s) as [[s1|]|] eqn:Es; [| |done]; cbn in E.
  - rewrite (IH s1 E), (step_taken l s s1 Es), <- app_assoc. f_equal.
    by destruct l as [| | | | | | |[]| |].
  - by rewrite (IH s E).
Qed.
End Interpret.

(** ** Properties *)

Section Properties.
Context `{GrpcCodes}.
Context {Resp W : Type}.

(** The run with the user's callbacks, from the run that logs the events. *)
Lemma run_by_log (deliver : Resp -> W -> W)
    (on_state : option (StreamState -> option Error -> W -> W))
    (opts : StreamOptions) (w : W) (trace : list (@label Resp)) :
  BackoffRange opts -> Z.of_nat (length trace) <= wmax W32 ->
  exists s, run log_data (Some log_state) opts (init []) trace = Val s
    /\ run deliver on_state opts (init w) trace = Val (interpret deliver on_state w s)
    /\ deliveries (world s) ++ in_reader (reader s) = received opts (init []) trace.
Proof.
  intros Hb Hl.
  destruct (reachable log_data (Some log_state) opts [] trace Hb Hl) as (s & E & _ & _).
  exists s. split_and!; [done| |exact (run_taken opts trace (init []) s E)].
  change (init w) with (interpret deliver on_state w (init [])).
  by rewrite run_interpret, E.
Qed.

(** C12. The user's callbacks see every message once.  For all callbacks and any
    interleaving of fewer than 2^31 actions, what the callbacks did to the user's
    state is the fold of the callbacks over one sequence of events: notifications
    that follow the protocol, and messages.  The messages in it, followed by the one
    that the reader may be about to deliver, are exactly those that gRPC read, in
    order; the rest of the stream does not depend on the callbacks. *)
Theorem callbacks_get_every_message (deliver : Resp -> W -> W)
    (on_state : option (StreamState -> option Error -> W -> W))
    (opts : StreamOptions) (w : W) (trace : list (@label Resp)) :
  BackoffRange opts -> Z.of_nat (length trace) <= wmax W32 ->
  exists s log p, run log_data (Some log_state) opts (init []) trace = Val s
    /\ world s = log /\ follows log = Some p
    /\ run deliver on_state opts (init w) trace = Val (interpret deliver on_state w s)
    /\ world (interpret deliver on_state w s) = foldl (callback deliver on_state) w log
    /\ deliveries log ++ in_reader (reader s) = received opts (init []) trace.
Proof.
  intros Hb Hl. destruct (run_by_log deliver on_state opts w trace Hb Hl) as (s & E & Er & Ht).
  assert (Ho : LogOk s) by (apply (run_log opts trace (init []) s); try done; by exists Idle).
  destruct Ho as (p & Hf & _). by exists s, (world s), p.
Qed.
End Properties.

Lemma callbacks_get_every_message_witness :
  exists s, run log_data (Some log_state) default_stream_options (init []) sample_trace = Val s
    /\ run (fun r sum => r + sum)%nat None default_stream_options (init 0%nat) sample_trace
       = Val (interpret (fun r sum => r + sum)%nat None 0%nat s).
Proof.
  destruct (callbacks_get_every_message (fun r sum => r + sum)%nat None
    default_stream_options 0%nat sample_trace) as (s & log & p & E & _ & _ & Er & _).
  - split_and!; vm_compute; discriminate.
  - vm_compute. discriminate.
  - exists s. exact (conj E Er).
Defined.
