(* ===== verification/ServerStream.v ===== *)
(** * Server-side streams ([include/tinvest/streams/server_stream.hpp])

    [ServerStream<Req, Resp>]: a worker thread ([run]), the owner ([start],
    [stop]) and gRPC's callbacks ([OnReadDone], [OnDone]), at the granularity of
    the critical sections of [mu_], as in [MarketDataStream.v].  The owner's
    calls of [start] and [stop] do not overlap each other; ServerStreamThreads.v has
    several owners. *)

From S2P Require Import Prelude StdStrings ErrorResult StreamCommon.
From stdpp Require Import base numbers list strings.
From Stdlib Require Import ZArith Lia.

#[local] Open Scope Z_scope.

(** ** State *)

Record Members := MkMembers {
  stopping : bool; done : bool; got_data : bool; status : Status; ctx : option nat }.

(** The call of one [Reactor]. *)
Record Call := MkCall {
  session : nat; bound : bool; reading : bool; finished : bool; cancelled : bool }.

Inductive Worker :=
  | NoThread
  | LoopTop                      (* while (true) *)
  | Connecting                   (* notify(connecting); got_data_ = false *)
  | Entering                     (* run_once: the critical section *)
  | Starting                     (* start_fn_(...); reactor.Begin() *)
  | AwaitingDone                 (* cv_.wait(lk, done_) *)
  | Returned (st : Status)       (* run: the check after run_once *)
  | Reporting (st : Status)      (* error, notify(disconnected), delay *)
  | Sleeping (delay : Z)         (* cv_.wait_for(lk, delay, stopping_) *)
  | Finishing                    (* notify(stopped) *)
  | Exited.

Inductive Owner := OwnerIdle | StopJoining (joins : bool).

Section Stream.
Context `{GrpcCodes}.
Context {Resp W : Type}.
Context (on_data : option (Resp -> W -> W)).
Context (is_ping : option (Resp -> bool)).
Context (on_state : option (StreamState -> option Error -> W -> W)).
Context (opts : StreamOptions).

Inductive Reader :=
  | ReaderIdle
  | HandleData (r : Resp)          (* OnReadDone(true): handle_data *)
  | Restart                        (* StartRead(&resp_) *)
  | Closed.                        (* OnReadDone(false): return *)

Record Sys := MkSys {
  mem : Members;
  joinable : bool;
  worker : Worker; attempt : Z;
  owner : Owner; reader : Reader;
  call : option Call; next_session : nat;
  world : W;
}.

Definition init (w : W) : Sys :=
  MkSys (MkMembers false false false (MkStatus OK "") None)
    false NoThread 0 OwnerIdle ReaderIdle None 0 w.

(** ** Operations *)

Definition notify (s : StreamState) (e : option Error) (w : W) : W :=
  match on_state with Some f => f s e w | None => w end.

Definition start (s : Sys) : Sys :=
  if joinable s then s else
  let m := mem s in
  MkSys (MkMembers false (done m) (got_data m) (status m) (ctx m))
    true LoopTop 0 (owner s) (reader s) (call s) (next_session s) (world s).

(** [ctx_->TryCancel()]: the context must be alive. *)
Definition TryCancel (c : option Call) (n : nat) : outcome (option Call) :=
  match c with
  | Some c => if bool_decide (session c = n)
      then mret (Some (MkCall (session c) (bound c) (reading c) (finished c) true))
      else UB
  | None => UB
  end.

Definition stop_locked (s : Sys) : outcome Sys :=
  let m := mem s in
  c ← match ctx m with Some n => TryCancel (call s) n | None => mret (call s) end;
  mret (MkSys (MkMembers true (done m) (got_data m) (status m) (ctx m))
    false (worker s) (attempt s) (StopJoining (joinable s)) (reader s) c
    (next_session s) (world s)).

Definition owner_step (s : Sys) : option Sys :=
  let back w := MkSys (mem s) (joinable s) w (attempt s) OwnerIdle (reader s) (call s)
                  (next_session s) (world s) in
  match owner s with
  | OwnerIdle => None
  | StopJoining true => match worker s with Exited => Some (back NoThread) | _ => None end
  | StopJoining false => Some (back (worker s))
  end.

(** [Reactor::Begin]: [StartRead] and [StartCall]. *)
Definition Begin (c : option Call) : outcome (option Call) :=
  match c with
  | Some c => if bound c then UB else
      mret (Some (MkCall (session c) true true (finished c) (cancelled c)))
  | None => UB
  end.

Definition StartRead (c : option Call) : outcome (option Call) :=
  match c with
  | Some c => if reading c || negb (bound c) || finished c then UB else
      mret (Some (MkCall (session c) true true false (cancelled c)))
  | None => UB
  end.

(** The end of the scope of [reactor]: the call must be finished. *)
Definition destroy (c : option Call) : outcome (option Call) :=
  match c with
  | Some c => if finished c then mret None else UB
  | None => UB
  end.

Definition at_worker (s : Sys) (w : Worker) : Sys :=
  MkSys (mem s) (joinable s) w (attempt s) (owner s) (reader s) (call s)
    (next_session s) (world s).

(** [run], between the check after [run_once] and the wait. *)
Definition report (s : Sys) (st : Status) : outcome Sys :=
  let n := if got_data (mem s) then 0 else attempt s in
  let w := notify disconnected (Some (status_error st)) (world s) in
  let next w' n' := MkSys (mem s) (joinable s) w' n' (owner s) (reader s) (call s)
                      (next_session s) w in
  if reconnect opts then
    delay ← backoff_delay opts n;
    n' ← checked W32 (n + 1);
    mret (next (Sleeping delay) n')
  else mret (next Finishing n).

Definition worker_step (s : Sys) : outcome (option Sys) :=
  let m := mem s in
  match worker s with
  | NoThread | Exited => mret None
  | LoopTop => mret (Some (at_worker s (if stopping m then Finishing else Connecting)))
  | Connecting => mret (Some
      (MkSys (MkMembers (stopping m) (done m) false (status m) (ctx m)) (joinable s)
         Entering (attempt s) (owner s) (reader s) (call s) (next_session s)
         (notify connecting None (world s))))
  | Entering => mret (Some
      (if stopping m then at_worker s (Returned (MkStatus CANCELLED ""))
       else let n := next_session s in
         MkSys (MkMembers (stopping m) false (got_data m) (status m) (Some n))
           (joinable s) Starting (attempt s) (owner s) (reader s)
           (Some (MkCall n false false false false)) (S n) (world s)))
  | Starting =>
      c ← Begin (call s);
      mret (Some (MkSys m (joinable s) AwaitingDone (attempt s) (owner s) (reader s) c
                    (next_session s) (world s)))
  | AwaitingDone =>
      if done m then
        c ← destroy (call s);
        mret (Some (MkSys (MkMembers (stopping m) (done m) (got_data m) (status m) None)
                      (joinable s) (Returned (status m)) (attempt s) (owner s) (reader s)
                      c (next_session s) (world s)))
      else mret None
  | Returned st =>
      mret (Some (at_worker s (if stopping m then Finishing else Reporting st)))
  | Reporting st => s' ← report s st; mret (Some s')
  | Sleeping _ => mret (Some (at_worker s (if stopping m then Finishing else LoopTop)))
  | Finishing => mret (Some
      (MkSys m (joinable s) Exited (attempt s) (owner s) (reader s) (call s)
         (next_session s) (notify stopped None (world s))))
  end.

(** [handle_data]. *)
Definition handle_data (m : Members) (r : Resp) (w : W) : Members * W :=
  let w := if got_data m then w else notify connected None w in
  (MkMembers (stopping m) (done m) true (status m) (ctx m),
   if match is_ping with Some f => f r | None => false end then w
   else match on_data with Some f => f r w | None => w end).

Definition reader_step (s : Sys) : outcome (option Sys) :=
  match reader s with
  | ReaderIdle => mret None
  | HandleData r =>
      let '(m, w) := handle_data (mem s) r (world s) in
      mret (Some (MkSys m (joinable s) (worker s) (attempt s) (owner s) Restart (call s)
                    (next_session s) w))
  | Restart =>
      c ← StartRead (call s);
      mret (Some (MkSys (mem s) (joinable s) (worker s) (attempt s) (owner s) ReaderIdle c
                    (next_session s) (world s)))
  | Closed =>
      mret (Some (MkSys (mem s) (joinable s) (worker s) (attempt s) (owner s) ReaderIdle
                    (call s) (next_session s) (world s)))
  end.

Definition handle_done (m : Members) (st : Status) : Members :=
  MkMembers (stopping m) true (got_data m) st (ctx m).

(** ** gRPC's events *)
Definition read_done (s : Sys) (res : option Resp) : option Sys :=
  match call s, reader s with
  | Some c, ReaderIdle =>
      if reading c then
        Some (MkSys (mem s) (joinable s) (worker s) (attempt s) (owner s)
          (match res with Some r => HandleData r | None => Closed end)
          (Some (MkCall (session c) (bound c) false (finished c) (cancelled c)))
          (next_session s) (world s))
      else None
  | _, _ => None
  end.

Definition on_done (s : Sys) (st : Status) : option Sys :=
  match call s, reader s with
  | Some c, ReaderIdle =>
      if bound c && negb (finished c) && negb (reading c) then
        Some (MkSys (handle_done (mem s) st) (joinable s) (worker s) (attempt s) (owner s)
          ReaderIdle (Some (MkCall (session c) true false true (cancelled c)))
          (next_session s) (world s))
      else None
  | _, _ => None
  end.

Inductive label :=
  | LStart | LStop | LOwner | LWorker | LReader
  | LReadDone (res : option Resp) | LDone (st : Status).

Definition step (l : label) (s : Sys) : outcome (option Sys) :=
  match l with
  | LStart => mret (match owner s with OwnerIdle => Some (start s) | _ => None end)
  | LStop => match owner s with
             | OwnerIdle => s' ← stop_locked s; mret (Some s')
             | _ => mret None end
  | LOwner => mret (owner_step s)
  | LWorker => worker_step s
  | LReader => reader_step s
  | LReadDone res => mret (read_done s res)
  | LDone st => mret (on_done s st)
  end.

Fixpoint run (s : Sys) (trace : list label) : outcome Sys :=
  match trace with
  | [] => mret s
  | l :: trace' =>
      o ← step l s;
      run (match o with Some s' => s' | None => s end) trace'
  end.
End Stream.

Arguments MkSys {Resp W}. Arguments init {_ Resp W}.
