(* ===== verification/ServerStreamTheorems.v ===== *)
(** * The theorems about server-side streams

    The invariant of [ServerStream.v], the rank that [stop] lowers, the protocol
    of the notifications, the properties and a concrete run. *)

From S2P Require Import Prelude StdStrings ErrorResult StreamCommon ServerStream.
From stdpp Require Import base numbers list strings.
From Stdlib Require Import ZArith Lia.

#[local] Open Scope Z_scope.

(** ** Invariant *)

Section Invariant.
Context `{GrpcCodes}.
Context {Resp W : Type}.
Context (on_data : option (Resp -> W -> W)).
Context (is_ping : option (Resp -> bool)).
Context (on_state : option (StreamState -> option Error -> W -> W)).
Context (opts : StreamOptions).
Implicit Types (s : @Sys Resp W) (m : Members) (c : Call) (rd : @Reader Resp).

Abbreviation sstep := (step on_data is_ping on_state opts).
Abbreviation srun := (run on_data is_ping on_state opts).

Definition in_session (w : Worker) : bool :=
  match w with Starting | AwaitingDone => true | _ => false end.

Record CallOk m (w : Worker) rd c : Prop := {
  co_bound : bound c = match w with Starting => false | _ => true end;
  co_done : done m = finished c;
  co_ctx : ctx m = Some (session c);
  co_idle : bound c = false \/ finished c = true -> reading c = false /\ rd = ReaderIdle;
  co_fresh : bound c = false -> finished c = false;
  co_reading : reading c = true -> rd = ReaderIdle;
  co_cancelled : stopping m = true -> cancelled c = true;
}.

Definition SessionOk m (w : Worker) rd (oc : option Call) : Prop :=
  if in_session w then exists c, oc = Some c /\ CallOk m w rd c
  else oc = None /\ ctx m = None /\ rd = ReaderIdle.

Definition joins (o : Owner) : bool :=
  match o with OwnerIdle => false | StopJoining j => j end.

Record Inv s : Prop := {
  inv_thread : joinable s || joins (owner s)
               = match worker s with NoThread => false | _ => true end;
  inv_owner : owner s <> OwnerIdle -> joinable s = false /\ stopping (mem s) = true;
  inv_session : SessionOk (mem s) (worker s) (reader s) (call s);
}.

Lemma server_init_inv w : Inv (init w : @Sys Resp W).
Proof. by split. Qed.

Ltac unpack s := destruct s as [m jn wk at0 o rd cl nx u0]; cbn in *.

Ltac call_ok :=
  match goal with Hc : CallOk _ _ _ _ |- _ => destruct Hc end;
  cbn in *; split; cbn in *; intuition congruence.

Lemma stop_inv s :
  Inv s -> owner s = OwnerIdle -> exists s', stop_locked s = Val s' /\ Inv s'
    /\ attempt s' = attempt s.
Proof.
  intros [Ht _ Hs] Ho. unpack s. subst. unfold stop_locked, SessionOk in *. cbn.
  rewrite orb_false_r in Ht. destruct (in_session wk) eqn:Ew.
  - destruct Hs as (c & -> & Hc). rewrite (co_ctx _ _ _ _ Hc). cbn.
    rewrite bool_decide_true by done. cbn. eexists. split; [done|]. split; [|done].
    split; cbn; [done|done|]. unfold SessionOk. rewrite Ew. eexists. split; [done|].
    call_ok.
  - destruct Hs as (-> & -> & ->). cbn. eexists. split; [done|]. split; [|done].
    split; cbn; [done|done|]. unfold SessionOk. by rewrite Ew.
Qed.

Lemma start_inv s : Inv s -> owner s = OwnerIdle -> Inv (start s).
Proof.
  intros Hi Ho. unfold start. destruct (joinable s) eqn:Ej; [done|].
  destruct Hi as [Ht _ Hs]. unpack s. subst. destruct wk; try done.
Qed.

Lemma owner_inv s s' : Inv s -> owner_step s = Some s' -> Inv s' /\ attempt s' = attempt s.
Proof.
  intros [Ht Ho Hs] E. unpack s. unfold owner_step in E. cbn in E.
  destruct o as [|[]]; try done.
  - destruct wk; try done. injection E as <-. destruct (Ho ltac:(done)) as [-> _].
    split; [|done]. by split.
  - injection E as <-. destruct (Ho ltac:(done)) as [-> _]. split; [|done]. by split.
Qed.

Lemma at_worker_inv s w :
  Inv s -> in_session (worker s) = false -> worker s <> NoThread ->
  in_session w = false -> w <> NoThread -> Inv (at_worker s w).
Proof.
  intros [Ht Ho Hs] Hw Hn Hw' Hn'. unpack s. unfold SessionOk in *. rewrite Hw in Hs.
  split; cbn; [|done|unfold SessionOk; by rewrite Hw']. rewrite Ht. by destruct wk, w.
Qed.

Lemma worker_inv s :
  BackoffRange opts -> 0 <= attempt s < wmax W32 -> Inv s ->
  exists o, worker_step on_state opts s = Val o
    /\ forall s', o = Some s' -> Inv s' /\ 0 <= attempt s' <= attempt s + 1.
Proof.
  intros Hb Ha Hi. pose proof Hi as [Ht Ho Hs]. unpack s. unfold worker_step. cbn.
  destruct wk as [ | | | | | | st|st|d| | ]; cbn in *.
  all: try (by eexists).
  all: try (eexists; split; [done|]; intros s' [= <-]; split; [|cbn; lia];
            apply at_worker_inv; try destruct (stopping m); done).
  all: try (eexists; split; [done|]; intros s' [= <-]; split; [|cbn; lia]; by split).
  - (* Entering *)
    eexists. split; [done|]. intros s' [= <-].
    case_match eqn:Es; (split; [|cbn; lia]); [by apply at_worker_inv|].
    split; cbn; [done|done|].
    destruct Hs as (_ & _ & ->). eexists. split; [done|]. by split.
  - (* Starting *)
    destruct Hs as (c & -> & Hc). unfold Begin. rewrite (co_bound _ _ _ _ Hc). cbn.
    eexists. split; [done|]. intros s' [= <-]. split; [|cbn; lia].
    split; cbn; [done|done|]. eexists. split; [done|].
    pose proof (co_bound _ _ _ _ Hc) as Hbd. cbn in Hbd. call_ok.
  - (* AwaitingDone *)
    destruct (done m) eqn:Ed; [|by eexists]. destruct Hs as (c & -> & Hc).
    pose proof (co_done _ _ _ _ Hc) as Hf. rewrite Ed in Hf. cbn. rewrite <- Hf. cbn.
    destruct (co_idle _ _ _ _ Hc) as [_ ->]; [by right|].
    eexists. split; [done|]. intros s' [= <-]. split; [|cbn; lia]. by split.
  - (* Reporting *)
    unfold report. cbn. set (n := if got_data m then 0 else at0).
    assert (Hn : 0 <= n <= at0) by (unfold n; destruct (got_data m); lia).
    destruct (reconnect opts).
    + rewrite backoff_delay_val by (done || lia). cbn. rewrite checked_in by range. cbn.
      eexists. split; [done|]. intros s' [= <-]. split; [by split|cbn; lia].
    + eexists. split; [done|]. intros s' [= <-]. split; [by split|cbn; lia].
Qed.

Lemma reader_inv s :
  Inv s -> exists o, reader_step on_data is_ping on_state s = Val o
    /\ forall s', o = Some s' -> Inv s' /\ attempt s' = attempt s.
Proof.
  intros [Ht Ho Hs]. unpack s. unfold reader_step. cbn.
  destruct rd as [|r| | ] eqn:Er; [by eexists| | |].
  all: unfold SessionOk in Hs; destruct (in_session wk) eqn:Ew;
    [destruct Hs as (c & -> & Hc)|by destruct Hs as (_ & _ & ?)].
  - eexists. split; [done|]. intros s' [= <-]. split; [|done].
    split; cbn; [done|done|]. unfold SessionOk. rewrite Ew. eexists. split; [done|].
    call_ok.
  - assert (reading c = false) as Hr
      by (destruct (reading c) eqn:E; [by pose proof (co_reading _ _ _ _ Hc E)|done]).
    assert (bound c = true) as Hbd
      by (destruct (bound c) eqn:E; [done|by destruct (co_idle _ _ _ _ Hc (or_introl E))]).
    assert (finished c = false) as Hf
      by (destruct (finished c) eqn:E; [by destruct (co_idle _ _ _ _ Hc (or_intror E))|done]).
    cbn. rewrite Hr, Hbd, Hf. cbn. eexists. split; [done|]. intros s' [= <-].
    split; [|done]. split; cbn; [done|done|]. unfold SessionOk. rewrite Ew.
    eexists. split; [done|]. call_ok.
  - eexists. split; [done|]. intros s' [= <-]. split; [|done].
    split; cbn; [done|done|]. unfold SessionOk. rewrite Ew. eexists. split; [done|].
    call_ok.
Qed.

Lemma event_inv s s' :
  Inv s -> (exists res, read_done s res = Some s') \/ (exists st, on_done s st = Some s') ->
  Inv s' /\ attempt s' = attempt s.
Proof.
  intros [Ht Ho Hs] E. unpack s. unfold SessionOk in Hs.
  assert (Hc : exists c, cl = Some c /\ rd = ReaderIdle /\ in_session wk = true
                         /\ CallOk m wk rd c).
  { assert (is_Some cl /\ rd = ReaderIdle) as [[c ->] ->]
      by (destruct E as [[res E]|[st E]]; cbn in E; destruct cl, rd; by eauto).
    destruct (in_session wk); [|by destruct Hs]. destruct Hs as (d & [= <-] & Hc). eauto. }
  clear Hs. destruct Hc as (c & -> & -> & Ew & Hc).
  destruct E as [[res E]|[st E]]; unfold read_done, on_done in E; cbn in E.
  - destruct (reading c) eqn:Er; [|done]. injection E as <-. split; [|done].
    split; cbn; [done|done|]. unfold SessionOk. rewrite Ew. eexists. split; [done|].
    assert (bound c = true /\ finished c = false) as [Hb Hf].
    { pose proof (co_idle _ _ _ _ Hc). destruct (bound c), (finished c); intuition congruence. }
    call_ok.
  - destruct (bound c) eqn:Hb; [|done]. destruct (finished c) eqn:Hf; [done|].
    destruct (reading c) eqn:Er; [done|]. injection E as <-. split; [|done].
    split; cbn; [done|done|]. unfold SessionOk. rewrite Ew. eexists. split; [done|].
    call_ok.
Qed.

Lemma step_inv l s :
  BackoffRange opts -> 0 <= attempt s < wmax W32 -> Inv s ->
  exists o, sstep l s = Val o
    /\ forall s', o = Some s' -> Inv s' /\ 0 <= attempt s' <= attempt s + 1.
Proof.
  intros Hb Ha Hi. destruct l as [| | | | |res|st]; cbn [step].
  - eexists. split; [done|]. intros s'. destruct (owner s) eqn:Eo; [|done].
    intros [= <-]. split; [by apply start_inv|]. unfold start.
    destruct (joinable s); cbn; lia.
  - destruct (owner s) eqn:Eo; [|by eexists].
    destruct (stop_inv s Hi Eo) as (s1 & -> & Hi1 & E). eexists. split; [done|].
    intros s' [= <-]. split; [done|lia].
  - eexists. split; [done|]. intros s' E. destruct (owner_inv s s' Hi E). split; [done|lia].
  - by apply worker_inv.
  - destruct (reader_inv s Hi) as (o & -> & Hr). eexists. split; [done|].
    intros s' E. destruct (Hr s' E). split; [done|lia].
  - eexists. split; [done|]. intros s' E. destruct (event_inv s s' Hi); [eauto|].
    split; [done|lia].
  - eexists. split; [done|]. intros s' E. destruct (event_inv s s' Hi); [eauto|].
    split; [done|lia].
Qed.

Lemma run_inv trace s :
  BackoffRange opts -> 0 <= attempt s ->
  attempt s + Z.of_nat (length trace) <= wmax W32 -> Inv s ->
  exists s', srun s trace = Val s' /\ Inv s'
    /\ 0 <= attempt s' <= attempt s + Z.of_nat (length trace).
Proof.
  intros Hb. revert s.
  induction trace as [|l trace IH]; intros s Ha Hl Hi; cbn [run length] in *.
  - exists s. split_and!; [done|done|lia|lia].
  - destruct (step_inv l s Hb ltac:(lia) Hi) as (o & -> & Ho).
    cbn [mbind outcome_bind]. destruct o as [s'|].
    + destruct (Ho s' eq_refl) as [Hi' Hg].
      destruct (IH s') as (s2 & E & H2 & H3); [lia|lia|done|].
      exists s2. split_and!; [done|done|lia|lia].
    + destruct (IH s) as (s2 & E & H2 & H3); [lia|lia|done|].
      exists s2. split_and!; [done|done|lia|lia].
Qed.
End Invariant.

(** ** Stopping *)

Section Stopping.
Context `{GrpcCodes}.
Context {Resp W : Type}.
Context (on_data : option (Resp -> W -> W)).
Context (is_ping : option (Resp -> bool)).
Context (on_state : option (StreamState -> option Error -> W -> W)).
Context (opts : StreamOptions).
Implicit Types (s : @Sys Resp W).

Abbreviation sstep := (step on_data is_ping on_state opts).
Abbreviation srun := (run on_data is_ping on_state opts).

Definition worker_rank (w : Worker) : nat :=
  match w with
  | NoThread => 0 | Exited => 1 | Finishing => 2 | Returned _ => 3 | AwaitingDone => 4
  | Starting => 8 | Entering => 9 | Connecting => 10 | LoopTop => 11
  | Sleeping _ => 12 | Reporting _ => 13
  end.
Definition reader_rank (rd : @Reader Resp) (c : option Call) : nat :=
  match rd with
  | ReaderIdle => match c with Some c => if reading c then 2 else 0 | None => 0 end
  | HandleData _ => 4 | Restart => 3 | Closed => 1
  end.
Definition done_rank (c : option Call) : nat :=
  match c with Some c => if bound c && negb (finished c) then 1 else 0 | None => 0 end.
Definition owner_rank (o : Owner) : nat :=
  match o with OwnerIdle => 0 | StopJoining _ => 1 end.
Definition stop_rank s : nat :=
  worker_rank (worker s) + reader_rank (reader s) (call s) + done_rank (call s)
  + owner_rank (owner s).

Lemma server_stop_rank_bound s : (stop_rank s <= 19)%nat.
Proof.
  unfold stop_rank.
  assert (worker_rank (worker s) <= 13)%nat by (destruct (worker s); cbn; lia).
  assert (reader_rank (reader s) (call s) <= 4)%nat
    by (destruct (reader s), (call s) as [c|]; cbn; try destruct (reading c); lia).
  assert (done_rank (call s) <= 1)%nat
    by (destruct (call s) as [c|]; cbn; try destruct (_ && _); lia).
  assert (owner_rank (owner s) <= 1)%nat by (destruct (owner s); cbn; lia).
  lia.
Qed.

Definition is_message (l : @label Resp) : bool :=
  match l with LReadDone (Some _) => true | _ => false end.
Definition is_control (l : @label Resp) : bool :=
  match l with LStart | LStop => true | _ => false end.

Lemma server_stopping_step l s s' :
  Inv s -> owner s <> OwnerIdle -> sstep l s = Val (Some s') ->
  if is_message l then (stop_rank s' <= stop_rank s + 2)%nat
  else (stop_rank s' < stop_rank s)%nat.
Proof.
  intros [Ht Ho Hs] Hno E. destruct (Ho Hno) as [_ Hst].
  destruct s as [m jn wk at0 o rd cl nx u0]. cbn in *. unfold stop_rank.
  destruct l as [| | | | |res|st]; cbn [step is_message] in *.
  - by destruct o.
  - by destruct o.
  - unfold owner_step in E. cbn in E. destruct o as [|[]]; try done.
    + destruct wk; try done. injection E as <-. cbn. lia.
    + injection E as <-. cbn. lia.
  - unfold worker_step in E. cbn in E. rewrite ?Hst in E.
    destruct wk as [ | | | | | | st|st|d| | ]; cbn in E, Hs; try done;
      try (injection E as <-; cbn; lia).
    + destruct Hs as (c & -> & Hc). pose proof (co_bound _ _ _ _ Hc) as Hb.
      cbn in Hb, E. rewrite Hb in E. injection E as <-.
      pose proof (co_fresh _ _ _ _ Hc Hb) as Hf.
      destruct (co_idle _ _ _ _ Hc (or_introl Hb)) as [Hr ->].
      cbn. rewrite Hb, Hf, Hr. cbn. lia.
    + destruct (done m); [|done]. destruct (destroy cl) as [c|] eqn:Ed; [|done].
      destruct Hs as (c' & -> & Hc). cbn in Ed. destruct (finished c') eqn:Ef; [|done].
      injection Ed as <-. injection E as <-.
      destruct (co_idle _ _ _ _ Hc (or_intror Ef)) as [_ ->]. cbn. lia.
    + unfold report in E. destruct (reconnect opts).
      * destruct (backoff_delay _ _); [|done]. cbn in E.
        destruct (checked _ _); [|done]. injection E as <-. cbn. lia.
      * injection E as <-. cbn. lia.
  - unfold reader_step in E. cbn in E. unfold SessionOk in Hs.
    destruct rd as [|r| | ] eqn:Er; [done| | |];
      (destruct (in_session wk); [destruct Hs as (c & -> & Hc)|by destruct Hs as (_ & _ & ?)]).
    + injection E as <-. cbn. lia.
    + cbn in E. destruct (reading c); [done|]. destruct (bound c) eqn:Eb; [|done].
      destruct (finished c) eqn:Ef; [done|]. injection E as <-. cbn.
      rewrite Eb, Ef. cbn. lia.
    + injection E as <-. cbn. destruct (reading c) eqn:Erd; [|lia].
      by pose proof (co_reading _ _ _ _ Hc Erd).
  - injection E as E. unfold read_done in E. cbn in E. destruct cl as [c|]; [|done].
    destruct rd; try done. destruct (reading c) eqn:Er; [|done]. injection E as <-.
    cbn. rewrite Er. destruct res; cbn; lia.
  - injection E as E. unfold on_done in E. cbn in E. destruct cl as [c|]; [|done].
    destruct rd; try done. destruct (bound c && negb (finished c)) eqn:Eb; [|done].
    destruct (reading c); [done|]. injection E as <-. cbn. rewrite Eb. lia.
Qed.

Definition enabled (l : @label Resp) s : Prop := exists s', sstep l s = Val (Some s').

(** The actions that are bound to come, as for the market-data stream: gRPC owes the
    end of a read and of the call only once the call is cancelled. *)
Definition due (l : @label Resp) s : bool :=
  match l with
  | LOwner | LWorker | LReader => true
  | LReadDone None | LDone _ =>
      match call s with Some c => cancelled c | None => false end
  | LStart | LStop | LReadDone (Some _) => false
  end.

Lemma server_stop_progress s :
  BackoffRange opts -> 0 <= attempt s < wmax W32 -> Inv s -> owner s <> OwnerIdle ->
  exists l, due l s = true /\ enabled l s.
Proof.
  intros Hb Ha Hi Hno. pose proof Hi as [Ht Ho Hs]. destruct (Ho Hno) as [Hj Hst].
  rewrite Hj in Ht. unfold enabled.
  destruct (owner s) as [|j] eqn:Eo; [done|]. destruct j.
  2:{ exists LOwner. split; [done|]. cbn. unfold owner_step. rewrite Eo. by eexists. }
  destruct (worker_inv on_state opts s Hb Ha Hi) as ([s'|] & E & _);
    [exists LWorker; split; [done|]; by exists s'|].
  unfold worker_step in E. cbn in Ht. destruct (worker s) eqn:Ew; try done.
  - by destruct (Begin _).
  - destruct (done (mem s)) eqn:Ed; [by destruct (destroy _)|].
    destruct Hs as (c & Ec & Hc). pose proof (co_cancelled _ _ _ _ Hc Hst) as Hcan.
    destruct (reader_inv on_data is_ping on_state s Hi) as ([s'|] & Er & _);
      [exists LReader; split; [done|]; by exists s'|].
    assert (Hr : reader s = ReaderIdle).
    { unfold reader_step in Er. destruct (reader s); try done.
      by destruct (StartRead _). }
    destruct (reading c) eqn:Erd.
    + exists (LReadDone None). split; [by cbn; rewrite Ec|]. cbn. unfold read_done.
      rewrite Ec, Hr, Erd. by eexists.
    + exists (LDone (MkStatus CANCELLED "")). split; [by cbn; rewrite Ec|]. cbn. unfold on_done.
      pose proof (co_done _ _ _ _ Hc) as Hf. rewrite Ed in Hf.
      pose proof (co_bound _ _ _ _ Hc) as Hbd. cbn in Hbd.
      rewrite Ec, Hr, Erd, Hbd, <- Hf. by eexists.
  - by destruct (report _ _ _ _).
  - exists LOwner. split; [done|]. cbn. unfold owner_step. rewrite Eo, Ew. by eexists.
Qed.

(** The enabled steps of a run, and the messages delivered in it. *)
Fixpoint moves s (trace : list (@label Resp)) : nat :=
  match trace with
  | [] => 0
  | l :: trace' =>
      match sstep l s with
      | Val (Some s') => S (moves s' trace')
      | _ => moves s trace'
      end
  end.

Definition messages (trace : list (@label Resp)) : nat :=
  length (filter (fun l => is_message l = true) trace).

Lemma server_owner_stays_idle l s s' :
  owner s = OwnerIdle -> is_control l = false -> sstep l s = Val (Some s') ->
  owner s' = OwnerIdle.
Proof.
  intros Ho Hl E. destruct s as [m jn wk at0 o rd cl nx u0]. cbn in *. subst.
  destruct l as [| | | | |res|st]; try done; cbn [step] in E.
  - unfold worker_step in E. cbn in E.
    destruct wk; try done; try (by injection E as <-).
    + injection E as <-. by destruct (stopping m).
    + destruct (Begin _); [|done]. by injection E as <-.
    + destruct (done m); [|done]. destruct (destroy _); [|done]. by injection E as <-.
    + unfold report in E. destruct (reconnect opts); [|by injection E as <-].
      destruct (backoff_delay _ _); [|done]. cbn in E.
      destruct (checked _ _); [|done]. by injection E as <-.
  - unfold reader_step in E. cbn in E. destruct rd; try done; try (by injection E as <-).
    destruct (StartRead _); [|done]. by injection E as <-.
  - injection E as E. unfold read_done in E. cbn in E. destruct cl, rd; try done.
    destruct (reading _); [|done]. by injection E as <-.
  - injection E as E. unfold on_done in E. cbn in E. destruct cl, rd; try done.
    destruct (_ && _) in E; [|done]. by injection E as <-.
Qed.

Lemma server_run_stays_idle trace s s' :
  owner s = OwnerIdle -> Forall (fun l => is_control l = false) trace ->
  srun s trace = Val s' -> owner s' = OwnerIdle.
Proof.
  intros Ho Ht. revert s Ho. induction Ht as [|l trace Hl Ht IH]; intros s Ho E; cbn in E.
  - by injection E as <-.
  - destruct (sstep l s) as [[s1|]|] eqn:Es; [| |done].
    + apply (IH s1); [by eapply server_owner_stays_idle|done].
    + by apply (IH s).
Qed.

Lemma server_owner_idle_or (o : Owner) : o = OwnerIdle \/ o <> OwnerIdle.
Proof. destruct o; by (left + right). Qed.

Lemma server_stopping_moves trace s s' :
  BackoffRange opts -> 0 <= attempt s ->
  attempt s + Z.of_nat (length trace) <= wmax W32 -> Inv s -> owner s <> OwnerIdle ->
  Forall (fun l => is_control l = false) trace ->
  srun s trace = Val s' -> owner s' <> OwnerIdle ->
  (moves s trace <= stop_rank s + 3 * messages trace)%nat.
Proof.
  intros Hb. revert s.
  induction trace as [|l trace IH]; intros s Ha Hl Hi Ho Hc E Ho'; cbn [moves]; [lia|].
  apply Forall_cons in Hc as [Hcl Hc]. cbn [run] in E. cbn [length] in Hl.
  destruct (step_inv on_data is_ping on_state opts l s Hb ltac:(lia) Hi) as (o & Es & Hs).
  rewrite Es in E |- *. cbn [mbind outcome_bind] in E.
  assert (Em : messages (l :: trace)
               = ((if is_message l then 1 else 0) + messages trace)%nat).
  { unfold messages. rewrite filter_cons. by destruct (is_message l). }
  rewrite Em. destruct o as [s1|].
  - destruct (Hs s1 eq_refl) as [Hi1 Hg].
    destruct (server_owner_idle_or (owner s1)) as [Hid|Hno].
    { by rewrite (server_run_stays_idle trace s1 s' Hid Hc E) in Ho'. }
    pose proof (IH s1 ltac:(lia) ltac:(lia) Hi1 Hno Hc E Ho').
    pose proof (server_stopping_step l s s1 Hi Ho Es) as Hr. destruct (is_message l); lia.
  - pose proof (IH s ltac:(lia) ltac:(lia) Hi Ho Hc E Ho'). lia.
Qed.
(** Every action of the run is due, and enabled, when its turn comes. *)
Fixpoint all_due s (trace : list (@label Resp)) : bool :=
  match trace with
  | [] => true
  | l :: trace' =>
      due l s && match sstep l s with Val (Some s') => all_due s' trace' | _ => false end
  end.

Lemma server_due_lowers l s s' :
  Inv s -> owner s <> OwnerIdle -> due l s = true -> sstep l s = Val (Some s') ->
  (stop_rank s' < stop_rank s)%nat.
Proof.
  intros Hi Ho Hd E. pose proof (server_stopping_step l s s' Hi Ho E) as Hr.
  by destruct l as [| | | | |[]|].
Qed.

(** Doing what is due, in whatever order it comes, [stop] returns. *)
Lemma server_stop_finishes n s :
  BackoffRange opts -> 0 <= attempt s -> attempt s + Z.of_nat n < wmax W32 ->
  Inv s -> (stop_rank s <= n)%nat -> owner s <> OwnerIdle ->
  exists rest s', all_due s rest = true /\ srun s rest = Val s'
    /\ owner s' = OwnerIdle /\ (length rest <= n)%nat.
Proof.
  intros Hb. revert s. induction n as [|n IH]; intros s Ha Hl Hi Hr Ho.
  { unfold stop_rank, owner_rank in Hr. destruct (owner s); [done|lia]. }
  destruct (server_stop_progress s Hb ltac:(lia) Hi Ho) as (l & Hd & s1 & E).
  pose proof (server_due_lowers l s s1 Hi Ho Hd E) as Hlow.
  destruct (step_inv on_data is_ping on_state opts l s Hb ltac:(lia) Hi) as (o & E' & Hs).
  rewrite E in E'. injection E' as <-. destruct (Hs s1 eq_refl) as [Hi1 Hg].
  destruct (server_owner_idle_or (owner s1)) as [Ho1|Ho1].
  - exists [l], s1. cbn [all_due run length]. rewrite Hd, E. split_and!; [done..|lia].
  - destruct (IH s1 ltac:(lia) ltac:(lia) Hi1 ltac:(lia) Ho1)
      as (rest & s' & H1 & H2 & H3 & H4).
    exists (l :: rest), s'. cbn [all_due run length]. rewrite Hd, E. split_and!; [done..|lia].
Qed.
End Stopping.

(** ** Notifications *)

Section Notifications.
Context `{GrpcCodes}.
Context {Resp : Type}.
Context (is_ping : option (Resp -> bool)).
Context (opts : StreamOptions).
Abbreviation log := (list (event Resp)).
Implicit Types (s : @Sys Resp log) (m : Members) (rd : @Reader Resp).

Abbreviation logged_step := (step (Some log_data) is_ping (Some log_state) opts).
Abbreviation logged_run := (run (Some log_data) is_ping (Some log_state) opts).

(** The phase of the protocol, by where the worker is. *)
Definition phase_ok (w : Worker) (got : bool) rd (p : phase) : Prop :=
  match w with
  | NoThread | Exited => p = Idle
  | LoopTop | Connecting => p = Idle \/ p = Broken
  | Entering => p = AwaitingData /\ got = false
  | Starting | AwaitingDone =>
      p = (if got then Receiving else AwaitingData)
  | Returned _ | Reporting _ => p = AwaitingData \/ p = Receiving
  | Sleeping _ => p = Broken
  | Finishing => True
  end.

(** Pings are never delivered. *)
Definition is_ping_event (e : event Resp) : bool :=
  match e with
  | Delivered r => match is_ping with Some f => f r | None => false end
  | Notified _ _ => false
  end.

Definition LogOk s : Prop :=
  (exists p, follows (world s) = Some p
     /\ phase_ok (worker s) (got_data (mem s)) (reader s) p)
  /\ Forall (fun e => is_ping_event e = false) (world s).

Lemma server_log_ok_notify s s' st e p p' :
  LogOk s -> follows (world s) = Some p ->
  protocol p (Notified st e : event Resp) = Some p' ->
  world s' = log_state st e (world s) ->
  phase_ok (worker s') (got_data (mem s')) (reader s') p' -> LogOk s'.
Proof.
  intros [_ Hn] Hf Hp E Hq. split.
  - exists p'. rewrite E. unfold log_state. by rewrite follows_snoc, Hf.
  - rewrite E. apply Forall_app. split; [done|]. by constructor.
Qed.

Lemma server_worker_log s s' :
  Inv s -> LogOk s -> worker_step (Some log_state) opts s = Val (Some s') -> LogOk s'.
Proof.
  intros [_ _ Hs] Hl E. pose proof Hl as [(p & Hf & Hp) Hn].
  destruct s as [m jn wk at0 o rd cl nx u0]. unfold worker_step in E. cbn in *.
  destruct wk as [ | | | | | | st|st|d| | ]; cbn in E, Hp, Hs; try done.
  - injection E as <-. split; [|done]. exists p. split; [done|]. by destruct (stopping m).
  - injection E as <-. eapply server_log_ok_notify; [exact Hl|exact Hf| |done|done].
    by destruct Hp as [-> | ->].
  - injection E as <-. destruct Hp as [-> Hg]. destruct (stopping m);
      (split; [|done]); eexists; (split; [exact Hf|]); cbn; [by left|by rewrite Hg].
  - destruct (Begin _); [|done]. injection E as <-. split; [|done]. by exists p.
  - destruct (done m); [|done]. destruct (destroy _); [|done]. injection E as <-.
    split; [|done]. exists p. split; [done|]. cbn. subst p. destruct (got_data m); auto.
  - injection E as <-. split; [|done]. exists p. split; [done|].
    destruct (stopping m); cbn; auto.
  - unfold report in E. cbn in E. destruct (reconnect opts).
    + destruct (backoff_delay _ _); [|done]. cbn in E.
      destruct (checked _ _); [|done]. injection E as <-.
      eapply server_log_ok_notify; [exact Hl|exact Hf| |done|done]. by destruct Hp as [-> | ->].
    + injection E as <-. eapply server_log_ok_notify; [exact Hl|exact Hf| |done|done].
      by destruct Hp as [-> | ->].
  - injection E as <-. split; [|done]. exists p. split; [done|].
    destruct (stopping m); cbn; auto.
  - injection E as <-. eapply (server_log_ok_notify _ _ _ _ p Idle); [exact Hl|exact Hf| |done|done].
    by destruct p.
Qed.

Lemma data_log s s' r :
  Inv s -> LogOk s -> reader s = HandleData r ->
  reader_step (Some log_data) is_ping (Some log_state) s = Val (Some s') -> LogOk s'.
Proof.
  intros [_ _ Hs] [(p & Hf & Hp) Hn] Hr E.
  destruct s as [m jn wk at0 o rd cl nx u0]. unfold reader_step in E. cbn in *. subst rd.
  injection E as <-. unfold SessionOk in Hs.
  assert (Hw : wk = Starting \/ wk = AwaitingDone)
    by (destruct wk; cbn in Hs; try (by destruct Hs as (_ & _ & ?)); auto).
  assert (Hq : p = if got_data m then Receiving else AwaitingData)
    by (by destruct Hw as [-> | ->]).
  set (w1 := if got_data m then u0 else log_state connected None u0).
  assert (H1 : follows w1 = Some Receiving).
  { unfold w1. destruct (got_data m); [by subst p|]. unfold log_state.
    by rewrite follows_snoc, Hf, Hq. }
  assert (H2 : Forall (fun e => is_ping_event e = false) w1).
  { unfold w1. destruct (got_data m); [done|]. apply Forall_app. split; [done|].
    by constructor. }
  assert (Hend : forall w, follows w = Some Receiving ->
    Forall (fun e => is_ping_event e = false) w ->
    LogOk (MkSys (MkMembers (stopping m) (done m) true (status m) (ctx m)) jn wk at0 o
             Restart cl nx w)).
  { intros w Hw1 Hw2. split; [|done]. exists Receiving. split; [done|].
    by destruct Hw as [-> | ->]. }
  destruct (match is_ping with Some f => f r | None => false end) eqn:Ep.
  - by apply Hend.
  - apply Hend; unfold log_data.
    + change (follows (w1 ++ [Delivered r]) = Some Receiving).
      by rewrite follows_snoc, H1.
    + change (Forall (fun e => is_ping_event e = false) (w1 ++ [Delivered r])).
      apply Forall_app. split; [done|]. constructor; [exact Ep|constructor].
Qed.

Lemma server_step_log l s s' :
  Inv s -> LogOk s -> logged_step l s = Val (Some s') -> LogOk s'.
Proof.
  intros Hi Hl E.
  assert (Hsame : forall w m' rd' c' o' j' n' att,
    phase_ok w (got_data m') rd' = phase_ok (worker s) (got_data (mem s)) (reader s) ->
    LogOk (MkSys m' j' w att o' rd' c' n' (world s))).
  { intros w m' rd' c' o' j' n' att Hph. destruct Hl as [(p & Hf & Hp) Hn].
    split; [|done]. exists p. split; [done|]. cbn. by rewrite Hph. }
  destruct l as [| | | | |res|st]; cbn [step] in E.
  - destruct (owner s) eqn:Eo; [|done]. injection E as <-. unfold start.
    destruct (joinable s) eqn:Ej; [done|]. destruct Hi as [Ht _ _].
    rewrite Ej, Eo in Ht. destruct Hl as [(p & Hf & Hp) Hn]. split; [|done].
    exists p. split; [done|]. cbn. left. by destruct (worker s).
  - destruct (owner s); [|done]. destruct (stop_locked s) as [s1|] eqn:Es; [|done].
    injection E as <-. unfold stop_locked in Es.
    destruct (match ctx _ with Some _ => _ | None => _ end) in Es; [|done].
    injection Es as <-. by apply Hsame.
  - injection E as E. unfold owner_step in E. destruct (owner s) as [|[]]; [done| |].
    + destruct (worker s) eqn:Ew; try done. injection E as <-. by apply Hsame.
    + injection E as <-. by apply Hsame.
  - by apply (server_worker_log s).
  - destruct (reader s) as [|r| | ] eqn:Er.
    + by unfold reader_step in E; rewrite Er in E.
    + by apply (data_log s s' r).
    + unfold reader_step in E. rewrite Er in E.
      destruct (StartRead _); [|done]. injection E as <-. by apply Hsame.
    + unfold reader_step in E. rewrite Er in E. injection E as <-. by apply Hsame.
  - injection E as E. unfold read_done in E. destruct (call s), (reader s); try done.
    destruct (reading _); [|done]. injection E as <-. by apply Hsame.
  - injection E as E. unfold on_done in E. destruct (call s), (reader s); try done.
    destruct (_ && _) in E; [|done]. injection E as <-. by apply Hsame.
Qed.

Lemma server_run_log trace s s' :
  BackoffRange opts -> 0 <= attempt s ->
  attempt s + Z.of_nat (length trace) <= wmax W32 -> Inv s -> LogOk s ->
  logged_run s trace = Val s' -> LogOk s'.
Proof.
  intros Hb. revert s.
  induction trace as [|l trace IH]; intros s Ha Hl Hi Ho E; cbn [run length] in *.
  - by injection E as <-.
  - destruct (step_inv (Some log_data) is_ping (Some log_state) opts l s Hb ltac:(lia) Hi)
      as (o & Es & Hs).
    rewrite Es in E. cbn [mbind outcome_bind] in E. destruct o as [s1|].
    + destruct (Hs s1 eq_refl) as [Hi' Hg].
      apply (IH s1); [lia|lia|done| |done]. by apply (server_step_log l s).
    + by apply (IH s); [lia|lia|..].
Qed.
End Notifications.

(** ** Properties *)

Section Properties.
Context `{GrpcCodes}.
Context {Resp W : Type}.

(** C20. A server-side stream in any interleaving of fewer than 2^31 actions: no
    action has undefined behaviour (a second outstanding read, a cancelled or
    destroyed context, a reactor destroyed before [OnDone], an overflow of the
    delay), and [ctx_] points to the live call's context.  While [stop] has not
    returned, an enabled action is always due: a step of [stop], of the worker or of a
    running callback, or the end of the read or of the call, which gRPC owes only once
    the call is cancelled.  Doing what is due ends [stop] within 19 actions; and
    whatever is done, at most 19 enabled actions, plus three per message, can come
    before it returns. *)
Theorem server_stream_stops (on_data : option (Resp -> W -> W))
    (is_ping : option (Resp -> bool))
    (on_state : option (StreamState -> option Error -> W -> W))
    (opts : StreamOptions) (w : W) trace :
  BackoffRange opts -> Z.of_nat (length trace) + 19 < wmax W32 ->
  exists s, run on_data is_ping on_state opts (init w) trace = Val s
  /\ (forall n, ctx (mem s) = Some n -> exists c, call s = Some c /\ session c = n)
  /\ (owner s <> OwnerIdle ->
      (exists l, due l s = true /\ enabled on_data is_ping on_state opts l s)
      /\ (exists last s1, all_due on_data is_ping on_state opts s last = true
            /\ run on_data is_ping on_state opts s last = Val s1 /\ owner s1 = OwnerIdle
            /\ (length last <= 19)%nat)
      /\ forall rest s', Z.of_nat (length (trace ++ rest)) <= wmax W32 ->
           Forall (fun l => is_control l = false) rest ->
           run on_data is_ping on_state opts s rest = Val s' -> owner s' <> OwnerIdle ->
           (moves on_data is_ping on_state opts s rest <= 19 + 3 * messages rest)%nat).
Proof.
  intros Hb Hl.
  destruct (run_inv on_data is_ping on_state opts trace (init w) Hb) as (s & E & Hi & Ha);
    [done|cbn [attempt init]; lia|apply server_init_inv|].
  change (attempt (init w)) with 0 in Ha.
  exists s. split_and!; [done| |].
  - intros n Hn. pose proof (inv_session _ Hi) as Hs. unfold SessionOk in Hs.
    destruct (in_session (worker s)).
    + destruct Hs as (c & Ec & Hc). exists c. rewrite (co_ctx _ _ _ _ Hc) in Hn.
      by simplify_eq.
    + destruct Hs as (_ & Hx & _). congruence.
  - intros Ho. pose proof (server_stop_rank_bound s). split_and!.
    + apply server_stop_progress; try done; lia.
    + apply server_stop_finishes; try done; lia.
    + intros rest s' Hlen Hc Er Ho'. rewrite length_app in Hlen.
      pose proof (server_stopping_moves on_data is_ping on_state opts rest s s' Hb ltac:(lia)
        ltac:(lia) Hi Ho Hc Er Ho'). lia.
Qed.

(** The callbacks of a server-side stream follow the same protocol as those of
    the market-data stream, and a message that the ping filter recognises is never
    delivered to the data callback. *)
Theorem server_stream_notifications (is_ping : option (Resp -> bool))
    (opts : StreamOptions) (trace : list (@label Resp)) :
  BackoffRange opts -> Z.of_nat (length trace) <= wmax W32 ->
  exists s p, run (Some log_data) is_ping (Some log_state) opts (init []) trace = Val s
    /\ follows (world s) = Some p
    /\ (worker s = NoThread \/ worker s = Exited -> p = Idle)
    /\ Forall (fun e => is_ping_event is_ping e = false) (world s).
Proof.
  intros Hb Hl.
  destruct (run_inv (Some log_data) is_ping (Some log_state) opts trace (init []) Hb)
    as (s & E & Hi & _); [done|exact Hl|apply server_init_inv|].
  assert (Ho : LogOk is_ping s).
  { apply (server_run_log is_ping opts trace (init []) s); try done.
    split; [by exists Idle|constructor]. }
  destruct Ho as [(p & Hf & Hp) Hn]. exists s, p. split_and!; [done..| |done].
  by intros [Ew|Ew]; rewrite Ew in Hp.
Qed.
End Properties.

(** ** A concrete run

    The number 0 stands for a ping. *)
Definition sample_ping : option (nat -> bool) := Some (Nat.eqb 0).

Definition sample_trace : list (@label nat) :=
  [LStart; LWorker; LWorker; LWorker; LWorker; LReadDone (Some 0%nat); LReader; LReader;
   LReadDone (Some 5%nat); LReader; LReader; LStop; LReadDone None; LReader;
   LDone (MkStatus 1 ""); LWorker; LWorker; LWorker; LOwner].

Example server_sample_run :
  (s ← run (Some log_data) sample_ping (Some log_state) default_stream_options
         (init []) sample_trace; mret (world s, owner s, worker s))
  = Val ([Notified connecting None; Notified connected None; Delivered 5%nat;
          Notified stopped None], OwnerIdle, NoThread).
Proof. vm_compute. reflexivity. Qed.

Lemma server_stream_stops_witness :
  exists s, run (Some log_data) sample_ping (Some log_state) default_stream_options
         (init []) (take 12 sample_trace) = Val s.
Proof.
  destruct (server_stream_stops (Some log_data) sample_ping (Some log_state)
    default_stream_options [] (take 12 sample_trace)) as (s & E & _).
  - split_and!; vm_compute; discriminate.
  - vm_compute. reflexivity.
  - exists s. exact E.
Defined.

Lemma server_stream_notifications_witness :
  exists s p, run (Some log_data) sample_ping (Some log_state) default_stream_options
         (init []) sample_trace = Val s /\ follows (world s) = Some p.
Proof.
  destruct (server_stream_notifications sample_ping default_stream_options sample_trace)
    as (s & p & E & Hf & _).
  - split_and!; vm_compute; discriminate.
  - vm_compute. discriminate.
  - exists s, p. split; [exact E|exact Hf].
Defined.
