(* ===== verification/ServerStreamCallbacks.v ===== *)
(** * What the callbacks of a server-side stream do to the user's state

    The same reading of the callbacks as in StreamCallbacks.v, for the streams of
    ServerStream.v with their ping filter. *)

From S2P Require Import Prelude StdStrings ErrorResult StreamCommon ServerStream.
From S2P Require Import ServerStreamTheorems.
From stdpp Require Import base numbers list strings.
From Stdlib Require Import ZArith Lia.

#[local] Open Scope Z_scope.

Section Interpret.
Context `{GrpcCodes}.
Context {Resp W : Type}.
Context (on_data : option (Resp -> W -> W)).
Context (is_ping : option (Resp -> bool)).
Context (on_state : option (StreamState -> option Error -> W -> W)).
Context (opts : StreamOptions).
Implicit Types (s : @Sys Resp (list (event Resp))) (l : @label Resp).

Definition server_callback (w : W) (e : event Resp) : W :=
  match e with
  | Notified st err => notify on_state st err w
  | Delivered r => match on_data with Some f => f r w | None => w end
  end.

Definition interpret_events (w : W) (log : list (event Resp)) : W :=
  foldl server_callback w log.
#[local] Arguments interpret_events : simpl never.

Definition server_interpret (w : W) s : @Sys Resp W :=
  MkSys (mem s) (joinable s) (worker s) (attempt s) (owner s) (reader s) (call s)
    (next_session s) (interpret_events w (world s)).

Abbreviation log_step := (step (Some log_data) is_ping (Some log_state) opts).
Abbreviation log_run := (run (Some log_data) is_ping (Some log_state) opts).

Lemma server_interpret_state w st e log :
  interpret_events w (log_state st e log) = notify on_state st e (interpret_events w log).
Proof. unfold interpret_events, log_state. by rewrite foldl_app. Qed.
Lemma server_interpret_data w r log :
  interpret_events w (log_data r log)
  = match on_data with Some f => f r (interpret_events w log) | None => interpret_events w log end.
Proof. unfold interpret_events, log_data. by rewrite foldl_app. Qed.

(** The filter and the first-message test do not look at the user's state. *)
Lemma handle_data_interpret w m r log :
  handle_data on_data is_ping on_state m r (interpret_events w log)
  = ((handle_data (Some log_data) is_ping (Some log_state) m r log).1,
     interpret_events w (handle_data (Some log_data) is_ping (Some log_state) m r log).2).
Proof.
  unfold handle_data. cbn [fst snd].
  set (ping := match is_ping with Some f => f r | None => false end).
  change (notify (Some log_state) connected None log) with (log_state connected None log).
  destruct (got_data m), ping; by rewrite ?server_interpret_data, ?server_interpret_state.
Qed.

Lemma server_step_interpret w l s :
  step on_data is_ping on_state opts l (server_interpret w s)
  = (r ← log_step l s; mret (fmap (M := option) (server_interpret w) r)).
Proof.
  destruct l as [| | | | |res|st]; cbn [step].
  - cbn. destruct (owner s); try done. cbn. unfold start. cbn. by destruct (joinable s).
  - cbn. destruct (owner s); try done. unfold stop_locked. cbn.
    by destruct (match ctx (mem s) with
                 | Some n => TryCancel (call s) n | None => mret (call s) end).
  - cbn. unfold owner_step. cbn. destruct (owner s) as [|[]]; try done. by destruct (worker s).
  - unfold worker_step. cbn. destruct (worker s) eqn:Ew; cbn; try done; try by case_match.
    + unfold server_interpret. cbn. by rewrite server_interpret_state.
    + by destruct (Begin _).
    + destruct (done _); [|done]. by destruct (destroy _).
    + unfold report. cbn. destruct (reconnect opts).
      * destruct (backoff_delay _ _); [|done]. cbn. destruct (checked _ _); [|done].
        cbn. unfold server_interpret. cbn. by rewrite server_interpret_state.
      * cbn. unfold server_interpret. cbn. by rewrite server_interpret_state.
    + unfold server_interpret. cbn. by rewrite server_interpret_state.
  - unfold reader_step. cbn [reader server_interpret].
    destruct (reader s) as [|r| |]; cbn [mem world server_interpret]; try done.
    + rewrite handle_data_interpret.
      by destruct (handle_data (Some log_data) is_ping (Some log_state) (mem s) r (world s)).
    + cbn. by destruct (StartRead _).
  - unfold read_done. cbn. destruct (call s), (reader s); try done. by destruct (reading _).
  - unfold on_done. cbn. destruct (call s), (reader s); try done. by destruct (_ && _).
Qed.

Lemma server_run_interpret w trace s :
  run on_data is_ping on_state opts (server_interpret w s) trace
  = (s' ← log_run s trace; mret (server_interpret w s')).
Proof.
  revert s. induction trace as [|l trace IH]; intros s; cbn [run]; [done|].
  rewrite server_step_interpret. destruct (log_step l s) as [[s1|]|]; [| |done]; apply IH.
Qed.

(** ** The messages read *)

Fixpoint server_received s (trace : list (@label Resp)) : list Resp :=
  match trace with
  | [] => []
  | l :: trace' =>
      match log_step l s with
      | Val (Some s') =>
          match l with
          | LReadDone (Some r) => r :: server_received s' trace'
          | _ => server_received s' trace'
          end
      | _ => server_received s trace'
      end
  end.

Definition in_server_reader (rd : @Reader Resp) : list Resp :=
  match rd with HandleData r => [r] | _ => [] end.

(** Without the pings. *)
Definition data_only (rs : list Resp) : list Resp :=
  filter (fun r => match is_ping with Some f => f r | None => false end = false) rs.

Lemma data_only_app rs1 rs2 : data_only (rs1 ++ rs2) = data_only rs1 ++ data_only rs2.
Proof. apply filter_app. Qed.

Definition server_taken s : list Resp :=
  deliveries (world s) ++ data_only (in_server_reader (reader s)).

Lemma handle_data_taken m r log :
  deliveries (handle_data (Some log_data) is_ping (Some log_state) m r log).2
  = deliveries log ++ data_only [r].
Proof.
  unfold handle_data, data_only. cbn [snd]. rewrite filter_cons, filter_nil.
  set (ping := match is_ping with Some f => f r | None => false end).
  destruct (got_data m), ping; cbn [notify];
    rewrite ?deliveries_data, ?deliveries_state, ?app_nil_r; done.
Qed.

Lemma server_step_taken l s s' :
  log_step l s = Val (Some s') ->
  server_taken s'
  = server_taken s ++ match l with LReadDone (Some r) => data_only [r] | _ => [] end.
Proof.
  intros E. unfold server_taken. rewrite <- ?app_assoc.
  destruct l as [| | | | |res|st]; cbn [step] in E; rewrite ?app_nil_r.
  - injection E as E. destruct (owner s); try done. injection E as <-.
    unfold start. by destruct (joinable s).
  - destruct (owner s); try done. destruct (stop_locked s) as [s1|] eqn:Es; [|done].
    injection E as <-. unfold stop_locked in Es.
    destruct (match ctx (mem s) with Some n => TryCancel (call s) n | None => mret (call s) end);
      [|done]. by injection Es as <-.
  - injection E as E. unfold owner_step in E. destruct (owner s) as [|[]]; try done.
    + destruct (worker s); try done. by injection E as <-.
    + by injection E as <-.
  - unfold worker_step in E. destruct (worker s); try done; try (by injection E as <-).
    + injection E as <-. cbn. by rewrite deliveries_state.
    + injection E as <-. by destruct (stopping _).
    + destruct (Begin _); [|done]. by injection E as <-.
    + destruct (done _); [|done]. destruct (destroy _); [|done]. by injection E as <-.
    + unfold report in E. destruct (reconnect opts).
      * destruct (backoff_delay _ _); [|done]. cbn in E.
        destruct (checked _ _); [|done]. injection E as <-. cbn. by rewrite deliveries_state.
      * injection E as <-. cbn. by rewrite deliveries_state.
    + injection E as <-. cbn. by rewrite deliveries_state.
  - unfold reader_step in E. destruct (reader s) as [|r| |] eqn:Er; try done.
    + pose proof (handle_data_taken (mem s) r (world s)) as Ht.
      destruct (handle_data _ _ _ _ _ _) as [m w]. injection E as <-. cbn [world reader].
      cbn [snd] in Ht. cbn [in_server_reader]. by rewrite Ht, app_nil_r.
    + destruct (StartRead _); [|done]. by injection E as <-.
    + by injection E as <-.
  - injection E as E. unfold read_done in E. destruct (call s), (reader s); try done.
    destruct (reading _); [|done]. injection E as <-. cbn.
    by destruct res; rewrite ?app_nil_r.
  - injection E as E. unfold on_done in E. destruct (call s), (reader s) eqn:Er; try done.
    destruct (_ && _) in E; [|done]. by injection E as <-.
Qed.

Lemma server_run_taken trace s s' :
  log_run s trace = Val s' ->
  server_taken s' = server_taken s ++ data_only (server_received s trace).
Proof.
  revert s. induction trace as [|l trace IH]; intros s E; cbn [run server_received] in *.
  { injection E as <-. by rewrite app_nil_r. }
  destruct (log_step l s) as [[s1|]|] eqn:Es; [| |done]; cbn in E.
  - rewrite (IH s1 E), (server_step_taken l s s1 Es), <- app_assoc. f_equal.
    destruct l as [| | | | |[r|]|]; try done. by rewrite <- data_only_app.
  - by rewrite (IH s E).
Qed.
End Interpret.

(** ** Properties *)

(** C14. The callbacks of a server-side stream see every message once, and no ping.
    For all callbacks and filters and any interleaving of fewer than 2^31 actions,
    what the callbacks did to the user's state is their fold over one sequence of
    notifications, which follow the protocol, and messages; the messages, followed
    by the one that may be about to be delivered, are exactly those that gRPC read
    and the filter does not hold back, in order. *)
Theorem server_callbacks_get_every_message `{GrpcCodes} {Resp W : Type}
    (on_data : option (Resp -> W -> W)) (is_ping : option (Resp -> bool))
    (on_state : option (StreamState -> option Error -> W -> W))
    (opts : StreamOptions) (w : W) (trace : list (@label Resp)) :
  BackoffRange opts -> Z.of_nat (length trace) <= wmax W32 ->
  exists s s' log p,
    run (Some log_data) is_ping (Some log_state) opts (init []) trace = Val s
    /\ world s = log /\ follows log = Some p
    /\ run on_data is_ping on_state opts (init w) trace = Val s'
    /\ mem s' = mem s /\ worker s' = worker s
    /\ world s' = foldl (server_callback on_data on_state) w log
    /\ deliveries log ++ data_only is_ping (in_server_reader (reader s))
       = data_only is_ping (server_received is_ping opts (init []) trace).
Proof.
  intros Hb Hl.
  destruct (run_inv (Some log_data) is_ping (Some log_state) opts trace (init []) Hb)
    as (s & E & _ & _); [done|exact Hl|apply server_init_inv|].
  assert (Ho : LogOk is_ping s).
  { apply (server_run_log is_ping opts trace (init []) s); try done.
    split; [|by apply Forall_nil]. by exists Idle. }
  destruct Ho as [(p & Hf & _) _].
  exists s, (server_interpret on_data on_state w s), (world s), p. split_and!; try done.
  - change (init w) with (server_interpret on_data on_state w (init [])).
    by rewrite server_run_interpret, E.
  - exact (server_run_taken is_ping opts trace (init []) s E).
Qed.

Lemma server_callbacks_get_every_message_witness :
  exists s s', run (Some log_data) sample_ping (Some log_state) default_stream_options
      (init []) sample_trace = Val s
    /\ run (Some (fun r sum => r + sum)%nat) sample_ping None default_stream_options
         (init 0%nat) sample_trace = Val s'
    /\ world s' = foldl (server_callback (Some (fun r sum => r + sum)%nat) None) 0%nat (world s).
Proof.
  destruct (server_callbacks_get_every_message (Some (fun r sum => r + sum)%nat) sample_ping None
    default_stream_options 0%nat sample_trace) as (s & s' & log & p & E & El & _ & E' & _ & _ & Ew & _).
  - split_and!; vm_compute; discriminate.
  - vm_compute. discriminate.
  - exists s, s'. split; [exact E|]. split; [exact E'|]. rewrite El. exact Ew.
Defined.
