(* ===== verification/ServerStreamThreads.v ===== *)
(** * A server-side stream shared by several threads

    [start] and [stop] of [include/tinvest/streams/server_stream.hpp] called by any
    number of user threads at once.  [stop] moves the worker's [std::thread] out of
    the object under [mu_] and joins it outside; a [start] that runs in between
    finds no thread and creates another, so several threads may execute [run] on
    the same members.  Each has its own locals, reactor and context; its steps are
    those of [ServerStream.v]. *)

From S2P Require Import Prelude StdStrings ErrorResult StreamCommon ServerStream.
From S2P Require Import ServerStreamTheorems.
From stdpp Require Import base numbers list strings gmap.
From Stdlib Require Import ZArith Lia.

#[local] Open Scope Z_scope.

Section Threads.
Context `{GrpcCodes}.
Context {Resp W : Type}.
Context (on_data : option (Resp -> W -> W)).
Context (is_ping : option (Resp -> bool)).
Context (on_state : option (StreamState -> option Error -> W -> W)).
Context (opts : StreamOptions).

(** A thread that executes [run]. *)
Record Thread := MkThread {
  t_worker : Worker; t_attempt : Z; t_reader : @Reader Resp; t_call : option Call }.

Definition new_run : Thread := MkThread LoopTop 0 ReaderIdle None.

(** [joining] are the user threads between the critical section of [stop] and its
    end, each with the [std::thread] it moved to its local. *)
Record Shared := MkShared {
  members : Members;
  worker_ : option nat;
  threads : gmap nat Thread; next_thread : nat; sessions : nat;
  joining : gmap nat (option nat);
  user : W;
}.

Definition shared_init (w : W) : Shared :=
  MkShared (MkMembers false false false (MkStatus OK "") None) None ∅ 0 0 ∅ w.

(** The stream as one thread sees it, and what a step of it leaves. *)
Definition view (s : Shared) (th : Thread) : @Sys Resp W :=
  MkSys (members s) false (t_worker th) (t_attempt th) OwnerIdle (t_reader th) (t_call th)
    (sessions s) (user s).
Definition thread_of (q : @Sys Resp W) : Thread :=
  MkThread (worker q) (attempt q) (reader q) (call q).
Definition put (s : Shared) (t : nat) (q : @Sys Resp W) : Shared :=
  MkShared (mem q) (worker_ s) (<[t := thread_of q]> (threads s)) (next_thread s)
    (next_session q) (joining s) (world q).

(** [run] and the callbacks of its reactor. *)
Definition thread_step (l : label) (q : @Sys Resp W) : outcome (option (@Sys Resp W)) :=
  match l with
  | LWorker => worker_step on_state opts q
  | LReader => reader_step on_data is_ping on_state q
  | LReadDone res => mret (read_done q res)
  | LDone st => mret (on_done q st)
  | LStart | LStop | LOwner => mret None
  end.

Definition on_thread (s : Shared) (t : nat) (l : label) : outcome (option Shared) :=
  match threads s !! t with
  | Some th => o ← thread_step l (view s th); mret (fmap (M := option) (put s t) o)
  | None => mret None
  end.

Definition start_shared (s : Shared) : Shared :=
  match worker_ s with
  | Some _ => s
  | None =>
      let m := members s in
      MkShared (MkMembers false (done m) (got_data m) (status m) (ctx m))
        (Some (next_thread s)) (<[next_thread s := new_run]> (threads s))
        (S (next_thread s)) (sessions s) (joining s) (user s)
  end.

(** [ctx_->TryCancel()]: the context belongs to one of the threads. *)
Definition cancel_call (n : nat) (th : Thread) : Thread :=
  match TryCancel (t_call th) n with
  | Val c => MkThread (t_worker th) (t_attempt th) (t_reader th) c
  | UB => th
  end.
Definition owns (n : nat) (th : Thread) : bool :=
  match t_call th with Some c => bool_decide (session c = n) | None => false end.
Definition cancel_shared (n : nat) (ts : gmap nat Thread) : outcome (gmap nat Thread) :=
  if existsb (owns n) (map_to_list ts).*2 then mret (cancel_call n <$> ts) else UB.

(** The critical section of [stop]. *)
Definition stop_enter (s : Shared) (u : nat) : outcome Shared :=
  let m := members s in
  ts ← match ctx m with Some n => cancel_shared n (threads s) | None => mret (threads s) end;
  mret (MkShared (MkMembers true (done m) (got_data m) (status m) (ctx m)) None ts
          (next_thread s) (sessions s) (<[u := worker_ s]> (joining s)) (user s)).

(** [if (t.joinable()) t.join();] and the return. *)
Definition stop_leave (s : Shared) (u : nat) : option Shared :=
  let back ts := MkShared (members s) (worker_ s) ts (next_thread s) (sessions s)
                   (delete u (joining s)) (user s) in
  match joining s !! u with
  | Some (Some t) =>
      match t_worker <$> threads s !! t with
      | Some Exited => Some (back (delete t (threads s)))
      | _ => None
      end
  | Some None => Some (back (threads s))
  | None => None
  end.

Inductive action :=
  | Start
  | Stop (u : nat)
  | Join (u : nat)
  | In (t : nat) (l : @label Resp).

Definition shared_step (a : action) (s : Shared) : outcome (option Shared) :=
  match a with
  | Start => mret (Some (start_shared s))
  | Stop u => match joining s !! u with
              | None => s' ← stop_enter s u; mret (Some s')
              | Some _ => mret None end
  | Join u => mret (stop_leave s u)
  | In t l => on_thread s t l
  end.

Fixpoint shared_run (s : Shared) (trace : list action) : outcome Shared :=
  match trace with
  | [] => mret s
  | a :: trace' =>
      o ← shared_step a s;
      shared_run (match o with Some s' => s' | None => s end) trace'
  end.

(** No [start] while some [stop] has not returned. *)
Fixpoint separate (s : Shared) (trace : list action) : bool :=
  match trace with
  | [] => true
  | a :: trace' =>
      match a with Start => bool_decide (joining s = ∅) | _ => true end
      && match shared_step a s with
         | Val (Some s') => separate s' trace'
         | Val None => separate s trace'
         | UB => true
         end
  end.
End Threads.
Arguments Shared : clear implicits.
Arguments action : clear implicits.

(** ** Overlapping stops

    With no [start] while a [stop] is under way, the shared stream behaves as the
    stream with one owner: of the stops that overlap, one holds the thread and the
    others repeat what is already done. *)

Section Simulation.
Context `{GrpcCodes}.
Context {Resp W : Type}.
Context (on_data : option (Resp -> W -> W)).
Context (is_ping : option (Resp -> bool)).
Context (on_state : option (StreamState -> option Error -> W -> W)).
Context (opts : StreamOptions).
Implicit Types (s : Shared Resp W) (q : @Sys Resp W) (th : @Thread Resp).

Abbreviation sstep := (step on_data is_ping on_state opts).
Abbreviation srun := (run on_data is_ping on_state opts).
Abbreviation tstep := (thread_step on_data is_ping on_state opts).
Abbreviation cstep := (shared_step on_data is_ping on_state opts).
Abbreviation crun := (shared_run on_data is_ping on_state opts).

Definition with_control q (j : bool) (o : Owner) : @Sys Resp W :=
  MkSys (mem q) j (worker q) (attempt q) o (reader q) (call q) (next_session q) (world q).

(** The steps of a thread neither read nor change what [start] and [stop] own. *)
Lemma thread_step_control l q j o :
  tstep l (with_control q j o)
  = (r ← tstep l q; mret (fmap (M := option) (fun q' => with_control q' j o) r)).
Proof.
  destruct l as [| | | | |res|st]; cbn [thread_step]; try done.
  - unfold worker_step. cbn. destruct (worker q); cbn; try done; try by case_match.
    + by destruct (Begin _).
    + destruct (done _); [|done]. by destruct (destroy _).
    + unfold report. cbn. destruct (reconnect opts); [|done].
      destruct (backoff_delay _ _); [|done]. cbn. by destruct (checked _ _).
  - unfold reader_step. cbn. destruct (reader q) as [|r| |]; cbn; try done.
    by destruct (StartRead _).
  - unfold read_done. cbn. destruct (call q), (reader q); try done. by destruct (reading _).
  - unfold on_done. cbn. destruct (call q), (reader q); try done. by destruct (_ && _).
Qed.

Lemma thread_step_sys l q q' :
  tstep l q = Val (Some q') ->
  sstep l q = Val (Some q') /\ joinable q' = joinable q /\ owner q' = owner q.
Proof.
  intros E. split.
  - destruct l; try done; cbn in *; by rewrite ?E.
  - pose proof (thread_step_control l q (joinable q) (owner q)) as Hc.
    replace (with_control q (joinable q) (owner q)) with q in Hc by by destruct q.
    rewrite E in Hc. injection Hc as Hc. by rewrite Hc.
Qed.

(** While the stream is stopping, its call, if it has one, stays cancelled. *)
Definition Cancelled q : Prop := forall c, call q = Some c -> cancelled c = true.

Lemma thread_step_cancelled l q q' :
  tstep l q = Val (Some q') -> stopping (mem q) = true -> Cancelled q -> Cancelled q'.
Proof.
  intros E Hs Hc. unfold Cancelled in *. destruct q as [m jn wk at0 o rd cl nx u0].
  destruct l as [| | | | |res|st]; cbn in *; try done.
  - unfold worker_step in E. cbn in E. rewrite ?Hs in E.
    destruct wk; cbn in E; try done; try (by injection E as <-).
    + unfold Begin in E. destruct cl as [c|]; [|done]. destruct (bound c); [done|].
      injection E as <-. intros ? [= <-]. cbn. by apply Hc.
    + destruct (done m); [|done]. unfold destroy in E. destruct cl as [c|]; [|done].
      destruct (finished c); [|done]. by injection E as <-.
    + unfold report in E. cbn in E. destruct (reconnect opts); [|by injection E as <-].
      destruct (backoff_delay _ _); [|done]. cbn in E. destruct (checked _ _); [|done].
      by injection E as <-.
  - unfold reader_step in E. cbn in E. destruct rd; try done; try (by injection E as <-).
    unfold StartRead in E. destruct cl as [c|]; [|done]. destruct (_ || _) in E; [done|].
    injection E as <-. intros ? [= <-]. cbn. by apply Hc.
  - unfold read_done in E. cbn in E. destruct cl as [c|], rd; try done.
    destruct (reading c); [|done]. injection E as <-. intros ? [= <-]. cbn. by apply Hc.
  - unfold on_done in E. cbn in E. destruct cl as [c|], rd; try done.
    destruct (_ && _) in E; [|done]. injection E as <-. intros ? [= <-]. cbn. by apply Hc.
Qed.

(** ** Representation

    The only thread is [t]; at most one user thread holds it. *)
Definition run_threads (t : nat) q : gmap nat Thread :=
  match worker q with NoThread => ∅ | _ => {[t := thread_of q]} end.

Lemma run_threads_cases t q :
  worker q = NoThread /\ run_threads t q = ∅
  \/ worker q <> NoThread /\ run_threads t q = {[t := thread_of q]}.
Proof. unfold run_threads. destruct (worker q); by (left + right). Qed.

Definition one_joins (t : nat) s : Prop :=
  exists u, joining s !! u = Some (Some t)
    /\ forall u' h, u' <> u -> joining s !! u' = Some h -> h = None.
Definition none_joins s : Prop := forall u h, joining s !! u = Some h -> h = None.

Record Sim (t : nat) s q : Prop := {
  sim_mem : members s = mem q;
  sim_world : user s = world q;
  sim_session : sessions s = next_session q;
  sim_threads : threads s = run_threads t q;
  sim_handle : worker_ s = if joinable q then Some t else None;
  sim_owner : owner q = OwnerIdle /\ none_joins s
              \/ owner q = StopJoining true /\ one_joins t s /\ Cancelled q;
}.

(** One action is at most two of the stream with one owner. *)
Definition Simulated q (o : outcome (option (Shared Resp W))) : Prop :=
  exists r, o = Val r /\ forall s', r = Some s' ->
  exists tr t' q', (length tr <= 2)%nat /\ srun q tr = Val q' /\ Sim t' s' q'.

Lemma simulated_none q : Simulated q (mret None).
Proof. by eexists. Qed.

Lemma simulated_some q s' tr t' q' :
  (length tr <= 2)%nat -> srun q tr = Val q' -> Sim t' s' q' ->
  Simulated q (mret (Some s')).
Proof.
  intros H1 H2 H3. eexists. split; [done|]. intros ? [= <-]. by exists tr, t', q'.
Qed.

Lemma sim_start t s q :
  Sim t s q -> Inv q -> joining s = ∅ -> Simulated q (cstep Start s).
Proof.
  intros Hm Hi Hj. pose proof Hm as [H1 H2 H3 H4 H5 H6].
  destruct H6 as [[Ho Hn]|(_ & (u & Hu & _) & _)]; [|by rewrite Hj in Hu].
  cbn [shared_step]. unfold start_shared. rewrite H5. destruct (joinable q) eqn:Ej.
  - by apply (simulated_some q s [] t q); [cbn; lia| |].
  - destruct Hi as [Ht _ Hs]. rewrite Ej, Ho in Ht.
    assert (Hw : worker q = NoThread) by by destruct (worker q).
    unfold SessionOk in Hs. rewrite Hw in Hs. destruct Hs as (Hc & Hx & Hr).
    apply (simulated_some q _ [LStart] (next_thread s) (start q));
      [cbn; lia|cbn; by rewrite Ho|].
    unfold start. rewrite Ej. split; cbn; [by rewrite H1|done|done| |done|by left].
    rewrite H4. unfold run_threads. rewrite Hw. cbn. unfold thread_of, new_run. cbn.
    rewrite Hc, Hr. by rewrite insert_empty.
Qed.

Lemma sim_thread t s q t' l :
  BackoffRange opts -> 0 <= attempt q < wmax W32 -> Sim t s q -> Inv q ->
  Simulated q (cstep (In t' l) s).
Proof.
  intros Hb Ha Hm Hi. pose proof Hm as [H1 H2 H3 H4 H5 H6].
  cbn [shared_step]. unfold on_thread. rewrite H4.
  assert (Hview : view s (thread_of q) = with_control q false OwnerIdle)
    by (unfold view, with_control; cbn; by rewrite H1, H2, H3).
  destruct (run_threads_cases t q) as [[Hw Hth]|[Hw Hth]]; rewrite Hth.
  { rewrite lookup_empty. apply simulated_none. }
  destruct (decide (t' = t)) as [->|Hne].
  2:{ rewrite lookup_singleton_ne by done. apply simulated_none. }
  rewrite lookup_singleton_eq, Hview, thread_step_control.
  assert (Hval : exists o, tstep l q = Val o).
  { destruct (step_inv on_data is_ping on_state opts l q Hb Ha Hi) as (o & E & _).
    destruct l; cbn in *; try (by eexists); rewrite E; by eexists. }
  destruct Hval as [[q'|] E]; rewrite E; cbn [mbind outcome_bind mret outcome_ret fmap option_fmap option_map];
    [|apply simulated_none].
  destruct (thread_step_sys l q q' E) as (Es & Ej & Eo).
  apply (simulated_some q _ [l] t q'); [cbn; lia|cbn; by rewrite Es|].
  assert (Hw' : worker q' <> NoThread).
  { destruct (step_inv on_data is_ping on_state opts l q Hb Ha Hi) as (o & E' & Hi').
    rewrite Es in E'. injection E' as <-. destruct (Hi' q' eq_refl) as [[Ht' _ _] _].
    destruct Hi as [Ht _ _]. rewrite Ej, Eo, Ht in Ht'. destruct (worker q), (worker q'); done. }
  split; cbn; [done|done|done| |by rewrite H5, Ej|].
  - rewrite H4, Hth, insert_singleton_eq. unfold run_threads.
    by destruct (worker q').
  - destruct H6 as [[Ho Hn]|(Ho & Hn & Hc)]; [left|right]; rewrite Eo; [done|].
    split_and!; [done|done|]. eapply thread_step_cancelled; [done| |done].
    apply (inv_owner _ Hi). by rewrite Ho.
Qed.

(** The critical section of [stop] on both sides: it cancels the call, if any. *)
Definition with_call q (c : option Call) : @Sys Resp W :=
  MkSys (mem q) (joinable q) (worker q) (attempt q) (owner q) (reader q) c
    (next_session q) (world q).
Definition stopping_members (m : Members) : Members :=
  MkMembers true (done m) (got_data m) (status m) (ctx m).

Lemma cancel_run_threads t q c :
  worker q <> NoThread -> call q = Some c ->
  cancel_shared (session c) (run_threads t q)
  = Val (run_threads t (with_call q
      (Some (MkCall (session c) (bound c) (reading c) (finished c) true)))).
Proof.
  intros Hw Hc. destruct (run_threads_cases t q) as [[? _]|[_ ->]]; [done|].
  unfold cancel_shared. rewrite map_to_list_singleton. cbn. unfold owns. cbn.
  rewrite Hc, bool_decide_true by done. cbn. rewrite map_fmap_singleton.
  unfold run_threads, cancel_call, thread_of. cbn. rewrite Hc. cbn.
  rewrite bool_decide_true by done. cbn. by destruct (worker q).
Qed.

Lemma stop_both t s q u :
  Sim t s q -> Inv q -> exists c',
    stop_enter s u = Val (MkShared (stopping_members (mem q)) None
      (run_threads t (with_call q c')) (next_thread s) (next_session q)
      (<[u := worker_ s]> (joining s)) (world q))
    /\ stop_locked q = Val (MkSys (stopping_members (mem q)) false (worker q) (attempt q)
         (StopJoining (joinable q)) (reader q) c' (next_session q) (world q))
    /\ (forall c, c' = Some c -> cancelled c = true)
    /\ (Cancelled q -> c' = call q).
Proof.
  intros [H1 H2 H3 H4 H5 H6] [_ _ Hs]. unfold stop_enter, stop_locked.
  rewrite H1, H2, H3, H4. unfold SessionOk in Hs. destruct (in_session (worker q)) eqn:Ew.
  - destruct Hs as (c & Hc & Hok). rewrite (co_ctx _ _ _ _ Hok), Hc.
    rewrite (cancel_run_threads t q c) by (done || by intros E; rewrite E in Ew).
    cbn. rewrite bool_decide_true by done. cbn. rewrite <- (co_ctx _ _ _ _ Hok).
    eexists. split_and!; [done|done|by intros ? [= <-]|].
    intros Hq. specialize (Hq c Hc). destruct c. cbn in Hq. by subst.
  - destruct Hs as (Hc & Hx & _). rewrite Hx, Hc. cbn. exists None.
    unfold stopping_members. rewrite Hx. split_and!; try done.
    do 2 f_equal. unfold with_call. rewrite <- Hc. by destruct q.
Qed.

Lemma sim_stop t s q u :
  Sim t s q -> Inv q -> Simulated q (cstep (Stop u) s).
Proof.
  intros Hm Hi. cbn [shared_step]. destruct (joining s !! u) as [h|] eqn:Eu;
    [apply simulated_none|].
  destruct (stop_both t s q u Hm Hi) as (c' & -> & Eq & Hc' & Hsame).
  destruct Hm as [H1 H2 H3 H4 H5 H6]. cbn [mbind outcome_bind].
  destruct H6 as [[Ho Hn]|(Ho & (u0 & Hu0 & Hn) & Hc)].
  - destruct (joinable q) eqn:Ej.
    + apply (simulated_some q _ [LStop] t
        (MkSys (stopping_members (mem q)) false (worker q) (attempt q)
           (StopJoining true) (reader q) c' (next_session q) (world q)));
        [cbn; lia|cbn; by rewrite Ho, Eq|].
      split; cbn; try done. right. split_and!; [done| |exact Hc'].
      exists u. rewrite H5. cbn. rewrite lookup_insert_eq. split; [done|].
      intros u' h Hne. rewrite lookup_insert_ne by done. apply Hn.
    + apply (simulated_some q _ [LStop; LOwner] t
        (MkSys (stopping_members (mem q)) false (worker q) (attempt q)
           OwnerIdle (reader q) c' (next_session q) (world q)));
        [cbn; lia|cbn; by rewrite Ho, Eq|].
      split; cbn; try done. left. split; [done|]. intros u' h.
      rewrite H5. cbn. destruct (decide (u' = u)) as [->|Hne].
      * rewrite lookup_insert_eq. by intros [= <-].
      * rewrite lookup_insert_ne by done. apply Hn.
  - destruct (inv_owner _ Hi) as [Hj Hst]; [by rewrite Ho|].
    apply (simulated_some q _ [] t q); [cbn; lia|done|].
    rewrite Hj in H5. rewrite (Hsame Hc). split; cbn.
    + unfold stopping_members. rewrite <- Hst. by destruct (mem q).
    + done.
    + done.
    + done.
    + by rewrite Hj.
    + right. split_and!; [done| |done]. exists u0. cbn. split.
      * rewrite lookup_insert_ne; [done|]. intros ->. congruence.
      * intros u' h Hne. rewrite H5. destruct (decide (u' = u)) as [->|Hne'].
        -- rewrite lookup_insert_eq. by intros [= <-].
        -- rewrite lookup_insert_ne by done. by apply Hn.
Qed.

Lemma sim_join t s q u :
  Sim t s q -> Inv q -> Simulated q (cstep (Join u) s).
Proof.
  intros Hm Hi. pose proof Hm as [H1 H2 H3 H4 H5 H6]. cbn [shared_step]. unfold stop_leave.
  destruct (joining s !! u) as [[t'|]|] eqn:Eu; [| |apply simulated_none].
  - destruct H6 as [[_ Hn]|(Ho & (u0 & Hu0 & Hn) & Hc)]; [by apply Hn in Eu|].
    assert (u = u0) as <-.
    { destruct (decide (u = u0)) as [|Hne]; [done|]. by apply (Hn u _ Hne) in Eu. }
    rewrite Eu in Hu0. injection Hu0 as ->. rewrite H4.
    destruct (run_threads_cases t q) as [[_ ->]|[_ ->]];
      [rewrite lookup_empty; apply simulated_none|].
    rewrite lookup_singleton_eq. cbn. destruct (worker q) eqn:Ew; try apply simulated_none.
    destruct (inv_owner _ Hi) as [Hj Hst]; [by rewrite Ho|].
    apply (simulated_some q _ [LOwner] t
      (MkSys (mem q) (joinable q) NoThread (attempt q) OwnerIdle (reader q) (call q)
         (next_session q) (world q))); [cbn; lia| |].
    + cbn. unfold owner_step. by rewrite Ho, Ew.
    + split; cbn; try done; [by rewrite delete_singleton_eq|].
      left. split; [done|]. intros u' h. cbn. destruct (decide (u' = u)) as [->|Hne].
      * by rewrite lookup_delete_eq.
      * rewrite lookup_delete_ne by done. by apply Hn.
  - apply (simulated_some q _ [] t q); [cbn; lia|done|].
    split; cbn; try done. unfold none_joins, one_joins. cbn.
    destruct H6 as [[Ho Hn]|(Ho & (u0 & Hu0 & Hn) & Hc)]; [left|right]; split_and!; try done.
    + intros u' h [_ Hu]%lookup_delete_Some. by apply (Hn u').
    + exists u0. split; [rewrite lookup_delete_ne; [done|]; intros ->; congruence|].
      intros u' h Hne [_ Hu]%lookup_delete_Some. by apply (Hn u').
Qed.

Lemma sim_step a t s q :
  BackoffRange opts -> 0 <= attempt q < wmax W32 -> Sim t s q -> Inv q ->
  (a = Start -> joining s = ∅) -> Simulated q (cstep a s).
Proof.
  intros Hb Ha Hm Hi Hj. destruct a as [|u|u|t' l].
  - by apply (sim_start t); [| |apply Hj].
  - by apply (sim_stop t).
  - by apply (sim_join t).
  - by apply (sim_thread t).
Qed.

Lemma server_run_app q tr1 tr2 q1 :
  srun q tr1 = Val q1 -> srun q (tr1 ++ tr2) = srun q1 tr2.
Proof.
  revert q. induction tr1 as [|l tr1 IH]; intros q E; cbn in *; [by injection E as ->|].
  destruct (sstep l q) as [o|]; [|done]. cbn in *. by apply IH.
Qed.

Lemma sim_run trace t s q :
  BackoffRange opts -> 0 <= attempt q ->
  attempt q + 2 * Z.of_nat (length trace) < wmax W32 -> Sim t s q -> Inv q ->
  separate on_data is_ping on_state opts s trace = true ->
  exists s' q' tr t', crun s trace = Val s' /\ srun q tr = Val q'
    /\ (length tr <= 2 * length trace)%nat /\ Sim t' s' q' /\ Inv q'
    /\ 0 <= attempt q' <= attempt q + Z.of_nat (length tr).
Proof.
  intros Hb. revert t s q. induction trace as [|a trace IH]; intros t s q Ha Hl Hm Hi Hsep.
  { exists s, q, [], t. cbn. split_and!; try done; lia. }
  cbn [shared_run separate length] in *. apply andb_true_iff in Hsep as [Hst Hsep].
  destruct (sim_step a t s q Hb ltac:(lia) Hm Hi) as (r & E & Hr).
  { intros ->. by apply bool_decide_eq_true in Hst. }
  rewrite E in Hsep |- *. cbn [mbind outcome_bind]. destruct r as [s1|].
  - destruct (Hr s1 eq_refl) as (tr & t1 & q1 & Hlen & Eq & Hm1).
    destruct (run_inv on_data is_ping on_state opts tr q Hb Ha ltac:(lia) Hi)
      as (q1' & Eq' & Hi1 & Ha1). rewrite Eq in Eq'. injection Eq' as <-.
    destruct (IH t1 s1 q1) as (s' & q' & tr' & t' & E1 & E2 & Hl' & Hm' & Hi' & Ha');
      [lia|lia|done..|].
    exists s', q', (tr ++ tr'), t'. rewrite length_app.
    split_and!; try done; try lia. by rewrite (server_run_app q tr tr' q1).
  - destruct (IH t s q) as (s' & q' & tr' & t' & H'); [lia|lia|done..|].
    exists s', q', tr', t'. destruct H' as (?&?&?&?&?&?). split_and!; try done; lia.
Qed.

Lemma shared_init_sim w : Sim 0 (shared_init w) (init w).
Proof. split; try done. left. done. Qed.

(** What is bound to come while some [stop] has not returned: a step of a caller of
    [stop], of a worker or of a running callback, or the end of the read or of the call
    of that worker, if the call is cancelled. *)
Definition proceeds s (a : action Resp) : Prop :=
  match a with
  | Start | Stop _ => False
  | Join _ => True
  | In t l => exists th, threads s !! t = Some th /\ due l (view s th) = true
  end.

Lemma sim_progress t s q u h :
  BackoffRange opts -> 0 <= attempt q < wmax W32 -> Sim t s q -> Inv q ->
  joining s !! u = Some h ->
  exists a s', cstep a s = Val (Some s') /\ proceeds s a.
Proof.
  intros Hb Ha Hm Hi Hu. pose proof Hm as [H1 H2 H3 H4 H5 H6].
  destruct h as [t'|].
  2:{ eexists (Join u), _. split; [|done]. cbn. unfold stop_leave. by rewrite Hu. }
  destruct H6 as [[_ Hn]|(Ho & (u0 & Hu0 & Hn) & Hc)]; [by apply Hn in Hu|].
  destruct (server_stop_progress on_data is_ping on_state opts q Hb Ha Hi)
    as (l & Hdue & q' & Eq); [by rewrite Ho|].
  assert (Hth : worker q <> NoThread -> run_threads t q = {[t := thread_of q]})
    by (intros Hw; by destruct (run_threads_cases t q) as [[? _]|[_ ?]]).
  assert (l = LOwner \/ l <> LOwner) as [->|Hl] by (destruct l; by (left + right)).
  - cbn in Eq. unfold owner_step in Eq. rewrite Ho in Eq.
    destruct (worker q) eqn:Ew; try done.
    eexists (Join u0), _. split; [|done]. cbn. unfold stop_leave.
    rewrite Hu0, H4, Hth by done. rewrite lookup_singleton_eq. cbn. by rewrite Ew.
  - assert (Et : tstep l q = Val (Some q')) by by destruct l.
    assert (Hw : worker q <> NoThread).
    { intros Hw. destruct Hi as [Ht _ _]. rewrite Hw, Ho, orb_true_r in Ht. done. }
    assert (Hview : view s (thread_of q) = with_control q false OwnerIdle)
      by (unfold view, with_control; cbn; by rewrite H1, H2, H3).
    eexists (In t l), _. split.
    + cbn. unfold on_thread. rewrite H4, Hth, lookup_singleton_eq by done.
      rewrite Hview, thread_step_control, Et. cbn. done.
    + exists (thread_of q). rewrite H4, Hth, lookup_singleton_eq, Hview by done.
      split; [done|]. by destruct l as [| | | | |[]|].
Qed.
End Simulation.

(** ** Properties *)

Section Properties.
Context `{GrpcCodes}.
Context {Resp W : Type}.
Context (on_data : option (Resp -> W -> W)).
Context (is_ping : option (Resp -> bool)).
Context (on_state : option (StreamState -> option Error -> W -> W)).
Context (opts : StreamOptions).

Abbreviation crun := (shared_run on_data is_ping on_state opts).

(** C29. Any number of threads may stop a server-side stream at once.  If no [start]
    is called while some [stop] has not returned, every interleaving of the calls of
    all threads has defined behaviour, and its members and callbacks are those of an
    execution of the stream with a single owner, with at most two actions for one;
    at most one thread executes [run] and at most one user thread waits for it.
    While a [stop] has not returned, an enabled action of such a caller, of the worker
    or of its cancelled call is due; a new [start] or [stop] does not count. *)
Theorem overlapping_stops_safe (w : W) (trace : list (action Resp)) :
  BackoffRange opts -> 2 * Z.of_nat (length trace) < wmax W32 ->
  separate on_data is_ping on_state opts (shared_init w) trace = true ->
  exists s q single,
    crun (shared_init w) trace = Val s
    /\ run on_data is_ping on_state opts (init w) single = Val q
    /\ (length single <= 2 * length trace)%nat
    /\ members s = mem q /\ user s = world q
    /\ (size (threads s) <= 1)%nat
    /\ (forall u u' t t', joining s !! u = Some (Some t) ->
           joining s !! u' = Some (Some t') -> u = u')
    /\ (owner q = OwnerIdle <-> forall u t, joining s !! u <> Some (Some t))
    /\ forall u h, joining s !! u = Some h ->
         exists a s', shared_step on_data is_ping on_state opts a s = Val (Some s')
           /\ proceeds s a.
Proof.
  intros Hb Hl Hsep.
  destruct (sim_run on_data is_ping on_state opts trace 0 (shared_init w) (init w))
    as (s & q & tr & t & Es & Eq & Hlen & Hm & Hi & Ha);
    [done|done|exact Hl|apply shared_init_sim|apply server_init_inv|done|].
  change (attempt (init w)) with 0 in Ha.
  exists s, q, tr. pose proof Hm as [H1 H2 H3 H4 H5 H6]. split_and!; try done.
  - rewrite H4. destruct (run_threads_cases t q) as [[_ ->]|[_ ->]].
    + rewrite map_size_empty. lia.
    + by rewrite map_size_singleton.
  - intros u u' t1 t2 Hu Hu'. destruct H6 as [[_ Hn]|(_ & (u0 & _ & Hn) & _)].
    + by apply Hn in Hu.
    + destruct (decide (u = u0)) as [->|Hne], (decide (u' = u0)) as [->|Hne']; try done;
        [by apply Hn in Hu'|by apply Hn in Hu|by apply Hn in Hu].
  - destruct H6 as [[Ho Hn]|(Ho & (u0 & Hu0 & _) & _)]; rewrite Ho; split; try done.
    + intros _ u t1 Hu. by apply Hn in Hu.
    + intros Hno. by destruct (Hno u0 t).
  - intros u h Hu. apply (sim_progress on_data is_ping on_state opts t s q u h); try done. lia.
Qed.

(** The calls that user threads make in an execution. *)
Definition calls (trace : list (action Resp)) : list (action Resp) :=
  filter (fun a => match a with Start | Stop _ => true | _ => false end = true) trace.

(** A [start] between the critical section of a [stop] and its [join]: the old
    worker is waiting for its cancelled call when the new one begins. *)
Definition race_prefix : list (action Resp) :=
  Start :: replicate 4 (In 0 LWorker) ++ [Stop 1; Start].
Definition race : list (action Resp) :=
  race_prefix ++ replicate 4 (In 1 LWorker)
    ++ [In 0 (LReadDone None); In 0 LReader; In 0 (LDone (MkStatus CANCELLED ""));
        In 1 LWorker].

(** [start] and [stop] race: for all callbacks and options, after one thread has
    called [start] and is in [stop], a [start] of another thread can leave two
    threads executing [run] on the same members, with [stopping_] reset, so that
    the [stop] waits for a worker nobody asks to finish; and the [done_] that the old
    call sets makes the new worker destroy its reactor under a live call. *)
Theorem start_races_stop (w : W) :
  calls race = [Start; Stop 1; Start]
  /\ (exists s, crun (shared_init w) race_prefix = Val s
        /\ size (threads s) = 2%nat /\ stopping (members s) = false
        /\ worker_ s = Some 1%nat /\ joining s !! 1%nat = Some (Some 0%nat)
        /\ t_worker <$> threads s !! 0%nat = Some AwaitingDone)
  /\ crun (shared_init w) race = UB.
Proof.
  split; [reflexivity|]. split; [|vm_compute; reflexivity].
  eexists. split; [vm_compute; reflexivity|]. vm_compute. by split_and!.
Qed.
End Properties.

(** Two threads stop a running stream; the second returns at once. *)
Definition two_stops : list (action nat) :=
  [Start; In 0 LWorker; In 0 LWorker; In 0 LWorker; In 0 LWorker; Stop 1; Stop 2; Join 2;
   In 0 (LReadDone None); In 0 LReader; In 0 (LDone (MkStatus 1 "")); In 0 LWorker;
   In 0 LWorker; In 0 LWorker; Join 1; Start].

Example two_stops_run :
  (s ← shared_run (Some log_data) None (Some log_state) default_stream_options
         (shared_init []) two_stops;
   mret (user s, bool_decide (joining s = ∅), t_worker <$> threads s !! 1%nat))
  = Val ([Notified connecting None; Notified stopped None], true, Some LoopTop).
Proof. vm_compute. reflexivity. Qed.

Lemma overlapping_stops_safe_witness :
  exists s, shared_run (Some log_data) None (Some log_state) default_stream_options
      (shared_init []) two_stops = Val s
    /\ (size (threads s) <= 1)%nat.
Proof.
  destruct (overlapping_stops_safe (Some log_data) None (Some log_state)
    default_stream_options [] two_stops) as (s & q & tr & E & _ & _ & _ & _ & Hs & _).
  - split_and!; vm_compute; discriminate.
  - vm_compute. reflexivity.
  - vm_compute. reflexivity.
  - exists s. exact (conj E Hs).
Defined.
