(* ===== verification/StreamFactories.v ===== *)
(** * The stream factories ([include/tinvest/streams/server_stream.hpp])

    [ServerStream]'s constructor and [set_ping_filter], [bind_stream] and the five
    [make_*_stream] helpers.  A [StreamObject] holds the members that the
    constructor sets besides the state of ServerStream.v.  [Msg n] is the class
    generated for message [n]; the responses are their [payload] oneofs. *)

From S2P Require Import Prelude StdStrings ErrorResult Client StreamCommon Contracts MarketData.
From S2P Require Import ServerStream ServerStreamTheorems.
From stdpp Require Import base numbers list strings.
From Stdlib Require Import ZArith Lia.

#[local] Open Scope Z_scope.

(** ** The object *)

(** What a [StartFn] does with a context and a request: the call it starts. *)
Record StartedCall (Req : Type) := MkStarted {
  started_path : string; started_request : Req; started_context : ClientContext }.
Arguments MkStarted {Req}. Arguments started_path {Req}.
Arguments started_request {Req}. Arguments started_context {Req}.

Definition StartFn (Req : Type) : Type := ClientContext -> Req -> StartedCall Req.

(** [detail::bind_stream<PbService, Req, Resp>(channel, method)] *)
Definition bind_stream {Req} (PbService : ServiceContract) (method : string) : StartFn Req :=
  fun ctx req => MkStarted (wire_path (full_name PbService) method) req ctx.

Section Object.
Context `{GrpcCodes} {Req Resp W : Type}.

Record StreamObject := MkObject {
  request_ : Req;
  start_fn_ : StartFn Req;
  on_data_ : option (Resp -> W -> W);
  on_state_ : option (StreamState -> option Error -> W -> W);
  opts_ : StreamOptions;
  is_ping_ : option (Resp -> bool);
  sys : @Sys Resp W;
}.

(** [ServerStream::ServerStream] *)
Definition ServerStream_new (request : Req) (start : StartFn Req)
    (on_data : option (Resp -> W -> W))
    (on_state : option (StreamState -> option Error -> W -> W))
    (opts : StreamOptions) (w : W) : StreamObject :=
  MkObject request start on_data on_state opts None (init w).

Definition set_ping_filter (o : StreamObject) (f : Resp -> bool) : StreamObject :=
  MkObject (request_ o) (start_fn_ o) (on_data_ o) (on_state_ o) (opts_ o) (Some f) (sys o).

Definition object_start (o : StreamObject) : StreamObject :=
  MkObject (request_ o) (start_fn_ o) (on_data_ o) (on_state_ o) (opts_ o) (is_ping_ o)
    (start (sys o)).

(** The executions of the object. *)
Definition object_run (o : StreamObject) (trace : list label) : outcome (@Sys Resp W) :=
  run (on_data_ o) (is_ping_ o) (on_state_ o) (opts_ o) (sys o) trace.

(** The call that [run_once] starts in a context. *)
Definition object_call (o : StreamObject) (ctx : ClientContext) : StartedCall Req :=
  start_fn_ o ctx (request_ o).
End Object.
Arguments StreamObject : clear implicits.

(** ** The responses *)

Section Responses.
Context {Msg : string -> Type}.

Inductive PositionsStreamResponse :=
  | positions_subscriptions (m : Msg "PositionsSubscriptionResult")
  | positions_position (m : Msg "PositionData")
  | positions_ping (m : Msg "Ping")
  | positions_initial_positions (m : Msg "PositionsResponse")
  | positions_not_set.

Inductive PortfolioStreamResponse :=
  | portfolio_subscriptions (m : Msg "PortfolioSubscriptionResult")
  | portfolio_portfolio (m : Msg "PortfolioResponse")
  | portfolio_ping (m : Msg "Ping")
  | portfolio_not_set.

Inductive TradesStreamResponse :=
  | trades_order_trades (m : Msg "OrderTrades")
  | trades_ping (m : Msg "Ping")
  | trades_subscription (m : Msg "SubscriptionResponse")
  | trades_not_set.

Inductive OrderStateStreamResponse :=
  | order_state_order_state (m : Msg "OrderStateStreamResponse.OrderState")
  | order_state_ping (m : Msg "Ping")
  | order_state_subscription (m : Msg "SubscriptionResponse")
  | order_state_not_set.

Definition MarketDataServerResponse : Type :=
  @MarketDataResponse (Msg "Candle") (Msg "Trade") (Msg "OrderBook") (Msg "LastPrice")
    (Msg "TradingStatus") (Msg "OpenInterest") (Msg "SubscribeCandlesResponse")
    (Msg "SubscribeOrderBookResponse") (Msg "SubscribeTradesResponse")
    (Msg "SubscribeInfoResponse") (Msg "SubscribeLastPriceResponse") (Msg "Ping").
End Responses.
Arguments PositionsStreamResponse : clear implicits.
Arguments PortfolioStreamResponse : clear implicits.
Arguments TradesStreamResponse : clear implicits.
Arguments OrderStateStreamResponse : clear implicits.
Arguments MarketDataServerResponse : clear implicits.

(** [r.has_ping()] of the generated classes. *)
Class HasPing (Resp : Type) := has_ping : Resp -> bool.

#[export] Instance positions_has_ping {Msg} : HasPing (PositionsStreamResponse Msg) :=
  fun r => match r with positions_ping _ => true | _ => false end.
#[export] Instance portfolio_has_ping {Msg} : HasPing (PortfolioStreamResponse Msg) :=
  fun r => match r with portfolio_ping _ => true | _ => false end.
#[export] Instance trades_has_ping {Msg} : HasPing (TradesStreamResponse Msg) :=
  fun r => match r with trades_ping _ => true | _ => false end.
#[export] Instance order_state_has_ping {Msg} : HasPing (OrderStateStreamResponse Msg) :=
  fun r => match r with order_state_ping _ => true | _ => false end.
#[export] Instance market_data_has_ping {Msg} : HasPing (MarketDataServerResponse Msg) :=
  fun r => match r with kPing _ => true | _ => false end.

(** ** The factories *)

Section Factories.
Context `{GrpcCodes} {Msg : string -> Type} {W : Type}.
Context (on_state : option (StreamState -> option Error -> W -> W)) (opts : StreamOptions).

Definition make_positions_stream (req : Msg "PositionsStreamRequest")
    (on_data : option (PositionsStreamResponse Msg -> W -> W)) (w : W)
    : StreamObject (Msg "PositionsStreamRequest") (PositionsStreamResponse Msg) W :=
  let s := ServerStream_new req
             (bind_stream OperationsStreamService_contract "PositionsStream")
             on_data on_state opts w in
  let s := set_ping_filter s has_ping in
  object_start s.

Definition make_portfolio_stream (req : Msg "PortfolioStreamRequest")
    (on_data : option (PortfolioStreamResponse Msg -> W -> W)) (w : W)
    : StreamObject (Msg "PortfolioStreamRequest") (PortfolioStreamResponse Msg) W :=
  let s := ServerStream_new req
             (bind_stream OperationsStreamService_contract "PortfolioStream")
             on_data on_state opts w in
  let s := set_ping_filter s has_ping in
  object_start s.

Definition make_trades_stream (req : Msg "TradesStreamRequest")
    (on_data : option (TradesStreamResponse Msg -> W -> W)) (w : W)
    : StreamObject (Msg "TradesStreamRequest") (TradesStreamResponse Msg) W :=
  let s := ServerStream_new req
             (bind_stream OrdersStreamService_contract "TradesStream")
             on_data on_state opts w in
  let s := set_ping_filter s has_ping in
  object_start s.

Definition make_order_state_stream (req : Msg "OrderStateStreamRequest")
    (on_data : option (OrderStateStreamResponse Msg -> W -> W)) (w : W)
    : StreamObject (Msg "OrderStateStreamRequest") (OrderStateStreamResponse Msg) W :=
  let s := ServerStream_new req
             (bind_stream OrdersStreamService_contract "OrderStateStream")
             on_data on_state opts w in
  let s := set_ping_filter s has_ping in
  object_start s.

Definition make_market_data_server_stream (req : Msg "MarketDataServerSideStreamRequest")
    (on_data : option (MarketDataServerResponse Msg -> W -> W)) (w : W)
    : StreamObject (Msg "MarketDataServerSideStreamRequest") (MarketDataServerResponse Msg) W :=
  let s := ServerStream_new req
             (bind_stream MarketDataStreamService_contract "MarketDataServerSideStream")
             on_data on_state opts w in
  let s := set_ping_filter s has_ping in
  object_start s.
End Factories.

(** ** Facts *)

Section Pings.
Context `{GrpcCodes} {Req Resp : Type} `{HasPing Resp}.

(** In every execution the object has no undefined behaviour, its callbacks follow
    the protocol, and no ping reaches the data callback. *)
Definition ConsumesPings (o : StreamObject Req Resp (list (event Resp))) : Prop :=
  forall trace, Z.of_nat (length trace) < wmax W32 ->
  exists s p, object_run o trace = Val s /\ follows (world s) = Some p
    /\ Forall (fun e => match e with Delivered r => has_ping r = false | _ => True end)
         (world s).

Lemma created_consumes_pings (req : Req) (f : StartFn Req) (opts : StreamOptions) :
  BackoffRange opts ->
  ConsumesPings (object_start (set_ping_filter
    (ServerStream_new req f (Some log_data) (Some log_state) opts []) has_ping)).
Proof.
  intros Hb trace Hl. unfold object_run. cbn [object_start set_ping_filter ServerStream_new
    on_data_ is_ping_ on_state_ opts_ sys].
  set (s0 := start (init [])).
  destruct (run_inv (Some log_data) (Some has_ping) (Some log_state) opts trace s0 Hb)
    as (s & E & _ & _);
      [done|change (attempt s0) with 0; lia|by apply start_inv; [apply server_init_inv|]|].
  assert (Ho : LogOk (Some has_ping) s).
  { apply (server_run_log (Some has_ping) opts trace s0 s); try done; [change (attempt s0) with 0; lia|].
    split; [exists Idle; split; [done|by left]|constructor]. }
  destruct Ho as [(p & Hf & _) Hn]. exists s, p. split_and!; [done|done|].
  eapply Forall_impl; [exact Hn|]. by intros [|r].
Qed.
End Pings.

(** The calls that the five factories start, with the messages of their types. *)
Section Calls.
Context `{GrpcCodes} {Msg : string -> Type} (opts : StreamOptions) (ctx : ClientContext).
Context (positions_req : Msg "PositionsStreamRequest")
  (portfolio_req : Msg "PortfolioStreamRequest") (trades_req : Msg "TradesStreamRequest")
  (order_state_req : Msg "OrderStateStreamRequest")
  (market_data_req : Msg "MarketDataServerSideStreamRequest").

Definition path_of {Req Resp W} (o : StreamObject Req Resp W) : string :=
  started_path (object_call o ctx).

Definition factory_calls : list (string * string * string) :=
  [(path_of (make_positions_stream None opts positions_req None ()),
    "PositionsStreamRequest", "PositionsStreamResponse");
   (path_of (make_portfolio_stream None opts portfolio_req None ()),
    "PortfolioStreamRequest", "PortfolioStreamResponse");
   (path_of (make_trades_stream None opts trades_req None ()),
    "TradesStreamRequest", "TradesStreamResponse");
   (path_of (make_order_state_stream None opts order_state_req None ()),
    "OrderStateStreamRequest", "OrderStateStreamResponse");
   (path_of (make_market_data_server_stream None opts market_data_req None ()),
    "MarketDataServerSideStreamRequest", "MarketDataResponse")]%string.

Definition server_streaming_rpcs : list (string * string * string) :=
  c ← contracts;
  r ← filter (fun r => server_streams r && negb (client_streams r) = true) (rpcs c);
  [(wire_path (full_name c) (rpc_name r), rpc_request r, rpc_response r)].

(** The stream factories cover the contracts: their calls are, with the request
    and response messages, exactly the RPCs in which only the server streams.
    Each factory returns a started stream that keeps the caller's request for
    every session and whose pings are never delivered, whatever happens. *)
Theorem factories_cover_contracts :
  BackoffRange opts ->
  (forall call, call ∈ factory_calls <-> call ∈ server_streaming_rpcs)
  /\ ConsumesPings (make_positions_stream (Some log_state) opts positions_req (Some log_data) [])
  /\ ConsumesPings (make_portfolio_stream (Some log_state) opts portfolio_req (Some log_data) [])
  /\ ConsumesPings (make_trades_stream (Some log_state) opts trades_req (Some log_data) [])
  /\ ConsumesPings (make_order_state_stream (Some log_state) opts order_state_req
                      (Some log_data) [])
  /\ ConsumesPings (make_market_data_server_stream (Some log_state) opts market_data_req
                      (Some log_data) []).
Proof.
  intros Hb. split; [|split_and!; by apply created_consumes_pings].
  intros call. assert (E : factory_calls ≡ₚ server_streaming_rpcs).
  { apply (bool_decide_eq_true (factory_calls ≡ₚ server_streaming_rpcs)).
    vm_compute. reflexivity. }
  by rewrite E.
Qed.
End Calls.

Lemma factories_cover_contracts_witness :
  ("/tinkoff.public.invest.api.contract.v1.OrdersStreamService/TradesStream",
   "TradesStreamRequest", "TradesStreamResponse")%string ∈ server_streaming_rpcs
  /\ ConsumesPings (make_trades_stream (Msg := fun _ => nat) (Some log_state)
       default_stream_options 7%nat (Some log_data) []).
Proof.
  destruct (factories_cover_contracts (Msg := fun _ => nat) default_stream_options
    new_context 1%nat 2%nat 7%nat 4%nat 5%nat) as (Hc & _ & _ & Ht & _).
  - split; [|split]; discriminate.
  - split; [|exact Ht]. apply Hc. apply list_elem_of_lookup_2 with 2%nat. reflexivity.
Defined.
