(* ===== verification/Numeric.v ===== *)
(** * The numbers of the algorithms

    The toolkit under [include/tinvest/algo] computes with [double].  Its model is
    written against an interface with two instances: [binary64], the IEEE format
    of [double] with round-to-nearest (the executable reading, for concrete
    inputs), and the real numbers (the exact reading, for the mathematical
    properties).  Theorems that hold for every instance hold for the rounded
    arithmetic too. *)

From S2P Require Import Prelude.
From stdpp Require Import base numbers list.
From Stdlib Require Import ZArith Lia Floats.SpecFloat Reals Lra.

#[local] Open Scope Z_scope.

(** The operators of [double] that the code uses; [of_int] converts an integer. *)
Class Numeric (F : Type) := {
  of_int : Z -> F;
  fadd : F -> F -> F; fsub : F -> F -> F; fmul : F -> F -> F; fdiv : F -> F -> F;
  fneg : F -> F; fsqrt : F -> F;
  fltb : F -> F -> bool; feqb : F -> F -> bool;
}.

Declare Scope num_scope.
Delimit Scope num_scope with num.
Infix "+" := fadd : num_scope.
Infix "-" := fsub : num_scope.
Infix "*" := fmul : num_scope.
Infix "/" := fdiv : num_scope.
Infix "<?" := fltb : num_scope.
Infix "=?" := feqb : num_scope.
Notation "a >? b" := (fltb b a) : num_scope.
Notation "- a" := (fneg a) : num_scope.

(** [std::max]: the first argument unless it is smaller. *)
Definition fmax `{Numeric F} (a b : F) : F := if (a <? b)%num then b else a.

(** Casting an int to [std::size_t]. *)
Definition to_size (n : Z) : Z := n mod 18446744073709551616.

Definition binary64 : Type := spec_float.

#[export] Instance binary64_numeric : Numeric binary64 := {
  of_int n := binary_normalize 53 1024 n 0 false;
  fadd := SFadd 53 1024; fsub := SFsub 53 1024;
  fmul := SFmul 53 1024; fdiv := SFdiv 53 1024;
  fneg := SFopp; fsqrt := SFsqrt 53 1024;
  fltb := SFltb; feqb := SFeqb;
}.

#[export] Instance real_numeric : Numeric R := {
  of_int := IZR;
  fadd := Rplus; fsub := Rminus; fmul := Rmult; fdiv := Rdiv;
  fneg := Ropp; fsqrt := sqrt;
  fltb a b := if Rlt_dec a b then true else false;
  feqb a b := if Req_dec_T a b then true else false;
}.

(** A number is computed without rounding in both instances when it is small. *)
Example binary64_tenth :
  fdiv (of_int 1) (of_int 10) = (S754_finite false 7205759403792794 (-56) : binary64).
Proof. vm_compute. reflexivity. Qed.

Lemma rltb_spec (a b : R) : reflect (a < b)%R (fltb a b).
Proof. cbn. destruct (Rlt_dec a b); by constructor. Qed.

Lemma reqb_spec (a b : R) : reflect (a = b) (feqb a b).
Proof. cbn. destruct (Req_dec_T a b); by constructor. Qed.

Lemma rmax_spec (a b : R) : fmax a b = Rmax a b.
Proof.
  unfold fmax. destruct (rltb_spec a b) as [Hlt|Hge].
  - by rewrite Rmax_right by lra.
  - apply Rnot_lt_le in Hge. by rewrite Rmax_left by lra.
Qed.

Lemma to_size_nonneg n : 0 <= n < 18446744073709551616 -> to_size n = n.
Proof. intros H. by apply Z.mod_small. Qed.

(** ** Sums and means of real sequences *)

Definition rsum (l : list R) : R := foldr Rplus 0%R l.

Lemma rsum_cons x l : rsum (x :: l) = (x + rsum l)%R.
Proof. done. Qed.

Lemma rsum_app l1 l2 : rsum (l1 ++ l2) = (rsum l1 + rsum l2)%R.
Proof.
  induction l1 as [|x l1 IH]; [by rewrite Rplus_0_l|].
  rewrite <- app_comm_cons, !rsum_cons, IH. lra.
Qed.

Lemma rsum_snoc l x : rsum (l ++ [x]) = (rsum l + x)%R.
Proof. rewrite rsum_app, rsum_cons. unfold rsum at 2. cbn. lra. Qed.

Lemma rsum_fold_left l a : fold_left Rplus l a = (a + rsum l)%R.
Proof.
  revert a. induction l as [|x l IH]; intros a; cbn [fold_left].
  - unfold rsum. cbn. lra.
  - rewrite IH, rsum_cons. lra.
Qed.

Definition mean (l : list R) : R := (rsum l / INR (length l))%R.

Lemma rsum_bounds l a b :
  Forall (fun x => a <= x <= b)%R l ->
  (INR (length l) * a <= rsum l <= INR (length l) * b)%R.
Proof.
  induction 1 as [|x l Hx Hl IH]; [unfold rsum; cbn; lra|].
  cbn [length]. rewrite S_INR, rsum_cons. lra.
Qed.

Lemma mean_bounds l a b :
  l <> [] -> Forall (fun x => a <= x <= b)%R l -> (a <= mean l <= b)%R.
Proof.
  intros Hl Hb. pose proof (rsum_bounds l a b Hb) as Hs.
  assert (Hn : (0 < INR (length l))%R)
    by (apply lt_0_INR; destruct l; [done|cbn; lia]).
  unfold mean. split.
  - apply Rmult_le_reg_r with (INR (length l)); [done|]. field_simplify; lra.
  - apply Rmult_le_reg_r with (INR (length l)); [done|]. field_simplify; lra.
Qed.

(** Splits the comparisons of the goal and of the hypotheses. *)
Ltac rcases :=
  repeat match goal with
  | |- context [@fltb R _ ?a ?b] => destruct (rltb_spec a b)
  | |- context [@feqb R _ ?a ?b] => destruct (reqb_spec a b)
  | H : context [@fltb R _ ?a ?b] |- _ => destruct (rltb_spec a b)
  | H : context [@feqb R _ ?a ?b] |- _ => destruct (reqb_spec a b)
  end.
