(* ===== verification/DecimalDouble.v ===== *)
(** * Conversions between [Decimal] and [double] ([include/tinvest/decimal.hpp])

    [Decimal::from_double] and [Decimal::to_double], over the numbers of Numeric.v
    extended with the three functions of [<cmath>] and the cast they use: [floor],
    [llround] and [static_cast<std::int64_t>], which is undefined for a value
    whose truncation does not fit. *)

From S2P Require Import Prelude FixedDecimal Numeric.
From stdpp Require Import base numbers list.
From Stdlib Require Import ZArith Lia Floats.SpecFloat Reals Lra.

#[local] Open Scope Z_scope.

Class Rounding (F : Type) := {
  ffloor : F -> F;
  to_int64 : F -> outcome Z;
  llround : F -> outcome Z;
}.

(** The conversion of an integer value to [std::int64_t]. *)
Definition in_int64 (z : Z) : outcome Z := checked W64 z.

(** [m * 2^e] truncated, and rounded to nearest with ties up. *)
Definition shift_trunc (m : positive) (e : Z) : Z :=
  if 0 <=? e then Z.pos m * 2 ^ e else Z.pos m / 2 ^ (- e).
Definition shift_round (m : positive) (e : Z) : Z :=
  if 0 <=? e then Z.pos m * 2 ^ e else (2 * Z.pos m + 2 ^ (- e)) / (2 * 2 ^ (- e)).

Definition signed (s : bool) (z : Z) : Z := if s then - z else z.

#[export] Instance binary64_rounding : Rounding binary64 := {
  ffloor x :=
    match x with
    | S754_finite s m e =>
        if 0 <=? e then x
        else of_int (signed s (Z.pos m) / 2 ^ (- e))
    | _ => x
    end;
  to_int64 x :=
    match x with
    | S754_zero _ => mret 0
    | S754_finite s m e => in_int64 (signed s (shift_trunc m e))
    | S754_infinity _ | S754_nan => UB
    end;
  llround x :=
    match x with
    | S754_zero _ => mret 0
    | S754_finite s m e => in_int64 (signed s (shift_round m e))
    | S754_infinity _ | S754_nan => UB
    end;
}.

(** The same functions of real numbers. *)
Definition Rtrunc (x : R) : Z := if Rlt_dec x 0 then - Int_part (- x) else Int_part x.
Definition Rround (x : R) : Z :=
  if Rlt_dec x 0 then - Int_part (- x + / 2) else Int_part (x + / 2).

#[export] Instance real_rounding : Rounding R := {
  ffloor x := IZR (Int_part x);
  to_int64 x := in_int64 (Rtrunc x);
  llround x := in_int64 (Rround x);
}.

(** ** The conversions *)

Section Conversions.
Context {F : Type} `{Numeric F, Rounding F}.

Definition from_double (v : F) : outcome Decimal :=
  let u := if (v <? of_int 0)%num then (- ffloor (- v))%num else ffloor v in
  units ← to_int64 u;
  nano ← llround ((v - u) * of_int kNano)%num;
  t ← checked W128 (units * kNano);
  t ← checked W128 (t + nano);
  mret (from_total t).

Definition to_double (d : Decimal) : F :=
  (of_int (units d) + of_int (nano d) / of_int 1000000000)%num.
End Conversions.

(** The expectations of tests/decimal_test.cpp, in binary64: 1.5, -2.25, 0.1. *)
Definition quotient (a b : Z) : binary64 := (of_int a / of_int b)%num.

Example test_from_double :
  (from_double (quotient 3 2), from_double (quotient (-9) 4), from_double (quotient 1 10))
  = (decimal 1 500000000, decimal (-2) (-250000000), decimal 0 100000000).
Proof. vm_compute. reflexivity. Qed.

(** 2^63 - 1024 is the largest double that can be converted, 2^63 and NaN cannot. *)
Example from_double_limits :
  (from_double (of_int (2 ^ 63 - 1024) : binary64), from_double (of_int (2 ^ 63) : binary64),
   from_double (quotient 0 0))
  = (Val (MkDecimal (2 ^ 63 - 1024) 0), UB, UB).
Proof. vm_compute. reflexivity. Qed.

(** A double holds about 16 digits, so the way through it and back is not the
    identity on all decimals. *)
Example through_double :
  (from_double (to_double (MkDecimal 123456 123456789) : binary64),
   from_double (to_double (MkDecimal 123456789 123456789) : binary64))
  = (Val (MkDecimal 123456 123456789), Val (MkDecimal 123456789 123456791)).
Proof. vm_compute. reflexivity. Qed.

(** ** Integer parts *)

#[local] Open Scope R_scope.

Lemma Int_part_range x : IZR (Int_part x) <= x < IZR (Int_part x) + 1.
Proof. destruct (base_Int_part x). lra. Qed.

Lemma Int_part_unique x z : IZR z <= x < IZR z + 1 -> Int_part x = z.
Proof. intros H. symmetry. apply Int_part_spec. lra. Qed.

Lemma Int_part_shift x z : Int_part (x + IZR z) = (Int_part x + z)%Z.
Proof. apply Int_part_unique. rewrite plus_IZR. pose proof (Int_part_range x). lra. Qed.

Lemma Rround_neg x : x <= 0 -> Rround x = (- Int_part (- x + / 2))%Z.
Proof.
  intros H. unfold Rround. destruct (Rlt_dec x 0); [done|].
  assert (x = 0) as -> by lra. rewrite Ropp_0, Rplus_0_l.
  by rewrite (Int_part_unique (/ 2) 0) by lra.
Qed.

Lemma Rround_pos x : 0 <= x -> Rround x = Int_part (x + / 2).
Proof. intros H. unfold Rround. destruct (Rlt_dec x 0); [lra|done]. Qed.

(** Rounding moves a number by at most a half, and a half only away from zero. *)
Lemma Rround_nearest x :
  Rabs (IZR (Rround x) - x) <= / 2
  /\ (Rabs (IZR (Rround x) - x) = / 2 -> Rabs x <= Rabs (IZR (Rround x))).
Proof.
  destruct (Rle_dec x 0) as [Hx|Hx].
  - rewrite Rround_neg by done. pose proof (Int_part_range (- x + / 2)) as Hr.
    rewrite opp_IZR. set (z := IZR (Int_part (- x + / 2))) in *. split.
    + apply Rabs_le. lra.
    + rewrite (Rabs_left1 x), Rabs_Ropp by done. intros E.
      assert (- x <= z); [|pose proof (Rle_abs z); lra].
      unfold Rabs in E. destruct (Rcase_abs (- z - x)); lra.
  - rewrite Rround_pos by lra. pose proof (Int_part_range (x + / 2)) as Hr.
    set (z := IZR (Int_part (x + / 2))) in *. split.
    + apply Rabs_le. lra.
    + rewrite (Rabs_right x) by lra. intros E.
      assert (x <= z); [|pose proof (Rle_abs z); lra].
      unfold Rabs in E. destruct (Rcase_abs (z - x)); lra.
Qed.

Lemma Rround_IZR z : Rround (IZR z) = z.
Proof.
  destruct (Rle_dec (IZR z) 0).
  - rewrite Rround_neg by done. rewrite (Int_part_unique _ (- z)); [lia|].
    rewrite opp_IZR. lra.
  - rewrite Rround_pos by lra. apply Int_part_unique. lra.
Qed.

(** Rounding [x * k] splits along the truncation of [x]. *)
Lemma Rround_split x (k : Z) : 0 < IZR k ->
  Rround (x * IZR k) = (Rtrunc x * k + Rround ((x - IZR (Rtrunc x)) * IZR k))%Z.
Proof.
  intros Hk. unfold Rtrunc. destruct (Rlt_dec x 0) as [Hx|Hx].
  - pose proof (Int_part_range (- x)) as Hr. rewrite opp_IZR.
    rewrite !Rround_neg by nra.
    replace (- ((x - - IZR (Int_part (- x))) * IZR k) + / 2)
      with (- (x * IZR k) + / 2 + IZR (- (Int_part (- x) * k)))
      by (rewrite opp_IZR, mult_IZR; lra).
    rewrite Int_part_shift. lia.
  - pose proof (Int_part_range x) as Hr. rewrite !Rround_pos by nra.
    replace ((x - IZR (Int_part x)) * IZR k + / 2)
      with (x * IZR k + / 2 + IZR (- (Int_part x * k)))
      by (rewrite opp_IZR, mult_IZR; lra).
    rewrite Int_part_shift. lia.
Qed.

Lemma fraction_range x : -1 < x - IZR (Rtrunc x) < 1.
Proof.
  unfold Rtrunc. destruct (Rlt_dec x 0).
  - pose proof (Int_part_range (- x)). rewrite opp_IZR. lra.
  - pose proof (Int_part_range x). lra.
Qed.

Lemma Rround_range x (k : Z) : - IZR k < x < IZR k -> (- k <= Rround x <= k)%Z.
Proof.
  intros Hx. destruct (Rround_nearest x) as [Hn _].
  assert (- IZR k - 1 < IZR (Rround x) < IZR k + 1) as [H1 H2]
    by (unfold Rabs in Hn; destruct (Rcase_abs _); lra).
  rewrite <- opp_IZR, <- minus_IZR in H1. rewrite <- plus_IZR in H2.
  apply lt_IZR in H1, H2. lia.
Qed.

(** ** Properties *)

(** What [from_double] computes over the reals. *)
Lemma from_double_real (v : R) :
  from_double v = if decide (InRange W64 (Rtrunc v))
                  then Val (from_total (Rround (v * IZR kNano))) else UB.
Proof.
  unfold from_double. 
  set (u := if (v <? of_int 0)%num then _ else _).
  assert (Hu : u = IZR (Rtrunc v)).
  { unfold u, Rtrunc. cbn. destruct (Rlt_dec v 0); [by rewrite opp_IZR|done]. }
  rewrite Hu. clear u Hu. cbn [to_int64 real_rounding llround of_int real_numeric fmul fsub].
  assert (Hk : 0 < IZR kNano) by (unfold kNano; lra).
  pose proof (fraction_range v) as Hf.
  assert (Hn : (- kNano <= Rround ((v - IZR (Rtrunc v)) * IZR kNano) <= kNano)%Z)
    by (apply Rround_range; nra).
  assert (Ht : Rtrunc (IZR (Rtrunc v)) = Rtrunc v).
  { unfold Rtrunc at 1. destruct (Rlt_dec _ 0).
    - rewrite <- opp_IZR, (Int_part_unique _ (- Rtrunc v)) by lra. lia.
    - apply Int_part_unique. lra. }
  rewrite Ht. unfold in_int64. destruct (decide (InRange W64 (Rtrunc v))) as [Hr|Hr].
  2: { by rewrite (checked_out W64 (Rtrunc v)) by done. }
  rewrite (checked_in W64 (Rtrunc v)) by done. cbn [mbind outcome_bind].
  rewrite (Rround_split v kNano Hk). unfold kNano in *.
  do 3 checked_step. done.
Qed.

Lemma to_double_scaled (d : Decimal) :
  (to_double d : R) * IZR kNano = IZR (value d).
Proof.
  unfold to_double, value, kNano, units, nano. cbn [of_int fadd fdiv real_numeric].
  rewrite plus_IZR, mult_IZR. lra.
Qed.

Lemma to_double_trunc (d : Decimal) : Canonical d -> Rtrunc (to_double d) = units d.
Proof.
  intros ([_ _] & Hn & Hp & Hm). pose proof (to_double_scaled d) as Hs.
  unfold value, kNano, units in *. rewrite plus_IZR, mult_IZR in Hs.
  set (v := to_double d : R) in *.
  assert (Hn1 : IZR (nano_ d) < 1000000000) by (apply IZR_lt; lia).
  assert (Hn2 : - 1000000000 < IZR (nano_ d)) by (apply IZR_lt; lia).
  unfold Rtrunc. destruct (Rlt_dec v 0) as [Hv|Hv].
  - assert (units_ d <= 0 /\ nano_ d <= 0)%Z as [Hu0 Hn0].
    { destruct (Z_lt_le_dec 0 (units_ d)) as [H|H].
      - specialize (Hp H). apply IZR_le in Hp. apply IZR_lt in H. lra.
      - split; [done|]. destruct (Z.eq_dec (units_ d) 0) as [E|E]; [|apply Hm; lia].
        rewrite E in Hs. apply le_IZR. lra. }
    apply IZR_le in Hn0. rewrite (Int_part_unique _ (- units_ d)); [lia|].
    rewrite opp_IZR. lra.
  - assert (0 <= units_ d /\ 0 <= nano_ d)%Z as [Hu0 Hn0].
    { destruct (Z_lt_le_dec (units_ d) 0) as [H|H].
      - specialize (Hm H). apply IZR_le in Hm.
        assert (IZR (units_ d) <= - 1) by (apply IZR_le; lia). lra.
      - split; [done|]. destruct (Z.eq_dec (units_ d) 0) as [E|E]; [|apply Hp; lia].
        rewrite E in Hs. apply le_IZR. lra. }
    apply IZR_le in Hn0. apply Int_part_unique. lra.
Qed.

(** C34. [from_double] over the reals: it is undefined exactly when the integer part
    of the number does not fit in 64 bits; otherwise, if the rounded value fits, it
    returns the canonical decimal nearest to the number, a tie going away from
    zero; and it is the left inverse of [to_double] on every canonical decimal. *)
Theorem from_double_nearest (v : R) :
  (from_double v = UB <-> ~ InRange W64 (Rtrunc v))
  /\ (InRange W64 (Rtrunc v) -> Representable (Rround (v * IZR kNano)) ->
      exists d, from_double v = Val d /\ Canonical d
        /\ Rabs (IZR (value d) - v * IZR kNano) <= / 2
        /\ (Rabs (IZR (value d) - v * IZR kNano) = / 2 ->
            Rabs (v * IZR kNano) <= Rabs (IZR (value d))))
  /\ (forall d, Canonical d -> from_double (to_double d : R) = Val d).
Proof.
  rewrite from_double_real. split_and!.
  - by destruct (decide (InRange W64 (Rtrunc v))).
  - intros Hr Ht. rewrite decide_True by done. eexists. split; [done|].
    rewrite value_from_total by done. split; [by apply canonical_from_total|].
    apply Rround_nearest.
  - intros d Hd. rewrite from_double_real, (to_double_trunc d Hd), to_double_scaled, Rround_IZR.
    rewrite decide_True by apply Hd. by rewrite from_total_value.
Qed.

Lemma from_double_nearest_witness :
  from_double (to_double (MkDecimal (-2) (-250000000)) : R) = Val (MkDecimal (-2) (-250000000)).
Proof.
  apply (from_double_nearest 0). split; [split; split; discriminate|].
  split_and!; [reflexivity|discriminate|discriminate].
Defined.
