(* ===== verification/PrintfDouble.v ===== *)
(** * Numbers as [printf] writes them

    The conversion [%.<p>f] of a [double] and the field widths, as
    [examples/backtest.cpp] uses them.  A finite number is written exactly and rounded
    to [p] digits, ties to even; [printf_fixed_prints] says that no other text of [p]
    digits is nearer. *)

From S2P Require Import Prelude StdStrings DecimalText Numeric DecimalDouble.
From stdpp Require Import base numbers list strings.
From Stdlib Require Import ZArith Lia Ascii Floats.SpecFloat.

#[local] Open Scope Z_scope.

(** [num / den] rounded to an integer, ties to even, for [0 <= num] and [0 < den]. *)
Definition round_even (num den : Z) : Z :=
  let q := num / den in
  let r := num mod den in
  if 2 * r <? den then q
  else if den <? 2 * r then q + 1
  else if Z.even q then q else q + 1.

(** [m * 2^e] in units of [10^-p], rounded. *)
Definition scaled_round (p : nat) (m : positive) (e : Z) : Z :=
  round_even (Z.pos m * 10 ^ Z.of_nat p * 2 ^ Z.max 0 e) (2 ^ Z.max 0 (- e)).

(** The digits of an integer of any size. *)
Definition big_digits (n : Z) : list ascii := udec_aux (S (Z.to_nat (Z.log2 n))) n [].

(** [n] units of [10^-p] with the decimal point. *)
Definition point_text (p : nat) (n : Z) : list ascii :=
  let unit := 10 ^ Z.of_nat p in
  big_digits (n / unit)
    ++ match p with O => [] | _ => "."%char :: frac_digits p (n mod unit) [] end.

Definition minus (s : bool) : list ascii := if s then ["-"%char] else [].

(** [%.<p>f] *)
Definition printf_fixed (p : nat) (x : binary64) : string :=
  String.string_of_list_ascii
    match x with
    | S754_zero s => minus s ++ point_text p 0
    | S754_infinity s => minus s ++ String.list_ascii_of_string "inf"
    | S754_nan => String.list_ascii_of_string "nan"
    | S754_finite s m e => minus s ++ point_text p (scaled_round p m e)
    end.

Fixpoint blanks (n : nat) : string :=
  match n with O => "" | S n => String " " (blanks n) end.

(** [%<width>...] and [%-<width>...] *)
Definition pad_left (width : nat) (s : string) : string :=
  blanks (width - String.length s) +:+ s.
Definition pad_right (width : nat) (s : string) : string :=
  s +:+ blanks (width - String.length s).

Example printf_fixed_examples :
  (printf_fixed 2 (quotient 5 2), printf_fixed 2 (quotient (-1) 3),
   printf_fixed 2 (quotient 1 8), printf_fixed 2 (quotient 3 8),
   printf_fixed 1 (quotient 999 10), printf_fixed 0 (quotient 5 2),
   printf_fixed 2 (quotient (-1) 1000), printf_fixed 2 (quotient 1 0),
   pad_left 8 (printf_fixed 2 (quotient 12345 100)), pad_right 4 "ab")
  = ("2.50", "-0.33", "0.12", "0.38", "99.9", "2", "-0.00", "inf", "  123.45", "ab  ")%string.
Proof. vm_compute. reflexivity. Qed.

(** ** What the text denotes *)

(** [v] is [num / den] rounded to the nearest integer, to the even one of two. *)
Definition NearestEven (v num den : Z) : Prop :=
  2 * Z.abs (v * den - num) <= den
  /\ (2 * Z.abs (v * den - num) = den -> Z.even v = true).

Lemma round_even_nearest num den :
  0 < den -> NearestEven (round_even num den) num den.
Proof.
  intros Hd. unfold NearestEven, round_even.
  pose proof (Z.div_mod num den ltac:(lia)) as E.
  pose proof (Z.mod_pos_bound num den Hd) as Hm.
  set (q := num / den) in *. set (r := num mod den) in *.
  destruct (Z.ltb_spec (2 * r) den) as [H1|H1].
  { replace (q * den - num) with (- r) by lia. rewrite Z.abs_opp, Z.abs_eq by lia. lia. }
  assert (E1 : (q + 1) * den - num = den - r) by lia.
  destruct (Z.ltb_spec den (2 * r)) as [H2|H2].
  { rewrite E1, Z.abs_eq by lia. lia. }
  destruct (Z.even q) eqn:Eq.
  - replace (q * den - num) with (- r) by lia. rewrite Z.abs_opp, Z.abs_eq by lia.
    split; [lia|done].
  - rewrite E1, Z.abs_eq by lia. split; [lia|]. intros _.
    by rewrite Z.add_1_r, Z.even_succ, <- Z.negb_even, Eq.
Qed.

Lemma round_even_nonneg num den : 0 <= num -> 0 < den -> 0 <= round_even num den.
Proof.
  intros Hn Hd. pose proof (Z.div_pos num den Hn Hd). unfold round_even.
  repeat case_match; lia.
Qed.

Lemma big_digits_value n :
  0 <= n -> Digits (big_digits n) /\ digits_value 0 (big_digits n) = n /\ big_digits n <> [].
Proof.
  intros Hn. unfold big_digits.
  assert (E : digits_value 0 (udec_aux (S (Z.to_nat (Z.log2 n))) n []) = n).
  { rewrite digits_value_udec_aux; [done| |lia]. split; [done|].
    rewrite Nat2Z.inj_succ, Z2Nat.id by apply Z.log2_nonneg.
    destruct (Z.eq_dec n 0) as [->|Hz]; [by cbn|].
    pose proof (Z.log2_spec n ltac:(lia)) as [_ Hlt].
    eapply Z.lt_le_trans; [exact Hlt|]. apply Z.pow_le_mono_l.
    pose proof (Z.log2_nonneg n). lia. }
  split_and!; [apply digits_udec_aux; constructor|done|].
  cbn [udec_aux]. destruct (n <? 10); [done|].
  assert (L : forall f m acc, acc <> [] -> udec_aux f m acc <> []).
  { clear. induction f as [|f IH]; intros m acc Ha; cbn; [done|].
    case_match; [done|by apply IH]. }
  by apply L.
Qed.

(** The value of [k] digits written after others. *)
Lemma digits_value_frac k f u acc :
  0 <= f < 10 ^ Z.of_nat k ->
  digits_value u (frac_digits k f acc) = digits_value (u * 10 ^ Z.of_nat k + f) acc.
Proof.
  revert f acc. induction k as [|k IH]; intros f acc Hf.
  - change (10 ^ Z.of_nat 0) with 1 in *. replace (u * 1 + f) with u by lia. done.
  - cbn [frac_digits]. rewrite Nat2Z.inj_succ, Z.pow_succ_r in * by lia.
    pose proof (Z.div_mod f 10 ltac:(lia)). pose proof (Z.mod_pos_bound f 10 ltac:(lia)).
    rewrite IH by (split; [apply Z.div_pos; lia|apply Z.div_lt_upper_bound; lia]).
    unfold digits_value. cbn [fold_left]. destruct (digit_mod f) as [_ ->]. f_equal. lia.
Qed.

Lemma frac_digits_length k f acc : length (frac_digits k f acc) = (k + length acc)%nat.
Proof.
  revert f acc. induction k as [|k IH]; intros f acc; [done|].
  cbn [frac_digits]. rewrite IH. cbn. lia.
Qed.

Lemma digits_value_app u l1 l2 : digits_value u (l1 ++ l2) = digits_value (digits_value u l1) l2.
Proof. unfold digits_value. apply fold_left_app. Qed.

(** Digits, and [p] more after a point; without the point, their value is [n]. *)
Lemma point_text_value p n :
  0 <= n -> exists D F,
    point_text p n = D ++ match p with O => [] | _ => "."%char :: F end
    /\ Digits D /\ D <> [] /\ Digits F /\ length F = p /\ digits_value 0 (D ++ F) = n.
Proof.
  intros Hn. assert (Hu : 0 < 10 ^ Z.of_nat p) by (apply Z.pow_pos_nonneg; lia).
  destruct (big_digits_value (n / 10 ^ Z.of_nat p)) as (H1 & H2 & H3);
    [by apply Z.div_pos|].
  exists (big_digits (n / 10 ^ Z.of_nat p)), (frac_digits p (n mod 10 ^ Z.of_nat p) []).
  split_and!; try done.
  - apply digits_frac_digits. constructor.
  - rewrite frac_digits_length. cbn. lia.
  - rewrite digits_value_app, H2, digits_value_frac by (apply Z.mod_pos_bound; lia).
    unfold digits_value. cbn. pose proof (Z.div_mod n (10 ^ Z.of_nat p) ltac:(lia)). lia.
Qed.

(** The texts of [%.<p>f]: a finite number is shown by the [p] digits nearest to it. *)
Inductive PrintsAs (p : nat) : binary64 -> string -> Prop :=
  | prints_zero s D F :
      Digits D -> D <> [] -> Digits F -> length F = p -> digits_value 0 (D ++ F) = 0 ->
      PrintsAs p (S754_zero s) (String.string_of_list_ascii
        (minus s ++ D ++ match p with O => [] | _ => "."%char :: F end))
  | prints_infinity s :
      PrintsAs p (S754_infinity s) ((if s then "-inf" else "inf")%string)
  | prints_nan : PrintsAs p S754_nan "nan"
  | prints_finite s m e D F :
      Digits D -> D <> [] -> Digits F -> length F = p ->
      NearestEven (digits_value 0 (D ++ F))
        (Z.pos m * 10 ^ Z.of_nat p * 2 ^ Z.max 0 e) (2 ^ Z.max 0 (- e)) ->
      PrintsAs p (S754_finite s m e) (String.string_of_list_ascii
        (minus s ++ D ++ match p with O => [] | _ => "."%char :: F end)).

Lemma printf_fixed_prints p x : PrintsAs p x (printf_fixed p x).
Proof.
  unfold printf_fixed. destruct x as [s|s| |s m e].
  - destruct (point_text_value p 0) as (D & F & -> & H1 & H2 & H3 & H4 & H5); [lia|].
    by constructor.
  - destruct s; constructor.
  - constructor.
  - unfold scaled_round.
    set (num := Z.pos m * 10 ^ Z.of_nat p * 2 ^ Z.max 0 e). set (den := 2 ^ Z.max 0 (- e)).
    assert (Hd : 0 < den) by (apply Z.pow_pos_nonneg; lia).
    assert (Hn : 0 <= num).
    { unfold num. apply Z.mul_nonneg_nonneg; [|apply Z.pow_nonneg; lia].
      apply Z.mul_nonneg_nonneg; [lia|apply Z.pow_nonneg; lia]. }
    destruct (point_text_value p (round_even num den) (round_even_nonneg _ _ Hn Hd))
      as (D & F & -> & H1 & H2 & H3 & H4 & H5).
    constructor; try done. rewrite H5. by apply round_even_nearest.
Qed.
