(* ===== verification/Indicators.v ===== *)
(** * Streaming indicators ([include/tinvest/algo/indicators.hpp])

    One record per class with its data members, [*_new] for the constructor and
    one function per method, over any [Numeric] type.  A method is an [outcome]
    where it can have undefined behaviour: the int arithmetic of [Rsi::push] and
    the dereference of the end iterator in an empty [Donchian]. *)

From S2P Require Import Prelude Numeric.
From stdpp Require Import base numbers list.
From Stdlib Require Import ZArith Lia Reals Lra.

#[local] Open Scope Z_scope.

Section Indicators.
Context {F : Type} `{Numeric F}.

(** [static_cast<double>(container.size())] *)
Definition size_as_double {A} (l : list A) : F := of_int (Z.of_nat (length l)).

(** ** Sma *)

Record Sma := MkSma { sma_period : Z; sma_window : list F; sma_sum : F }.

Definition sma_new (period : Z) : Sma := MkSma period [] (of_int 0).

Definition sma_push (s : Sma) (v : F) : Sma :=
  let window := sma_window s ++ [v] in
  let sum := (sma_sum s + v)%num in
  if to_size (sma_period s) <? Z.of_nat (length window) then
    match window with
    | front :: rest => MkSma (sma_period s) rest (sum - front)%num
    | [] => MkSma (sma_period s) window sum
    end
  else MkSma (sma_period s) window sum.

Definition sma_ready (s : Sma) : bool :=
  Z.of_nat (length (sma_window s)) =? to_size (sma_period s).

Definition sma_value (s : Sma) : F := (sma_sum s / size_as_double (sma_window s))%num.

(** ** Ema *)

Record Ema := MkEma {
  ema_period : Z; ema_k : F; ema_seed : Sma; ema_is_ready : bool; ema_value_ : F }.

Definition ema_new (period : Z) : Ema :=
  MkEma period (of_int 2 / (of_int period + of_int 1))%num (sma_new period) false (of_int 0).

Definition ema_push (e : Ema) (v : F) : Ema :=
  if negb (ema_is_ready e) then
    let seed := sma_push (ema_seed e) v in
    if sma_ready seed
    then MkEma (ema_period e) (ema_k e) seed true (sma_value seed)
    else MkEma (ema_period e) (ema_k e) seed false (ema_value_ e)
  else
    MkEma (ema_period e) (ema_k e) (ema_seed e) true
      (v * ema_k e + ema_value_ e * (of_int 1 - ema_k e))%num.

Definition ema_ready (e : Ema) : bool := ema_is_ready e.
Definition ema_value (e : Ema) : F := ema_value_ e.

(** ** Rsi *)

Record Rsi := MkRsi {
  rsi_period : Z;
  rsi_prev : F; rsi_has_prev : bool;
  rsi_warmup : Z;
  rsi_gain_sum : F; rsi_loss_sum : F;
  rsi_avg_gain : F; rsi_avg_loss : F;
  rsi_is_ready : bool;
}.

Definition rsi_new (period : Z) : Rsi :=
  MkRsi period (of_int 0) false 0 (of_int 0) (of_int 0) (of_int 0) (of_int 0) false.

Definition rsi_push (r : Rsi) (close : F) : outcome Rsi :=
  let p := rsi_period r in
  if negb (rsi_has_prev r) then
    mret (MkRsi p close true (rsi_warmup r) (rsi_gain_sum r) (rsi_loss_sum r)
            (rsi_avg_gain r) (rsi_avg_loss r) (rsi_is_ready r))
  else
    let delta := (close - rsi_prev r)%num in
    let gain := if (delta >? of_int 0)%num then delta else of_int 0 in
    let loss := if (delta <? of_int 0)%num then (- delta)%num else of_int 0 in
    if rsi_warmup r <? p then
      let gain_sum := (rsi_gain_sum r + gain)%num in
      let loss_sum := (rsi_loss_sum r + loss)%num in
      let warmup := rsi_warmup r + 1 in
      if warmup =? p then
        mret (MkRsi p close true warmup gain_sum loss_sum
                (gain_sum / of_int p)%num (loss_sum / of_int p)%num true)
      else
        mret (MkRsi p close true warmup gain_sum loss_sum
                (rsi_avg_gain r) (rsi_avg_loss r) (rsi_is_ready r))
    else
      q ← checked W32 (p - 1);
      mret (MkRsi p close true (rsi_warmup r) (rsi_gain_sum r) (rsi_loss_sum r)
              ((rsi_avg_gain r * of_int q + gain) / of_int p)%num
              ((rsi_avg_loss r * of_int q + loss) / of_int p)%num (rsi_is_ready r)).

Definition rsi_ready (r : Rsi) : bool := rsi_is_ready r.

Definition rsi_value (r : Rsi) : F :=
  if (rsi_avg_loss r =? of_int 0)%num then of_int 100
  else
    let rs := (rsi_avg_gain r / rsi_avg_loss r)%num in
    (of_int 100 - of_int 100 / (of_int 1 + rs))%num.

(** ** Macd *)

Record Macd := MkMacd { macd_fast : Ema; macd_slow : Ema; macd_signal_ : Ema }.

Definition macd_new (fast slow signal : Z) : Macd :=
  MkMacd (ema_new fast) (ema_new slow) (ema_new signal).

Definition macd_push (m : Macd) (close : F) : Macd :=
  let fast := ema_push (macd_fast m) close in
  let slow := ema_push (macd_slow m) close in
  MkMacd fast slow
    (if ema_ready fast && ema_ready slow
     then ema_push (macd_signal_ m) (ema_value fast - ema_value slow)%num
     else macd_signal_ m).

Definition macd_ready (m : Macd) : bool := ema_ready (macd_signal_ m).
Definition macd_macd (m : Macd) : F := (ema_value (macd_fast m) - ema_value (macd_slow m))%num.
Definition macd_signal (m : Macd) : F := ema_value (macd_signal_ m).
Definition macd_histogram (m : Macd) : F := (macd_macd m - macd_signal m)%num.

(** ** Bollinger *)

Record Bollinger := MkBollinger { bb_period : Z; bb_mult : F; bb_window : list F }.

Definition bb_new (period : Z) (mult : F) : Bollinger := MkBollinger period mult [].

Definition bb_push (b : Bollinger) (v : F) : Bollinger :=
  let window := bb_window b ++ [v] in
  MkBollinger (bb_period b) (bb_mult b)
    (if to_size (bb_period b) <? Z.of_nat (length window) then tail window else window).

Definition bb_ready (b : Bollinger) : bool :=
  Z.of_nat (length (bb_window b)) =? to_size (bb_period b).

Definition bb_middle (b : Bollinger) : F :=
  (fold_left fadd (bb_window b) (of_int 0) / size_as_double (bb_window b))%num.

Definition bb_stddev (b : Bollinger) : F :=
  let m := bb_middle b in
  let acc := fold_left (fun acc v => acc + (v - m) * (v - m))%num (bb_window b) (of_int 0) in
  fsqrt (acc / size_as_double (bb_window b))%num.

Definition bb_upper (b : Bollinger) : F := (bb_middle b + bb_mult b * bb_stddev b)%num.
Definition bb_lower (b : Bollinger) : F := (bb_middle b - bb_mult b * bb_stddev b)%num.

(** ** Donchian *)

Record Donchian := MkDonchian { dc_period : Z; dc_highs : list F; dc_lows : list F }.

Definition dc_new (period : Z) : Donchian := MkDonchian period [] [].

Definition dc_push (d : Donchian) (high low : F) : Donchian :=
  let highs := dc_highs d ++ [high] in
  let lows := dc_lows d ++ [low] in
  if to_size (dc_period d) <? Z.of_nat (length highs)
  then MkDonchian (dc_period d) (tail highs) (tail lows)
  else MkDonchian (dc_period d) highs lows.

Definition dc_ready (d : Donchian) : bool :=
  Z.of_nat (length (dc_highs d)) =? to_size (dc_period d).

(** [*std::max_element(...)] and [*std::min_element(...)]: the first extreme
    element; the end iterator of an empty range must not be dereferenced. *)
Definition max_element (l : list F) : outcome F :=
  match l with
  | [] => UB
  | x :: l => mret (fold_left (fun m y => if (m <? y)%num then y else m) l x)
  end.
Definition min_element (l : list F) : outcome F :=
  match l with
  | [] => UB
  | x :: l => mret (fold_left (fun m y => if (y <? m)%num then y else m) l x)
  end.

Definition dc_upper (d : Donchian) : outcome F := max_element (dc_highs d).
Definition dc_lower (d : Donchian) : outcome F := min_element (dc_lows d).

End Indicators.

Arguments Sma F : clear implicits. Arguments Ema F : clear implicits.
Arguments Rsi F : clear implicits. Arguments Macd F : clear implicits.
Arguments Bollinger F : clear implicits. Arguments Donchian F : clear implicits.

(** The expectations of tests/indicators_test.cpp, in binary64. *)
Definition ints (l : list Z) : list binary64 := of_int <$> l.

Example test_sma :
  sma_value (fold_left sma_push (ints [1; 2; 3; 7]) (sma_new 3)) = of_int 4.
Proof. vm_compute. reflexivity. Qed.

Example test_ema :
  ema_value (fold_left ema_push (ints [2; 4; 6; 8]) (ema_new 3)) = of_int 6.
Proof. vm_compute. reflexivity. Qed.

Example test_rsi_up :
  (r ← fold_left (fun r v => r ← r; rsi_push r v) (ints [1; 2; 3; 4; 5; 6; 7]) (Val (rsi_new 5));
   mret (rsi_ready r, rsi_value r)) = Val (true, of_int 100).
Proof. vm_compute. reflexivity. Qed.

Example test_macd_constant :
  let m := fold_left macd_push (ints (replicate 12 42)) (macd_new 3 6 3) in
  (macd_ready m, macd_histogram m) = (true, of_int 0).
Proof. vm_compute. reflexivity. Qed.

Example test_bollinger :
  let b := fold_left bb_push (ints [10; 10; 10; 10; 10]) (bb_new 5 (of_int 2)) in
  (bb_ready b, bb_middle b, bb_upper b, bb_lower b)
  = (true, of_int 10, of_int 10, of_int 10).
Proof. vm_compute. reflexivity. Qed.

(** The running sum of [Sma] keeps the rounding error of values that have left
    the window: in binary64 the average of 1, 1, 1 after 10^16 is 0. *)
Example sma_keeps_rounding_error :
  let s := fold_left sma_push (ints [10000000000000000; 1; 1; 1]) (sma_new 3) in
  (sma_window s, sma_value s) = (ints [1; 1; 1], of_int 0).
Proof. vm_compute. reflexivity. Qed.
