(* ===== verification/IndicatorTheorems.v ===== *)
(** * The theorems about the streaming indicators

    The windows hold the last [period] values, for every number type; over the
    reals the readings are the textbook ones. *)

From S2P Require Import Prelude Numeric Indicators.
From stdpp Require Import base numbers list.
From Stdlib Require Import ZArith Lia Reals Lra.

#[local] Open Scope Z_scope.

(** ** Sliding windows *)

(** The last [n] elements. *)
Definition lastn {A} (n : nat) (l : list A) : list A := drop (length l - n) l.

Lemma lastn_length {A} n (l : list A) : length (lastn n l) = Nat.min n (length l).
Proof. unfold lastn. rewrite length_drop. lia. Qed.

Lemma lastn_all {A} n (l : list A) : (length l <= n)%nat -> lastn n l = l.
Proof. intros Hl. unfold lastn. by replace (length l - n)%nat with 0%nat by lia. Qed.

Lemma lastn_nil {A} n : lastn n (@nil A) = [].
Proof. apply lastn_all. cbn. lia. Qed.

Lemma lastn_snoc {A} n (l : list A) x :
  (n <= length l)%nat -> lastn n l ++ [x] = lastn (S n) (l ++ [x]).
Proof.
  intros Hl. unfold lastn. rewrite length_app. cbn.
  replace (length l + 1 - S n)%nat with (length l - n)%nat by lia.
  by rewrite drop_app_le by lia.
Qed.

Lemma tail_drop {A} (l : list A) k : tail (drop k l) = drop (S k) l.
Proof.
  revert l. induction k as [|k IH]; intros [|x l]; cbn; done.
Qed.

(** One step of a window of [n] elements. *)
Lemma slide {A} (n : nat) (l : list A) x :
  (if (n <? length (lastn n l ++ [x]))%nat then tail (lastn n l ++ [x])
   else lastn n l ++ [x]) = lastn n (l ++ [x]).
Proof.
  rewrite length_app, lastn_length. cbn [length].
  destruct (n <? _)%nat eqn:E.
  - apply Nat.ltb_lt in E. rewrite lastn_snoc by lia.
    unfold lastn. rewrite tail_drop, length_app. cbn. f_equal. lia.
  - apply Nat.ltb_ge in E. rewrite !lastn_all; rewrite ?length_app; cbn; [done|lia|lia].
Qed.

(** A period as the code is meant to be used: a positive int. *)
Definition Period (p : Z) : Prop := 1 <= p <= wmax W32.

Lemma to_size_period p : Period p -> to_size p = p.
Proof. intros Hp. apply to_size_nonneg. unfold Period in Hp. range. Qed.

Lemma size_test {A} p (l : list A) :
  Period p -> (to_size p <? Z.of_nat (length l)) = (Z.to_nat p <? length l)%nat.
Proof.
  intros Hp. rewrite to_size_period by done. unfold Period in Hp.
  destruct (Nat.ltb_spec (Z.to_nat p) (length l)); [apply Z.ltb_lt|apply Z.ltb_ge]; lia.
Qed.

Lemma ready_test {A} p (l : list A) :
  Period p ->
  (Z.of_nat (length (lastn (Z.to_nat p) l)) =? to_size p) = (Z.to_nat p <=? length l)%nat.
Proof.
  intros Hp. rewrite to_size_period, lastn_length by done. unfold Period in Hp.
  destruct (Nat.leb_spec (Z.to_nat p) (length l)); [apply Z.eqb_eq|apply Z.eqb_neq]; lia.
Qed.

Section Windows.
Context {F : Type} `{Numeric F}.
Implicit Types (vs : list F).

Definition sma_run (p : Z) vs : Sma F := fold_left sma_push vs (sma_new p).
Definition ema_run (p : Z) vs : Ema F := fold_left ema_push vs (ema_new p).
Definition macd_run (f s g : Z) vs : Macd F := fold_left macd_push vs (macd_new f s g).
Definition bb_run (p : Z) (k : F) vs : Bollinger F := fold_left bb_push vs (bb_new p k).
Definition dc_run (p : Z) (bars : list (F * F)) : Donchian F :=
  fold_left (fun d b => dc_push d b.1 b.2) bars (dc_new p).
Definition rsi_run (p : Z) vs : outcome (Rsi F) :=
  fold_left (fun r v => r ← r; rsi_push r v) vs (Val (rsi_new p)).

Lemma sma_push_window s v :
  sma_window (sma_push s v)
  = (if to_size (sma_period s) <? Z.of_nat (length (sma_window s ++ [v]))
     then tail (sma_window s ++ [v]) else sma_window s ++ [v])
  /\ sma_period (sma_push s v) = sma_period s.
Proof.
  unfold sma_push. destruct (_ <? _); [|done]. by destruct (sma_window s ++ [v]).
Qed.

Lemma sma_run_snoc p vs v : sma_run p (vs ++ [v]) = sma_push (sma_run p vs) v.
Proof. apply fold_left_app. Qed.

Lemma sma_run_window p vs :
  Period p -> sma_window (sma_run p vs) = lastn (Z.to_nat p) vs
              /\ sma_period (sma_run p vs) = p.
Proof.
  intros Hp. induction vs as [|v vs [IHw IHp]] using rev_ind; [by rewrite lastn_nil|].
  rewrite sma_run_snoc. destruct (sma_push_window (sma_run p vs) v) as [-> ->].
  rewrite IHw, IHp, size_test by done. split; [apply slide|done].
Qed.

Lemma sma_ready_run p vs :
  Period p -> sma_ready (sma_run p vs) = (Z.to_nat p <=? length vs)%nat.
Proof.
  intros Hp. unfold sma_ready. destruct (sma_run_window p vs Hp) as [-> ->].
  by apply ready_test.
Qed.

Lemma bb_run_window p k vs :
  Period p -> bb_window (bb_run p k vs) = lastn (Z.to_nat p) vs
              /\ bb_period (bb_run p k vs) = p /\ bb_mult (bb_run p k vs) = k.
Proof.
  intros Hp. induction vs as [|v vs (IHw & IHp & IHk)] using rev_ind; [by rewrite lastn_nil|].
  unfold bb_run in *. rewrite fold_left_app. cbn.
  rewrite IHw, IHp, IHk, size_test by done. split_and!; [apply slide|done..].
Qed.

Lemma dc_push_window (d : Donchian F) h l :
  let full := to_size (dc_period d) <? Z.of_nat (length (dc_highs d ++ [h])) in
  dc_highs (dc_push d h l)
    = (if full then tail (dc_highs d ++ [h]) else dc_highs d ++ [h])
  /\ dc_lows (dc_push d h l)
    = (if full then tail (dc_lows d ++ [l]) else dc_lows d ++ [l])
  /\ dc_period (dc_push d h l) = dc_period d.
Proof. unfold dc_push. by destruct (_ <? _). Qed.

Lemma dc_run_snoc p bars h l : dc_run p (bars ++ [(h, l)]) = dc_push (dc_run p bars) h l.
Proof. unfold dc_run. by rewrite fold_left_app. Qed.

Lemma dc_run_window p bars :
  Period p -> dc_highs (dc_run p bars) = lastn (Z.to_nat p) bars.*1
              /\ dc_lows (dc_run p bars) = lastn (Z.to_nat p) bars.*2
              /\ dc_period (dc_run p bars) = p.
Proof.
  intros Hp. induction bars as [|[h l] bars (IHh & IHl & IHp)] using rev_ind; [done|].
  rewrite dc_run_snoc, !fmap_app.
  destruct (dc_push_window (dc_run p bars) h l) as (-> & -> & ->).
  rewrite IHh, IHl, IHp, size_test by done. cbn [fmap list_fmap].
  rewrite <- !slide. rewrite !length_app, !lastn_length, !length_fmap. done.
Qed.

Lemma ema_run_snoc p vs v : ema_run p (vs ++ [v]) = ema_push (ema_run p vs) v.
Proof. apply fold_left_app. Qed.

(** An [Ema] is ready after [period] values; until then it feeds its seed. *)
Lemma ema_run_state p vs :
  Period p ->
  ema_ready (ema_run p vs) = (Z.to_nat p <=? length vs)%nat
  /\ ((length vs <= Z.to_nat p)%nat -> ema_seed (ema_run p vs) = sma_run p vs)
  /\ ema_period (ema_run p vs) = p /\ ema_k (ema_run p vs) = ema_k (ema_new p).
Proof.
  intros Hp. unfold ema_ready.
  induction vs as [|v vs (IHr & IHs & IHp & IHk)] using rev_ind.
  - unfold Period in Hp. cbn. split_and!; try done. symmetry. apply Nat.leb_gt. lia.
  - rewrite ema_run_snoc. unfold ema_push. rewrite IHr.
    destruct (Nat.leb_spec (Z.to_nat p) (length vs)) as [Hle|Hgt]; cbn [negb].
    + cbn. rewrite length_app. cbn. split_and!; try done; [|lia].
      symmetry. apply Nat.leb_le. lia.
    + rewrite IHs by lia. rewrite <- sma_run_snoc, sma_ready_run by done.
      destruct (Nat.leb_spec (Z.to_nat p) (length (vs ++ [v]))); cbn;
        split_and!; try done.
Qed.
End Windows.

(** ** Readings over the reals *)

#[local] Open Scope R_scope.

Section Readings.
Implicit Types (vs : list R).

Lemma sma_run_sum p vs :
  Period p -> sma_sum (sma_run p vs) = rsum (sma_window (sma_run p vs)).
Proof.
  intros Hp. induction vs as [|v vs IH] using rev_ind; [done|].
  rewrite sma_run_snoc. unfold sma_push.
  assert (E : rsum (sma_window (sma_run p vs) ++ [v]) = sma_sum (sma_run p vs) + v)
    by (by rewrite rsum_snoc, IH).
  destruct (_ <? _)%Z; [|cbn [sma_sum sma_window]; by rewrite E].
  destruct (sma_window (sma_run p vs) ++ [v]) as [|x l] eqn:Ew; [by destruct (sma_window _)|].
  rewrite rsum_cons in E. cbn [sma_sum sma_window fsub real_numeric]. cbn [fadd real_numeric]. lra.
Qed.

Lemma sma_value_run p vs :
  Period p -> sma_value (sma_run p vs) = mean (lastn (Z.to_nat p) vs).
Proof.
  intros Hp. unfold sma_value, size_as_double, mean. rewrite sma_run_sum by done.
  destruct (sma_run_window p vs Hp) as [-> _]. cbn. by rewrite INR_IZR_INZ.
Qed.

(** [Sma] with a positive period is ready once [period] values were pushed,
    and over the reals its value is the mean of the last [period] of them. *)
Theorem sma_is_moving_average p vs :
  Period p ->
  sma_ready (sma_run p vs) = (Z.to_nat p <=? length vs)%nat
  /\ (sma_ready (sma_run p vs) = true ->
      sma_value (sma_run p vs) = mean (lastn (Z.to_nat p) vs)).
Proof.
  intros Hp. split; [by apply sma_ready_run|]. intros _. by apply sma_value_run.
Qed.

(** The textbook EMA: the mean of the first [period] values, then smoothing. *)
Definition smoothing (p : Z) : R := 2 / (IZR p + 1).
Definition ema_reference (p : Z) vs : R :=
  fold_left (fun e v => v * smoothing p + e * (1 - smoothing p))
    (drop (Z.to_nat p) vs) (mean (take (Z.to_nat p) vs)).

Lemma smoothing_range p : Period p -> 0 < smoothing p <= 1.
Proof.
  intros [Hp _]. apply IZR_le in Hp. unfold smoothing. split.
  - apply Rdiv_lt_0_compat; lra.
  - apply Rmult_le_reg_r with (IZR p + 1); [lra|]. field_simplify; lra.
Qed.

Lemma ema_value_run p vs :
  Period p -> (Z.to_nat p <= length vs)%nat ->
  ema_value (ema_run p vs) = ema_reference p vs.
Proof.
  intros Hp. induction vs as [|v vs IH] using rev_ind; intros Hl.
  { unfold Period in Hp. cbn in Hl. lia. }
  rewrite length_app in Hl. cbn in Hl.
  destruct (ema_run_state p vs Hp) as (Hr & Hs & _ & Hk). unfold ema_ready in Hr.
  rewrite ema_run_snoc. unfold ema_push. rewrite Hr.
  destruct (Nat.leb_spec (Z.to_nat p) (length vs)) as [Hle|Hgt]; cbn [negb].
  - unfold ema_value in *. cbn [ema_value_]. rewrite IH, Hk by done.
    unfold ema_reference. rewrite drop_app_le, take_app_le, fold_left_app by done. done.
  - rewrite Hs by lia. rewrite <- sma_run_snoc, sma_ready_run by done.
    rewrite length_app. cbn [length].
    rewrite (proj2 (Nat.leb_le _ _)) by lia. unfold ema_value. cbn [ema_value_].
    rewrite sma_value_run, lastn_all by (rewrite ?length_app; cbn; done || lia).
    unfold ema_reference. rewrite drop_ge, take_ge by (rewrite length_app; cbn; lia). done.
Qed.

Lemma ema_reference_bounds p vs a b :
  Period p -> (Z.to_nat p <= length vs)%nat -> Forall (fun v => a <= v <= b) vs ->
  a <= ema_reference p vs <= b.
Proof.
  intros Hp Hl Hf. unfold ema_reference.
  assert (Hm : a <= mean (take (Z.to_nat p) vs) <= b).
  { apply mean_bounds; [|by apply Forall_take]. unfold Period in Hp.
    destruct vs; cbn in *; [lia|]. by destruct (Z.to_nat p) eqn:E; [lia|]. }
  pose proof (smoothing_range p Hp) as Hk.
  apply Forall_drop with (n := Z.to_nat p) in Hf. revert Hm. clear Hl.
  generalize (mean (take (Z.to_nat p) vs)) as e.
  induction Hf as [|v l Hv Hf IH]; intros e He; cbn [fold_left]; [done|].
  apply IH. split; nra.
Qed.

(** [Ema] with a positive period is ready once [period] values were pushed;
    over the reals its value is the mean of the first [period] of them, smoothed
    by each later one with [k = 2 / (period + 1)], and it never leaves the range
    of the values pushed. *)
Theorem ema_follows_recurrence p vs a b :
  Period p -> ema_ready (ema_run p vs) = (Z.to_nat p <=? length vs)%nat
  /\ (ema_ready (ema_run p vs) = true ->
      ema_value (ema_run p vs) = ema_reference p vs
      /\ (Forall (fun v => a <= v <= b) vs -> a <= ema_value (ema_run p vs) <= b)).
Proof.
  intros Hp. destruct (ema_run_state p vs Hp) as [Hr _]. split; [done|].
  rewrite Hr. intros Hl%Nat.leb_le. rewrite ema_value_run by done.
  split; [done|]. by apply ema_reference_bounds.
Qed.

(** *** Macd *)

Lemma macd_run_snoc f s g vs v :
  macd_run f s g (vs ++ [v]) = macd_push (macd_run f s g vs) v.
Proof. apply fold_left_app. Qed.

(** The differences pushed into the signal line. *)
Definition macd_diffs (f s : Z) vs : list R :=
  (fun n => ema_value (ema_run f (take n vs)) - ema_value (ema_run s (take n vs)))
  <$> seq (Z.to_nat (Z.max f s)) (S (length vs) - Z.to_nat (Z.max f s)).

Lemma macd_diffs_snoc f s vs v :
  Period f -> Period s ->
  macd_diffs f s (vs ++ [v])
  = if (Z.to_nat (Z.max f s) <=? S (length vs))%nat
    then macd_diffs f s vs
         ++ [ema_value (ema_run f (vs ++ [v])) - ema_value (ema_run s (vs ++ [v]))]
    else macd_diffs f s vs.
Proof.
  intros Hf Hs. unfold macd_diffs. rewrite length_app. cbn [length].
  set (m := Z.to_nat (Z.max f s)).
  assert (Hext : forall k, (m + k <= S (length vs))%nat ->
    (fun n => ema_value (ema_run f (take n (vs ++ [v])))
              - ema_value (ema_run s (take n (vs ++ [v])))) <$> seq m k
    = (fun n => ema_value (ema_run f (take n vs)) - ema_value (ema_run s (take n vs)))
      <$> seq m k).
  { intros k Hk. apply list_fmap_ext. intros i n Hin%lookup_seq.
    by rewrite take_app_le by lia. }
  destruct (Nat.leb_spec m (S (length vs))) as [Hle|Hgt].
  - replace (S (length vs + 1) - m)%nat with ((S (length vs) - m) + 1)%nat by lia.
    rewrite seq_app, fmap_app, Hext by lia. cbn [seq fmap list_fmap].
    replace (m + (S (length vs) - m))%nat with (length (vs ++ [v]))
      by (rewrite length_app; cbn; lia).
    by rewrite firstn_all.
  - replace (S (length vs + 1) - m)%nat with 0%nat by lia.
    by replace (S (length vs) - m)%nat with 0%nat by lia.
Qed.

Lemma macd_run_state f s g vs :
  Period f -> Period s ->
  macd_fast (macd_run f s g vs) = ema_run f vs
  /\ macd_slow (macd_run f s g vs) = ema_run s vs
  /\ macd_signal_ (macd_run f s g vs) = ema_run g (macd_diffs f s vs).
Proof.
  intros Hf Hs. induction vs as [|v vs (IHf & IHs & IHg)] using rev_ind.
  - cbn. split_and!; [done..|]. unfold macd_diffs.
    replace (S (length (@nil R)) - Z.to_nat (Z.max f s))%nat with 0%nat
      by (unfold Period in *; cbn; lia). done.
  - rewrite macd_run_snoc. unfold macd_push.
    rewrite IHf, IHs, IHg, <- !ema_run_snoc. split_and!; [done..|].
    cbn [macd_signal_].
    destruct (ema_run_state f (vs ++ [v]) Hf) as [-> _].
    destruct (ema_run_state s (vs ++ [v]) Hs) as [-> _].
    rewrite macd_diffs_snoc, length_app by done. cbn [length].
    destruct (Nat.leb_spec (Z.to_nat f) (length vs + 1)),
      (Nat.leb_spec (Z.to_nat s) (length vs + 1)),
      (Nat.leb_spec (Z.to_nat (Z.max f s)) (S (length vs))); try lia; cbn [andb]; try done.
Qed.

(** [Macd]: the fast and slow lines are the EMAs of the closes, the signal line
    is the EMA of their differences from the first bar on at which both are
    ready, and the indicator is ready after [max(fast, slow) + signal - 1]
    closes. *)
Theorem macd_lines f s g vs :
  Period f -> Period s -> Period g ->
  macd_ready (macd_run f s g vs)
    = (Z.to_nat (Z.max f s + g - 1) <=? length vs)%nat
  /\ macd_macd (macd_run f s g vs) = ema_value (ema_run f vs) - ema_value (ema_run s vs)
  /\ macd_signal (macd_run f s g vs) = ema_value (ema_run g (macd_diffs f s vs)).
Proof.
  intros Hf Hs Hg. destruct (macd_run_state f s g vs Hf Hs) as (E1 & E2 & E3).
  unfold macd_ready, macd_macd, macd_signal. rewrite E1, E2, E3.
  split_and!; [|done..]. destruct (ema_run_state g (macd_diffs f s vs) Hg) as [-> _].
  unfold macd_diffs. rewrite length_fmap, length_seq. unfold Period in *.
  apply Bool.eq_iff_eq_true. rewrite !Nat.leb_le. lia.
Qed.
End Readings.

(** *** Bollinger bands *)

Section Bands.
Implicit Types (vs : list R).

Definition variance (l : list R) : R :=
  rsum ((fun v => (v - mean l) * (v - mean l)) <$> l) / INR (length l).

Lemma fold_square_sum m l a :
  fold_left (fun acc v => acc + (v - m) * (v - m)) l a
  = a + rsum ((fun v => (v - m) * (v - m)) <$> l).
Proof.
  revert a. induction l as [|v l IH]; intros a; cbn [fold_left].
  - unfold rsum. cbn. lra.
  - rewrite IH, fmap_cons, rsum_cons. lra.
Qed.

Lemma squares_nonneg m l : 0 <= rsum ((fun v => (v - m) * (v - m)) <$> l).
Proof.
  induction l as [|v l IH]; [unfold rsum; cbn; lra|].
  rewrite fmap_cons, rsum_cons. pose proof (Rle_0_sqr (v - m)) as Hs.
  unfold Rsqr in Hs. lra.
Qed.

Lemma variance_nonneg l : 0 <= variance l.
Proof.
  unfold variance. destruct l as [|v l]; [unfold rsum; cbn; lra|].
  apply Rmult_le_pos; [apply squares_nonneg|].
  apply Rlt_le, Rinv_0_lt_compat, lt_0_INR. cbn. lia.
Qed.

Lemma bb_middle_mean (b : Bollinger R) : bb_middle b = mean (bb_window b).
Proof.
  unfold bb_middle, size_as_double, mean. cbn.
  rewrite rsum_fold_left, INR_IZR_INZ. f_equal. lra.
Qed.

Lemma bb_stddev_sqrt (b : Bollinger R) : bb_stddev b = sqrt (variance (bb_window b)).
Proof.
  unfold bb_stddev, size_as_double, variance. rewrite bb_middle_mean. cbn.
  rewrite fold_square_sum, INR_IZR_INZ. f_equal. f_equal. lra.
Qed.

(** [Bollinger] with a positive period is ready once [period] values were
    pushed; over the reals its middle band is the mean of the last [period]
    values and its deviation their population standard deviation; with a
    multiplier that is not negative the bands are ordered, the upper one the
    multiplier times the deviation above the middle. *)
Theorem bollinger_bands p k vs :
  Period p -> 0 <= k ->
  let b := bb_run p k vs in let w := lastn (Z.to_nat p) vs in
  bb_ready b = (Z.to_nat p <=? length vs)%nat
  /\ bb_middle b = mean w
  /\ 0 <= bb_stddev b /\ bb_stddev b * bb_stddev b = variance w
  /\ bb_lower b <= bb_middle b <= bb_upper b
  /\ bb_upper b - bb_middle b = k * bb_stddev b.
Proof.
  intros Hp Hk b w. destruct (bb_run_window p k vs Hp) as (Ew & Ep & Ek).
  fold b in Ew, Ep, Ek. fold w in Ew.
  assert (Hs : bb_stddev b = sqrt (variance w)) by (by rewrite bb_stddev_sqrt, Ew).
  pose proof (sqrt_pos (variance w)) as Hpos.
  split_and!.
  - unfold bb_ready. rewrite Ew, Ep. by apply ready_test.
  - by rewrite bb_middle_mean, Ew.
  - by rewrite Hs.
  - rewrite Hs. apply sqrt_sqrt, variance_nonneg.
  - unfold bb_lower. rewrite Ek, Hs. cbn. nra.
  - unfold bb_upper. rewrite Ek, Hs. cbn. nra.
  - unfold bb_upper. rewrite Ek. cbn. lra.
Qed.

(** *** Donchian channels *)

Lemma max_fold_spec (l : list R) x :
  let m := fold_left (fun m y => if fltb m y then y else m) l x in
  (m = x \/ In m l) /\ x <= m /\ Forall (fun y => y <= m) l.
Proof.
  revert x. induction l as [|y l IH]; intros x; cbn [fold_left]; [by split_and!; [left|lra|]|].
  destruct (rltb_spec x y) as [Hlt|Hge].
  - destruct (IH y) as (Hm & Hy & Hl). split_and!; [cbn; naive_solver|lra|by constructor].
  - destruct (IH x) as (Hm & Hy & Hl).
    split_and!; [cbn; naive_solver|lra|constructor; [lra|done]].
Qed.

Lemma min_fold_spec (l : list R) x :
  let m := fold_left (fun m y => if fltb y m then y else m) l x in
  (m = x \/ In m l) /\ m <= x /\ Forall (fun y => m <= y) l.
Proof.
  revert x. induction l as [|y l IH]; intros x; cbn [fold_left]; [by split_and!; [left|lra|]|].
  destruct (rltb_spec y x) as [Hlt|Hge].
  - destruct (IH y) as (Hm & Hy & Hl). split_and!; [cbn; naive_solver|lra|by constructor].
  - destruct (IH x) as (Hm & Hy & Hl).
    split_and!; [cbn; naive_solver|lra|constructor; [lra|done]].
Qed.

Lemma max_element_spec (l : list R) :
  l <> [] -> exists m, max_element l = Val m /\ In m l /\ Forall (fun y => y <= m) l.
Proof.
  destruct l as [|x l]; [done|intros _]. destruct (max_fold_spec l x) as (H1 & H2 & H3).
  eexists. split; [done|]. split; [cbn; naive_solver|by constructor].
Qed.

Lemma min_element_spec (l : list R) :
  l <> [] -> exists m, min_element l = Val m /\ In m l /\ Forall (fun y => m <= y) l.
Proof.
  destruct l as [|x l]; [done|intros _]. destruct (min_fold_spec l x) as (H1 & H2 & H3).
  eexists. split; [done|]. split; [cbn; naive_solver|by constructor].
Qed.

(** [Donchian] with a positive period is ready once [period] bars were pushed;
    as soon as one was pushed its bounds are defined, and over the reals they are
    the greatest high and the least low among the last [period] bars. *)
Theorem donchian_channel p (bars : list (R * R)) :
  Period p -> bars <> [] ->
  let d := dc_run p bars in
  dc_ready d = (Z.to_nat p <=? length bars)%nat
  /\ (exists u, dc_upper d = Val u /\ In u (lastn (Z.to_nat p) bars.*1)
        /\ Forall (fun h => h <= u) (lastn (Z.to_nat p) bars.*1))
  /\ (exists l, dc_lower d = Val l /\ In l (lastn (Z.to_nat p) bars.*2)
        /\ Forall (fun x => l <= x) (lastn (Z.to_nat p) bars.*2)).
Proof.
  intros Hp Hb d. destruct (dc_run_window p bars Hp) as (Eh & El & Ep).
  assert (Hne : forall l : list R, length l = length bars -> lastn (Z.to_nat p) l <> []).
  { intros l Hl E. apply (f_equal length) in E. rewrite lastn_length in E.
    unfold Period in Hp. destruct bars; cbn in *; [done|lia]. }
  split_and!.
  - unfold dc_ready. subst d. rewrite Eh, Ep, ready_test by done. by rewrite length_fmap.
  - unfold dc_upper. subst d. rewrite Eh. apply max_element_spec, Hne, length_fmap.
  - unfold dc_lower. subst d. rewrite El. apply min_element_spec, Hne, length_fmap.
Qed.
End Bands.

(** *** Rsi *)

Section RelativeStrength.
Implicit Types (vs : list R).

(** The changes from each close to the next, starting from [x]. *)
Fixpoint deltas (x : R) (l : list R) : list R :=
  match l with
  | [] => []
  | y :: l' => (y - x) :: deltas y l'
  end.

Definition gain_of (d : R) : R := Rmax d 0.
Definition loss_of (d : R) : R := Rmax (- d) 0.

(** Wilder's average: the mean of the first [p] values, then smoothing. *)
Definition wilder (p : Z) (l : list R) : R :=
  fold_left (fun a g => (a * (IZR p - 1) + g) / IZR p)
    (drop (Z.to_nat p) l) (mean (take (Z.to_nat p) l)).

Definition rsi_reference (gain loss : R) : R :=
  if Req_dec_T loss 0 then 100 else 100 - 100 / (1 + gain / loss).

Lemma deltas_snoc x l y : deltas x (l ++ [y]) = deltas x l ++ [y - List.last l x].
Proof.
  revert x. induction l as [|z l IH]; intros x; [done|].
  cbn [deltas app]. rewrite IH. cbn [app].
  by rewrite last_cons_default.
Qed.

Lemma length_deltas x l : length (deltas x l) = length l.
Proof. revert x. induction l as [|y l IH]; intros x; cbn; [done|by rewrite IH]. Qed.

Lemma wilder_snoc p l g :
  (Z.to_nat p <= length l)%nat ->
  wilder p (l ++ [g]) = (wilder p l * (IZR p - 1) + g) / IZR p.
Proof.
  intros Hl. unfold wilder. by rewrite drop_app_le, take_app_le, fold_left_app by done.
Qed.

Lemma wilder_first p l :
  length l = Z.to_nat p -> Period p -> wilder p l = rsum l / IZR p.
Proof.
  intros Hl Hp. unfold wilder. rewrite drop_ge, take_ge by lia. cbn. unfold mean.
  rewrite Hl, INR_IZR_INZ, Z2Nat.id; [done|unfold Period in Hp; lia].
Qed.

(** The state after the closes [x :: vs]. *)
Record RsiState (p : Z) (x : R) vs (r : Rsi R) : Prop := {
  rs_period : rsi_period r = p;
  rs_prev : rsi_prev r = List.last vs x;
  rs_has : rsi_has_prev r = true;
  rs_warmup : rsi_warmup r = Z.min (Z.of_nat (length vs)) p;
  rs_sums : (length vs <= Z.to_nat p)%nat ->
    rsi_gain_sum r = rsum (gain_of <$> deltas x vs)
    /\ rsi_loss_sum r = rsum (loss_of <$> deltas x vs);
  rs_ready : rsi_is_ready r = (Z.to_nat p <=? length vs)%nat;
  rs_avgs : (Z.to_nat p <= length vs)%nat ->
    rsi_avg_gain r = wilder p (gain_of <$> deltas x vs)
    /\ rsi_avg_loss r = wilder p (loss_of <$> deltas x vs);
}.

Lemma gain_code d : (if fltb (of_int 0) d then d else of_int 0) = gain_of d.
Proof.
  destruct (rltb_spec (of_int 0) d) as [Hl|Hl]; cbn in *; unfold gain_of.
  - rewrite Rmax_left; lra.
  - rewrite Rmax_right; lra.
Qed.

Lemma loss_code d : (if fltb d (of_int 0) then fneg d else of_int 0) = loss_of d.
Proof.
  destruct (rltb_spec d (of_int 0)) as [Hl|Hl]; cbn in *; unfold loss_of.
  - rewrite Rmax_left; lra.
  - rewrite Rmax_right; lra.
Qed.

Lemma rsi_push_state p x vs r v :
  Period p -> RsiState p x vs r ->
  exists r', rsi_push r v = Val r' /\ RsiState p x (vs ++ [v]) r'.
Proof.
  intros Hp [E1 E2 E3 E4 E5 E6 E7]. unfold rsi_push. rewrite E1, E3, E4. cbn [negb].
  rewrite gain_code, loss_code.
  assert (Hl : length (vs ++ [v]) = S (length vs)) by (rewrite length_app; cbn; lia).
  assert (Hd : deltas x (vs ++ [v]) = deltas x vs ++ [v - rsi_prev r])
    by (by rewrite deltas_snoc, E2).
  assert (Hlast : List.last (vs ++ [v]) x = v) by apply List.last_last.
  set (d := fsub v (rsi_prev r)) in *. change (v - rsi_prev r) with d in Hd.
  assert (Hp' := Hp). unfold Period in Hp'.
  destruct (Z.ltb_spec (Z.min (Z.of_nat (length vs)) p) p) as [Hw|Hw].
  - destruct E5 as [Eg El]; [lia|].
    assert (Hg : forall h : R -> R, rsum (h <$> deltas x vs) + h d
                 = rsum (h <$> deltas x (vs ++ [v])))
      by (intros h; rewrite Hd, fmap_app; cbn; by rewrite rsum_snoc).
    assert (Hf : forall h : R -> R, (Z.min (Z.of_nat (length vs)) p + 1 = p)%Z ->
                 rsum (h <$> deltas x (vs ++ [v])) / IZR p
                 = wilder p (h <$> deltas x (vs ++ [v]))).
    { intros h Hq. rewrite wilder_first; [done| |done].
      rewrite length_fmap, length_deltas. lia. }
    destruct (Z.eqb_spec (Z.min (Z.of_nat (length vs)) p + 1) p) as [Hq|Hq].
    + eexists. split; [done|]. split; cbn; try done.
      * lia.
      * intros _. by rewrite Eg, El, <- !Hg.
      * symmetry. apply Nat.leb_le. lia.
      * intros _. by rewrite Eg, El, <- !Hf, <- !Hg.
    + eexists. split; [done|]. split; cbn; try done.
      * lia.
      * intros _. by rewrite Eg, El, <- !Hg.
      * rewrite E6, Hl. apply Bool.eq_iff_eq_true. rewrite !Nat.leb_le. lia.
      * lia.
  - rewrite checked_in by range. cbn [mbind outcome_bind].
    destruct E7 as [Eg El]; [lia|]. eexists. split; [done|]. split; cbn; try done.
    + lia.
    + lia.
    + rewrite E6, Hl. apply Bool.eq_iff_eq_true. rewrite !Nat.leb_le. lia.
    + intros _. rewrite Hd, !fmap_app, Eg, El, minus_IZR. cbn [fmap list_fmap].
      rewrite !wilder_snoc by (rewrite length_fmap, length_deltas; lia). done.
Qed.

Lemma rsi_run_state p x vs :
  Period p -> exists r, rsi_run p (x :: vs) = Val r /\ RsiState p x vs r.
Proof.
  intros Hp. induction vs as [|v vs (r & E & Hr)] using rev_ind.
  - eexists. split; [done|]. unfold Period in Hp. split; cbn; try done; try lia.
    symmetry. apply Nat.leb_gt. lia.
  - unfold rsi_run in *. rewrite app_comm_cons, fold_left_app, E. cbn.
    by apply rsi_push_state.
Qed.

Lemma wilder_nonneg p l : Period p -> Forall (fun g => 0 <= g) l -> 0 <= wilder p l.
Proof.
  intros [Hp _] Hf. apply IZR_le in Hp. unfold wilder.
  assert (Hm : 0 <= mean (take (Z.to_nat p) l)).
  { apply Forall_take with (n := Z.to_nat p) in Hf. unfold mean.
    assert (Hs : 0 <= rsum (take (Z.to_nat p) l)).
    { induction Hf as [|g l' Hg Hf IH]; [unfold rsum; cbn; lra|].
      rewrite rsum_cons. lra. }
    destruct (take (Z.to_nat p) l) as [|g l']; [unfold rsum; cbn; lra|].
    apply Rmult_le_pos; [done|]. apply Rlt_le, Rinv_0_lt_compat, lt_0_INR. cbn. lia. }
  apply Forall_drop with (n := Z.to_nat p) in Hf. revert Hm.
  generalize (mean (take (Z.to_nat p) l)) as a.
  induction Hf as [|g l' Hg Hf IH]; intros a Ha; cbn [fold_left]; [done|].
  apply IH. apply Rmult_le_pos; [nra|]. apply Rlt_le, Rinv_0_lt_compat. lra.
Qed.

Lemma rsi_reference_range gain loss :
  0 <= gain -> 0 <= loss -> 0 <= rsi_reference gain loss <= 100.
Proof.
  intros Hg Hl. unfold rsi_reference. destruct (Req_dec_T loss 0) as [->|Hne]; [lra|].
  assert (0 <= gain / loss)
    by (apply Rmult_le_pos; [done|]; apply Rlt_le, Rinv_0_lt_compat; lra).
  set (q := gain / loss) in *.
  assert (0 < 1 + q) by lra.
  assert (0 < 100 / (1 + q)) by (apply Rdiv_lt_0_compat; lra).
  assert (100 / (1 + q) <= 100); [|lra].
  apply Rmult_le_reg_r with (1 + q); [done|]. field_simplify; nra.
Qed.

(** C40. [Rsi] with a positive period never has undefined behaviour, is ready after
    [period] changes of price (one close more), and over the reals its value is
    computed from Wilder's averages of the gains and the losses: it lies between 0
    and 100, and is 100 when there is no average loss. *)
Theorem rsi_wilder p x vs :
  Period p ->
  exists r, rsi_run p (x :: vs) = Val r
  /\ rsi_ready r = (Z.to_nat p <=? length vs)%nat
  /\ (rsi_ready r = true ->
      rsi_value r = rsi_reference (wilder p (gain_of <$> deltas x vs))
                                  (wilder p (loss_of <$> deltas x vs))
      /\ 0 <= rsi_value r <= 100).
Proof.
  intros Hp. destruct (rsi_run_state p x vs Hp) as (r & E & Hr). exists r.
  destruct Hr as [_ _ _ _ _ Hready Havg]. split_and!; [done..|].
  unfold rsi_ready. rewrite Hready. intros Hl%Nat.leb_le.
  destruct (Havg Hl) as [Eg El].
  assert (Ev : rsi_value r = rsi_reference (wilder p (gain_of <$> deltas x vs))
                               (wilder p (loss_of <$> deltas x vs))).
  { unfold rsi_value, rsi_reference. rewrite Eg, El. cbn.
    by destruct (Req_dec_T _ 0). }
  split; [done|]. rewrite Ev. apply rsi_reference_range; (apply wilder_nonneg; [done|]);
    apply Forall_fmap, Forall_forall; intros d _; apply Rmax_r.
Qed.
End RelativeStrength.

(** ** Witnesses *)

Lemma period_2 : Period 2.
Proof. unfold Period, wmax. lia. Qed.

Lemma sma_is_moving_average_witness :
  sma_ready (sma_run 2 [1; 2; 3]) = true
  /\ sma_value (sma_run 2 [1; 2; 3]) = mean [2; 3].
Proof.
  split; [reflexivity|].
  refine (proj2 (sma_is_moving_average 2 [1; 2; 3] period_2) _). reflexivity.
Defined.

Lemma ema_follows_recurrence_witness :
  1 <= ema_value (ema_run 2 [1; 2; 3]) <= 3.
Proof.
  refine (proj2 (proj2 (ema_follows_recurrence 2 [1; 2; 3] 1 3 period_2) _) _).
  - reflexivity.
  - repeat (constructor; [lra|]). constructor.
Defined.

Lemma macd_lines_witness :
  macd_ready (macd_run 2 2 2 [1; 2; 3]) = true.
Proof. exact (proj1 (macd_lines 2 2 2 [1; 2; 3] period_2 period_2 period_2)). Defined.

Lemma bollinger_bands_witness :
  bb_middle (bb_run 2 1 [1; 2; 3]) = mean [2; 3].
Proof.
  exact (proj1 (proj2 (bollinger_bands 2 1 [1; 2; 3] period_2 Rle_0_1))).
Defined.

Lemma donchian_channel_witness :
  exists u, dc_upper (dc_run 2 [(5, 1); (4, 2); (3, 3)]) = Val u /\ In u [4; 3].
Proof.
  destruct (proj1 (proj2 (donchian_channel 2 [(5, 1); (4, 2); (3, 3)] period_2
    ltac:(discriminate)))) as (u & E & Hin & _).
  exists u. split; [exact E|exact Hin].
Defined.

Lemma rsi_wilder_witness :
  exists r, rsi_run 2 [1; 2; 3] = Val r /\ rsi_ready r = true.
Proof.
  destruct (rsi_wilder 2 1 [2; 3] period_2) as (r & E & Hr & _).
  exists r. split; [exact E|exact Hr].
Defined.
