(* ===== verification/Strategies.v ===== *)
(** * Strategies ([include/tinvest/algo/strategy.hpp], [strategies.hpp])

    The abstract class [Strategy] is a type class over the state of a strategy;
    each of the six classes is a record with an instance.  [on_bar] is an
    [outcome] because some indicators can have undefined behaviour. *)

From S2P Require Import Prelude StdStrings FixedDecimal Numeric DecimalDouble Indicators.
From stdpp Require Import base numbers list strings.
From Stdlib Require Import ZArith Lia.

#[local] Open Scope Z_scope.

Record Bar (F : Type) := MkBar {
  time : Z; open : F; high : F; low : F; close : F; volume : F }.
Arguments MkBar {F}. Arguments time {F}. Arguments open {F}. Arguments high {F}.
Arguments low {F}. Arguments close {F}. Arguments volume {F}.

Inductive Action := hold | buy | sell.

#[export] Instance Action_eq_dec : EqDecision Action.
Proof. solve_decision. Defined.

Class Strategy (F S : Type) := {
  on_bar : S -> Bar F -> outcome (Action * S);
  name : S -> string;
}.

(** The fields of [pb::HistoricCandle] that [to_bar] and its callers read. *)
Record HistoricCandle := MkCandle {
  hc_open : Quotation; hc_high : Quotation; hc_low : Quotation; hc_close : Quotation;
  hc_volume : Z; hc_time_seconds : Z; hc_is_complete : bool }.

Section Strategies.
Context {F : Type} `{Numeric F}.

Definition to_bar (c : HistoricCandle) : outcome (Bar F) :=
  o ← of_quotation (hc_open c);
  h ← of_quotation (hc_high c);
  l ← of_quotation (hc_low c);
  k ← of_quotation (hc_close c);
  mret (MkBar (hc_time_seconds c) (to_double o) (to_double h) (to_double l) (to_double k)
          (of_int (hc_volume c))).

(** The comparison with the previous bar that the three cross strategies make. *)
Definition cross_action (has_prev prev now : bool) : Action :=
  let a := hold in
  if has_prev then
    let a := if now && negb prev then buy else a in
    if negb now && prev then sell else a
  else a.

(** ** SmaCross *)

Record SmaCross := MkSmaCross {
  sc_fast : Sma F; sc_slow : Sma F; sc_label : string;
  sc_prev_above : bool; sc_has_prev : bool }.

Definition sma_cross (fast slow : Z) : SmaCross :=
  MkSmaCross (sma_new fast) (sma_new slow)
    ("SMA cross " +:+ int_to_string fast +:+ "/" +:+ int_to_string slow) false false.

Definition sma_cross_on_bar (s : SmaCross) (bar : Bar F) : Action * SmaCross :=
  let fast := sma_push (sc_fast s) (close bar) in
  let slow := sma_push (sc_slow s) (close bar) in
  if negb (sma_ready slow)
  then (hold, MkSmaCross fast slow (sc_label s) (sc_prev_above s) (sc_has_prev s))
  else
    let above := (sma_value fast >? sma_value slow)%num in
    (cross_action (sc_has_prev s) (sc_prev_above s) above,
     MkSmaCross fast slow (sc_label s) above true).

#[export] Instance SmaCross_strategy : Strategy F SmaCross := {
  on_bar s bar := mret (sma_cross_on_bar s bar);
  name := sc_label;
}.

(** ** EmaCross *)

Record EmaCross := MkEmaCross {
  ec_fast : Ema F; ec_slow : Ema F; ec_label : string;
  ec_prev_above : bool; ec_has_prev : bool }.

Definition ema_cross (fast slow : Z) : EmaCross :=
  MkEmaCross (ema_new fast) (ema_new slow)
    ("EMA cross " +:+ int_to_string fast +:+ "/" +:+ int_to_string slow) false false.

Definition ema_cross_on_bar (s : EmaCross) (bar : Bar F) : Action * EmaCross :=
  let fast := ema_push (ec_fast s) (close bar) in
  let slow := ema_push (ec_slow s) (close bar) in
  if negb (ema_ready slow) || negb (ema_ready fast)
  then (hold, MkEmaCross fast slow (ec_label s) (ec_prev_above s) (ec_has_prev s))
  else
    let above := (ema_value fast >? ema_value slow)%num in
    (cross_action (ec_has_prev s) (ec_prev_above s) above,
     MkEmaCross fast slow (ec_label s) above true).

#[export] Instance EmaCross_strategy : Strategy F EmaCross := {
  on_bar s bar := mret (ema_cross_on_bar s bar);
  name := ec_label;
}.

(** ** RsiReversion *)

Record RsiReversion := MkRsiReversion {
  rr_rsi : Rsi F; rr_lower : F; rr_upper : F; rr_label : string }.

Definition rsi_reversion (period : Z) (lower upper : F) : RsiReversion :=
  MkRsiReversion (rsi_new period) lower upper
    ("RSI(" +:+ int_to_string period +:+ ") reversion").

Definition rsi_reversion_on_bar (s : RsiReversion) (bar : Bar F)
    : outcome (Action * RsiReversion) :=
  r ← rsi_push (rr_rsi s) (close bar);
  let s' := MkRsiReversion r (rr_lower s) (rr_upper s) (rr_label s) in
  if negb (rsi_ready r) then mret (hold, s')
  else
    let v := rsi_value r in
    if (v <? rr_lower s)%num then mret (buy, s')
    else if (v >? rr_upper s)%num then mret (sell, s')
    else mret (hold, s').

#[export] Instance RsiReversion_strategy : Strategy F RsiReversion := {
  on_bar := rsi_reversion_on_bar;
  name := rr_label;
}.

(** ** BollingerReversion *)

Record BollingerReversion := MkBollingerReversion { br_bb : Bollinger F; br_label : string }.

Definition bollinger_reversion (period : Z) (mult : F) : BollingerReversion :=
  MkBollingerReversion (bb_new period mult)
    ("Bollinger(" +:+ int_to_string period +:+ ") reversion").

Definition bollinger_reversion_on_bar (s : BollingerReversion) (bar : Bar F)
    : Action * BollingerReversion :=
  let bb := bb_push (br_bb s) (close bar) in
  let s' := MkBollingerReversion bb (br_label s) in
  if negb (bb_ready bb) then (hold, s')
  else if (close bar <? bb_lower bb)%num then (buy, s')
  else if (close bar >? bb_middle bb)%num then (sell, s')
  else (hold, s').

#[export] Instance BollingerReversion_strategy : Strategy F BollingerReversion := {
  on_bar s bar := mret (bollinger_reversion_on_bar s bar);
  name := br_label;
}.

(** ** MacdCross *)

Record MacdCross := MkMacdCross {
  mc_macd : Macd F; mc_label : string; mc_prev_positive : bool; mc_has_prev : bool }.

Definition macd_cross (fast slow signal : Z) : MacdCross :=
  MkMacdCross (macd_new fast slow signal)
    ("MACD " +:+ int_to_string fast +:+ "/" +:+ int_to_string slow +:+ "/"
     +:+ int_to_string signal) false false.

Definition macd_cross_on_bar (s : MacdCross) (bar : Bar F) : Action * MacdCross :=
  let macd := macd_push (mc_macd s) (close bar) in
  if negb (macd_ready macd)
  then (hold, MkMacdCross macd (mc_label s) (mc_prev_positive s) (mc_has_prev s))
  else
    let positive := (macd_histogram macd >? of_int 0)%num in
    (cross_action (mc_has_prev s) (mc_prev_positive s) positive,
     MkMacdCross macd (mc_label s) positive true).

#[export] Instance MacdCross_strategy : Strategy F MacdCross := {
  on_bar s bar := mret (macd_cross_on_bar s bar);
  name := mc_label;
}.

(** ** DonchianBreakout *)

Record DonchianBreakout := MkDonchianBreakout {
  db_entry : Donchian F; db_exit : Donchian F; db_label : string }.

Definition donchian_breakout (entry exit : Z) : DonchianBreakout :=
  MkDonchianBreakout (dc_new entry) (dc_new exit)
    ("Donchian breakout " +:+ int_to_string entry +:+ "/" +:+ int_to_string exit).

Definition donchian_breakout_on_bar (s : DonchianBreakout) (bar : Bar F)
    : outcome (Action * DonchianBreakout) :=
  let a := hold in
  a ← (if dc_ready (db_entry s)
       then u ← dc_upper (db_entry s);
            mret (if (close bar >? u)%num then buy else a)
       else mret a);
  a ← (if dc_ready (db_exit s)
       then l ← dc_lower (db_exit s);
            mret (if (close bar <? l)%num then sell else a)
       else mret a);
  mret (a, MkDonchianBreakout (dc_push (db_entry s) (high bar) (low bar))
             (dc_push (db_exit s) (high bar) (low bar)) (db_label s)).

#[export] Instance DonchianBreakout_strategy : Strategy F DonchianBreakout := {
  on_bar := donchian_breakout_on_bar;
  name := db_label;
}.

(** A strategy on a sequence of bars: its actions and its final state. *)
Fixpoint run_strategy {S} `{Strategy F S} (s : S) (bars : list (Bar F))
    : outcome (list Action * S) :=
  match bars with
  | [] => mret ([], s)
  | bar :: bars' =>
      '(a, s') ← on_bar s bar;
      '(l, s'') ← run_strategy s' bars';
      mret (a :: l, s'')
  end.
End Strategies.

Arguments SmaCross F : clear implicits. Arguments EmaCross F : clear implicits.
Arguments RsiReversion F : clear implicits. Arguments MacdCross F : clear implicits.
Arguments BollingerReversion F : clear implicits.
Arguments DonchianBreakout F : clear implicits.

Definition bar_of_close {F} (c : F) : Bar F := MkBar 0 c c c c c.

Example test_sma_cross :
  (r ← run_strategy (sma_cross 1 2) (bar_of_close <$> ints [3; 2; 1; 2; 3; 2; 1]);
   mret r.1) = Val [hold; hold; hold; buy; hold; sell; hold].
Proof. vm_compute. reflexivity. Qed.

Example test_label :
  name (donchian_breakout 20 10 : DonchianBreakout binary64) = "Donchian breakout 20/10"%string.
Proof. vm_compute. reflexivity. Qed.
