(* ===== verification/StrategyTheorems.v ===== *)
(** * The theorems about the strategies *)

From S2P Require Import Prelude StdStrings Numeric Indicators IndicatorTheorems Strategies.
From stdpp Require Import base numbers list strings.
From Stdlib Require Import ZArith Lia Reals Lra.

#[local] Open Scope Z_scope.

(** ** Alternation *)

(** The orders of a sequence of actions, and what may follow: a sell is only
    possible with a position, a buy only without one. *)
Definition next_position (pos : option bool) (a : Action) : option (option bool) :=
  match a with
  | hold => Some pos
  | buy => match pos with Some true => None | _ => Some (Some true) end
  | sell => match pos with Some false => None | _ => Some (Some false) end
  end.

(** Buys and sells alternate: no order repeats the previous one. *)
Fixpoint alternating (pos : option bool) (l : list Action) : bool :=
  match l with
  | [] => true
  | a :: l' => match next_position pos a with
               | Some pos' => alternating pos' l'
               | None => false
               end
  end.

(** What the last order was, from the memory of a cross strategy. *)
Definition consistent (pos : option bool) (has_prev prev : bool) : Prop :=
  match pos with Some b => has_prev = true /\ prev = b | None => True end.

Lemma cross_consistent pos has_prev prev now :
  consistent pos has_prev prev ->
  exists pos', next_position pos (cross_action has_prev prev now) = Some pos'
    /\ consistent pos' true now.
Proof.
  unfold consistent, cross_action, next_position.
  destruct pos as [[]|], has_prev, prev, now; cbn; intros Hc;
    first [by destruct Hc | by eexists; split].
Qed.

Section Alternation.
Context {F : Type} `{Numeric F}.
Implicit Types (bars : list (Bar F)).

(** A strategy that only acts through [cross_action] on the memory [mem]. *)
Lemma run_alternates {S} `{Strategy F S} (mem : S -> bool * bool) :
  (forall s bar a s', on_bar s bar = Val (a, s') ->
     (a = hold /\ mem s' = mem s)
     \/ exists now, a = cross_action (mem s).1 (mem s).2 now /\ mem s' = (true, now)) ->
  forall bars s l s' pos, run_strategy s bars = Val (l, s') ->
    consistent pos (mem s).1 (mem s).2 -> alternating pos l = true.
Proof.
  intros Hstep bars. induction bars as [|bar bars IH]; intros s l s' pos E Hc; cbn in E.
  - by injection E as <- <-.
  - destruct (on_bar s bar) as [[a s1]|] eqn:Eb; [|done]. cbn in E.
    destruct (run_strategy s1 bars) as [[l1 s2]|] eqn:Er; [|done].
    injection E as <- <-. cbn [alternating].
    destruct (Hstep _ _ _ _ Eb) as [[-> Em]|(now & -> & Em)].
    + cbn. apply (IH s1 l1 s2); [done|by rewrite Em].
    + destruct (cross_consistent pos _ _ now Hc) as (pos' & -> & Hc').
      apply (IH s1 l1 s2); [done|by rewrite Em].
Qed.

(** The orders of each cross strategy alternate, for any number type, any
    parameters and any bars: it never buys twice without a sell in between nor
    sells twice without a buy in between. *)
Theorem cross_orders_alternate bars fast slow signal :
  (forall l s, run_strategy (sma_cross fast slow : SmaCross F) bars = Val (l, s) ->
     alternating None l = true)
  /\ (forall l s, run_strategy (ema_cross fast slow : EmaCross F) bars = Val (l, s) ->
     alternating None l = true)
  /\ (forall l s, run_strategy (macd_cross fast slow signal : MacdCross F) bars = Val (l, s) ->
     alternating None l = true).
Proof.
  split_and!; intros l s E.
  - refine (run_alternates (fun s => (sc_has_prev s, sc_prev_above s)) _ bars _ l s None E I).
    intros s0 bar a s1 [= E0]. unfold sma_cross_on_bar in E0.
    destruct (negb _); injection E0 as <- <-; eauto.
  - refine (run_alternates (fun s => (ec_has_prev s, ec_prev_above s)) _ bars _ l s None E I).
    intros s0 bar a s1 [= E0]. unfold ema_cross_on_bar in E0.
    destruct (negb _ || _); injection E0 as <- <-; eauto.
  - refine (run_alternates (fun s => (mc_has_prev s, mc_prev_positive s)) _ bars _ l s None E I).
    intros s0 bar a s1 [= E0]. unfold macd_cross_on_bar in E0.
    destruct (negb _); injection E0 as <- <-; eauto.
Qed.
End Alternation.

(** ** No undefined behaviour *)

Section Totality.
Context {F : Type} `{Numeric F}.
Implicit Types (bars : list (Bar F)).

Lemma run_total {S} `{Strategy F S} (P : S -> Prop) :
  (forall s bar, P s -> exists a s', on_bar s bar = Val (a, s') /\ P s') ->
  forall bars s, P s -> exists l s', run_strategy s bars = Val (l, s')
    /\ P s' /\ length l = length bars.
Proof.
  intros Hstep bars. induction bars as [|bar bars IH]; intros s Hs; cbn.
  - by exists [], s.
  - destruct (Hstep s bar Hs) as (a & s1 & -> & H1). cbn.
    destruct (IH s1 H1) as (l & s2 & -> & H2 & Hl). cbn.
    exists (a :: l), s2. split_and!; [done..|cbn; by rewrite Hl].
Qed.

Lemma rsi_push_total (r : Rsi F) v :
  Period (rsi_period r) ->
  exists r', rsi_push r v = Val r' /\ rsi_period r' = rsi_period r.
Proof.
  intros Hp. unfold Period in Hp. unfold rsi_push. destruct (negb _); [by eexists|].
  destruct (_ <? _); [by destruct (_ =? _); eexists|].
  rewrite checked_in by range. by eexists.
Qed.

Definition DonchianOk (d : Donchian F) : Prop :=
  Period (dc_period d) /\ length (dc_highs d) = length (dc_lows d).

Lemma dc_push_ok d h l : DonchianOk d -> DonchianOk (dc_push d h l).
Proof.
  intros [Hp Hl]. destruct (dc_push_window d h l) as (E1 & E2 & E3).
  split; [by rewrite E3|]. rewrite E1, E2.
  destruct (_ <? _); [|rewrite !length_app; cbn; lia].
  destruct (dc_highs d), (dc_lows d); cbn in *; rewrite ?length_app; cbn; lia.
Qed.

Lemma dc_bounds_total d :
  DonchianOk d -> dc_ready d = true ->
  (exists u, dc_upper d = Val u) /\ (exists l, dc_lower d = Val l).
Proof.
  intros [Hp Hl] Hr. unfold dc_ready in Hr. apply Z.eqb_eq in Hr.
  rewrite to_size_period in Hr by done. unfold Period in Hp.
  unfold dc_upper, dc_lower, max_element, min_element.
  destruct (dc_highs d), (dc_lows d); cbn in *; try lia. by split; eexists.
Qed.

(** With positive periods no strategy has undefined behaviour on any bars, in
    any number type: it yields one action per bar. *)
Theorem strategies_total bars p q k lower upper :
  Period p -> Period q ->
  (exists l s, run_strategy (rsi_reversion p lower upper : RsiReversion F) bars = Val (l, s)
     /\ length l = length bars)
  /\ (exists l s, run_strategy (donchian_breakout p q : DonchianBreakout F) bars = Val (l, s)
     /\ length l = length bars)
  /\ (exists l s, run_strategy (bollinger_reversion p k : BollingerReversion F) bars = Val (l, s)
     /\ length l = length bars).
Proof.
  intros Hp Hq. split_and!.
  - destruct (run_total (fun s : RsiReversion F => Period (rsi_period (rr_rsi s))))
      with (bars := bars) (s := rsi_reversion p lower upper : RsiReversion F) as (l & s & E & _ & Hl); eauto.
    intros s bar Hs. cbn. unfold rsi_reversion_on_bar.
    destruct (rsi_push_total (rr_rsi s) (close bar) Hs) as (r & -> & Er). cbn.
    rewrite <- Er in Hs.
    destruct (negb _); [by eauto|]. destruct (fltb _ _); [by eauto|].
    destruct (fltb _ _); by eauto.
  - destruct (run_total (fun s : DonchianBreakout F =>
        DonchianOk (db_entry s) /\ DonchianOk (db_exit s)))
      with (bars := bars) (s := donchian_breakout p q : DonchianBreakout F) as (l & s & E & _ & Hl); eauto.
    + intros s bar [He Hx]. cbn. unfold donchian_breakout_on_bar.
      destruct (dc_ready (db_entry s)) eqn:Ee, (dc_ready (db_exit s)) eqn:Ex.
      all: try (destruct (dc_bounds_total _ He Ee) as [[u ->] _]).
      all: try (destruct (dc_bounds_total _ Hx Ex) as [_ [v ->]]).
      all: cbn; eexists _, _; split; [done|]; cbn; split; by apply dc_push_ok.
    + by split.
  - destruct (run_total (fun _ : BollingerReversion F => True))
      with (bars := bars) (s := bollinger_reversion p k : BollingerReversion F) as (l & s & E & _ & Hl); eauto.
    intros s bar _. cbn. unfold bollinger_reversion_on_bar.
    destruct (negb _); [by eauto|]. destruct (fltb _ _); [by eauto|].
    destruct (fltb _ _); by eauto.
Qed.
End Totality.

(** ** What the orders mean, over the reals *)

#[local] Open Scope R_scope.

Section Signals.
Implicit Types (bars : list (Bar R)) (b : Bar R).

Lemma run_strategy_snoc {S} `{Strategy R S} (s : S) bars b :
  run_strategy s (bars ++ [b])
  = ('(l, s') ← run_strategy s bars; '(a, s'') ← on_bar s' b; mret (l ++ [a], s'')).
Proof.
  revert s. induction bars as [|x bars IH]; intros s; cbn.
  - by destruct (on_bar s b) as [[]|].
  - destruct (on_bar s x) as [[a s1]|]; cbn; [|done]. rewrite IH.
    destruct (run_strategy s1 bars) as [[l s2]|]; cbn; [|done].
    by destruct (on_bar s2 b) as [[]|].
Qed.

(** The fast average of the closes is above the slow one. *)
Definition fast_above (fast slow : Z) (closes : list R) : bool :=
  fltb (mean (lastn (Z.to_nat slow) closes)) (mean (lastn (Z.to_nat fast) closes)).

Lemma fast_above_values fast slow (vs : list R) :
  Period fast -> Period slow ->
  fltb (sma_value (sma_run slow vs)) (sma_value (sma_run fast vs)) = fast_above fast slow vs.
Proof. intros Hf Hs. unfold fast_above. by rewrite !sma_value_run. Qed.

Lemma sma_cross_run fast slow bars :
  Period fast -> Period slow ->
  exists l s, run_strategy (sma_cross fast slow) bars = Val (l, s)
    /\ sc_fast s = sma_run fast (close <$> bars)
    /\ sc_slow s = sma_run slow (close <$> bars)
    /\ sc_has_prev s = (Z.to_nat slow <=? length bars)%nat
    /\ (sc_has_prev s = true -> sc_prev_above s = fast_above fast slow (close <$> bars)).
Proof.
  intros Hf Hs. induction bars as [|b bars (l & s & E & E1 & E2 & E3 & E4)] using rev_ind.
  - eexists _, _. split; [done|]. unfold Period in *.
    split_and!; try done. symmetry. apply Nat.leb_gt. cbn. lia.
  - rewrite run_strategy_snoc, E. cbn [mbind outcome_bind on_bar SmaCross_strategy mret
      outcome_ret]. unfold sma_cross_on_bar. rewrite E1, E2, <- !sma_run_snoc.
    rewrite sma_ready_run, fmap_app, !length_app, length_fmap by done. cbn [length fmap list_fmap].
    destruct (Nat.leb_spec (Z.to_nat slow) (length bars + 1)) as [Hl|Hl]; cbn [negb].
    + eexists _, _. split; [done|]. split_and!; try done. intros _.
      cbn [sc_prev_above]. unfold fast_above. by rewrite !sma_value_run.
    + eexists _, _. split; [done|]. cbn [sc_fast sc_slow sc_has_prev sc_prev_above].
      split_and!; try done.
      * rewrite E3. apply Nat.leb_gt. lia.
      * rewrite E3. intros Hle%Nat.leb_le. lia.
Qed.

(** [SmaCross] is the golden/death cross: on a bar it buys exactly when the
    slow average was ready before the bar, the fast average (of the last [fast]
    closes) was not above the slow one before it and is above it now, sells
    exactly on the opposite change, and holds otherwise. *)
Theorem sma_cross_signals fast slow bars b :
  Period fast -> Period slow ->
  exists l a s, run_strategy (sma_cross fast slow) (bars ++ [b]) = Val (l ++ [a], s)
  /\ let before := fast_above fast slow (close <$> bars) in
     let now := fast_above fast slow (close <$> (bars ++ [b])) in
     (a = buy <-> (Z.to_nat slow <= length bars)%nat /\ before = false /\ now = true)
     /\ (a = sell <-> (Z.to_nat slow <= length bars)%nat /\ before = true /\ now = false).
Proof.
  intros Hf Hs. destruct (sma_cross_run fast slow bars Hf Hs)
    as (l & s & E & E1 & E2 & E3 & E4).
  rewrite run_strategy_snoc, E. cbn [mbind outcome_bind on_bar SmaCross_strategy mret
    outcome_ret]. unfold sma_cross_on_bar. rewrite E1, E2, <- !sma_run_snoc.
  rewrite fmap_app, sma_ready_run, length_app, length_fmap by done. cbn [length fmap list_fmap].
  destruct (Nat.leb_spec (Z.to_nat slow) (length bars + 1)) as [Hl|Hl]; cbn [negb].
  2:{ eexists l, hold, _. split; [done|]. cbn.
      split; (split; [done|intros (? & _); lia]). }
  eexists l, _, _. split; [done|]. cbn zeta. rewrite fast_above_values by done.
  unfold cross_action. destruct (sc_has_prev s) eqn:Eh.
  - symmetry in E3. apply Nat.leb_le in E3. rewrite (E4 eq_refl).
    match goal with |- context [fast_above fast slow (?l ++ ?r)] =>
      generalize (fast_above fast slow (l ++ r)) as y; intros y;
      generalize (fast_above fast slow l) as x; intros x end.
    destruct x, y; cbn; split; split; intros Hx;
      first [discriminate Hx | (by destruct Hx as (_ & ? & ?)) | by split_and!].
  - symmetry in E3. apply Nat.leb_gt in E3.
    split; (split; [done|intros (? & _); lia]).
Qed.

Lemma donchian_run entry exit bars :
  Period entry -> Period exit ->
  exists l s, run_strategy (donchian_breakout entry exit) bars = Val (l, s)
    /\ db_entry s = dc_run entry ((fun b => (high b, low b)) <$> bars)
    /\ db_exit s = dc_run exit ((fun b => (high b, low b)) <$> bars).
Proof.
  intros He Hx.
  induction bars as [|b bars (l & s & E & E1 & E2)] using rev_ind; [by eexists _, _|].
  destruct (strategies_total (bars ++ [b]) entry exit 0 0 0 He Hx)
    as (_ & (l' & s' & E' & _) & _).
  exists l', s'. split; [done|]. rewrite run_strategy_snoc, E in E'.
  cbn [mbind outcome_bind on_bar DonchianBreakout_strategy] in E'.
  unfold donchian_breakout_on_bar in E'.
  destruct (if dc_ready (db_entry s) then _ else _) as [a1|] in E'; [|done].
  cbn [mbind outcome_bind] in E'.
  destruct (if dc_ready (db_exit s) then _ else _) as [a2|] in E'; [|done].
  injection E' as <- <-. cbn. rewrite E1, E2, fmap_app. cbn [fmap list_fmap].
  by rewrite !dc_run_snoc.
Qed.

(** The close is above every high, below every low, of the last [n] bars. *)
Definition breaks_out (n : Z) bars b : Prop :=
  (Z.to_nat n <= length bars)%nat
  /\ Forall (fun h => h < close b) (lastn (Z.to_nat n) (high <$> bars)).
Definition breaks_down (n : Z) bars b : Prop :=
  (Z.to_nat n <= length bars)%nat
  /\ Forall (fun l => close b < l) (lastn (Z.to_nat n) (low <$> bars)).

Lemma max_below (l : list R) c m :
  max_element l = Val m -> l <> [] ->
  (m < c <-> Forall (fun h => h < c) l).
Proof.
  intros E Hl. destruct (max_element_spec l Hl) as (m' & E' & Hin & Hf).
  assert (m' = m) as -> by congruence. split.
  - intros Hc. eapply Forall_impl; [exact Hf|]. cbn. intros h Hh. lra.
  - intros Hc. rewrite Forall_forall in Hc. apply Hc. by apply list_elem_of_In.
Qed.

Lemma min_above (l : list R) c m :
  min_element l = Val m -> l <> [] ->
  (c < m <-> Forall (fun x => c < x) l).
Proof.
  intros E Hl. destruct (min_element_spec l Hl) as (m' & E' & Hin & Hf).
  assert (m' = m) as -> by congruence. split.
  - intros Hc. eapply Forall_impl; [exact Hf|]. cbn. intros h Hh. lra.
  - intros Hc. rewrite Forall_forall in Hc. apply Hc. by apply list_elem_of_In.
Qed.

Lemma high_low_fmap bars :
  ((fun b => (high b, low b)) <$> bars).*1 = high <$> bars
  /\ ((fun b => (high b, low b)) <$> bars).*2 = low <$> bars.
Proof. by rewrite <- !list_fmap_compose. Qed.

Lemma lastn_nonempty {A} p (l : list A) :
  Period p -> (Z.to_nat p <= length l)%nat -> lastn (Z.to_nat p) l <> [].
Proof.
  intros Hp Hl E. apply (f_equal length) in E. rewrite lastn_length in E.
  unfold Period in Hp. cbn in E. lia.
Qed.

Lemma dc_ready_bars p bars :
  Period p ->
  dc_ready (dc_run p ((fun b => (high b, low b)) <$> bars)) = (Z.to_nat p <=? length bars)%nat.
Proof.
  intros Hp. destruct (dc_run_window p ((fun b => (high b, low b)) <$> bars) Hp)
    as (Eh & _ & Ep).
  unfold dc_ready. rewrite Eh, Ep, ready_test by done. by rewrite !length_fmap.
Qed.

Lemma dc_upper_bars p bars c :
  Period p -> (Z.to_nat p <= length bars)%nat ->
  exists u, dc_upper (dc_run p ((fun b => (high b, low b)) <$> bars)) = Val u
    /\ (u < c <-> Forall (fun h => h < c) (lastn (Z.to_nat p) (high <$> bars))).
Proof.
  intros Hp Hl. destruct (dc_run_window p ((fun b => (high b, low b)) <$> bars) Hp)
    as (Eh & _ & _).
  unfold dc_upper. rewrite Eh. destruct (high_low_fmap bars) as [-> _].
  assert (Hne : lastn (Z.to_nat p) (high <$> bars) <> [])
    by (apply lastn_nonempty; [done|by rewrite length_fmap]).
  destruct (max_element_spec _ Hne) as (u & E & _). exists u. split; [done|].
  by apply max_below.
Qed.

Lemma dc_lower_bars p bars c :
  Period p -> (Z.to_nat p <= length bars)%nat ->
  exists u, dc_lower (dc_run p ((fun b => (high b, low b)) <$> bars)) = Val u
    /\ (c < u <-> Forall (fun l => c < l) (lastn (Z.to_nat p) (low <$> bars))).
Proof.
  intros Hp Hl. destruct (dc_run_window p ((fun b => (high b, low b)) <$> bars) Hp)
    as (_ & El & _).
  unfold dc_lower. rewrite El. destruct (high_low_fmap bars) as [_ ->].
  assert (Hne : lastn (Z.to_nat p) (low <$> bars) <> [])
    by (apply lastn_nonempty; [done|by rewrite length_fmap]).
  destruct (min_element_spec _ Hne) as (u & E & _). exists u. split; [done|].
  by apply min_above.
Qed.

(** C39. [DonchianBreakout] follows the turtle rules without looking at the current
    bar's own range: on a bar it sells exactly when the close is below every low
    of the previous [exit] bars, buys exactly when it does not sell and the close
    is above every high of the previous [entry] bars, and holds otherwise. *)
Theorem donchian_breakout_rule entry exit bars b :
  Period entry -> Period exit ->
  exists l a s, run_strategy (donchian_breakout entry exit) (bars ++ [b]) = Val (l ++ [a], s)
  /\ (a = sell <-> breaks_down exit bars b)
  /\ (a = buy <-> breaks_out entry bars b /\ ~ breaks_down exit bars b).
Proof.
  intros He Hx. destruct (donchian_run entry exit bars He Hx) as (l & s & E & E1 & E2).
  rewrite run_strategy_snoc, E.
  cbn [mbind outcome_bind on_bar DonchianBreakout_strategy mret outcome_ret].
  unfold donchian_breakout_on_bar. rewrite E1, E2, !dc_ready_bars by done.
  unfold breaks_out, breaks_down.
  destruct (Nat.leb_spec (Z.to_nat entry) (length bars)) as [Hle|Hle].
  - destruct (dc_upper_bars entry bars (close b) He Hle) as (u & -> & Hu).
    cbn [mbind outcome_bind mret outcome_ret].
    destruct (Nat.leb_spec (Z.to_nat exit) (length bars)) as [Hlx|Hlx].
    + destruct (dc_lower_bars exit bars (close b) Hx Hlx) as (v & -> & Hv).
      cbn [mbind outcome_bind mret outcome_ret].
      eexists l, _, _. split; [done|].
      destruct (rltb_spec (close b) v), (rltb_spec u (close b));
        split; split; intros Ha; try discriminate Ha; intuition (congruence || lra).
    + cbn [mbind outcome_bind mret outcome_ret]. eexists l, _, _. split; [done|].
      destruct (rltb_spec u (close b));
        split; split; intros Ha; try discriminate Ha; intuition (congruence || lia).
  - cbn [mbind outcome_bind mret outcome_ret].
    destruct (Nat.leb_spec (Z.to_nat exit) (length bars)) as [Hlx|Hlx].
    + destruct (dc_lower_bars exit bars (close b) Hx Hlx) as (v & -> & Hv).
      cbn [mbind outcome_bind mret outcome_ret].
      eexists l, _, _. split; [done|].
      destruct (rltb_spec (close b) v);
        split; split; intros Ha; try discriminate Ha; intuition (congruence || lia).
    + cbn [mbind outcome_bind mret outcome_ret]. eexists l, _, _. split; [done|].
      split; split; intros Ha; try discriminate Ha; intuition (congruence || lia).
Qed.
End Signals.

(** ** Witnesses *)

Definition sample_bars : list (Bar binary64) := bar_of_close <$> ints [3; 2; 1; 2; 3; 2; 1]%Z.

Lemma cross_orders_alternate_witness :
  exists l s, run_strategy (sma_cross 1 2 : SmaCross binary64) sample_bars = Val (l, s)
    /\ alternating None l = true.
Proof.
  eexists _, _. split; [vm_compute; reflexivity|].
  eapply (proj1 (cross_orders_alternate sample_bars 1 2 1)). vm_compute. reflexivity.
Defined.


Lemma sma_cross_signals_witness :
  exists l a s, run_strategy (sma_cross 2 2) ([bar_of_close 1; bar_of_close 2] ++ [bar_of_close 3])
    = Val (l ++ [a], s).
Proof.
  destruct (sma_cross_signals 2 2 [bar_of_close 1; bar_of_close 2] (bar_of_close 3)
    period_2 period_2) as (l & a & s & E & _).
  exists l, a, s. exact E.
Defined.

Lemma donchian_breakout_rule_witness :
  exists l s, run_strategy (donchian_breakout 2 2) ([bar_of_close 1; bar_of_close 2]
    ++ [bar_of_close 3]) = Val (l ++ [buy], s).
Proof.
  destruct (donchian_breakout_rule 2 2 [bar_of_close 1; bar_of_close 2] (bar_of_close 3)
    period_2 period_2) as (l & a & s & E & _ & Hb).
  assert (a = buy) as <-; [|exists l, s; exact E].
  apply Hb. unfold breaks_out, breaks_down. cbn. split.
  - split; [lia|]. repeat (constructor; [lra|]). constructor.
  - intros [_ Hf]. apply Forall_inv in Hf. lra.
Defined.
