(* ===== verification/PaperTrade.v ===== *)
(** * The paper-trading example ([examples/paper_trade.cpp])

    Its handlers, of which only [on_last_price] is set, and the summary it prints at
    the end.  The lines it prints are kept as a list; of a [pb::LastPrice] only the
    price is read, so it stands for the message. *)

From S2P Require Import Prelude StdStrings FixedDecimal Numeric DecimalDouble Indicators.
From S2P Require Import Strategies StrategyTheorems MarketData.
From stdpp Require Import base numbers list strings.
From Stdlib Require Import ZArith Lia Reals Lra.

#[local] Open Scope Z_scope.

Section PaperTrade.
Context {F : Type} `{Numeric F}.

(** [BUY @ price (tick ticks)], [SELL @ price pnl]. *)
Inductive line :=
  | BUY (price : F) (tick : Z)
  | SELL (price pnl : F).

(** The variables that the handler captures. *)
Record Paper := MkPaper {
  pt_fast : Ema F; pt_slow : Ema F;
  prev_above : bool; has_prev : bool; long_pos : bool;
  entry : F; realized_pct : F; last_price : F;
  ticks : Z;
  printed : list line;
}.

Definition paper_init (fast_n slow_n : Z) : Paper :=
  MkPaper (ema_new fast_n) (ema_new slow_n) false false false (of_int 0) (of_int 0)
    (of_int 0) 0 [].

(** The body of the handler, under the mutex; [++ticks] on an atomic wraps. *)
Definition on_price (price : F) (p : Paper) : Paper :=
  let ticks := wrap W32 (ticks p + 1) in
  let fast := ema_push (pt_fast p) price in
  let slow := ema_push (pt_slow p) price in
  if negb (ema_ready fast) || negb (ema_ready slow)
  then MkPaper fast slow (prev_above p) (has_prev p) (long_pos p) (entry p)
         (realized_pct p) price ticks (printed p)
  else
    let above := (ema_value fast >? ema_value slow)%num in
    let next long_pos entry realized out :=
      MkPaper fast slow above true long_pos entry realized price ticks (printed p ++ out) in
    if has_prev p then
      if above && negb (prev_above p) && negb (long_pos p)
      then next true price (realized_pct p) [BUY price ticks]
      else if negb above && prev_above p && long_pos p
      then let pnl := ((price / entry p - of_int 1) * of_int 100)%num in
           next false (entry p) (realized_pct p + pnl)%num [SELL price pnl]
      else next (long_pos p) (entry p) (realized_pct p) []
    else next (long_pos p) (entry p) (realized_pct p) [].

Definition paper_last_price (price : Quotation) (p : Paper) : outcome Paper :=
  d ← of_quotation price;
  mret (on_price (to_double d) p).

(** The handlers given to the stream. *)
Section Handlers.
Context {Candle Trade OrderBook TradingStatus OpenInterest : Type}.
Context {CandlesResult OrderBookResult TradesResult InfoResult LastPriceResult Ping : Type}.

Definition paper_handlers : @MarketDataHandlers Candle Trade OrderBook Quotation
    TradingStatus OpenInterest CandlesResult OrderBookResult TradesResult InfoResult
    LastPriceResult Ping (outcome Paper) :=
  MkHandlers None None None (Some (fun price p => p ← p; paper_last_price price p))
    None None None None.

Definition paper_stream (fast_n slow_n : Z)
    (responses : list (@MarketDataResponse Candle Trade OrderBook Quotation TradingStatus
       OpenInterest CandlesResult OrderBookResult TradesResult InfoResult LastPriceResult
       Ping)) : outcome Paper :=
  fold_left (fun p r => dispatch paper_handlers r p) responses
    (mret (paper_init fast_n slow_n)).

(** The prices of the [LastPrice] messages; the other messages have none. *)
Definition last_prices (responses : list (@MarketDataResponse Candle Trade OrderBook
    Quotation TradingStatus OpenInterest CandlesResult OrderBookResult TradesResult
    InfoResult LastPriceResult Ping)) : list Quotation :=
  omap (fun r => match r with kLastPrice q => Some q | _ => None end) responses.
End Handlers.

(** After [stream.stop()]. *)
Definition open_pnl (p : Paper) : F :=
  if long_pos p && (entry p >? of_int 0)%num && (last_price p >? of_int 0)%num
  then ((last_price p / entry p - of_int 1) * of_int 100)%num
  else of_int 0.

Definition total_pnl (p : Paper) : F := (realized_pct p + open_pnl p)%num.

Definition paper_run (fast_n slow_n : Z) (prices : list F) : Paper :=
  fold_left (fun p price => on_price price p) prices (paper_init fast_n slow_n).
End PaperTrade.
Arguments line : clear implicits.
Arguments Paper : clear implicits.

(** ** The same trades from the strategy

    An account that executes the orders of a strategy at the closing prices: it
    buys when it holds nothing and sells what it holds. *)

Section Account.
Context {F : Type} `{Numeric F}.

Record Account := MkAccount {
  held : option F; profit : F; tick : Z; fills : list (line F) }.

Definition account_init : Account := MkAccount None (of_int 0) 0 [].

Definition execute (a : Account) (order : Action * F) : Account :=
  let '(action, price) := order in
  let n := wrap W32 (tick a + 1) in
  match action, held a with
  | buy, None => MkAccount (Some price) (profit a) n (fills a ++ [BUY price n])
  | sell, Some e =>
      let pnl := ((price / e - of_int 1) * of_int 100)%num in
      MkAccount None (profit a + pnl)%num n (fills a ++ [SELL price pnl])
  | _, _ => MkAccount (held a) (profit a) n (fills a)
  end.

(** The handler's variables are the state of [EmaCross] and the account. *)
Record Tracks (p : Paper F) (s : EmaCross F) (a : Account) : Prop := {
  tr_fast : pt_fast p = ec_fast s;
  tr_slow : pt_slow p = ec_slow s;
  tr_above : prev_above p = ec_prev_above s;
  tr_has : has_prev p = ec_has_prev s;
  tr_long : held a = (if long_pos p then Some (entry p) else None);
  tr_memory : long_pos p = true -> has_prev p = true /\ prev_above p = true;
  tr_profit : realized_pct p = profit a;
  tr_ticks : ticks p = tick a;
  tr_printed : printed p = fills a;
}.

Lemma tracks_step p s a price :
  Tracks p s a ->
  let '(action, s') := ema_cross_on_bar s (bar_of_close price) in
  Tracks (on_price price p) s' (execute a (action, price)).
Proof.
  intros [Hf Hs Ha Hh Hl Hm Hp Ht Ho]. unfold ema_cross_on_bar, on_price.
  cbn [close bar_of_close]. rewrite Hf, Hs, Ha, Hh in *.
  set (fast := ema_push (ec_fast s) price). set (slow := ema_push (ec_slow s) price).
  rewrite (orb_comm (negb (ema_ready slow))).
  destruct (negb (ema_ready fast) || negb (ema_ready slow)).
  { split; cbn; try done; congruence. }
  set (above := (ema_value fast >? ema_value slow)%num). unfold cross_action, execute.
  destruct a as [h pr n out]. cbn [held profit tick fills] in *. subst h n.
  destruct (ec_has_prev s), (ec_prev_above s), (long_pos p), above;
    try (destruct (Hm eq_refl); done); split; cbn;
    rewrite ?app_nil_r; try done; congruence.
Qed.

Lemma tracks_run prices p s a :
  Tracks p s a ->
  exists acts s', run_strategy s (bar_of_close <$> prices) = Val (acts, s')
    /\ length acts = length prices
    /\ Tracks (fold_left (fun p price => on_price price p) prices p) s'
         (fold_left execute (zip acts prices) a).
Proof.
  revert p s a. induction prices as [|price prices IH]; intros p s a Ht.
  - by exists [], s.
  - pose proof (tracks_step p s a price Ht) as Hs.
    destruct (ema_cross_on_bar s (bar_of_close price)) as [action s1] eqn:E.
    destruct (IH _ _ _ Hs) as (acts & s' & Er & Hl & Ht').
    exists (action :: acts), s'. rewrite fmap_cons. cbn [run_strategy on_bar EmaCross_strategy].
    rewrite E. cbn [mret outcome_ret mbind outcome_bind]. rewrite Er.
    split_and!; [done|cbn; by rewrite Hl|done].
Qed.

(** Only last prices move the example. *)
Lemma paper_stream_prices {C Tr OB TS OI R1 R2 R3 R4 R5 Pg} fast_n slow_n
    (responses : list (@MarketDataResponse C Tr OB Quotation TS OI R1 R2 R3 R4 R5 Pg)) ds :
  Forall2 (fun q d => of_quotation q = Val d) (last_prices responses) ds ->
  paper_stream fast_n slow_n responses = Val (paper_run fast_n slow_n (to_double <$> ds)).
Proof.
  unfold paper_stream, paper_run. generalize (paper_init (F := F) fast_n slow_n).
  revert ds. induction responses as [|r responses IH]; intros ds p Hd; cbn [fold_left].
  - cbn in Hd. by inversion Hd.
  - destruct r; try exact (IH ds p Hd).
    cbn in Hd. inversion Hd as [|q d ? ds' Hq Hd']; subst. clear Hd.
    cbn. unfold paper_last_price. rewrite Hq. exact (IH ds' _ Hd').
Qed.

(** The run of the handler on given prices, and the strategy with its account. *)
Lemma tracks_init (fast_n slow_n : Z) (ds : list Decimal) :
  exists acts s,
    run_strategy (ema_cross fast_n slow_n : EmaCross F) (bar_of_close <$> (to_double <$> ds))
      = Val (acts, s)
    /\ length acts = length ds
    /\ let p := paper_run fast_n slow_n (to_double <$> ds) in
       let a := fold_left execute (zip acts (to_double <$> ds)) account_init in
       printed p = fills a /\ realized_pct p = profit a /\ ticks p = tick a
       /\ held a = (if long_pos p then Some (entry p) else None).
Proof.
  destruct (tracks_run (to_double <$> ds) (paper_init fast_n slow_n)
              (ema_cross fast_n slow_n) account_init)
    as (acts & s & E & Hl & [_ _ _ _ H1 _ H2 H3 H4]); [by split|].
  rewrite length_fmap in Hl. by exists acts, s.
Qed.

(** Paper trading is the EMA cross strategy: for any number type, any periods and
    any messages whose prices can be converted, what the handlers print, the
    realised profit and the open position are those of an account that executes
    the orders of [EmaCross] on bars that close at the last prices received, buying
    only when flat and selling only when long.  Messages of other kinds, trades
    among them, have no effect and are not counted as ticks. *)
Theorem paper_follows_ema_cross {C Tr OB TS OI R1 R2 R3 R4 R5 Pg} (fast_n slow_n : Z)
    (responses : list (@MarketDataResponse C Tr OB Quotation TS OI R1 R2 R3 R4 R5 Pg)) ds :
  Forall2 (fun q d => of_quotation q = Val d) (last_prices responses) ds ->
  exists acts s p,
    run_strategy (ema_cross fast_n slow_n : EmaCross F) (bar_of_close <$> (to_double <$> ds))
      = Val (acts, s)
    /\ length acts = length ds
    /\ paper_stream fast_n slow_n responses = Val p
    /\ let a := fold_left execute (zip acts (to_double <$> ds)) account_init in
       printed p = fills a /\ realized_pct p = profit a /\ ticks p = tick a
       /\ held a = (if long_pos p then Some (entry p) else None).
Proof.
  intros Hd. destruct (tracks_init fast_n slow_n ds) as (acts & s & E & Hl & Hr).
  exists acts, s, (paper_run fast_n slow_n (to_double <$> ds)).
  split_and!; try done; try apply Hr. by apply paper_stream_prices.
Qed.
End Account.

(** A trade over the doubles: bought at 4 on the third tick, sold at 2 on the fifth. *)
Example paper_trade_run :
  let p := paper_run 1 2 (ints [3; 1; 4; 4; 2]) in
  (printed p, long_pos p, ticks p, feqb (total_pnl p) (realized_pct p))
  = ([BUY (of_int 4) 3; SELL (of_int 2) (of_int (-50))], false, 5, true).
Proof. vm_compute. reflexivity. Qed.

Definition sample_responses
    : list (@MarketDataResponse () () () Quotation () () () () () () () ()) :=
  [kLastPrice (MkQuotation 3 0); kTrade (); kLastPrice (MkQuotation 1 0)].

Lemma paper_follows_ema_cross_witness :
  exists acts s p,
    run_strategy (ema_cross 1 2 : EmaCross binary64)
      (bar_of_close <$> (to_double <$> [MkDecimal 3 0; MkDecimal 1 0])) = Val (acts, s)
    /\ length acts = 2%nat
    /\ paper_stream 1 2 sample_responses = Val (p : Paper binary64).
Proof.
  destruct (paper_follows_ema_cross (F := binary64) 1 2 sample_responses
    [MkDecimal 3 0; MkDecimal 1 0]) as (acts & s & p & E & Hl & Hp & _).
  - apply Forall2_cons_2; [reflexivity|]. apply Forall2_cons_2; [reflexivity|].
    apply Forall2_nil_2.
  - exists acts, s, p. exact (conj E (conj Hl Hp)).
Defined.
