(* ===== verification/StreamExamples.v ===== *)
(** * The examples that use the market-data stream
    ([examples/quotes_stream.cpp], [examples/paper_trade.cpp])

    Both pass handlers and a state callback that print; here each line is appended
    to a list.  [quotes_stream] prints every last price and candle; [paper_trade] is
    the handler of [PaperTrade.v] on the live stream of [MarketDataStream.v]. *)

From S2P Require Import Prelude StdStrings FixedDecimal DecimalText PrintedText Numeric DecimalDouble.
From S2P Require Import ErrorResult StreamCommon MarketData MarketDataStream StreamStopping.
From S2P Require Import StreamTheorems StreamCallbacks Indicators Strategies PaperTrade.
From stdpp Require Import base numbers list strings.
From Stdlib Require Import ZArith Lia Reals.

#[local] Open Scope Z_scope.

(** The lambda [on_state] of both programs. *)
Definition state_name (s : StreamState) : string :=
  match s with
  | connecting => "connecting" | connected => "connected"
  | disconnected => "disconnected" | stopped => "stopped"
  end.

Definition stream_line (s : StreamState) (e : option Error) : string :=
  "[stream] " +:+ state_name s
    +:+ match e with Some e => ": " +:+ c_str (error_to_string e) | None => "" end.

(** ** quotes_stream.cpp *)

(** The fields read of [pb::LastPrice] and [pb::Candle]. *)
Record LastPrice := MkLastPrice { lp_instrument_uid : string; lp_price : Quotation }.
Record Candle := MkCandle {
  cd_instrument_uid : string;
  cd_open : Quotation; cd_high : Quotation; cd_low : Quotation; cd_close : Quotation;
  cd_volume : Z;
}.

Definition last_price_line (p : LastPrice) : outcome string :=
  t ← quotation_text (lp_price p);
  mret ("last_price " +:+ c_str (lp_instrument_uid p) +:+ " = " +:+ t).

Definition candle_line (c : Candle) : outcome string :=
  o ← quotation_text (cd_open c);
  h ← quotation_text (cd_high c);
  l ← quotation_text (cd_low c);
  cl ← quotation_text (cd_close c);
  mret ("candle " +:+ c_str (cd_instrument_uid c) +:+ " o=" +:+ o +:+ " h=" +:+ h
        +:+ " l=" +:+ l +:+ " c=" +:+ cl +:+ " v=" +:+ int_to_string (cd_volume c)).

(** The lines printed so far; [UB] when a price could not be converted. *)
Definition Screen := outcome (list string).

Section Quotes.
Context `{GrpcCodes}.
Context {Trade OrderBook TradingStatus OpenInterest : Type}.
Context {CandlesResult OrderBookResult TradesResult InfoResult LastPriceResult Ping : Type}.
Abbreviation Response := (@MarketDataResponse Candle Trade OrderBook LastPrice
  TradingStatus OpenInterest CandlesResult OrderBookResult TradesResult InfoResult
  LastPriceResult Ping).

Definition quotes_handlers : @MarketDataHandlers Candle Trade OrderBook LastPrice
    TradingStatus OpenInterest CandlesResult OrderBookResult TradesResult InfoResult
    LastPriceResult Ping Screen :=
  MkHandlers (Some (fun c => print_line (candle_line c))) None None
    (Some (fun p => print_line (last_price_line p))) None None None None.

Definition quotes_on_state (s : StreamState) (e : option Error) (screen : Screen) : Screen :=
  print_line (mret (stream_line s e)) screen.

(** What [main] asks of the stream, with the instruments of the command line. *)
Definition quotes_ids (args : list string) : list string :=
  match args with [] => ["BBG004730N88"%string] | _ => args end.

Definition quotes_calls (args : list string) : list (@label Response) :=
  let ids := quotes_ids args in
  [LStart; LSend (subscribe_last_prices ids) true;
   LSend (subscribe_candles ids SUBSCRIPTION_INTERVAL_ONE_MINUTE false) true; LStop].

(** ** The lines that an event prints *)

Definition event_lines (e : event Response) : list (outcome string) :=
  match e with
  | Notified s err => [mret (stream_line s err)]
  | Delivered (kLastPrice p) => [last_price_line p]
  | Delivered (kCandle c) => [candle_line c]
  | Delivered _ => []
  end.

Abbreviation quotes_callback := (callback (dispatch quotes_handlers) (Some quotes_on_state)).

Lemma callback_prints screen e :
  quotes_callback screen e = foldl (fun w l => print_line l w) screen (event_lines e).
Proof. by destruct e as [s err|[]]. Qed.

Lemma log_prints screen log :
  foldl quotes_callback screen log
  = foldl (fun w l => print_line l w) screen (log ≫= event_lines).
Proof.
  revert screen. induction log as [|e log IH]; intros screen; [done|].
  cbn [foldl mbind list_bind]. by rewrite foldl_app, <- callback_prints, <- IH.
Qed.

End Quotes.

Section QuotesTheorem.
Context `{GrpcCodes}.
Context {Trade OrderBook TradingStatus OpenInterest : Type}.
Context {CandlesResult OrderBookResult TradesResult InfoResult LastPriceResult Ping : Type}.
Abbreviation Response := (@MarketDataResponse Candle Trade OrderBook LastPrice
  TradingStatus OpenInterest CandlesResult OrderBookResult TradesResult InfoResult
  LastPriceResult Ping).

Definition Printable (r : Response) : Prop :=
  match r with
  | kLastPrice p => Convertible (lp_price p)
  | kCandle c => Convertible (cd_open c) /\ Convertible (cd_high c)
      /\ Convertible (cd_low c) /\ Convertible (cd_close c)
  | _ => True
  end.

(** The line of an event, with the prices it shows. *)
Inductive LineOf : event Response -> list string -> Prop :=
  | line_state s err : LineOf (Notified s err) [stream_line s err]
  | line_price p t :
      Shows t (lp_price p) ->
      LineOf (Delivered (kLastPrice p))
        ["last_price " +:+ c_str (lp_instrument_uid p) +:+ " = " +:+ t]
  | line_candle c o h l cl :
      Shows o (cd_open c) -> Shows h (cd_high c) -> Shows l (cd_low c) ->
      Shows cl (cd_close c) ->
      LineOf (Delivered (kCandle c))
        ["candle " +:+ c_str (cd_instrument_uid c) +:+ " o=" +:+ o +:+ " h=" +:+ h
         +:+ " l=" +:+ l +:+ " c=" +:+ cl +:+ " v=" +:+ int_to_string (cd_volume c)]
  | line_none r :
      (forall p, r <> kLastPrice p) -> (forall c, r <> kCandle c) ->
      LineOf (Delivered r) [].

Lemma event_prints (e : event Response) :
  match e with Delivered r => Printable r | _ => True end ->
  exists texts, Forall2 (fun l t => l = Val t) (event_lines e) texts /\ LineOf e texts.
Proof.
  destruct e as [s err|r]; intros Hp.
  { eexists. split; [by apply Forall2_cons_2, Forall2_nil_2|]. constructor. }
  destruct r; cbn [event_lines Printable] in *;
    try (exists []; split; [by apply Forall2_nil_2|by constructor]).
  - destruct Hp as (Ho & Hh & Hl & Hc).
    destruct (quotation_text_shows _ Ho) as (o & Eo & So).
    destruct (quotation_text_shows _ Hh) as (h & Eh & Sh).
    destruct (quotation_text_shows _ Hl) as (l & El & Sl).
    destruct (quotation_text_shows _ Hc) as (cl & Ec & Sc).
    eexists. split; [apply Forall2_cons_2, Forall2_nil_2|by constructor].
    unfold candle_line. by rewrite Eo, Eh, El, Ec.
  - destruct (quotation_text_shows _ Hp) as (t & Et & St).
    eexists. split; [apply Forall2_cons_2, Forall2_nil_2|by constructor].
    unfold last_price_line. by rewrite Et.
Qed.

Lemma log_lines (log : list (event Response)) :
  Forall Printable (deliveries log) ->
  exists texts, Forall2 (fun l t => l = Val t) (log ≫= event_lines) (concat texts)
    /\ Forall2 LineOf log texts.
Proof.
  induction log as [|e log IH]; intros Hf.
  { exists []. split; by constructor. }
  assert (Hef : match e with Delivered r => Printable r | _ => True end
                /\ Forall Printable (deliveries log)).
  { destruct e; cbn in *; [done|]. by apply Forall_cons in Hf. }
  destruct Hef as [He Hlog].
  destruct (event_prints e He) as (t1 & H1 & L1). destruct (IH Hlog) as (ts & H2 & L2).
  exists (t1 :: ts). split; [|by constructor]. cbn. by apply Forall2_app.
Qed.

(** C19. What [quotes_stream] prints, in every interleaving of the stream's threads and
    of [main]: one line for each state notification, last price and candle delivered,
    in their order, and nothing for other messages; every price is printed as a text
    that reads back as the canonical decimal of its quotation.  The messages
    delivered are those that gRPC read, up to one that is about to be delivered. *)
Theorem quotes_stream_prints (opts : StreamOptions) (trace : list (@label Response)) :
  BackoffRange opts -> Z.of_nat (length trace) <= wmax W32 ->
  Forall Printable (received opts (init []) trace) ->
  exists s log texts,
    run (dispatch quotes_handlers) (Some quotes_on_state) opts (init (mret [])) trace = Val s
    /\ world s = Val (concat texts) /\ Forall2 LineOf log texts
    /\ deliveries log ++ in_reader (reader s) = received opts (init []) trace.
Proof.
  intros Hb Hl Hp.
  destruct (run_by_log (dispatch quotes_handlers) (Some quotes_on_state) opts (mret []) trace
              Hb Hl) as (s & E & Er & Ht).
  rewrite <- Ht in Hp. apply Forall_app in Hp as [Hp _].
  destruct (log_lines (world s) Hp) as (texts & H1 & H2).
  exists (interpret (dispatch quotes_handlers) (Some quotes_on_state) (mret []) s),
    (world s), texts. split_and!; try done.
  cbn [world interpret]. unfold interpret_log. rewrite log_prints.
  exact (print_lines _ _ [] H1).
Qed.
End QuotesTheorem.

(** ** paper_trade.cpp *)

Section LivePaper.
Context `{GrpcCodes}.
Context {F : Type} `{Numeric F}.
Context {Candle Trade OrderBook TradingStatus OpenInterest : Type}.
Context {CandlesResult OrderBookResult TradesResult InfoResult LastPriceResult Ping : Type}.
Abbreviation Response := (@MarketDataResponse Candle Trade OrderBook Quotation
  TradingStatus OpenInterest CandlesResult OrderBookResult TradesResult InfoResult
  LastPriceResult Ping).

(** The command line: the instrument, the seconds and the two periods. *)
Definition paper_args (args : list string) : outcome (string * Z * Z * Z) :=
  let num i default :=
    match args !! i with
    | Some a => atoi (String.list_ascii_of_string a) | None => mret default end in
  seconds ← num 1%nat 60; fast_n ← num 2%nat 20; slow_n ← num 3%nat 60;
  mret (default "BBG004730N88"%string (args !! 0%nat), seconds, fast_n, slow_n).

(** What [main] asks of the stream. *)
Definition paper_calls (instrument : string) : list (@label Response) :=
  [LStart; LSend (subscribe_last_prices [instrument]) true;
   LSend (subscribe_trades [instrument] false) true; LStop].

(** The variables that the two lambdas share with [main], and the lines of the
    state callback. *)
Record Live := MkLive { paper : outcome (Paper F); states : list string }.

Definition live_deliver (r : Response) (w : Live) : Live :=
  MkLive (dispatch paper_handlers r (paper w)) (states w).
Definition live_on_state (s : StreamState) (e : option Error) (w : Live) : Live :=
  MkLive (paper w) (states w ++ [stream_line s e]).

Definition live_init (fast_n slow_n : Z) : Live :=
  MkLive (mret (paper_init fast_n slow_n)) [].

Lemma live_log (w : Live) log :
  paper (foldl (callback live_deliver (Some live_on_state)) w log)
  = fold_left (fun p r => dispatch paper_handlers r p) (deliveries log) (paper w).
Proof. revert w. induction log as [|[s e|r] log IH]; intros w; cbn; [done|..]; by rewrite IH. Qed.

Lemma last_prices_convert (responses : list Response) :
  Forall (fun q => exists d, of_quotation q = Val d) (last_prices responses) ->
  exists ds, Forall2 (fun q d => of_quotation q = Val d) (last_prices responses) ds.
Proof.
  generalize (last_prices responses). intros qs. induction 1 as [|q qs [d E] _ [ds IH]].
  - by exists [].
  - exists (d :: ds). by constructor.
Qed.

(** C18. The paper-trading example, live.  Whatever the network and the threads do, and
    however often the stream reconnects, its position, its realised profit and the
    trades it prints are those of an account that executes the orders of [EmaCross]
    on bars that close at the last prices received so far, in order, each exactly
    once (the one being delivered apart), provided the prices can be converted.
    Messages of other kinds, trades among them, have no effect. *)
Theorem live_paper_follows_ema_cross (fast_n slow_n : Z) (opts : StreamOptions)
    (trace : list (@label Response)) :
  BackoffRange opts -> Z.of_nat (length trace) <= wmax W32 ->
  Forall (fun q => exists d, of_quotation q = Val d)
    (last_prices (received opts (init []) trace)) ->
  exists s delivered ds acts e p,
    run live_deliver (Some live_on_state) opts (init (live_init fast_n slow_n)) trace = Val s
    /\ delivered ++ in_reader (reader s) = received opts (init []) trace
    /\ Forall2 (fun q d => of_quotation q = Val d) (last_prices delivered) ds
    /\ run_strategy (ema_cross fast_n slow_n : EmaCross F) (bar_of_close <$> (to_double <$> ds))
       = Val (acts, e)
    /\ length acts = length ds
    /\ paper (world s) = Val p
    /\ let a := fold_left execute (zip acts (to_double <$> ds)) account_init in
       printed p = fills a /\ realized_pct p = profit a /\ ticks p = tick a
       /\ held a = (if long_pos p then Some (entry p) else None).
Proof.
  intros Hb Hl Hq.
  destruct (run_by_log live_deliver (Some live_on_state) opts (live_init fast_n slow_n) trace
              Hb Hl) as (s & E & Er & Ht).
  rewrite <- Ht in Hq. unfold last_prices in Hq. rewrite omap_app in Hq.
  apply Forall_app in Hq as [Hq _].
  destruct (last_prices_convert _ Hq) as (ds & Hd).
  destruct (tracks_init fast_n slow_n ds) as (acts & e & Es & Hlen & Hrest).
  exists (interpret live_deliver (Some live_on_state) (live_init fast_n slow_n) s).
  exists (deliveries (world s)), ds, acts, e, (paper_run fast_n slow_n (to_double <$> ds)).
  split_and!; try done; try apply Hrest.
  cbn [world interpret]. unfold interpret_log. rewrite live_log.
  by apply paper_stream_prices.
Qed.
End LivePaper.

(** ** Concrete runs *)

Definition quotes_response : Type :=
  @MarketDataResponse Candle () () LastPrice () () () () () () () ().

Definition read_message {Resp} (r : Resp) : list (@label Resp) :=
  [LReadDone (Some r); LReader; LReader; LReader].

Definition quotes_trace : list (@label quotes_response) :=
  take 3 (quotes_calls []) ++ replicate 5 LWorker
  ++ read_message (kLastPrice (MkLastPrice "uid" (MkQuotation 300 50000000)))
  ++ read_message (kPing ())
  ++ read_message (kCandle (MkCandle "uid" (MkQuotation 1 0) (MkQuotation 2 500000000)
       (MkQuotation 0 10000000) (MkQuotation (-1) 0) 7))
  ++ [LStop; LOwner; LReadDone None; LReader; LReader; LWriteDone false; LWriter; LWriter;
      LDone (MkStatus 1 "")] ++ replicate 3 LWorker ++ [LOwner].

Example quotes_run :
  filter (fun l => is_call l = true) quotes_trace = quotes_calls []
  /\ (s ← run (dispatch quotes_handlers) (Some quotes_on_state) default_stream_options
            (init (mret [])) quotes_trace;
      mret (world s, worker s))
  = Val (Val ["[stream] connecting"; "[stream] connected"; "last_price uid = 300.05";
              "candle uid o=1 h=2.5 l=0.01 c=-1 v=7"; "[stream] stopped"]%string,
         NoThread).
Proof. split; vm_compute; reflexivity. Qed.

Lemma quotes_stream_prints_witness :
  exists s log texts,
    run (dispatch quotes_handlers) (Some quotes_on_state) default_stream_options
      (init (mret [])) quotes_trace = Val s
    /\ world s = Val (concat texts) /\ Forall2 LineOf log texts
    /\ deliveries log ++ in_reader (reader s)
       = received default_stream_options (init []) quotes_trace.
Proof.
  refine (quotes_stream_prints default_stream_options quotes_trace _ _ _).
  - split_and!; vm_compute; discriminate.
  - vm_compute. discriminate.
  - assert (E : received default_stream_options (init []) quotes_trace
      = [kLastPrice (MkLastPrice "uid" (MkQuotation 300 50000000)); kPing ();
         kCandle (MkCandle "uid" (MkQuotation 1 0) (MkQuotation 2 500000000)
           (MkQuotation 0 10000000) (MkQuotation (-1) 0) 7)]) by (vm_compute; reflexivity).
    refine (eq_ind_r (Forall Printable) _ E).
    repeat apply Forall_cons_2; [|exact I| |by apply Forall_nil].
    + split; [by split|]. eexists. reflexivity.
    + split_and!; (split; [by split|]); eexists; reflexivity.
Defined.

Definition paper_response : Type :=
  @MarketDataResponse () () () Quotation () () () () () () () ().

Definition paper_trace : list (@label paper_response) :=
  take 3 (paper_calls "SBER") ++ replicate 5 LWorker
  ++ read_message (kLastPrice (MkQuotation 3 0)) ++ read_message (kTrade ())
  ++ read_message (kLastPrice (MkQuotation 1 0)) ++ read_message (kLastPrice (MkQuotation 4 0))
  ++ [LReadDone None; LReader; LReader; LWriteDone false; LWriter; LWriter;
      LDone (MkStatus 14 "gone")] ++ replicate 10 LWorker
  ++ read_message (kLastPrice (MkQuotation 4 0)) ++ read_message (kLastPrice (MkQuotation 2 0)).

(** The position survives a reconnection. *)
Example paper_live_run :
  paper_args ["SBER"; "5"; "1"; "2"]%string = Val ("SBER"%string, 5, 1, 2)
  /\ (s ← run live_deliver (Some live_on_state) default_stream_options
            (init (live_init (F := binary64) 1 2)) paper_trace;
      p ← paper (world s); mret (printed p, long_pos p, ticks p))
  = Val ([BUY (of_int 4) 3; SELL (of_int 2) (of_int (-50))], false, 5).
Proof. split; vm_compute; reflexivity. Qed.

Lemma live_paper_follows_ema_cross_witness :
  exists s delivered p,
    run live_deliver (Some live_on_state) default_stream_options
      (init (live_init (F := binary64) 1 2)) paper_trace = Val s
    /\ delivered ++ in_reader (reader s)
       = received default_stream_options (init []) paper_trace
    /\ paper (world s) = Val p.
Proof.
  destruct (live_paper_follows_ema_cross (F := binary64) 1 2 default_stream_options paper_trace)
    as (s & delivered & ds & acts & e & p & E & Er & _ & _ & _ & Ep & _).
  - split_and!; vm_compute; discriminate.
  - vm_compute. discriminate.
  - assert (E : last_prices (received default_stream_options (init []) paper_trace)
      = [MkQuotation 3 0; MkQuotation 1 0; MkQuotation 4 0; MkQuotation 4 0; MkQuotation 2 0])
      by (vm_compute; reflexivity).
    refine (eq_ind_r (Forall _) _ E). repeat apply Forall_cons_2; try by apply Forall_nil.
    all: eexists; reflexivity.
  - exists s, delivered, p. exact (conj E (conj Er Ep)).
Defined.
