(* ===== verification/Backtest.v ===== *)
(** * The backtester ([include/tinvest/algo/backtest.hpp])

    [run_backtest] over any strategy and number type: [on_each_bar] is the body of
    its loop on the record [Loop] of its local variables, [close_open_position]
    and [finish] are what follows the loop. *)

From S2P Require Import Prelude StdStrings Numeric Indicators Strategies.
From stdpp Require Import base numbers list strings.
From Stdlib Require Import ZArith Lia.

#[local] Open Scope Z_scope.

Record TradeRecord (F : Type) := MkTrade {
  entry_time : Z; exit_time : Z; entry_price : F; exit_price : F; return_pct : F }.
Arguments MkTrade {F}. Arguments entry_time {F}. Arguments exit_time {F}.
Arguments entry_price {F}. Arguments exit_price {F}. Arguments return_pct {F}.

Record BacktestReport (F : Type) := MkReport {
  strategy : string;
  bars : Z;
  trades : Z;
  total_return_pct : F;
  buy_hold_return_pct : F;
  max_drawdown_pct : F;
  sharpe : F;
  win_rate_pct : F;
  trade_log : list (TradeRecord F);
}.
Arguments MkReport {F}. Arguments strategy {F}. Arguments bars {F}.
Arguments trades {F}. Arguments total_return_pct {F}. Arguments buy_hold_return_pct {F}.
Arguments max_drawdown_pct {F}. Arguments sharpe {F}. Arguments win_rate_pct {F}.
Arguments trade_log {F}.

Section Backtest.
Context {F S : Type} `{Numeric F, Strategy F S}.

(** [commission_pct = 0.05], [annualization = 252.0]. *)
Definition default_commission_pct : F := (of_int 5 / of_int 100)%num.
Definition default_annualization : F := of_int 252.

(** The local variables of the loop. *)
Record Loop := MkLoop {
  l_strategy : S;
  l_equity : F; l_peak : F;
  l_long_pos : bool; l_entry_price : F; l_entry_time : Z;
  l_prev_close : F;
  l_bar_returns : list F;
  l_max_drawdown : F;
  l_log : list (TradeRecord F);
}.

Definition loop_init (s : S) (first : Bar F) : Loop :=
  MkLoop s (of_int 1) (of_int 1) false (of_int 0) 0 (close first) [] (of_int 0) [].

(** [(exit / entry * (1.0 - fee) * (1.0 - fee) - 1.0) * 100.0] *)
Definition trade_return (fee entry exit : F) : F :=
  ((exit / entry * (of_int 1 - fee) * (of_int 1 - fee) - of_int 1) * of_int 100)%num.

Definition on_each_bar (fee : F) (st : Loop) (bar : Bar F) : outcome Loop :=
  let prev_equity := l_equity st in
  let equity := if l_long_pos st && (l_prev_close st >? of_int 0)%num
                then (l_equity st * (close bar / l_prev_close st))%num
                else l_equity st in
  '(action, s) ← on_bar (l_strategy st) bar;
  let '(long_pos, price, time0, equity, log) :=
    match action, l_long_pos st with
    | buy, false =>
        (true, close bar, time bar, (equity * (of_int 1 - fee))%num, l_log st)
    | sell, true =>
        (false, l_entry_price st, l_entry_time st, (equity * (of_int 1 - fee))%num,
         l_log st ++ [MkTrade (l_entry_time st) (time bar) (l_entry_price st) (close bar)
                        (trade_return fee (l_entry_price st) (close bar))])
    | _, _ => (l_long_pos st, l_entry_price st, l_entry_time st, equity, l_log st)
    end in
  let returns := if (prev_equity >? of_int 0)%num
                 then l_bar_returns st ++ [(equity / prev_equity - of_int 1)%num]
                 else l_bar_returns st in
  let peak := fmax (l_peak st) equity in
  let drawdown := fmax (l_max_drawdown st) ((peak - equity) / peak * of_int 100)%num in
  mret (MkLoop s equity peak long_pos price time0 (close bar) returns drawdown log).

Fixpoint loop (fee : F) (st : Loop) (l : list (Bar F)) : outcome Loop :=
  match l with
  | [] => mret st
  | bar :: l' => st' ← on_each_bar fee st bar; loop fee st' l'
  end.

(** [if (long_pos) ...] after the loop: the equity and the log. *)
Definition close_open_position (fee : F) (st : Loop) (back : Bar F)
    : F * list (TradeRecord F) :=
  if l_long_pos st then
    ((l_equity st * (of_int 1 - fee))%num,
     l_log st ++ [MkTrade (l_entry_time st) (time back) (l_entry_price st) (close back)
                    (trade_return fee (l_entry_price st) (close back))])
  else (l_equity st, l_log st).

(** [for (t : trade_log) if (t.return_pct > 0) ++wins;] *)
Fixpoint count_wins (wins : Z) (log : list (TradeRecord F)) : outcome Z :=
  match log with
  | [] => mret wins
  | t :: log' =>
      if (return_pct t >? of_int 0)%num
      then w ← checked W32 (wins + 1); count_wins w log'
      else count_wins wins log'
  end.

Definition sharpe_ratio (annualization : F) (returns : list F) : F :=
  if 1 <? Z.of_nat (length returns) then
    let n := Z.of_nat (length returns) in
    let mean := (fold_left fadd returns (of_int 0) / of_int n)%num in
    let var := (fold_left (fun v r => v + (r - mean) * (r - mean)) returns (of_int 0)
                / of_int (n - 1))%num in
    let sd := fsqrt var in
    if (sd >? of_int 0)%num then (mean / sd * fsqrt annualization)%num else of_int 0
  else of_int 0.

Definition run_backtest (s : S) (l : list (Bar F)) (commission_pct annualization : F)
    : outcome (BacktestReport F) :=
  let n := wrap W32 (Z.of_nat (length l)) in
  match l, last l with
  | front :: _ :: _, Some back =>
      let fee := (commission_pct / of_int 100)%num in
      st ← loop fee (loop_init s front) l;
      let '(equity, log) := close_open_position fee st back in
      let trades := wrap W32 (Z.of_nat (length log)) in
      wins ← count_wins 0 log;
      mret (MkReport (name s) n trades
              ((equity - of_int 1) * of_int 100)%num
              ((close back / close front - of_int 1) * of_int 100)%num
              (l_max_drawdown st)
              (sharpe_ratio annualization (l_bar_returns st))
              (if trades =? 0 then of_int 0
               else (of_int 100 * of_int wins / of_int trades)%num)
              log)
  | _, _ => mret (MkReport (name s) n 0 (of_int 0) (of_int 0) (of_int 0) (of_int 0)
                    (of_int 0) [])
  end.
End Backtest.

(** A strategy that follows a script, for tests. *)
#[local] Instance Script_strategy {F} : Strategy F (list Action) := {
  on_bar s _ := mret (match s with a :: s' => (a, s') | [] => (hold, []) end);
  name _ := "script"%string;
}.

Example test_backtest :
  (r ← run_backtest [buy; hold; sell] (bar_of_close <$> ints [100; 110; 121])
         (of_int 0) default_annualization;
   mret (trades r, (entry_price <$> trade_log r), max_drawdown_pct r, win_rate_pct r))
  = Val (1, [of_int 100], of_int 0, of_int 100).
Proof. vm_compute. reflexivity. Qed.
