(* ===== verification/BacktestTheorems.v ===== *)
(** * The theorems about the backtester *)

From S2P Require Import Prelude StdStrings Numeric Indicators Strategies Backtest.
From stdpp Require Import base numbers list strings.
From Stdlib Require Import ZArith Lia Reals Lra Sorted.

#[local] Open Scope Z_scope.

(** ** The trades, for any number type *)

Section Trades.
Context {F S : Type} `{Numeric F, Strategy F S}.
Implicit Types (st : @Loop F S) (l : list (Bar F)) (log : list (TradeRecord F)).

(** Trades in time order that do not overlap, all after [lb]. *)
Fixpoint ordered (lb : Z) log : Prop :=
  match log with
  | [] => True
  | t :: log' => lb < entry_time t <= exit_time t /\ ordered (exit_time t) log'
  end.

Definition last_exit (lb : Z) log : Z := fold_left (fun _ t => exit_time t) log lb.

Lemma ordered_snoc lb log t :
  ordered lb log -> last_exit lb log < entry_time t <= exit_time t ->
  ordered lb (log ++ [t]).
Proof.
  revert lb. induction log as [|u log IH]; intros lb Ho Ht; cbn in *; [done|].
  destruct Ho as [Hu Ho]. split; [done|]. by apply IH.
Qed.

Lemma last_exit_snoc lb log t : last_exit lb (log ++ [t]) = exit_time t.
Proof. unfold last_exit. by rewrite fold_left_app. Qed.

#[local] Arguments last_exit : simpl never.
#[local] Arguments ordered : simpl never.

(** What a trade record says, given the fee. *)
Definition TradeOk (fee : F) (t : TradeRecord F) : Prop :=
  return_pct t = trade_return fee (entry_price t) (exit_price t).

(** The loop after the bars up to time [now]. *)
Record LogOk (lb now : Z) st : Prop := {
  lo_ordered : ordered lb (l_log st);
  lo_position : if l_long_pos st
    then last_exit lb (l_log st) < l_entry_time st <= now
    else last_exit lb (l_log st) <= now;
}.

Lemma bar_log_ok fee lb now st bar st' :
  LogOk lb now st -> now < time bar -> on_each_bar fee st bar = Val st' ->
  LogOk lb (time bar) st'.
Proof.
  intros [Ho Hp] Hlt E. unfold on_each_bar in E.
  destruct (on_bar (l_strategy st) bar) as [[a s']|]; [|done].
  cbn [mbind outcome_bind] in E.
  destruct a, (l_long_pos st); injection E as <-; split; cbn; try done; try lia.
  - apply ordered_snoc; [done|cbn; lia].
  - rewrite last_exit_snoc. cbn. lia.
Qed.

Lemma bar_trades_ok fee st bar st' :
  Forall (TradeOk fee) (l_log st) -> on_each_bar fee st bar = Val st' ->
  Forall (TradeOk fee) (l_log st')
  /\ (length (l_log st') <= length (l_log st) + 1)%nat
  /\ (l_long_pos st' = true -> l_long_pos st = false ->
      length (l_log st') = length (l_log st))
  /\ (l_long_pos st' = true -> l_long_pos st = true ->
      length (l_log st') = length (l_log st)).
Proof.
  intros Ht E. unfold on_each_bar in E.
  destruct (on_bar (l_strategy st) bar) as [[a s']|]; [|done].
  cbn [mbind outcome_bind] in E.
  destruct a, (l_long_pos st); injection E as <-; cbn;
    rewrite ?length_app; cbn; split_and!; try done; try lia.
  apply Forall_app. split; [done|]. by constructor.
Qed.

Lemma loop_log_ok fee lb l st st' now :
  LogOk lb now st -> loop fee st l = Val st' ->
  StronglySorted Z.lt (now :: (time <$> l)) ->
  LogOk lb (List.last (time <$> l) now) st'.
Proof.
  revert st now. induction l as [|bar l IH]; intros st now Hok E Hs; cbn [loop] in E.
  - by injection E as <-.
  - destruct (on_each_bar fee st bar) as [st1|] eqn:Eb; [|done].
    cbn [mbind outcome_bind] in E. inversion Hs as [|? ? Hs' Hf]; subst.
    cbn [fmap list_fmap] in Hf, Hs'. inversion Hf; subst.
    rewrite fmap_cons, last_cons_default.
    apply (IH st1 (time bar)); [|done..]. by apply (bar_log_ok fee lb now st).
Qed.

(** A position is opened before it is closed, so there are fewer trades than
    bars. *)
Lemma loop_trades_ok fee l st st' :
  Forall (TradeOk fee) (l_log st) -> loop fee st l = Val st' ->
  Forall (TradeOk fee) (l_log st')
  /\ (length (l_log st') + (if l_long_pos st' then 1 else 0)
      <= length (l_log st) + length l + (if l_long_pos st then 1 else 0))%nat.
Proof.
  revert st. induction l as [|bar l IH]; intros st Ht E; cbn [loop] in E.
  - injection E as <-. cbn. split; [done|lia].
  - destruct (on_each_bar fee st bar) as [st1|] eqn:Eb; [|done].
    cbn [mbind outcome_bind] in E.
    destruct (bar_trades_ok _ _ _ _ Ht Eb) as (Ht1 & Hl1 & Hl2 & Hl3).
    destruct (IH st1 Ht1 E) as [Ht2 Hl4]. split; [done|]. cbn [length].
    destruct (l_long_pos st1), (l_long_pos st); try specialize (Hl2 eq_refl eq_refl);
      try specialize (Hl3 eq_refl eq_refl); lia.
Qed.

(** The loop goes through exactly when the strategy does. *)
Lemma loop_total fee l st acts s' :
  run_strategy (l_strategy st) l = Val (acts, s') -> exists st', loop fee st l = Val st'.
Proof.
  revert st acts. induction l as [|bar l IH]; intros st acts E; cbn [run_strategy loop] in *.
  - by exists st.
  - unfold on_each_bar. destruct (on_bar (l_strategy st) bar) as [[a s1]|]; [|done].
    cbn [mbind outcome_bind] in *.
    destruct (run_strategy s1 l) as [[acts1 s2]|] eqn:Er; [|done].
    injection E as <- <-.
    destruct a, (l_long_pos st); cbn [mbind outcome_bind]; eapply IH; exact Er.
Qed.

Lemma count_wins_total wins log :
  0 <= wins -> wins + Z.of_nat (length log) <= wmax W32 ->
  exists w, count_wins wins log = Val w /\ wins <= w <= wins + Z.of_nat (length log).
Proof.
  revert wins. induction log as [|t log IH]; intros wins Hw Hl; cbn [count_wins length] in *.
  - exists wins. split; [done|lia].
  - destruct (fltb _ _).
    + rewrite checked_in by (revert Hl; unfold InRange, wmin; cbn; lia).
      cbn [mbind outcome_bind].
      destruct (IH (wins + 1)) as (w & -> & Hb); [lia|lia|]. exists w. split; [done|lia].
    + destruct (IH wins) as (w & -> & Hb); [lia|lia|]. exists w. split; [done|lia].
Qed.
End Trades.

(** ** The equity, over the reals *)

#[local] Open Scope R_scope.

Section Equity.
Context {S : Type} `{Strategy R S}.
Implicit Types (st : @Loop R S) (l : list (Bar R)) (log : list (TradeRecord R)).

(** The compound growth of a list of trades. *)
Definition growth log : R := foldr (fun t a => (1 + return_pct t / 100) * a) 1 log.

#[local] Arguments growth : simpl never.

Lemma growth_snoc log t : growth (log ++ [t]) = growth log * (1 + return_pct t / 100).
Proof.
  induction log as [|u log IH]; unfold growth in *; cbn; [lra|]. rewrite IH. lra.
Qed.

Lemma trade_factor fee entry exit :
  1 + trade_return fee entry exit / 100 = exit / entry * (1 - fee) * (1 - fee).
Proof. unfold trade_return. cbn. lra. Qed.

#[local] Arguments trade_return : simpl never.

(** The loop after some bars. *)
Record EquityOk (fee : R) st : Prop := {
  eo_prev : 0 < l_prev_close st;
  eo_entry : l_long_pos st = true -> 0 < l_entry_price st;
  eo_equity : l_equity st = growth (l_log st)
    * (if l_long_pos st then (1 - fee) * (l_prev_close st / l_entry_price st) else 1);
  eo_nonneg : 0 <= l_equity st;
  eo_peak : 1 <= l_peak st;
  eo_drawdown : 0 <= l_max_drawdown st <= 100;
}.

Lemma drawdown_range peak equity dd :
  0 <= equity -> 1 <= peak -> 0 <= dd <= 100 ->
  0 <= Rmax dd ((Rmax peak equity - equity) / Rmax peak equity * 100) <= 100.
Proof.
  intros He Hp Hd. pose proof (Rmax_l peak equity). pose proof (Rmax_r peak equity).
  set (q := Rmax peak equity) in *.
  assert (0 <= (q - equity) / q * 100 <= 100).
  { assert (0 <= (q - equity) / q <= 1); [|lra]. split.
    - apply Rmult_le_pos; [lra|]. apply Rlt_le, Rinv_0_lt_compat. lra.
    - apply Rmult_le_reg_r with q; [lra|]. field_simplify; lra. }
  split.
  - eapply Rle_trans; [|apply Rmax_l]. lra.
  - apply Rmax_lub; lra.
Qed.

Lemma bar_equity_ok fee st bar st' :
  fee <= 1 -> 0 < close bar -> EquityOk fee st -> on_each_bar fee st bar = Val st' ->
  EquityOk fee st'.
Proof.
  intros Hfee Hc [E1 E2 E3 E4 E5 E6] E. unfold on_each_bar in E.
  destruct (on_bar (l_strategy st) bar) as [[a s']|]; [|done].
  cbn [mbind outcome_bind] in E.
  set (marked := if l_long_pos st && (l_prev_close st >? of_int 0)%num
                 then fmul (l_equity st) (fdiv (close bar) (l_prev_close st))
                 else l_equity st) in E.
  assert (Hm : marked = growth (l_log st)
    * (if l_long_pos st then (1 - fee) * (close bar / l_entry_price st) else 1)).
  { unfold marked. destruct (l_long_pos st) eqn:El; cbn [andb]; [|done].
    destruct (rltb_spec (of_int 0) (l_prev_close st)) as [Hp|Hp]; cbn in Hp; [|lra].
    specialize (E2 eq_refl). cbn. rewrite E3. field. lra. }
  assert (Hm0 : 0 <= marked).
  { unfold marked. destruct (l_long_pos st && _); [|done]. cbn.
    apply Rmult_le_pos; [done|]. apply Rlt_le, Rdiv_lt_0_compat; done. }
  clearbody marked.
  destruct a, (l_long_pos st) eqn:El; injection E as <-; rewrite !rmax_spec; split; cbn; try done.
  all: try (specialize (E2 eq_refl)).
  all: try (apply drawdown_range; try done).
  all: try (eapply Rle_trans; [exact E5|apply Rmax_l]).
  all: try (apply Rmult_le_pos; [done|lra]).
  - rewrite Hm. field. lra.
  - rewrite growth_snoc. cbn [return_pct]. rewrite trade_factor, Hm. field. lra.
Qed.

Lemma loop_equity_ok fee l st st' :
  fee <= 1 -> Forall (fun b => 0 < close b) l -> EquityOk fee st ->
  loop fee st l = Val st' ->
  EquityOk fee st' /\ l_prev_close st' = List.last (close <$> l) (l_prev_close st).
Proof.
  intros Hfee Hl. revert st. induction Hl as [|bar l Hb Hl IH]; intros st Ho E;
    cbn [loop] in E.
  - injection E as <-. by split.
  - destruct (on_each_bar fee st bar) as [st1|] eqn:Eb; [|done].
    cbn [mbind outcome_bind] in E.
    destruct (IH st1 (bar_equity_ok _ _ _ _ Hfee Hb Ho Eb) E) as [Ho' Hp].
    split; [done|]. rewrite Hp.
    assert (l_prev_close st1 = close bar) as ->.
    { unfold on_each_bar in Eb. destruct (on_bar _ _) as [[a s']|]; [|done].
      cbn [mbind outcome_bind] in Eb.
      destruct a, (l_long_pos st); injection Eb as <-; done. }
    by rewrite fmap_cons, last_cons_default.
Qed.
End Equity.

#[local] Arguments growth : simpl never.
#[local] Arguments trade_return : simpl never.
#[local] Arguments last_exit : simpl never.
#[local] Arguments ordered : simpl never.

(** The last bar, as the code's [back()]. *)
Lemma last_back {A B} (f : A -> B) (x : A) (l : list A) (d : B) :
  exists back, last (x :: l) = Some back /\ f back = List.last (f <$> x :: l) d.
Proof.
  exists (List.last (x :: l) x). split.
  - revert x. induction l as [|y k IH]; intros x; [done|].
    specialize (IH y). rewrite !last_cons_default in *. exact IH.
  - rewrite fmap_cons, !last_cons_default.
    revert x. induction l as [|y k IH]; intros x; [done|].
    rewrite fmap_cons, !last_cons_default. apply IH.
Qed.

Lemma close_equity (fee : R) {S} `{Strategy R S} (st : @Loop R S) back :
  EquityOk fee st -> l_prev_close st = close back ->
  (close_open_position fee st back).1 = growth (close_open_position fee st back).2.
Proof.
  intros [E1 E2 E3 _ _ _] Hp. unfold close_open_position.
  destruct (l_long_pos st); cbn.
  - specialize (E2 eq_refl). rewrite growth_snoc. cbn [return_pct].
    rewrite trade_factor, E3, Hp. field. lra.
  - rewrite E3. lra.
Qed.

Lemma close_trades {F S} `{Numeric F, Strategy F S} fee (st : @Loop F S) back :
  Forall (TradeOk fee) (l_log st) ->
  Forall (TradeOk fee) (close_open_position fee st back).2
  /\ length (close_open_position fee st back).2
     = (length (l_log st) + (if l_long_pos st then 1 else 0))%nat.
Proof.
  intros Ht. unfold close_open_position. destruct (l_long_pos st); cbn.
  - rewrite length_app. split; [|done]. apply Forall_app. split; [done|]. by constructor.
  - split; [done|lia].
Qed.

Lemma loop_init_ok fee {S} `{Strategy R S} (s : S) first :
  0 < close first -> EquityOk fee (loop_init s first).
Proof. intros Hc. split; cbn; try done; try lra. unfold growth. cbn. lra. Qed.

Lemma percentage_range w n :
  (0 <= w <= n)%Z -> (0 < n)%Z -> 0 <= 100 * IZR w / IZR n <= 100.
Proof.
  intros [Hw1%IZR_le Hw2%IZR_le] Hn%IZR_lt. split.
  - apply Rmult_le_pos; [lra|]. apply Rlt_le, Rinv_0_lt_compat. lra.
  - apply Rmult_le_reg_r with (IZR n); [lra|]. field_simplify; lra.
Qed.

Lemma run_backtest_two {F S} `{Numeric F, Strategy F S} (s : S) (front second : Bar F)
    l back (commission annualization : F) :
  last (front :: second :: l) = Some back ->
  let all := front :: second :: l in
  let fee := fdiv commission (of_int 100) in
  run_backtest s all commission annualization
  = (st ← loop fee (loop_init s front) all;
     let '(equity, log) := close_open_position fee st back in
     let trades := wrap W32 (Z.of_nat (length log)) in
     wins ← count_wins 0 log;
     mret (MkReport (name s) (wrap W32 (Z.of_nat (length all))) trades
             ((equity - of_int 1) * of_int 100)%num
             ((close back / close front - of_int 1) * of_int 100)%num
             (l_max_drawdown st)
             (sharpe_ratio annualization (l_bar_returns st))
             (if trades =? 0 then of_int 0
              else (of_int 100 * of_int wins / of_int trades)%num)%Z
             log)).
Proof. intros E all fee. unfold run_backtest, all. by rewrite E. Qed.

(** The report of a run over at least two bars, in terms of the loop's last state and
    the closed position. *)
Lemma run_backtest_report {F S} `{Numeric F, Strategy F S} (s : S) (front second : Bar F)
    l acts s' (commission annualization : F) :
  let all := front :: second :: l in
  let fee := fdiv commission (of_int 100) in
  (Z.of_nat (length all) < wmax W32)%Z -> run_strategy s all = Val (acts, s') ->
  exists back st w,
    last all = Some back /\ loop fee (loop_init s front) all = Val st
    /\ let '(equity, log) := close_open_position fee st back in
       let n := Z.of_nat (length log) in
       Forall (TradeOk fee) log /\ (0 <= w <= n)%Z /\ (n <= Z.of_nat (length all))%Z
       /\ run_backtest s all commission annualization
         = Val (MkReport (name s) (Z.of_nat (length all)) n
                 ((equity - of_int 1) * of_int 100)%num
                 ((close back / close front - of_int 1) * of_int 100)%num
                 (l_max_drawdown st) (sharpe_ratio annualization (l_bar_returns st))
                 (if n =? 0 then of_int 0 else (of_int 100 * of_int w / of_int n)%num) log).
Proof.
  intros all fee Hmax Hrun.
  destruct (last_back close front (second :: l) (close front)) as (back & Eback & _).
  destruct (loop_total fee all (loop_init s front) acts s' Hrun) as (st & El).
  destruct (loop_trades_ok fee all (loop_init s front) st) as [Ht Hlen]; [constructor|done|].
  destruct (close_trades fee st back Ht) as [Ht' Hl'].
  assert (Hn : (length (close_open_position fee st back).2 <= length all)%nat)
    by (cbn [loop_init l_log l_long_pos length] in Hlen; lia).
  destruct (count_wins_total 0 (close_open_position fee st back).2 ltac:(lia))
    as (w & Ew & Hw); [lia|].
  exists back, st, w. split_and!; [done|done|].
  rewrite (run_backtest_two s front second l back _ _ Eback : run_backtest s all _ _ = _).
  fold all fee. rewrite El. cbn [mbind outcome_bind].
  destruct (close_open_position fee st back) as [equity log] eqn:Eclose. cbn [fst snd] in *.
  split_and!; [done|lia|lia|lia|].
  rewrite !wrap_in by (unfold InRange, wmin; lia).
  rewrite Ew. done.
Qed.

(** ** Properties *)

(** C37. What the numbers of a report mean, over the reals: for at least two bars with
    positive closes, a commission of at most 100 percent and a strategy that goes
    through the bars, [run_backtest] returns a report in which the total return is
    the compound of the net returns of the logged trades, each trade's return is
    that of its prices after two commissions, the greatest drawdown and the share
    of winning trades are percentages between 0 and 100, and [trades] is the
    number of trades logged. *)
Theorem backtest_accounting {S} `{Strategy R S} (s : S) (l : list (Bar R)) acts s'
    (commission annualization : R) :
  (2 <= length l)%nat -> (Z.of_nat (length l) < wmax W32)%Z ->
  Forall (fun b => 0 < close b) l -> commission <= 100 ->
  run_strategy s l = Val (acts, s') ->
  exists r, run_backtest s l commission annualization = Val r
  /\ bars r = Z.of_nat (length l) /\ trades r = Z.of_nat (length (trade_log r))
  /\ 1 + total_return_pct r / 100 = growth (trade_log r)
  /\ Forall (TradeOk (commission / 100)) (trade_log r)
  /\ 0 <= max_drawdown_pct r <= 100 /\ 0 <= win_rate_pct r <= 100.
Proof.
  intros H2 Hmax Hpos Hcom Hrun.
  destruct l as [|front [|second l]]; [cbn in H2; lia..|].
  destruct (run_backtest_report s front second l acts s' commission annualization Hmax Hrun)
    as (back & st & w & Eback & El & Hrep).
  set (all := front :: second :: l) in *. cbn [fdiv of_int real_numeric] in El, Hrep.
  set (fee := commission / 100) in *. assert (Hfee : fee <= 1) by (unfold fee; lra).
  assert (Hfront : 0 < close front) by by inversion Hpos.
  destruct (loop_equity_ok fee all _ st Hfee Hpos (loop_init_ok fee s front Hfront) El)
    as [Heq Hprev].
  destruct (last_back close front (second :: l) (close front)) as (back' & E & Hback).
  fold all in E, Hback. rewrite Eback in E. injection E as <-.
  pose proof (close_equity fee st back Heq ltac:(by rewrite Hprev, Hback)) as Hg.
  destruct (close_open_position fee st back) as [equity log]. cbn [fst snd] in Hg.
  destruct Hrep as (Ht & Hw & Hn & E). eexists. split; [exact E|].
  cbn [bars trades trade_log total_return_pct max_drawdown_pct win_rate_pct].
  split_and!; try done.
  - cbn. rewrite <- Hg. lra.
  - apply (eo_drawdown _ _ Heq).
  - apply (eo_drawdown _ _ Heq).
  - destruct (Z.eqb_spec (Z.of_nat (length log)) 0); [cbn; lra|].
    cbn. apply percentage_range; lia.
  - destruct (Z.eqb_spec (Z.of_nat (length log)) 0); [cbn; lra|].
    cbn. apply percentage_range; lia.
Qed.

(** C38. For any number type and any strategy that goes through the bars: when the
    bars come in increasing time order, the logged trades are in time order and do
    not overlap: each trade enters strictly after the previous one exited and does
    not exit before it entered. *)
Theorem backtest_trades_ordered {F S} `{Numeric F, Strategy F S} (s : S)
    (l : list (Bar F)) acts s' (commission annualization : F) first :
  (Z.of_nat (length l) < wmax W32)%Z -> StronglySorted Z.lt (time <$> l) ->
  Forall (fun b => (first < time b)%Z) l ->
  run_strategy s l = Val (acts, s') ->
  exists r, run_backtest s l commission annualization = Val r
    /\ ordered first (trade_log r).
Proof.
  intros Hmax Hsort Hfirst Hrun.
  destruct l as [|front [|second l]]; [by eexists..|].
  destruct (run_backtest_report s front second l acts s' commission annualization Hmax Hrun)
    as (back & st & w & Eback & El & Hrep).
  set (all := front :: second :: l) in *. set (fee := fdiv commission (of_int 100)) in *.
  destruct (last_back time front (second :: l) first) as (back' & E & Hback).
  fold all in E, Hback. rewrite Eback in E. injection E as <-.
  assert (Hok : LogOk first (time back) st).
  { rewrite Hback. apply (loop_log_ok fee first all (loop_init s front)); [|done|].
    - split; cbn; [done|]. unfold last_exit. cbn. lia.
    - constructor; [done|]. by apply Forall_fmap. }
  assert (Ho : ordered first (close_open_position fee st back).2).
  { destruct Hok as [Ho Hp]. unfold close_open_position.
    destruct (l_long_pos st); [|done]. apply ordered_snoc; [done|]. cbn. lia. }
  destruct (close_open_position fee st back) as [equity log].
  destruct Hrep as (_ & _ & _ & E). by eexists.
Qed.

#[local] Existing Instance Script_strategy.

#[local] Definition script_bars : list (Bar R) :=
  [MkBar 1 100 100 100 100 0; MkBar 2 110 110 110 110 0; MkBar 3 121 121 121 121 0].

Lemma backtest_accounting_witness :
  exists r, run_backtest [buy; hold; sell] script_bars 1 252 = Val r
  /\ bars r = Z.of_nat (length script_bars) /\ trades r = Z.of_nat (length (trade_log r))
  /\ 1 + total_return_pct r / 100 = growth (trade_log r)
  /\ Forall (TradeOk (1 / 100)) (trade_log r)
  /\ 0 <= max_drawdown_pct r <= 100 /\ 0 <= win_rate_pct r <= 100.
Proof.
  apply (backtest_accounting [buy; hold; sell] script_bars [buy; hold; sell] [] 1 252);
    [cbn; lia|reflexivity| |lra|reflexivity].
  repeat constructor; cbn; lra.
Defined.

Lemma backtest_trades_ordered_witness :
  exists r, run_backtest [buy; sell; buy] script_bars 1 252 = Val r
    /\ ordered 0 (trade_log r).
Proof.
  apply (backtest_trades_ordered [buy; sell; buy] script_bars [buy; sell; buy] [] 1 252);
    [cbn; lia| | |reflexivity]; repeat constructor.
Defined.
