(* ===== verification/BacktestExample.v ===== *)
(** * The backtesting example ([examples/backtest.cpp])

    The program asks for the daily candles of an instrument, turns the complete ones
    into bars, runs the six strategies over them and prints a table of the reports. *)

From S2P Require Import Prelude StdStrings FixedDecimal DecimalText PrintedText ErrorResult.
From S2P Require Import Client RateLimiter Unary Contracts Services ExampleClient.
From S2P Require Import Numeric DecimalDouble PrintfDouble.
From S2P Require Import Indicators IndicatorTheorems Strategies StrategyTheorems.
From S2P Require Import Backtest BacktestTheorems.
From stdpp Require Import base numbers list strings.
From Stdlib Require Import ZArith Lia.

#[local] Open Scope Z_scope.

Section Reports.
Context {F : Type} `{Numeric F}.

(** [for (c : candles) if (c.is_complete()) bars.push_back(to_bar(c));] *)
Fixpoint bars_of (candles : list HistoricCandle) : outcome (list (Bar F)) :=
  match candles with
  | [] => mret []
  | c :: rest =>
      if hc_is_complete c
      then b ← to_bar c; bs ← bars_of rest; mret (b :: bs)
      else bars_of rest
  end.

Definition report_of {S} `{Strategy F S} (s : S) (bars : list (Bar F))
    : outcome (BacktestReport F) :=
  run_backtest s bars default_commission_pct default_annualization.

(** The six strategies, in the order of the vector. *)
Definition reports_of (bars : list (Bar F)) : outcome (list (BacktestReport F)) :=
  r1 ← report_of (sma_cross 20 50) bars;
  r2 ← report_of (ema_cross 12 26) bars;
  r3 ← report_of (rsi_reversion 14 (of_int 30) (of_int 70)) bars;
  r4 ← report_of (bollinger_reversion 20 (of_int 2)) bars;
  r5 ← report_of (macd_cross 12 26 9) bars;
  r6 ← report_of (donchian_breakout 20 10) bars;
  mret [r1; r2; r3; r4; r5; r6].

(** ** Facts *)

(** The complete ones of the candles. *)
Definition complete (cs : list HistoricCandle) : list HistoricCandle :=
  filter (fun c => hc_is_complete c = true) cs.

(** The four prices of every complete candle convert to a decimal. *)
Definition PricesConvert (cs : list HistoricCandle) : Prop :=
  forall c q, c ∈ complete cs -> q ∈ [hc_open c; hc_high c; hc_low c; hc_close c] ->
    exists d, of_quotation q = Val d.

Lemma to_bar_defined c :
  (forall q, q ∈ [hc_open c; hc_high c; hc_low c; hc_close c] -> exists d, of_quotation q = Val d)
  <-> exists b : Bar F, to_bar c = Val b.
Proof.
  split.
  - intros Hq. unfold to_bar.
    destruct (Hq (hc_open c)) as [d1 ->]; [by rewrite !elem_of_cons; auto 10|].
    destruct (Hq (hc_high c)) as [d2 ->]; [by rewrite !elem_of_cons; auto 10|].
    destruct (Hq (hc_low c)) as [d3 ->]; [by rewrite !elem_of_cons; auto 10|].
    destruct (Hq (hc_close c)) as [d4 ->]; [by rewrite !elem_of_cons; auto 10|]. by eexists.
  - intros [b E] q Hin. unfold to_bar in E.
    destruct (of_quotation (hc_open c)) as [d1|] eqn:E1; [|done].
    destruct (of_quotation (hc_high c)) as [d2|] eqn:E2; [|done].
    destruct (of_quotation (hc_low c)) as [d3|] eqn:E3; [|done].
    destruct (of_quotation (hc_close c)) as [d4|] eqn:E4; [|done].
    rewrite !elem_of_cons, elem_of_nil in Hin.
    destruct Hin as [->|[->|[->|[->|[]]]]]; by eexists.
Qed.

(** The bars are those of the complete candles, in order. *)
Lemma bars_of_complete (cs : list HistoricCandle) (bars : list (Bar F)) :
  bars_of cs = Val bars <-> Forall2 (fun c b => to_bar c = Val b) (complete cs) bars.
Proof.
  unfold complete. revert bars. induction cs as [|c cs IH]; intros bars; cbn [bars_of].
  { cbn. split; [intros [= <-]; constructor|by intros ->%Forall2_nil_inv_l]. }
  rewrite filter_cons. destruct (hc_is_complete c) eqn:Ec; [|by rewrite decide_False].
  rewrite decide_True by done. split.
  - intros E. destruct (to_bar c) as [b|] eqn:Eb; [|done]. cbn in E.
    destruct (bars_of cs) as [bs|]; [|done]. injection E as <-.
    constructor; [done|by apply IH].
  - intros (b & bs & Eb & Hf & ->)%Forall2_cons_inv_l. apply IH in Hf. by rewrite Eb, Hf.
Qed.

Lemma bars_of_converts cs :
  PricesConvert cs <-> exists bars : list (Bar F), bars_of cs = Val bars.
Proof.
  unfold PricesConvert. setoid_rewrite bars_of_complete. split.
  - induction (complete cs) as [|c l IH]; intros Hc; [by exists []|].
    destruct (proj1 (to_bar_defined c)) as [b Eb]; [intros q; apply Hc; by left|].
    destruct IH as [bs Hbs]; [intros c' q Hin; apply Hc; by right|].
    exists (b :: bs). by constructor.
  - intros [bars Hf] c q Hin. apply to_bar_defined.
    destruct (proj1 (list_elem_of_lookup _ _) Hin) as [i Hi].
    destruct (Forall2_lookup_l _ _ _ _ _ Hf Hi) as (b & _ & Eb). by exists b.
Qed.

(** A strategy whose [on_bar] is always defined goes through any bars. *)
Lemma run_defined {S} `{Strategy F S} (f : S -> Bar F -> Action * S) (s : S) l :
  (forall s bar, on_bar s bar = Val (f s bar)) ->
  exists acts s', run_strategy s l = Val (acts, s').
Proof.
  intros Hf. revert s. induction l as [|bar l IH]; intros s; [by exists [], s|].
  cbn [run_strategy]. rewrite Hf. destruct (f s bar) as [a s1]. cbn [mbind outcome_bind].
  destruct (IH s1) as (acts & s' & ->). by eexists _, _.
Qed.

Definition GoodReport (n : nat) (name : string) (r : BacktestReport F) : Prop :=
  strategy r = name /\ bars r = Z.of_nat n /\ trades r = Z.of_nat (length (trade_log r))
  /\ trades r <= bars r.

Lemma report_good {S} `{Strategy F S} (s : S) (l : list (Bar F)) acts s' :
  (2 <= length l)%nat -> Z.of_nat (length l) < wmax W32 ->
  run_strategy s l = Val (acts, s') ->
  exists r, report_of s l = Val r /\ GoodReport (length l) (name s) r.
Proof.
  intros H2 Hmax Hrun. destruct l as [|front [|second l]]; [cbn in H2; lia..|].
  destruct (run_backtest_report s front second l acts s' default_commission_pct
    default_annualization Hmax Hrun) as (back & st & w & _ & _ & Hrep).
  destruct (close_open_position _ st back) as [equity log].
  destruct Hrep as (_ & _ & Hn & E). eexists. split; [exact E|]. by split_and!.
Qed.

Definition strategy_names : list string :=
  ["SMA cross 20/50"; "EMA cross 12/26"; "RSI(14) reversion"; "Bollinger(20) reversion";
   "MACD 12/26/9"; "Donchian breakout 20/10"].

(** The reports of the backtester: each strategy over all the bars, from equity 1, with a
    fee of 0.05% per side and 252 days a year. *)
Definition ReportsOver (l : list (Bar F)) (reports : list (BacktestReport F)) : Prop :=
  let fee := (of_int 5 / of_int 100)%num in
  exists r1 r2 r3 r4 r5 r6,
    reports = [r1; r2; r3; r4; r5; r6]
    /\ run_backtest (sma_cross 20 50) l fee (of_int 252) = Val r1
    /\ run_backtest (ema_cross 12 26) l fee (of_int 252) = Val r2
    /\ run_backtest (rsi_reversion 14 (of_int 30) (of_int 70)) l fee (of_int 252) = Val r3
    /\ run_backtest (bollinger_reversion 20 (of_int 2)) l fee (of_int 252) = Val r4
    /\ run_backtest (macd_cross 12 26 9) l fee (of_int 252) = Val r5
    /\ run_backtest (donchian_breakout 20 10) l fee (of_int 252) = Val r6.

(** Every strategy reports, over all the bars. *)
Lemma reports_good (l : list (Bar F)) :
  (2 <= length l)%nat -> Z.of_nat (length l) < wmax W32 ->
  exists reports, reports_of l = Val reports /\ ReportsOver l reports
    /\ Forall2 (GoodReport (length l)) strategy_names reports.
Proof.
  intros H2 Hmax. unfold reports_of.
  assert (P14 : Period 14) by (split; discriminate).
  assert (P20 : Period 20) by (split; discriminate).
  assert (P10 : Period 10) by (split; discriminate).
  destruct (strategies_total l 14 14 (of_int 2) (of_int 30) (of_int 70) P14 P14)
    as ((l3 & s3 & R3 & _) & _).
  destruct (strategies_total l 20 10 (of_int 2) (of_int 30) (of_int 70) P20 P10)
    as (_ & (l6 & s6 & R6 & _) & (l4 & s4 & R4 & _)).
  destruct (run_defined sma_cross_on_bar (sma_cross 20 50) l) as (l1 & s1 & R1); [done|].
  destruct (run_defined ema_cross_on_bar (ema_cross 12 26) l) as (l2 & s2 & R2); [done|].
  destruct (run_defined macd_cross_on_bar (macd_cross 12 26 9) l) as (l5 & s5 & R5); [done|].
  destruct (report_good _ l _ _ H2 Hmax R1) as (r1 & E1 & G1).
  destruct (report_good _ l _ _ H2 Hmax R2) as (r2 & E2 & G2).
  destruct (report_good _ l _ _ H2 Hmax R3) as (r3 & E3 & G3).
  destruct (report_good _ l _ _ H2 Hmax R4) as (r4 & E4 & G4).
  destruct (report_good _ l _ _ H2 Hmax R5) as (r5 & E5 & G5).
  destruct (report_good _ l _ _ H2 Hmax R6) as (r6 & E6 & G6).
  rewrite E1, E2, E3, E4, E5, E6. exists [r1; r2; r3; r4; r5; r6].
  split; [done|]. split; [by exists r1, r2, r3, r4, r5, r6|].
  apply Forall2_cons_2; [exact G1|]. apply Forall2_cons_2; [exact G2|].
  apply Forall2_cons_2; [exact G3|]. apply Forall2_cons_2; [exact G4|].
  apply Forall2_cons_2; [exact G5|]. apply Forall2_cons_2; [exact G6|]. by apply Forall2_nil_2.
Qed.
End Reports.

(** ** The program *)

Definition get_candles : Method :=
  TINVEST_RPC "get_candles" "GetCandles" "GetCandlesRequest" "GetCandlesResponse".

Lemma get_candles_of_the_service : get_candles ∈ class_methods MarketDataService.
Proof. apply list_elem_of_lookup_2 with 0%nat. reflexivity. Qed.

Definition CANDLE_INTERVAL_DAY : Z := 5.

(** What [main] sets in the request and reads of the response. *)
Record CandleFields (Msg : string -> Type) := MkCandleFields {
  candles_request : string -> Z -> Z -> Z -> Msg "GetCandlesRequest"; (* id, interval, from, to *)
  candles_of : Msg "GetCandlesResponse" -> list HistoricCandle;
}.
Arguments candles_request {Msg}. Arguments candles_of {Msg}.

(** The instrument, the number of days and the range of times asked for. *)
Definition backtest_args (args : list string) (now : Z) : outcome (string * Z * Z) :=
  days ← match args !! 1%nat with
         | Some a => atoi (String.list_ascii_of_string a) | None => mret 365 end;
  span ← checked W64 (days * 86400);
  from ← checked W64 (now - span);
  mret (default "BBG004730N88"%string (args !! 0%nat), from, now).

Definition table_head : string :=
  pad_right 28 "strategy" +:+ " " +:+ pad_left 8 "return%" +:+ " " +:+ pad_left 8 "b&h%"
    +:+ " " +:+ pad_left 8 "maxDD%" +:+ " " +:+ pad_left 8 "sharpe"
    +:+ " " +:+ pad_left 7 "trades" +:+ " " +:+ pad_left 8 "win%".

Definition report_line (r : BacktestReport binary64) : string :=
  pad_right 28 (c_str (strategy r))
    +:+ " " +:+ pad_left 8 (printf_fixed 2 (total_return_pct r))
    +:+ " " +:+ pad_left 8 (printf_fixed 2 (buy_hold_return_pct r))
    +:+ " " +:+ pad_left 8 (printf_fixed 2 (max_drawdown_pct r))
    +:+ " " +:+ pad_left 8 (printf_fixed 2 (sharpe r))
    +:+ " " +:+ pad_left 7 (int_to_string (trades r))
    +:+ " " +:+ pad_left 8 (printf_fixed 1 (win_rate_pct r)).

Definition bars_line (instrument : string) (n : nat) (front back : Bar binary64) : string :=
  c_str instrument +:+ ": " +:+ int_to_string (Z.of_nat n) +:+ " daily bars, "
    +:+ printf_fixed 2 (close front) +:+ " -> " +:+ printf_fixed 2 (close back).

(** [main] from the result of [get_candles] on: the exit code and the lines. *)
Definition backtest_main (instrument : string) (candles : Result (list HistoricCandle))
    : outcome (Z * list printed_line) :=
  match candles with
  | ResultError e => mret (1, [Err ("GetCandles failed: " +:+ c_str (error_to_string e))])
  | ResultValue cs =>
      bars ← bars_of cs;
      if Z.of_nat (length bars) <? 60
      then mret (1, [Err ("Not enough candles: " +:+ int_to_string (Z.of_nat (length bars)))])
      else
        match head bars, last bars with
        | Some front, Some back =>
            reports ← reports_of bars;
            mret (0, [Out (bars_line instrument (length bars) front back); Out "";
                      Out table_head] ++ (Out ∘ report_line <$> reports))
        | _, _ => UB
        end
  end.

Section Program.
Context `{GrpcCodes} {L : Type} `{Limiter L}.
Context {Msg : string -> Type} (fields : CandleFields Msg).
Context (grpc_unary : string -> forall rq rs, Msg rq -> Z -> Z -> ClientContext
                      -> Reply (Msg rs)).
Context (sleep : Z -> Z -> Z).

(** [time] is [std::time(nullptr)]; [t] and [l] are the client's clock and limiter. *)
Definition backtest_program (tok : option string) (args : list string) (time t : Z) (l : L)
    : outcome (option (Z * list printed_line)) :=
  match tok with
  | None => mret (Some (1, [Err "Set TINVEST_TOKEN environment variable"]))
  | Some tok =>
      '(instrument, from, to) ← backtest_args args time;
      r ← call_sync (example_config tok) grpc_unary sleep MarketDataService get_candles
            (candles_request fields instrument CANDLE_INTERVAL_DAY from to) default_options t l;
      match r with
      | None => mret None
      | Some (candles, _) =>
          out ← backtest_main instrument
                  (match candles with
                   | ResultValue resp => ResultValue (candles_of fields resp)
                   | ResultError e => ResultError e end);
          mret (Some out)
      end
  end.
End Program.

(** ** Property *)

(** The line shows the report: its numbers are the nearest with their digits. *)
Definition RowShows (r : BacktestReport binary64) (line : printed_line) : Prop :=
  exists total hold dd sh win,
    PrintsAs 2 (total_return_pct r) total /\ PrintsAs 2 (buy_hold_return_pct r) hold
    /\ PrintsAs 2 (max_drawdown_pct r) dd /\ PrintsAs 2 (sharpe r) sh
    /\ PrintsAs 1 (win_rate_pct r) win
    /\ line = Out (pad_right 28 (c_str (strategy r)) +:+ " " +:+ pad_left 8 total
         +:+ " " +:+ pad_left 8 hold +:+ " " +:+ pad_left 8 dd +:+ " " +:+ pad_left 8 sh
         +:+ " " +:+ pad_left 7 (int_to_string (trades r)) +:+ " " +:+ pad_left 8 win).

Lemma report_line_shows r : RowShows r (Out (report_line r)).
Proof.
  exists (printf_fixed 2 (total_return_pct r)), (printf_fixed 2 (buy_hold_return_pct r)).
  exists (printf_fixed 2 (max_drawdown_pct r)), (printf_fixed 2 (sharpe r)).
  exists (printf_fixed 1 (win_rate_pct r)). split_and!; try apply printf_fixed_prints. done.
Qed.

(** What [main] prints of the candles that the server gave. *)
Definition Reported (instrument : string) (cs : list HistoricCandle)
    (code : Z) (lines : list printed_line) : Prop :=
  let n := length (complete cs) in
  if (n <? 60)%nat
  then code = 1 /\ lines = [Err ("Not enough candles: " +:+ int_to_string (Z.of_nat n))]
  else code = 0 /\ exists bars first back reports rows,
    Forall2 (fun c b => to_bar c = Val b) (complete cs) bars
    /\ head bars = Some first /\ list.last bars = Some back
    /\ lines = Out (bars_line instrument n first back) :: Out "" :: Out table_head :: rows
    /\ ReportsOver bars reports
    /\ Forall2 (GoodReport n) strategy_names reports
    /\ Forall2 RowShows reports rows.

(** What [main] does with the answer of [get_candles]. *)
Definition Prints (instrument : string) (answer : Result (list HistoricCandle))
    (out : outcome (Z * list printed_line)) : Prop :=
  match answer with
  | ResultError e =>
      out = Val (1, [Err ("GetCandles failed: " +:+ c_str (error_to_string e))])
  | ResultValue cs =>
      (PricesConvert cs -> Z.of_nat (length (complete cs)) < wmax W32 ->
         exists code lines, out = Val (code, lines) /\ Reported instrument cs code lines)
      /\ (~ PricesConvert cs -> out = UB)
  end.

Lemma backtest_main_reports instrument (cs : list HistoricCandle) (bars : list (Bar binary64)) :
  bars_of cs = Val bars -> Z.of_nat (length (complete cs)) < wmax W32 ->
  exists code lines, backtest_main instrument (ResultValue cs) = Val (code, lines)
    /\ Reported instrument cs code lines.
Proof.
  intros E Hmax. pose proof (proj1 (bars_of_complete cs bars) E) as Hf.
  unfold backtest_main, Reported. rewrite (Forall2_length _ _ _ Hf) in Hmax |- *.
  rewrite E. cbn [mbind outcome_bind].
  destruct (Nat.ltb_spec (length bars) 60) as [Hlt|Hge].
  { destruct (Z.ltb_spec (Z.of_nat (length bars)) 60); [by eexists _, _|lia]. }
  destruct (Z.ltb_spec (Z.of_nat (length bars)) 60); [lia|].
  destruct (head bars) as [first|] eqn:Eh; [|by destruct bars; cbn in Hge; [lia|]].
  destruct (last bars) as [back|] eqn:Eb;
    [|by apply last_None in Eb as ->; cbn in Hge; lia].
  destruct (reports_good bars ltac:(lia) Hmax) as (reports & Er & Ho & Hg). rewrite Er.
  eexists 0, _. split; [done|]. split; [done|].
  exists bars, first, back, reports, (Out ∘ report_line <$> reports).
  split; [done|]. split; [done|]. split; [done|]. split; [done|]. split; [exact Ho|].
  split; [exact Hg|].
  apply Forall2_fmap_r, Forall_Forall2_diag, Forall_true. intros r. apply report_line_shows.
Qed.

Lemma backtest_main_prints instrument (answer : Result (list HistoricCandle)) :
  Prints instrument answer (backtest_main instrument answer).
Proof.
  destruct answer as [cs|e]; [|done]. cbn [Prints]. split.
  - intros Hc Hmax. destruct (proj1 (bars_of_converts (F := binary64) cs) Hc) as [bars E].
    by apply (backtest_main_reports _ _ bars).
  - intros Hn. unfold backtest_main. destruct (bars_of cs) as [bars|] eqn:E; [|done].
    destruct Hn. apply (bars_of_converts (F := binary64)). by exists bars.
Qed.

(** C31. The backtesting example, from the command line to the table.  With any token and
    whatever the server answers, after its retries: when the call fails, or fewer than
    60 of the candles are complete, the program says so and exits with 1; otherwise it
    exits with 0 after the line of the bars, with the closes of the first and the last
    complete candle, and six rows, one per strategy in the order of the vector.  Each
    row shows what [run_backtest] reports of its strategy, with its parameters, over the
    bars of all the complete candles, a commission of 0.05% and 252 days a year, every
    percentage rounded to the nearest with its digits.  A price of a complete candle that
    does not convert is undefined behaviour, and nothing else of the answer is while the
    number of complete candles is an int. *)
Theorem backtest_example_prints `{GrpcCodes} {L : Type} {Good : Z -> L -> Prop}
    `{LimiterLaws L Good} {Msg : string -> Type} (fields : CandleFields Msg)
    (grpc_unary : string -> forall rq rs, Msg rq -> Z -> Z -> ClientContext -> Reply (Msg rs))
    (sleep : Z -> Z -> Z) (tok : string) (args : list string) (time t : Z) (l : L)
    (instrument : string) (from to : Z) :
  let req := candles_request fields instrument CANDLE_INTERVAL_DAY from to in
  backtest_args args time = Val (instrument, from, to) -> Good t l ->
  Serves grpc_unary sleep MarketDataService get_candles req ->
  exists candles w out,
    call_sync (example_config tok) grpc_unary sleep MarketDataService get_candles req
      default_options t l = Val (Some (candles, w))
    /\ backtest_program fields grpc_unary sleep (Some tok) args time t l
       = match out with Val o => Val (Some o) | UB => UB end
    /\ Prints instrument
         (match candles with
          | ResultValue resp => ResultValue (candles_of fields resp)
          | ResultError e => ResultError e end) out.
Proof.
  intros req Ea Hg Hs. subst req. unfold backtest_program. rewrite Ea. cbn [mbind outcome_bind].
  destruct (call_returns (Good := Good) (example_config tok) grpc_unary sleep
              ltac:(discriminate) _ _ _ t l Hs Hg) as (candles & w & -> & _).
  cbn [mbind outcome_bind]. eexists candles, w, _. split; [done|].
  split; [|apply backtest_main_prints].
  set (o := backtest_main _ _). by destruct o.
Qed.

(** ** A concrete run *)

Section Sample.
#[local] Instance candles_wake : Wake :=
  {| wake := fun _ d => d; wake_late := fun _ d => Z.le_refl d |}.

Definition flat_candle (i : nat) : HistoricCandle :=
  let q := MkQuotation 100 0 in MkCandle q q q q 1 (Z.of_nat i) true.

(** Messages: requests are the interval and the times, the response a list. *)
Definition candle_message (name : string) : Type :=
  if bool_decide (name = "GetCandlesResponse"%string) then list HistoricCandle else list Z.

Definition candle_fields : CandleFields candle_message :=
  MkCandleFields candle_message (fun _ interval from to => [interval; from; to]) (fun cs => cs).

Definition no_message (name : string) : candle_message name :=
  match bool_decide (name = "GetCandlesResponse"%string) as b
    return (if b then list HistoricCandle else list Z) with
  | true => flat_candle <$> seq 0 60 | false => [] end.

Definition candle_server (path rq rs : string) (req : candle_message rq) (n t : Z)
    (_ : ClientContext) : Reply (candle_message rs) :=
  MkReply (MkStatus 0 "") [] (no_message rs) (t + 5).

Example backtest_run :
  backtest_program candle_fields candle_server sample_sleep (Some "t"%string)
    ["SBER"; "90"]%string 8640000 1000 (rate_limiter 60000)
  = Val (Some (0,
     [Out "SBER: 60 daily bars, 100.00 -> 100.00"; Out "";
      Out "strategy                      return%     b&h%   maxDD%   sharpe  trades     win%";
      Out "SMA cross 20/50                  0.00     0.00     0.00     0.00       0      0.0";
      Out "EMA cross 12/26                  0.00     0.00     0.00     0.00       0      0.0";
      Out "RSI(14) reversion                0.00     0.00     0.00     0.00       0      0.0";
      Out "Bollinger(20) reversion          0.00     0.00     0.00     0.00       0      0.0";
      Out "MACD 12/26/9                     0.00     0.00     0.00     0.00       0      0.0";
      Out "Donchian breakout 20/10          0.00     0.00     0.00     0.00       0      0.0"]%string)).
Proof. vm_compute. reflexivity. Qed.

Lemma flat_candles_convert : PricesConvert (flat_candle <$> seq 0 60).
Proof. apply (bars_of_converts (F := binary64)). eexists. vm_compute. reflexivity. Qed.

Lemma backtest_example_prints_witness :
  exists code lines,
    backtest_program candle_fields candle_server sample_sleep (Some "t"%string)
      ["SBER"; "90"]%string 8640000 1000 (rate_limiter 60000) = Val (Some (code, lines))
    /\ Reported "SBER" (flat_candle <$> seq 0 60) code lines.
Proof.
  destruct (backtest_example_prints (Good := reachable_limiter) candle_fields candle_server
    sample_sleep "t" ["SBER"; "90"]%string 8640000 1000 (rate_limiter 60000) "SBER" 864000 8640000)
    as (candles & w & out & Hc & E & Hp).
  - vm_compute. reflexivity.
  - exact sample_good.
  - split.
    + split; [intros n t ctx; cbn; lia|intros t d; unfold sample_sleep; lia].
    + intros n t ctx. split; [|split]; eexists; vm_compute; reflexivity.
  - vm_compute in Hc. injection Hc as <- _. destruct Hp as [Hp _].
    destruct (Hp flat_candles_convert) as (code & lines & -> & Hrep); [vm_compute; reflexivity|].
    exists code, lines. by split.
Defined.
End Sample.
