(* ===== verification/LoadWindow.v ===== *)
(** * The pipelined benchmark ([bench/bench.cpp])

    The part of [bench_rpc] that keeps a bounded number of asynchronous calls in
    flight.  The main thread and the callbacks interleave at the critical sections of the mutex.  As
    [unary_async_once] (Unary.v) shows, a call either runs its callback at once or
    sends its request; the callback of a sent request runs later, once.  Callbacks
    capture locals by reference, so one that runs after their scope is [UB]. *)

From S2P Require Import Prelude.
From stdpp Require Import base numbers list.
From Stdlib Require Import ZArith Lia.

#[local] Open Scope Z_scope.

Section Window.
Context (kTotal kWindow : Z).

Inductive Main :=
  | Loop (i : Z)            (* for: the condition; cv.wait(outstanding < kWindow) *)
  | Calling (i : Z)         (* in get_accounts(request, callback) *)
  | FinalWait               (* cv.wait(completed == kTotal) *)
  | Returned.               (* mu, cv and the counters are gone *)

Record State := MkState {
  main : Main;
  outstanding : Z; completed : Z; failed : Z;
  in_flight : nat;          (* requests sent whose callback has not run *)
}.

Definition init : State := MkState (Loop 0) 0 0 0 0.

(** [--outstanding; ++completed; if (!r) ++failed; cv.notify_all();] *)
Definition callback (ok : bool) (s : State) : outcome State :=
  match main s with
  | Returned => UB
  | m =>
      o ← checked W32 (outstanding s - 1);
      c ← checked W32 (completed s + 1);
      f ← (if ok then mret (failed s) else checked W32 (failed s + 1));
      mret (MkState m o c f (in_flight s))
  end.

Definition at_main (s : State) (m : Main) : State :=
  MkState m (outstanding s) (completed s) (failed s) (in_flight s).

Definition main_step (s : State) : outcome (option State) :=
  match main s with
  | Loop i =>
      if i <? kTotal then
        if outstanding s <? kWindow then
          o ← checked W32 (outstanding s + 1);
          mret (Some (MkState (Calling i) o (completed s) (failed s) (in_flight s)))
        else mret None
      else mret (Some (at_main s FinalWait))
  | FinalWait =>
      mret (if completed s =? kTotal then Some (at_main s Returned) else None)
  | Calling _ | Returned => mret None
  end.

(** The end of [get_accounts], and [++i]. *)
Definition next (i : Z) (s : State) : outcome State :=
  i' ← checked W32 (i + 1); mret (at_main s (Loop i')).

(** [LInline ok] and [LSent] are the two things a call can do; [LComplete ok] is the
    callback of a request that was sent. *)
Inductive label := LMain | LInline (ok : bool) | LSent | LComplete (ok : bool).

Definition step (l : label) (s : State) : outcome (option State) :=
  match l, main s with
  | LMain, _ => main_step s
  | LInline ok, Calling i => s' ← callback ok s; s' ← next i s'; mret (Some s')
  | LSent, Calling i =>
      s' ← next i (MkState (main s) (outstanding s) (completed s) (failed s)
                     (S (in_flight s)));
      mret (Some s')
  | LComplete ok, _ =>
      match in_flight s with
      | O => mret None
      | S n =>
          s' ← callback ok (MkState (main s) (outstanding s) (completed s) (failed s) n);
          mret (Some s')
      end
  | _, _ => mret None
  end.

Fixpoint run (s : State) (trace : list label) : outcome State :=
  match trace with
  | [] => mret s
  | l :: trace' =>
      o ← step l s; run (match o with Some s' => s' | None => s end) trace'
  end.

(** ** Invariant *)

(** The calls that have been made. *)
Definition made (m : Main) : Z :=
  match m with Loop i | Calling i => i | FinalWait | Returned => kTotal end.
Definition calling (m : Main) : Z := match m with Calling _ => 1 | _ => 0 end.

Record Inv (s : State) : Prop := {
  inv_made : 0 <= made (main s) <= kTotal;
  inv_calling : made (main s) + calling (main s) <= kTotal;
  inv_outstanding : outstanding s = Z.of_nat (in_flight s) + calling (main s);
  inv_window : outstanding s <= kWindow;
  inv_completed : completed s + Z.of_nat (in_flight s) = made (main s);
  inv_failed : 0 <= failed s <= completed s;
  inv_returned : main s = Returned -> in_flight s = O;
}.

Context (Htotal : 0 <= kTotal <= wmax W32) (Hwindow : 0 < kWindow <= wmax W32).

Lemma window_init_inv : Inv init.
Proof. split; cbn; try done; lia. Qed.

(** What is left to do decreases with every step. *)
Definition todo (s : State) : Z :=
  3 * (kTotal - made (main s)) - calling (main s) + Z.of_nat (in_flight s)
  + match main s with Returned => 0 | FinalWait => 1 | _ => 2 end.

Ltac todo_lia := unfold todo; cbn [main in_flight made calling at_main]; lia.

Definition error (l : label) : Z :=
  match l with LInline false | LComplete false => 1 | _ => 0 end.

(** A step is defined, keeps the invariant, makes window_progress and counts errors. *)
Definition StepOk (s : State) (e : Z) (o : outcome (option State)) : Prop :=
  exists r, o = Val r /\ forall s', r = Some s' ->
    Inv s' /\ todo s' < todo s /\ failed s' = failed s + e.

#[local] Ltac step_done :=
  eexists; (split; [done|]); intros s' [= <-];
  (split_and!; [split; cbn; try done; lia|todo_lia|cbn; lia]).

Lemma window_main_step_ok s : Inv s -> StepOk s 0 (main_step s).
Proof.
  intros [H1 H2 H3 H4 H5 H6 H7]. destruct s as [m o c f n]. unfold StepOk, main_step.
  cbn in *. destruct m as [i|i| |]; cbn in *; try by eexists.
  - destruct (Z.ltb_spec i kTotal).
    + destruct (Z.ltb_spec o kWindow); [|by eexists].
      rewrite checked_in by range. cbn. step_done.
    + step_done.
  - destruct (Z.eqb_spec c kTotal); [step_done|by eexists].
Qed.

Lemma window_call_step_ok i (ok : bool) s :
  Inv s -> main s = Calling i ->
  StepOk s (if ok then 0 else 1) (s' ← callback ok s; s' ← next i s'; mret (Some s')).
Proof.
  intros [H1 H2 H3 H4 H5 H6 H7] Hm. destruct s as [m o c f n]. cbn in *. subst m.
  unfold StepOk, callback, next. cbn in *. rewrite !checked_in by range. cbn.
  destruct ok; cbn; rewrite ?checked_in by range; cbn; step_done.
Qed.

Lemma window_sent_step_ok i s :
  Inv s -> main s = Calling i ->
  StepOk s 0 (s' ← next i (MkState (main s) (outstanding s) (completed s) (failed s)
                           (S (in_flight s))); mret (Some s')).
Proof.
  intros [H1 H2 H3 H4 H5 H6 H7] Hm. destruct s as [m o c f n]. cbn in *. subst m.
  unfold StepOk, next. cbn in *. rewrite !checked_in by range. cbn.
  step_done.
Qed.

Lemma window_complete_step_ok (ok : bool) s n :
  Inv s -> in_flight s = S n ->
  StepOk s (if ok then 0 else 1)
           (s' ← callback ok (MkState (main s) (outstanding s) (completed s) (failed s) n);
            mret (Some s')).
Proof.
  intros [H1 H2 H3 H4 H5 H6 H7] Hn. destruct s as [m o c f k]. cbn in *. subst k.
  unfold StepOk, callback. cbn in *.
  assert (Hcall : 0 <= calling m <= 1) by (destruct m; cbn; lia).
  destruct m as [i|i| |]; [| | |by specialize (H7 eq_refl)]; cbn in *;
    rewrite !checked_in by range; cbn; destruct ok; cbn; rewrite ?checked_in by range; cbn;
    step_done.
Qed.

Lemma window_step_ok l s : Inv s -> StepOk s (error l) (step l s).
Proof.
  intros Hi. unfold step. destruct l as [|ok| |ok].
  - by apply window_main_step_ok.
  - destruct (main s) eqn:Em; try by eexists. by apply window_call_step_ok.
  - destruct (main s) eqn:Em; try by eexists. rewrite <- Em. by apply (window_sent_step_ok i).
  - destruct (in_flight s) as [|n] eqn:En; [by eexists|].
    by destruct (main s) eqn:Em; rewrite <- Em; apply window_complete_step_ok.
Qed.

(** The steps of an execution, and the callbacks in it that got an error. *)
Fixpoint errors (s : State) (trace : list label) : Z :=
  match trace with
  | [] => 0
  | l :: trace' =>
      match step l s with
      | Val (Some s') => error l + errors s' trace'
      | _ => errors s trace'
      end
  end.

Fixpoint moves (s : State) (trace : list label) : nat :=
  match trace with
  | [] => 0
  | l :: trace' =>
      match step l s with
      | Val (Some s') => S (moves s' trace')
      | _ => moves s trace'
      end
  end.

Lemma window_run_ok trace s :
  Inv s -> exists s', run s trace = Val s' /\ Inv s'
    /\ Z.of_nat (moves s trace) <= todo s - todo s' /\ failed s' = failed s + errors s trace.
Proof.
  revert s. induction trace as [|l trace IH]; intros s Hi; cbn [run moves errors].
  - exists s. split_and!; [done|done|lia|lia].
  - destruct (window_step_ok l s Hi) as ([s1|] & -> & Hs); cbn [mbind outcome_bind].
    + destruct (Hs s1 eq_refl) as (Hi1 & Hlt & Hf).
      destruct (IH s1 Hi1) as (s' & E & Hi' & Hm & He).
      exists s'. split_and!; [done|done|lia|lia].
    + by apply IH.
Qed.

Lemma window_todo_nonneg s : Inv s -> 0 <= todo s.
Proof.
  intros [H1 H2 H3 H4 H5 H6 H7]. unfold todo.
  assert (0 <= calling (main s) <= 1) by (destruct (main s); cbn; lia).
  destruct (main s); cbn in *; lia.
Qed.

(** Some step is enabled until the function returns. *)
Lemma window_progress s :
  Inv s -> main s <> Returned ->
  exists l s', step l s = Val (Some s') /\ forall ok, l = LComplete ok -> (0 < in_flight s)%nat.
Proof.
  intros Hi Hm. pose proof Hi as [H1 H2 H3 H4 H5 H6 H7].
  assert (Hcase : (exists s', step LMain s = Val (Some s'))
                  \/ (exists s', step LSent s = Val (Some s')) \/ (0 < in_flight s)%nat).
  { destruct (window_step_ok LMain s Hi) as (r & E & _), (window_step_ok LSent s Hi) as (r' & E' & _).
    destruct s as [m o c f n]. cbn in *.
    unfold main_step in E. destruct m as [i|i| |]; cbn in *; [| | |done].
    - destruct (Z.ltb_spec i kTotal); [|left; by eexists].
      destruct (Z.ltb_spec o kWindow); [|right; right; lia].
      left. destruct (checked _ _); [by eexists|done].
    - right; left. destruct (next _ _); [by eexists|done].
    - destruct (Z.eqb_spec c kTotal); [left; by eexists|right; right; lia]. }
  destruct Hcase as [[s' E]|[[s' E]|Hn]].
  - by exists LMain, s'.
  - by exists LSent, s'.
  - destruct (window_step_ok (LComplete true) s Hi) as (r & E & _).
    destruct r as [s'|]; [by exists (LComplete true), s'|]. exfalso.
    unfold step, callback in E. destruct (in_flight s) as [|n]; [lia|].
    destruct (main s); cbn in E; try done;
      repeat (destruct (checked _ _); cbn in E; try done).
Qed.
End Window.

(** ** Property *)

(** The pipelined benchmark, for any total and any positive window that fit an
    [int], in every interleaving of the main thread with the callbacks, whether the
    calls complete at once or later: no counter overflows, never more than
    [kWindow] calls are outstanding, some step is enabled until the function
    returns (if only the completion of a request in flight), and it returns after at
    most [3 * kTotal + 2] steps; then all the calls have completed, [failed] counts
    those that got an error, and no callback is left that could use its locals. *)
Theorem bench_window_bounded (kTotal kWindow : Z) (trace : list label) :
  0 <= kTotal <= wmax W32 -> 0 < kWindow <= wmax W32 ->
  exists s, run kTotal kWindow init trace = Val s
    /\ Z.of_nat (in_flight s) <= outstanding s <= kWindow
    /\ failed s = errors kTotal kWindow init trace
    /\ (main s <> Returned ->
         exists l s', step kTotal kWindow l s = Val (Some s')
           /\ forall ok, l = LComplete ok -> (0 < in_flight s)%nat)
    /\ Z.of_nat (moves kTotal kWindow init trace) <= 3 * kTotal + 2
    /\ (main s = Returned ->
         completed s = kTotal /\ in_flight s = O).
Proof.
  intros Ht Hw.
  destruct (window_run_ok kTotal kWindow Ht Hw trace init) as (s & E & Hi & Hm & Hf);
    [by apply window_init_inv|].
  pose proof (window_todo_nonneg _ _ s Hi) as Hn.
  assert (H0 : todo kTotal init = 3 * kTotal + 2)
    by (unfold todo; cbn [main init made calling
          in_flight]; lia).
  pose proof Hi as [H1 H2 H3 H4 H5 H6 H7].
  assert (0 <= calling (main s)) by (destruct (main s); cbn; lia).
  exists s. split_and!; [done|lia|lia|exact Hf|by apply window_progress|lia|].
  intros Hr. specialize (H7 Hr). rewrite Hr, H7 in H5. cbn in H5. split; [lia|done].
Qed.

(** Three calls through a window of two, the second refused at once. *)
Example window_run :
  (s ← run 3 2 init
     [LMain; LSent; LMain; LInline false; LMain;
      LSent; LMain; LMain; LComplete true;
      LComplete true; LMain];
   mret (main s, outstanding s, completed s, failed s))
  = Val (Returned, 0, 3, 1).
Proof. vm_compute. reflexivity. Qed.

Lemma bench_window_bounded_witness :
  exists s, run 50000 256 init [LMain; LSent] = Val s
    /\ Z.of_nat (in_flight s) <= outstanding s <= 256.
Proof.
  destruct (bench_window_bounded 50000 256 [LMain; LSent])
    as (s & E & Hb & _); [split; discriminate|split; [reflexivity|discriminate]|].
  exists s. exact (conj E Hb).
Defined.
