(* ===== verification/LoadPump.v ===== *)
(** * The pump of the soak test ([bench/soak.cpp])

    The thread that keeps up to 128 asynchronous calls in flight until it is told
    to stop, in the style of LoadWindow.v: the pump, the callbacks and [main]
    interleave at the critical sections of [amu], and a callback that runs after
    [main] has returned, when the locals it captured are gone, is [UB]. *)

From S2P Require Import Prelude.
From stdpp Require Import base numbers list.
From Stdlib Require Import ZArith Lia.

#[local] Open Scope Z_scope.


Inductive Thread :=
  | Top                     (* while (!stop) *)
  | Waiting                 (* acv.wait_for(lk, 50ms, ...) *)
  | Calling                 (* in get_accounts(request, callback) *)
  | Draining                (* acv.wait_for(lk, 2s, outstanding == 0) *)
  | Exited
  | OutOfScope.             (* main has returned: amu, acv and outstanding are gone *)

Record State := MkState {
  pump : Thread; stop : bool;
  outstanding : Z; async_done : Z;
  in_flight : nat;
}.

Definition init : State := MkState Top false 0 0 0.

Definition at_pump (s : State) (t : Thread) : State :=
  MkState t (stop s) (outstanding s) (async_done s) (in_flight s).

(** [--outstanding; ++async_done; acv.notify_all();] *)
Definition callback (s : State) : outcome State :=
  match pump s with
  | OutOfScope => UB
  | t =>
      o ← checked W32 (outstanding s - 1);
      mret (MkState t (stop s) o (wrap W64 (async_done s + 1)) (in_flight s))
  end.

(** After the wait, which ends by its condition or by its time. *)
Definition woken (s : State) : outcome State :=
  if stop s then mret (at_pump s Draining)
  else if 128 <=? outstanding s then mret (at_pump s Top)
  else
    o ← checked W32 (outstanding s + 1);
    mret (MkState Calling (stop s) o (async_done s) (in_flight s)).

Inductive label := LPump | LTimeout | LStop | LReturn | LInline | LSent | LComplete.

Definition step (l : label) (s : State) : outcome (option State) :=
  match l, pump s with
  | LStop, _ => mret (Some (MkState (pump s) true (outstanding s) (async_done s) (in_flight s)))
  | LPump, Top => mret (Some (at_pump s (if stop s then Draining else Waiting)))
  | LPump, Waiting =>
      if (outstanding s <? 128) || stop s then s' ← woken s; mret (Some s') else mret None
  | LTimeout, Waiting => s' ← woken s; mret (Some s')
  | LPump, Draining => mret (if outstanding s =? 0 then Some (at_pump s Exited) else None)
  | LTimeout, Draining => mret (Some (at_pump s Exited))
  | LReturn, Exited => mret (Some (at_pump s OutOfScope))
  | LInline, Calling => s' ← callback s; mret (Some (at_pump s' Top))
  | LSent, Calling => mret (Some (MkState Top (stop s) (outstanding s) (async_done s)
                                    (S (in_flight s))))
  | LComplete, _ =>
      match in_flight s with
      | O => mret None
      | S n => s' ← callback (MkState (pump s) (stop s) (outstanding s) (async_done s) n);
               mret (Some s')
      end
  | _, _ => mret None
  end.

Fixpoint run (s : State) (trace : list label) : outcome State :=
  match trace with
  | [] => mret s
  | l :: trace' =>
      o ← step l s; run (match o with Some s' => s' | None => s end) trace'
  end.

(** The two seconds of the last wait are enough. *)
Fixpoint drains (s : State) (trace : list label) : bool :=
  match trace with
  | [] => true
  | l :: trace' =>
      match l, pump s with LTimeout, Draining => false | _, _ => true end
      && match step l s with
         | Val (Some s') => drains s' trace'
         | Val None => drains s trace'
         | UB => true
         end
  end.

Definition calling (t : Thread) : Z := match t with Calling => 1 | _ => 0 end.

Record Inv (s : State) : Prop := {
  inv_outstanding : outstanding s = Z.of_nat (in_flight s) + calling (pump s);
  inv_window : outstanding s <= 128;
  inv_exited : pump s = Exited \/ pump s = OutOfScope -> in_flight s = O;
}.

#[local] Ltac step_done :=
  eexists; (split; [done|]); intros s' [= <-]; cbn in *; split; cbn in *; intuition (try done; lia).

Lemma pump_step_ok l s :
  Inv s -> (l = LTimeout -> pump s <> Draining) ->
  exists r, step l s = Val r /\ forall s', r = Some s' -> Inv s'.
Proof.
  intros [H1 H2 H3] Hd. destruct s as [t b o d n]. cbn in *.
  assert (Hwoken : t = Waiting ->
    exists s', woken (MkState t b o d n) = Val s' /\ Inv s').
  { intros ->. unfold woken. cbn. destruct b.
    { eexists. split; [done|]. split; cbn; intuition (try done; lia). }
    destruct (Z.leb_spec 128 o); [|rewrite checked_in by (cbn in *; range)];
      eexists; (split; [done|]); split; cbn in *; intuition (try done; lia). }
  unfold step. cbn [pump in_flight outstanding stop].
  destruct l.
  - destruct t; try by eexists.
    + destruct b; step_done.
    + destruct Hwoken as (s' & -> & Hi); [done|].
      destruct (_ || _); [|by eexists]. eexists. split; [done|]. by intros ? [= <-].
    + destruct (Z.eqb_spec o 0); [step_done|by eexists].
  - destruct t; try by eexists.
    + destruct Hwoken as (s' & -> & Hi); [done|]. eexists. split; [done|]. by intros ? [= <-].
    + by destruct Hd.
  - destruct t; step_done.
  - destruct t; try by eexists. step_done.
  - destruct t; try by eexists. unfold callback. cbn in *.
    rewrite checked_in by range. cbn. step_done.
  - destruct t; try by eexists. cbn in *. step_done.
  - destruct n as [|n]; [by destruct t; eexists|].
    destruct t; unfold callback; cbn in *; try (exfalso; assert (S n = O) by (apply H3; auto); lia);
      rewrite checked_in by range; cbn; step_done.
Qed.

Lemma pump_run_ok trace s :
  Inv s -> drains s trace = true -> exists s', run s trace = Val s' /\ Inv s'.
Proof.
  revert s. induction trace as [|l trace IH]; intros s Hi Hd; cbn [run drains] in *.
  - by exists s.
  - apply andb_true_iff in Hd as [Hl Hd].
    destruct (pump_step_ok l s Hi) as ([s1|] & E & Hs); [by intros -> Hp; rewrite Hp in Hl|..];
      rewrite E in Hd |- *; cbn [mbind outcome_bind].
    + by apply IH; [apply Hs|].
    + by apply IH.
Qed.

(** ** Property *)

(** The pump of the soak test keeps at most 128 calls in flight, and as long as its
    last wait ends because the calls have completed, no interleaving has undefined
    behaviour and none is left when it exits.  That wait is also left after two
    seconds, and its result is not looked at: then a callback can run after [main]
    has returned and use the mutex and the counter that it captured. *)
Theorem soak_pump_window :
  (forall trace, drains init trace = true ->
     exists s, run init trace = Val s
       /\ Z.of_nat (in_flight s) <= outstanding s <= 128
       /\ (pump s = Exited \/ pump s = OutOfScope -> in_flight s = O))
  /\ exists trace, run init trace = UB.
Proof.
  split.
  - intros trace Hd. destruct (pump_run_ok trace init) as (s & E & [H1 H2 H3]);
      [split; cbn; [lia|lia|by intros [?|?]]|done|].
    exists s. split_and!; [done| |done|done]. destruct (pump s); cbn in *; lia.
  - exists [LPump; LPump; LSent; LStop; LPump; LTimeout;
            LReturn; LComplete].
    reflexivity.
Qed.
