(* ===== verification/LoadServers.v ===== *)
(** * The benchmark and soak programs ([bench/bench.cpp], [bench/soak.cpp])

    The arithmetic benchmark and [percentile], the services of the two mock servers,
    and the clients they load: the candle counter of [bench_stream] and the
    blocking calls of the soak test.  The loops with asynchronous calls
    are in LoadWindow.v, what is printed of measured times in LoadReports.v. *)

From S2P Require Import Prelude StdStrings FixedDecimal DecimalText RateLimiter ErrorResult.
From S2P Require Import Client Unary Contracts Services MarketData Numeric DecimalDouble.
From stdpp Require Import base numbers list strings gmap sorting.
From Stdlib Require Import ZArith Lia.

#[local] Open Scope Z_scope.

(** ** [bench_decimal] *)

Definition kN : Z := 10000000.

(** [for (int i = 0; i < n; ++i) acc += step;] *)
Fixpoint add_loop (n : nat) (acc step : Decimal) : outcome Decimal :=
  match n with
  | O => mret acc
  | S n' => acc' ← op_add acc step; add_loop n' acc' step
  end.

(** [for (int i = 0; i < n; ++i) prod = prod * k;] *)
Fixpoint mul_loop (n : nat) (prod k : Decimal) : outcome Decimal :=
  match n with
  | O => mret prod
  | S n' => prod' ← op_mul prod k; mul_loop n' prod' k
  end.

(** The checksum it prints after [n] rounds of each loop. *)
Definition bench_decimal_loops (n : nat) : outcome string :=
  acc ← decimal 0 0;
  step ← decimal 1 234567891;
  acc ← add_loop n acc step;
  prod ← decimal 1 1;
  k ← decimal 1 1;
  prod ← mul_loop n prod k;
  sum ← op_add acc prod;
  s ← to_string sum;
  mret (String.substring 0 6 s).
Definition bench_decimal : outcome string := bench_decimal_loops (Z.to_nat kN).

Lemma add_loop_value n acc step :
  Canonical acc -> Canonical step ->
  (forall i, (i <= n)%nat -> Representable (value acc + Z.of_nat i * value step)) ->
  exists d, add_loop n acc step = Val d /\ Canonical d
    /\ value d = value acc + Z.of_nat n * value step.
Proof.
  revert acc. induction n as [|n IH]; intros acc Ha Hs Hr; cbn [add_loop].
  - exists acc. split_and!; [done|done|lia].
  - rewrite op_add_value by auto with tinvest. cbn [mbind outcome_bind].
    pose proof (Hr 1%nat ltac:(lia)) as H1. rewrite Z.mul_1_l in H1.
    destruct (IH (from_total (value acc + value step))) as (d & E & Hd & Hv);
      [by apply canonical_from_total|done| |].
    + intros i Hi. rewrite value_from_total by done.
      replace (value acc + value step + Z.of_nat i * value step)
        with (value acc + Z.of_nat (S i) * value step) by lia. apply Hr. lia.
    + exists d. rewrite value_from_total in Hv by done. split_and!; [done|done|lia].
Qed.

(** Multiplying by 1.000000001 adds one nano, up to 1.5. *)
Lemma mul_nano d k :
  Canonical d -> Canonical k -> value k = kNano + 1 ->
  kNano <= value d < kNano + kNano / 2 ->
  exists d', op_mul d k = Val d' /\ Canonical d' /\ value d' = value d + 1.
Proof.
  intros Hd Hk Ek Hv. unfold op_mul.
  rewrite !total_value by auto with tinvest. cbn [mbind outcome_bind]. rewrite Ek.
  assert (Hb : kNano / 2 = 500000000) by reflexivity. rewrite Hb in Hv.
  unfold kNano in *. rewrite checked_in by range. cbn [mbind outcome_bind].
  destruct (div_round_spec (value d * (1000000000 + 1)) 1000000000) as (r & Er & Hr);
    [done|range|].
  assert (r = value d + 1) as ->.
  { apply (rounds_unique (value d * (1000000000 + 1)) 1000000000); [lia|exact Hr|]. unfold RoundsHalfAway. lia. }
  rewrite Er. cbn [mbind outcome_bind mret outcome_ret].
  assert (Hrep : Representable (value d + 1)).
  { unfold Representable, kNano. rewrite Z.quot_div_nonneg by lia.
    assert (0 <= (value d + 1) / 1000000000 <= 2).
    { split; [apply Z.div_pos; lia|]. apply Z.lt_succ_r, Z.div_lt_upper_bound; lia. }
    range. }
  eexists. split; [done|]. split; [by apply canonical_from_total|].
  by apply value_from_total.
Qed.

Lemma mul_loop_value n prod k :
  Canonical prod -> Canonical k -> value k = kNano + 1 -> kNano <= value prod ->
  value prod + Z.of_nat n <= kNano + kNano / 2 ->
  exists d, mul_loop n prod k = Val d /\ Canonical d /\ value d = value prod + Z.of_nat n.
Proof.
  intros Hp Hk Ek. revert prod Hp. induction n as [|n IH]; intros prod Hp Hl Hu; cbn [mul_loop].
  - exists prod. split_and!; [done|done|lia].
  - destruct (mul_nano prod k) as (d & -> & Hd & Hv); [done..|lia|]. cbn [mbind outcome_bind].
    destruct (IH d Hd) as (d' & E & Hd' & Hv'); [lia|lia|].
    exists d'. split_and!; [done|done|lia].
Qed.

Lemma bench_decimal_loops_val n :
  Z.of_nat n = kN -> bench_decimal_loops n = Val "123456"%string.
Proof.
  intros Hn. unfold bench_decimal_loops.
  change (decimal 0 0) with (Val (MkDecimal 0 0)).
  change (decimal 1 234567891) with (Val (MkDecimal 1 234567891)).
  change (decimal 1 1) with (Val (MkDecimal 1 1)). cbn [mbind outcome_bind].
  assert (Hc : forall u f, 0 <= u <= 1 -> 0 <= f < kNano -> Canonical (MkDecimal u f))
    by (intros u f; unfold Canonical, Typed, kNano; cbn; range).
  change kN with 10000000 in Hn.
  destruct (add_loop_value n (MkDecimal 0 0) (MkDecimal 1 234567891)) as (a & -> & Ha & Hva);
    [by apply Hc|by apply Hc| |].
  { intros i Hi. unfold Representable, value, kNano; cbn [units_ nano_].
    rewrite Z.quot_div_nonneg by lia. split.
    - etrans; [|apply Z.div_pos; lia]. done.
    - apply Z.lt_succ_r, Z.div_lt_upper_bound; range. }
  cbn [mbind outcome_bind].
  destruct (mul_loop_value n (MkDecimal 1 1) (MkDecimal 1 1)) as (p & -> & Hp & Hvp);
    [by apply Hc|by apply Hc|done|done|rewrite Hn; done|].
  cbn [mbind outcome_bind]. rewrite op_add_value by auto with tinvest.
  rewrite Hva, Hvp, Hn. vm_compute. reflexivity.
Qed.

(** The arithmetic benchmark is defined and exact: 10^7 additions of 1.234567891
    give 12345678.91, and 10^7 multiplications by 1.000000001 add a nano each, so
    the product grows linearly, to 1.010000001. *)
Theorem bench_decimal_checksum : bench_decimal = Val "123456"%string.
Proof. apply bench_decimal_loops_val. by rewrite Z2Nat.id. Qed.

(** ** [percentile] *)

Section Percentile.
Context {F : Type} `{Numeric F, Rounding F}.

(** The order of [std::sort] on values that are not NaN. *)
Definition not_above (a b : F) : Prop := (b <? a)%num = false.
#[export] Instance not_above_dec : RelDecision not_above.
Proof. unfold not_above. intros a b. apply _. Defined.

(** [v[idx]] is undefined out of range, as for an empty [v]. *)
Definition percentile (v : list F) (p : F) : outcome F :=
  let v := merge_sort not_above v in
  idx ← to_int64 (p / of_int 100 * of_int (Z.of_nat (length v) - 1))%num;
  match v !! Z.to_nat idx with
  | Some x => if 0 <=? idx then mret x else UB
  | None => UB
  end.

(** What it returns is one of the values. *)
Lemma percentile_elem v p x : percentile v p = Val x -> x ∈ v.
Proof.
  unfold percentile. destruct (to_int64 _) as [idx|]; [|done]. cbn.
  destruct (_ !! _) as [y|] eqn:E; [|done]. destruct (0 <=? idx); [|done].
  intros [= <-]. rewrite <- (merge_sort_Permutation not_above v).
  by eapply list_elem_of_lookup_2.
Qed.
End Percentile.

Example percentile_median :
  percentile (of_int <$> [30; 10; 20] : list binary64) (of_int 50) = Val (of_int 20).
Proof. vm_compute. reflexivity. Qed.

(** The indices of the three percentiles that [bench_rpc] prints, of 3000 values. *)
Example percentile_indices :
  (fun p => to_int64 ((of_int p : binary64) / of_int 100 * of_int 2999)%num) <$> [50; 90; 99]
  = [Val 1499; Val 2699; Val 2969].
Proof. vm_compute. reflexivity. Qed.

(** ** The market-data services of the mock servers *)

(** The fields of [pb::Candle] that they set. *)
Record Candle := MkCandle { instrument_uid : string; close : Quotation }.

Definition Response : Type :=
  @MarketDataResponse Candle () () () () () () () () () () ().

(** [subscribe_candles(ids)] with its default arguments, the request of both
    programs. *)
Definition subscribe_candles_default (ids : list string) : MarketDataRequest :=
  subscribe_candles ids SUBSCRIPTION_INTERVAL_ONE_MINUTE true.

Definition has_subscribe_candles_request (r : MarketDataRequest) : bool :=
  match r with SubscribeCandles _ => true | _ => false end.

Definition ack : Response := kSubscribeCandlesResponse ().

Definition bench_candle (i : nat) : Response :=
  kCandle (MkCandle "uid" (MkQuotation (Z.of_nat i) 123000000)).
Definition soak_candle (i : nat) : Response :=
  kCandle (MkCandle "uid" (MkQuotation (Z.of_nat i) 0)).

(** [MarketDataStream] of a server, on the requests it reads and when the first
    [open] writes succeed: what it writes.  The stream ends with it. *)
Fixpoint serve (candles : list Response) (open : nat) (reqs : list MarketDataRequest)
    : list Response :=
  match reqs with
  | [] => []
  | req :: reqs' =>
      if has_subscribe_candles_request req then take open (ack :: candles)
      else serve candles open reqs'
  end.

(** [BenchMarketData] with its [messages_]. *)
Definition BenchMarketData (messages : nat) := serve (bench_candle <$> seq 0 messages).

Definition kDropEvery : nat := 500.

(** [SoakMarketData], with its two counters. *)
Record SoakMarketData := MkSoakMarketData { connections : Z; pushed : Z }.

Definition is_candle (r : Response) : bool :=
  match r with kCandle _ => true | _ => false end.

Definition soak_stream (s : SoakMarketData) (open : nat) (reqs : list MarketDataRequest)
    : SoakMarketData * list Response :=
  let out := serve (soak_candle <$> seq 0 kDropEvery) open reqs in
  (MkSoakMarketData (connections s + 1)
     (pushed s + Z.of_nat (length (filter (fun r => is_candle r = true) out))), out).

(** ** The handler of [bench_stream]

    [received] and how often the condition variable was notified. *)
Definition bench_handlers (messages : Z)
    : @MarketDataHandlers Candle () () () () () () () () () () () (outcome (Z * Z)) :=
  MkHandlers
    (Some (fun _ w =>
       '(received, notified) ← w;
       received ← checked W32 (received + 1);
       mret (received, if received =? messages then notified + 1 else notified)))
    None None None None None None None.

Definition receive (messages : Z) (out : list Response) (w : outcome (Z * Z))
    : outcome (Z * Z) :=
  fold_left (fun w r => dispatch (bench_handlers messages) r w) out w.

Lemma receive_candles messages i n w :
  Z.of_nat i + Z.of_nat n <= messages <= wmax W32 -> (0 < n)%nat -> w = Val (Z.of_nat i, 0) ->
  receive messages (bench_candle <$> seq i n) w
  = Val (Z.of_nat (i + n), if Z.of_nat (i + n) =? messages then 1 else 0).
Proof.
  revert i w. induction n as [|n IH]; intros i w Hm Hn ->; [lia|].
  unfold receive. cbn [seq fmap list_fmap fold_left].
  unfold dispatch at 2. cbn [bench_candle call on_candle on_raw bench_handlers mbind outcome_bind].
  rewrite checked_in by range. cbn [mbind outcome_bind mret outcome_ret].
  destruct n as [|n].
  - cbn. replace (Z.of_nat (i + 1)) with (Z.of_nat i + 1) by lia. by destruct (_ =? _).
  - rewrite (proj2 (Z.eqb_neq _ _)) by lia.
    etrans; [apply (IH (S i)); [lia|lia|do 2 f_equal; lia]|].
    by replace (S i + S n)%nat with (i + S (S n))%nat by lia.
Qed.

(** The benchmark's stream: whatever other requests come before, the candles that
    answer its subscription make [received] reach [messages], with exactly one
    notification, so its wait ends; fewer writes would leave it waiting. *)
Theorem bench_stream_counts (messages : nat) (before after : list MarketDataRequest)
    (ids : list string) (open : nat) :
  (0 < messages)%nat -> Z.of_nat messages <= wmax W32 ->
  Forall (fun r => has_subscribe_candles_request r = false) before ->
  let out := BenchMarketData messages open
               (before ++ subscribe_candles_default ids :: after) in
  receive (Z.of_nat messages) out (Val (0, 0))
  = Val (Z.of_nat (Nat.min messages (open - 1)),
     if (messages <? open)%nat then 1 else 0).
Proof.
  intros Hpos Hm Hb. cbv zeta.
  assert (E : BenchMarketData messages open (before ++ subscribe_candles_default ids :: after)
              = take open (ack :: (bench_candle <$> seq 0 messages))).
  { unfold BenchMarketData. induction Hb as [|r before Hr Hb IH]; [done|].
    cbn. by rewrite Hr. }
  rewrite E. destruct open as [|open]; [cbn; by rewrite Nat.min_0_r|].
  cbn [take]. rewrite <- fmap_take, take_seq.
  unfold receive. cbn [fold_left]. change (dispatch _ ack (Val (0, 0))) with (Val (0, 0)).
  fold (receive (Z.of_nat messages) (bench_candle <$> seq 0 (Nat.min open messages)) (Val (0, 0))).
  replace (S open - 1)%nat with open by lia. rewrite Nat.min_comm.
  destruct (Nat.ltb_spec messages (S open)).
  - rewrite Nat.min_l by lia. rewrite (receive_candles _ 0) by (done || lia).
    by rewrite Z.eqb_refl.
  - rewrite Nat.min_r by lia. destruct open as [|open]; [done|].
    rewrite (receive_candles _ 0) by (done || lia).
    by rewrite (proj2 (Z.eqb_neq _ _)) by lia.
Qed.

(** ** The blocking calls of the soak test *)

(** The messages of [UsersService] that matter here: the ids of the accounts. *)
Definition ids_msg (_ : string) : Type := list string.

Definition NOT_FOUND : Z := 5.
Definition UNIMPLEMENTED : Z := 12.

Definition get_accounts : Method :=
  TINVEST_RPC "get_accounts" "GetAccounts" "GetAccountsRequest" "GetAccountsResponse".
Definition get_margin_attributes : Method :=
  TINVEST_RPC "get_margin_attributes" "GetMarginAttributes" "GetMarginAttributesRequest"
    "GetMarginAttributesResponse".

(** [SoakUsers], answering after [latency]. *)
Definition SoakUsers (latency : Z) (path rq rs : string) (_ : ids_msg rq) (n t : Z)
    (_ : ClientContext) : Reply (ids_msg rs) :=
  if bool_decide (path = stub_path UsersService get_accounts)
  then MkReply (MkStatus OK "") [] ["soak"%string] (t + latency)
  else if bool_decide (path = stub_path UsersService get_margin_attributes)
  then MkReply (MkStatus NOT_FOUND "30042")
         [("message", "soak error path"); ("x-tracking-id", "soak-trk")]%string [] (t + latency)
  else MkReply (MkStatus UNIMPLEMENTED "") [] [] (t + latency).

Definition make_config (endpoint : string) : Config :=
  MkConfig "soak" endpoint "tinvest-cpp" false "" None default_retry None.

Section Hammer.
Context `{Wake} (endpoint : string) (latency : Z) (sleep : Z -> Z -> Z).

(** One thread's view: the time, the client's limiter, the counters, and the
    requests that were sent. *)
Record Hammer := MkHammer {
  h_now : Z; h_limiter : RateLimiter; sync_ok : Z; sync_err : Z; sent : nat }.

Definition soak_call (m : Method) (h : Hammer) :=
  call_sync (Msg := ids_msg) (make_config endpoint) (SoakUsers latency) sleep UsersService m
    [] default_options (h_now h) (h_limiter h).

(** The body of [while (!stop)]. *)
Definition hammer_step (h : Hammer) : outcome (option Hammer) :=
  o ← soak_call get_accounts h;
  match o with
  | None => mret None
  | Some (r, w) =>
      let ok := wrap W64 (sync_ok h + 1) in
      let err := wrap W64 (sync_err h + 1) in
      let n := (sent h + length (replies w))%nat in
      let h := if result_ok r then MkHammer (now w) (limiter w) ok (sync_err h) n
               else MkHammer (now w) (limiter w) (sync_ok h) err n in
      o ← soak_call get_margin_attributes h;
      match o with
      | None => mret None
      | Some (e, w) =>
          let n := (sent h + length (replies w))%nat in
          mret (Some (
            match e with
            | ResultError e =>
                if bool_decide (tracking_id e = "soak-trk"%string)
                then MkHammer (now w) (limiter w) (wrap W64 (sync_ok h + 1)) (sync_err h) n
                else MkHammer (now w) (limiter w) (sync_ok h) (sync_err h) n
            | ResultValue _ => MkHammer (now w) (limiter w) (sync_ok h) (sync_err h) n
            end))
      end
  end.

Fixpoint hammer (n : nat) (h : Hammer) : outcome (option Hammer) :=
  match n with
  | O => mret (Some h)
  | S n' => o ← hammer_step h;
            match o with Some h' => hammer n' h' | None => mret None end
  end.

(** A method that the limiter does not know is not delayed. *)
Lemma unlisted_acquire t r m :
  by_method_ r !! m = None -> lim_acquire r t m = Val (t, r).
Proof. intros E. cbn. unfold acquire, acquire_enter. by rewrite E. Qed.

Lemma soak_accounts h :
  by_method_ (h_limiter h) !! kMethod UsersService get_accounts = None ->
  exists rep, soak_call get_accounts h
    = Val (Some (ResultValue ["soak"%string],
                 MkWorld (h_now h + latency) (h_limiter h) [rep] [])).
Proof.
  intros E. unfold soak_call, call_sync, unary_sync.
  change (Z.to_nat (attempts_allowed (make_config endpoint))) with 3%nat.
  cbn [sync_loop limiter now]. rewrite (unlisted_acquire _ _ _ E). cbn [mbind outcome_bind].
  unfold stub_call, SoakUsers. rewrite bool_decide_true by done.
  cbn [status status_ok error_code]. eexists. reflexivity.
Qed.

Lemma soak_margin h :
  by_method_ (h_limiter h) !! kMethod UsersService get_margin_attributes = None ->
  exists rep, soak_call get_margin_attributes h
    = Val (Some (ResultError (MkError NOT_FOUND "soak error path" "30042" "soak-trk"
                                no_ratelimit),
                 MkWorld (h_now h + latency) (h_limiter h) [rep] [])).
Proof.
  intros E. unfold soak_call, call_sync, unary_sync.
  change (Z.to_nat (attempts_allowed (make_config endpoint))) with 3%nat.
  cbn [sync_loop limiter now]. rewrite (unlisted_acquire _ _ _ E). cbn [mbind outcome_bind].
  unfold stub_call, SoakUsers.
  rewrite bool_decide_false by (vm_compute; discriminate).
  rewrite bool_decide_true by done. eexists. reflexivity.
Qed.

(** A blocking thread of the soak test against its mock server, with a limiter that
    was not configured: every iteration returns and sends exactly two requests, as
    the NOT_FOUND error is not retried; it counts two successes, the second for the
    error with the tracking id of the trailer, and never an error. *)
Theorem soak_hammer_counts (n : nat) (h : Hammer) :
  by_method_ (h_limiter h) = ∅ ->
  wmin W64 <= sync_ok h -> sync_ok h + 2 * Z.of_nat n <= wmax W64 ->
  hammer n h = Val (Some (MkHammer (h_now h + 2 * Z.of_nat n * latency) (h_limiter h)
                            (sync_ok h + 2 * Z.of_nat n) (sync_err h) (sent h + 2 * n))).
Proof.
  revert h. induction n as [|n IH]; intros h Hl Hlo Hhi; cbn [hammer].
  - destruct h. cbn. do 3 f_equal; lia.
  - unfold hammer_step.
    destruct (soak_accounts h) as (rep & ->); [by rewrite Hl|]. cbn [mbind outcome_bind].
    cbn [result_ok now limiter replies length].
    destruct (soak_margin (MkHammer (h_now h + latency) (h_limiter h)
      (wrap W64 (sync_ok h + 1)) (sync_err h) (sent h + 1))) as (rep' & ->);
      [cbn; by rewrite Hl|]. cbn [mbind outcome_bind].
    cbn [tracking_id now limiter replies length sync_ok sync_err h_now h_limiter sent mret outcome_ret].
    rewrite bool_decide_true by done. rewrite (wrap_in W64 (sync_ok h + 1)) by range.
    rewrite wrap_in by range. cbn [mbind outcome_bind mret outcome_ret].
    rewrite IH by (cbn [sync_ok h_limiter]; done || lia).
    cbn [sync_ok sync_err h_now h_limiter sent]. do 3 f_equal; lia.
Qed.
End Hammer.

(** ** The blocking half of [bench_rpc] *)

(** [BenchUsers], answering after [latency]. *)
Definition BenchUsers (latency : Z) (path rq rs : string) (_ : ids_msg rq) (n t : Z)
    (_ : ClientContext) : Reply (ids_msg rs) :=
  if bool_decide (path = stub_path UsersService get_accounts)
  then MkReply (MkStatus OK "") [] ["bench"%string] (t + latency)
  else MkReply (MkStatus UNIMPLEMENTED "") [] [] (t + latency).

Definition bench_config (endpoint : string) : Config :=
  MkConfig "bench" endpoint "tinvest-cpp" false "" None default_retry None.

Definition kWarmup : nat := 200.
Definition kIters : nat := 3000.

Section BenchRpc.
Context `{Wake} (endpoint : string) (latency : Z) (sleep : Z -> Z -> Z).

Definition bench_call (t : Z) (l : RateLimiter) :=
  call_sync (Msg := ids_msg) (bench_config endpoint) (BenchUsers latency) sleep UsersService
    get_accounts [] default_options t l.

(** [n] calls, ignoring their results. *)
Fixpoint warm_up (n : nat) (t : Z) (l : RateLimiter) : outcome (option (Z * RateLimiter)) :=
  match n with
  | O => mret (Some (t, l))
  | S n' =>
      o ← bench_call t l;
      match o with Some (_, w) => warm_up n' (now w) (limiter w) | None => mret None end
  end.

(** [n] calls, with the time that each took; [inr] is [std::abort]. *)
Fixpoint measure (n : nat) (t : Z) (l : RateLimiter)
    : outcome (option (list Z * RateLimiter + unit)) :=
  match n with
  | O => mret (Some (inl ([], l)))
  | S n' =>
      o ← bench_call t l;
      match o with
      | None => mret None
      | Some (ResultError _, _) => mret (Some (inr ()))
      | Some (ResultValue _, w) =>
          more ← measure n' (now w) (limiter w);
          mret (match more with
                | Some (inl (us, l')) => Some (inl (now w - t :: us, l'))
                | other => other
                end)
      end
  end.

Definition bench_sync (t : Z) (l : RateLimiter) : outcome (option (list Z * RateLimiter + unit)) :=
  o ← warm_up kWarmup t l;
  match o with Some (t, l) => measure kIters t l | None => mret None end.

Lemma bench_call_ok t l :
  by_method_ l !! kMethod UsersService get_accounts = None ->
  exists rep, bench_call t l
    = Val (Some (ResultValue ["bench"%string], MkWorld (t + latency) l [rep] [])).
Proof.
  intros E. unfold bench_call, call_sync, unary_sync.
  change (Z.to_nat (attempts_allowed (bench_config endpoint))) with 3%nat.
  cbn [sync_loop limiter now]. rewrite (unlisted_acquire _ _ _ E). cbn [mbind outcome_bind].
  unfold stub_call, BenchUsers. rewrite bool_decide_true by done.
  cbn [status status_ok error_code]. eexists. reflexivity.
Qed.

Lemma warm_up_ok n t l :
  by_method_ l !! kMethod UsersService get_accounts = None ->
  warm_up n t l = Val (Some (t + Z.of_nat n * latency, l)).
Proof.
  intros E. revert t. induction n as [|n IH]; intros t; cbn [warm_up].
  - do 3 f_equal. lia.
  - destruct (bench_call_ok t l E) as (rep & ->). cbn [mbind outcome_bind now limiter].
    rewrite IH. do 3 f_equal. lia.
Qed.

Lemma measure_ok n t l :
  by_method_ l !! kMethod UsersService get_accounts = None ->
  measure n t l = Val (Some (inl (replicate n latency, l))).
Proof.
  intros E. revert t. induction n as [|n IH]; intros t; cbn [measure]; [done|].
  destruct (bench_call_ok t l E) as (rep & ->). cbn [mbind outcome_bind now limiter].
  rewrite IH. cbn. do 4 f_equal. by replace (t + latency - t) with latency by lia.
Qed.

(** With a limiter that was not configured the benchmark never aborts and takes
    exactly [kIters] measurements, one request each. *)
Theorem bench_sync_measures t l :
  by_method_ l = ∅ -> bench_sync t l = Val (Some (inl (replicate kIters latency, l))).
Proof.
  intros E. unfold bench_sync. rewrite warm_up_ok by by rewrite E.
  cbn [mbind outcome_bind]. apply measure_ok. by rewrite E.
Qed.
End BenchRpc.

Lemma length_merge_sort_perm (us : list binary64) :
  length (merge_sort not_above us) = length us.
Proof. apply Permutation_length, merge_sort_Permutation. Qed.

(** The three percentiles of its measurements are defined, and are among them. *)
Theorem bench_percentiles_defined (us : list binary64) (p : Z) :
  length us = kIters -> p ∈ [50; 90; 99] ->
  exists x, percentile us (of_int p) = Val x /\ x ∈ us.
Proof.
  intros Hl Hp.
  assert (Hidx : exists i, to_int64 ((of_int p : binary64) / of_int 100 * of_int 2999)%num = Val i
                           /\ 0 <= i < 3000).
  { apply list_elem_of_In in Hp. destruct Hp as [<-|[<-|[<-|[]]]];
      [exists 1499|exists 2699|exists 2969]; (split; [vm_compute; reflexivity|lia]). }
  destruct Hidx as (i & Ei & Hr).
  assert (E : exists x, percentile us (of_int p) = Val x).
  { unfold percentile. rewrite length_merge_sort_perm, Hl.
    change (Z.of_nat kIters - 1) with 2999. rewrite Ei. cbn [mbind outcome_bind].
    destruct (lookup_lt_is_Some_2 (merge_sort not_above us) (Z.to_nat i)) as [x Hx].
    { rewrite length_merge_sort_perm, Hl. unfold kIters. lia. }
    rewrite Hx. destruct (Z.leb_spec 0 i); [by eexists|lia]. }
  destruct E as (x & E). exists x. split; [done|]. by eapply percentile_elem.
Qed.

(** The exit code of the soak test. *)
Definition soak_exit (sync_err candles reconnects churn_cycles : Z) : Z :=
  if (sync_err =? 0) && (0 <? candles) && (0 <? reconnects) && (0 <? churn_cycles)
  then 0 else 2.

#[local] Instance on_time : Wake :=
  {| wake := fun _ d => d; wake_late := fun _ d => Z.le_refl d |}.

Lemma soak_hammer_counts_witness :
  hammer "localhost" 3 (fun t d => t + d) 1 (MkHammer 1000 (rate_limiter 60000) 0 0 0)
  = Val (Some (MkHammer 1006 (rate_limiter 60000) 2 0 2)).
Proof.
  exact (soak_hammer_counts "localhost" 3 (fun t d => t + d) 1
    (MkHammer 1000 (rate_limiter 60000) 0 0 0) eq_refl ltac:(discriminate) ltac:(discriminate)).
Defined.
