(* ===== verification/LoadStreams.v ===== *)
(** * The streams and the backtest of the load generators
    ([bench/bench.cpp], [bench/soak.cpp])

    [bench_backtest] over the bars of a sine wave, [bench_stream] and the persistent
    and short-lived streams of the soak test, on the stream of MarketDataStream.v
    with the handlers of the programs. *)

From S2P Require Import Prelude StdStrings ErrorResult FixedDecimal Numeric Client RateLimiter Unary Services.
From S2P Require Import StreamCommon MarketData MarketDataStream StreamInvariant StreamHistory StreamStopping.
From S2P Require Import StreamTheorems StreamCallbacks Indicators Strategies StrategyTheorems.
From S2P Require Import Backtest BacktestTheorems BacktestExample LoadServers.
From stdpp Require Import base numbers list strings.
From Stdlib Require Import ZArith Lia.

#[local] Open Scope Z_scope.

(** ** [bench_backtest] *)

Section BenchBacktest.
Context {F : Type} `{Numeric F}.
(** [std::sin]. *)
Context (sin : F -> F).

Definition sine_bar (i : nat) : Bar F :=
  let base := (of_int 100 + of_int 10 * sin (of_int (Z.of_nat i) / of_int 50))%num in
  MkBar (Z.of_nat i) base (base + of_int 1)%num (base - of_int 1)%num
    (base + of_int 2 / of_int 10)%num (of_int 0).

Definition bench_backtest_of (n : nat) : outcome (BacktestReport F) :=
  report_of (sma_cross 20 50) (sine_bar <$> seq 0 n).

Definition kBars : Z := 1000000.
Definition bench_backtest : outcome (BacktestReport F) := bench_backtest_of (Z.to_nat kBars).

Lemma bench_backtest_good n :
  2 <= Z.of_nat n < wmax W32 ->
  exists r, bench_backtest_of n = Val r /\ GoodReport n "SMA cross 20/50" r.
Proof.
  intros Hn. unfold bench_backtest_of.
  assert (Hl : length (sine_bar <$> seq 0 n) = n) by by rewrite length_fmap, length_seq.
  destruct (run_defined sma_cross_on_bar (sma_cross 20 50) (sine_bar <$> seq 0 n))
    as (acts & s' & E); [done|].
  destruct (report_good (sma_cross 20 50) (sine_bar <$> seq 0 n) acts s') as (r & Er & Hr);
    [lia|lia|done|]. rewrite Hl in Hr. by exists r.
Qed.

(** The benchmark is defined whatever [std::sin] returns, on a million bars. *)
Theorem bench_backtest_reports :
  exists r, bench_backtest = Val r /\ bars r = kBars
    /\ trades r = Z.of_nat (length (trade_log r)).
Proof.
  destruct (bench_backtest_good (Z.to_nat kBars)) as (r & E & (_ & Hb & Ht & _)).
  { rewrite Z2Nat.id by done. by split. }
  exists r. rewrite Z2Nat.id in Hb by done. by split_and!.
Qed.
End BenchBacktest.

(** ** [bench_stream] *)

Definition bench_stream_opts : StreamOptions := MkStreamOptions 100 30000 false.

Definition bench_stream_calls : list (@label Response) :=
  [LStart; LSend (subscribe_candles_default ["uid"]) true; LStop].

Section Live.
Context `{GrpcCodes}.

Lemma fold_deliveries {W} (deliver : Response -> W -> W) (w : W) log :
  foldl (callback deliver None) w log
  = fold_left (fun w r => deliver r w) (deliveries log) w.
Proof. revert w. by induction log as [|[s e|r] log IH]; intros w; cbn. Qed.

Lemma take_prefix {A} (l1 l2 l : list A) k : l1 ++ l2 = take k l -> exists j, l1 = take j l.
Proof.
  intros E. exists (length l1).
  rewrite <- (take_app_length l1 l2) at 1. rewrite E, take_take.
  assert (Hle : (length l1 <= k)%nat).
  { pose proof (f_equal length E) as Hl. rewrite length_app, length_take in Hl. lia. }
  by rewrite Nat.min_l.
Qed.

(** The server answers the requests that the stream wrote; gRPC has read a prefix of
    what it wrote.  In every interleaving, [received] is the number of candles
    delivered, at most [messages], and the waiting thread has been notified exactly
    once when all of them were, and not before. *)
Theorem bench_stream_live (messages : nat) (before after : list MarketDataRequest)
    (ids : list string) (open : nat) (trace : list (@label Response)) :
  (0 < messages)%nat -> Z.of_nat messages <= wmax W32 ->
  Forall (fun r => has_subscribe_candles_request r = false) before ->
  Z.of_nat (length trace) <= wmax W32 ->
  (exists k, received bench_stream_opts (init []) trace
     = take k (BenchMarketData messages open
                 (before ++ subscribe_candles_default ids :: after))) ->
  exists s n,
    run (dispatch (bench_handlers (Z.of_nat messages))) None bench_stream_opts
      (init (mret (0, 0))) trace = Val s
    /\ world s = Val (Z.of_nat n, if (messages <=? n)%nat then 1 else 0)
    /\ (n <= messages)%nat.
Proof.
  intros Hpos Hm Hbefore Hl (k & Hk).
  assert (Hb : BackoffRange bench_stream_opts) by (split_and!; vm_compute; discriminate).
  destruct (run_by_log (Resp := Response) (dispatch (bench_handlers (Z.of_nat messages))) None bench_stream_opts
              (mret (0, 0)) trace Hb Hl) as (s & E & Er & Ht).
  destruct (take_prefix _ _ _ _ (eq_trans Ht Hk)) as (j & Hj).
  eexists _, (Nat.min messages (Nat.min j open - 1)). split; [exact Er|]. split; [|lia].
  cbn [world interpret]. unfold interpret_log. rewrite fold_deliveries, Hj.
  assert (Ej : take j (BenchMarketData messages open
                 (before ++ subscribe_candles_default ids :: after))
    = BenchMarketData messages (Nat.min j open)
        (before ++ subscribe_candles_default ids :: after)).
  { unfold BenchMarketData. clear -Hbefore. induction Hbefore as [|r l Hr Hl IH]; cbn.
    - by rewrite take_take.
    - by rewrite Hr. }
  rewrite Ej.
  pose proof (bench_stream_counts messages before after ids (Nat.min j open) Hpos Hm Hbefore) as Hv.
  etrans; [exact Hv|]. do 2 f_equal.
  destruct (Nat.ltb_spec messages (Nat.min j open)),
    (Nat.leb_spec messages (Nat.min messages (Nat.min j open - 1))); done || lia.
Qed.
End Live.

(** ** The streams of the soak test *)

Section Soak.
Context `{GrpcCodes}.

Definition fast_retry : StreamOptions := MkStreamOptions 20 30000 true.

(** The two atomic counters of the persistent stream. *)
Record SoakCounters := MkCounters { candles : Z; reconnects : Z }.

Definition soak_handlers
    : @MarketDataHandlers Candle () () () () () () () () () () () SoakCounters :=
  MkHandlers (Some (fun _ w => MkCounters (wrap W64 (candles w + 1)) (reconnects w)))
    None None None None None None None.

Definition soak_on_state (s : StreamState) (_ : option Error) (w : SoakCounters)
    : SoakCounters :=
  if bool_decide (s = disconnected)
  then MkCounters (candles w) (wrap W64 (reconnects w + 1)) else w.

Definition persistent_calls : list (@label Response) :=
  [LStart; LSend (subscribe_candles_default ["uid"]) true; LStop].

(** One stream of the churn thread: [start], [subscribe_last_prices], [stop], and the
    [stop] of the destructor. *)
Definition churn_calls : list (@label Response) :=
  [LStart; LSend (subscribe_last_prices ["uid"]) true; LStop; LStop].

Definition is_disconnect (e : event Response) : bool :=
  match e with Notified disconnected _ => true | _ => false end.
Definition is_candle_event (e : event Response) : bool :=
  match e with Delivered (kCandle _) => true | _ => false end.
Definition count_events (p : event Response -> bool) (log : list (event Response)) : Z :=
  Z.of_nat (length (filter (fun e => p e = true) log)).

Lemma count_events_snoc p log e :
  count_events p (log ++ [e]) = count_events p log + if p e then 1 else 0.
Proof.
  unfold count_events. rewrite filter_app, length_app, filter_cons, filter_nil.
  destruct (p e); [rewrite decide_True by done|rewrite decide_False by done]; cbn; lia.
Qed.

Lemma wrap_step n : wrap W64 (wrap W64 n + 1) = wrap W64 (n + 1).
Proof.
  unfold wrap. pose proof (wcard_pos W64).
  replace ((n - wmin W64) mod wcard W64 + wmin W64 + 1 - wmin W64)
    with ((n - wmin W64) mod wcard W64 + 1) by lia.
  rewrite Zplus_mod_idemp_l. f_equal. f_equal. lia.
Qed.

Lemma counters_of_log log :
  foldl (callback (dispatch soak_handlers) (Some soak_on_state)) (MkCounters 0 0) log
  = MkCounters (wrap W64 (count_events is_candle_event log))
      (wrap W64 (count_events is_disconnect log)).
Proof.
  induction log as [|e log IH] using rev_ind; [done|].
  rewrite foldl_app, IH. cbn [foldl]. rewrite !count_events_snoc.
  destruct e as [[] err|[]]; cbn [callback is_candle_event is_disconnect];
    rewrite ?Z.add_0_r; try done.
  - unfold notify, soak_on_state. cbn. by rewrite wrap_step.
  - cbn. by rewrite wrap_step.
Qed.

(** The counters of the persistent stream in every interleaving: the candles delivered
    and the disconnections reported, whatever the server drops; the messages
    delivered are those read, up to the one being delivered. *)
Theorem soak_stream_counts (trace : list (@label Response)) :
  Z.of_nat (length trace) <= wmax W32 ->
  exists s log p,
    run (dispatch soak_handlers) (Some soak_on_state) fast_retry (init (MkCounters 0 0)) trace
      = Val s
    /\ follows log = Some p
    /\ world s = MkCounters (wrap W64 (count_events is_candle_event log))
                   (wrap W64 (count_events is_disconnect log))
    /\ deliveries log ++ in_reader (reader s) = received fast_retry (init []) trace.
Proof.
  intros Hl. assert (Hb : BackoffRange fast_retry) by (split_and!; vm_compute; discriminate).
  destruct (run_by_log (Resp := Response) (dispatch soak_handlers) (Some soak_on_state)
              fast_retry (MkCounters 0 0) trace Hb Hl) as (s & E & Er & Ht).
  destruct (run_log fast_retry trace (init []) s) as (p & Hf & _); try done.
  { by exists Idle. }
  eexists _, (world s), p. split; [exact Er|]. split; [done|]. split; [|exact Ht].
  cbn [world interpret]. apply counters_of_log.
Qed.

(** ** A cycle of the churn thread *)

Lemma first_call (trace : list (@label Response)) c rest :
  filter (fun l => is_call l = true) trace = c :: rest ->
  exists before after, trace = before ++ c :: after
    /\ filter (fun l => is_call l = true) after = rest.
Proof.
  induction trace as [|l trace IH]; [done|]. rewrite filter_cons.
  destruct (is_call l) eqn:El; [rewrite decide_True by done|rewrite decide_False by done].
  - intros [= -> Hr]. by exists [], trace.
  - intros Hf. destruct (IH Hf) as (before & after & -> & Hr). by exists (l :: before), after.
Qed.

Lemma no_start_after (trace : list (@label Response)) :
  filter (fun l => is_call l = true) trace = [LStop] ->
  Forall (fun l => is_start l = false) trace.
Proof.
  intros Hf. apply Forall_forall. intros l Hin. destruct (is_start l) eqn:E; [|done].
  exfalso. assert (Hl : l ∈ filter (fun l => is_call l = true) trace)
    by (apply list_elem_of_filter; by destruct l).
  rewrite Hf in Hl. apply list_elem_of_singleton in Hl. by subst.
Qed.

Context `{Wake} (endpoint : string) (latency : Z) (sleep : Z -> Z -> Z).

(** [(void)tmp.users().get_accounts(); ++churn_cycles] with a fresh client. *)
Definition churn_rpc (t cycles : Z) : outcome (option (Z * Z)) :=
  o ← soak_call endpoint latency sleep LoadServers.get_accounts
        (MkHammer t (rate_limiter 60000) 0 0 0);
  mret (match o with
        | Some (_, w) => Some (now w, wrap W64 (cycles + 1))
        | None => None
        end).

(** Every cycle cleans up and counts.  In every interleaving of the calls of the churn
    thread with the worker and gRPC, once the destructor's [stop] has returned the
    stream object has no thread, call or callback left, so its memory can be freed;
    and the blocking call that follows returns and the cycle is counted. *)
Theorem churn_cycle_clean {W} (deliver : Response -> W -> W) (w : W)
    (trace : list (@label Response)) s (t cycles : Z) :
  Z.of_nat (length trace) <= wmax W32 ->
  filter (fun l => is_call l = true) trace = churn_calls ->
  run deliver None fast_retry (init w) trace = Val s -> owner s = OwnerIdle ->
  Quiet s
  /\ (forall l, is_owner l = false -> is_send l = false ->
       step deliver None fast_retry l s = Val None)
  /\ churn_rpc t cycles = Val (Some (t + latency, wrap W64 (cycles + 1))).
Proof.
  intros Hl Hf E Ho. assert (Hb : BackoffRange fast_retry) by (split_and!; vm_compute; discriminate).
  destruct (first_call _ _ _ Hf) as (b1 & r1 & -> & Hf1).
  destruct (first_call _ _ _ Hf1) as (b2 & r2 & -> & Hf2).
  destruct (first_call _ _ _ Hf2) as (b3 & r3 & -> & Hf3).
  replace (b1 ++ LStart :: b2 ++ LSend (subscribe_last_prices ["uid"]) true :: b3 ++ LStop :: r3)
    with ((b1 ++ LStart :: b2 ++ LSend (subscribe_last_prices ["uid"]) true :: b3) ++ LStop :: r3)
    in * by (rewrite <- !app_assoc; cbn; by rewrite <- app_assoc).
  destruct (stopped_quiet deliver None fast_retry w _ r3 s Hb Hl E Ho) as (Hq & _);
    [by apply no_start_after|].
  split; [done|]. split; [intros l; by apply quiet_disabled|].
  unfold churn_rpc.
  destruct (soak_accounts endpoint latency sleep (MkHammer t (rate_limiter 60000) 0 0 0))
    as (rep & Erep); [done|]. by rewrite Erep.
Qed.
End Soak.

(** ** Concrete runs *)

Definition churn_trace : list (@label Response) :=
  take 2 churn_calls ++ replicate 5 LWorker
  ++ [LStop; LOwner; LReadDone None; LReader; LReader; LWriteDone false; LWriter; LWriter;
      LDone (MkStatus 1 "")] ++ replicate 3 LWorker ++ [LOwner; LStop; LOwner; LOwner].

#[local] Instance soak_wake : Wake :=
  {| wake := fun _ d => d; wake_late := fun _ d => Z.le_refl d |}.

Lemma churn_cycle_clean_witness :
  exists s, run (fun _ w => w) None fast_retry (init tt) churn_trace = Val s
  /\ Quiet s /\ (forall l, is_owner l = false -> is_send l = false ->
       step (fun _ w => w) None fast_retry l s = Val None)
  /\ churn_rpc "localhost" 3 (fun t d => t + d) 1000 7 = Val (Some (1003, 8)).
Proof.
  eexists. split; [vm_compute; reflexivity|].
  refine (churn_cycle_clean "localhost" 3 (fun t d => t + d) (fun _ w => w) tt churn_trace _ 1000 7
            _ _ _ _).
  - vm_compute. discriminate.
  - vm_compute. reflexivity.
  - vm_compute. reflexivity.
  - reflexivity.
Defined.

Definition soak_trace : list (@label Response) :=
  take 2 persistent_calls ++ replicate 5 LWorker
  ++ [LReadDone (Some (soak_candle 0)); LReader; LReader; LReader; LReadDone None; LReader;
      LReader; LWriteDone true; LWriter; LDone (MkStatus 0 "")] ++ replicate 10 LWorker.

Lemma soak_stream_counts_witness :
  exists s, run (dispatch soak_handlers) (Some soak_on_state) fast_retry
      (init (MkCounters 0 0)) soak_trace = Val s
    /\ exists log, world s = MkCounters (wrap W64 (count_events is_candle_event log))
                               (wrap W64 (count_events is_disconnect log)).
Proof.
  destruct (soak_stream_counts soak_trace) as (s & log & p & E & _ & Hw & _).
  - vm_compute. discriminate.
  - exists s. split; [exact E|]. exists log. exact Hw.
Defined.

Definition bench_trace : list (@label Response) :=
  take 2 bench_stream_calls ++ replicate 5 LWorker
  ++ [LReadDone (Some ack); LReader; LReader; LReader;
      LReadDone (Some (bench_candle 0)); LReader; LReader; LReader;
      LReadDone (Some (bench_candle 1)); LReader; LReader; LReader].

Lemma bench_stream_live_witness :
  exists s n, run (dispatch (bench_handlers 2)) None bench_stream_opts
      (init (mret (0, 0))) bench_trace = Val s
    /\ world s = Val (Z.of_nat n, if (2 <=? n)%nat then 1 else 0) /\ (n <= 2)%nat.
Proof.
  apply (bench_stream_live 2 [] [] ["uid"%string] 10 bench_trace).
  - lia.
  - vm_compute. discriminate.
  - by apply Forall_nil.
  - vm_compute. discriminate.
  - exists 3%nat. vm_compute. reflexivity.
Defined.
