(* ===== verification/LoadReports.v ===== *)
(** * What the load generators print ([bench/bench.cpp], [bench/soak.cpp])

    The two [main] functions over what the other Load files compute: the lines of the
    benchmark with its checksum, percentiles and rates, and those of the soak test with
    its memory readings and exit code.  Times and memory are inputs: the seconds that
    the clock measured and the lines of [/proc/self/status]. *)

From S2P Require Import Prelude StdStrings FixedDecimal DecimalText PrintedText ErrorResult.
From S2P Require Import Numeric DecimalDouble PrintfDouble Strategies Backtest BacktestExample.
From S2P Require Import LoadServers LoadStreams.
From stdpp Require Import base numbers list strings.
From Stdlib Require Import ZArith Lia Ascii.

#[local] Open Scope Z_scope.

(** ** The benchmark *)

(** What [seconds_since] returned in each part; [us] are the calls in microseconds. *)
Record Clocks := MkClocks {
  add_s : binary64; mul_s : binary64; backtest_s : binary64;
  us : list binary64; async_s : binary64; stream_s : binary64 }.

Definition kTotal : Z := 50000.
Definition kWindow : Z := 256.
Definition kStreamMessages : Z := 200000.

Section Bench.
Context (sin : binary64 -> binary64).

(** [seconds / kN * 1e9] *)
Definition ns_per_op (seconds : binary64) : binary64 :=
  (seconds / of_int kN * of_int 1000000000)%num.

Definition decimal_line (c : Clocks) (checksum : string) : string :=
  "Decimal        add " +:+ printf_fixed 1 (ns_per_op (add_s c)) +:+ " ns/op, mul "
    +:+ printf_fixed 1 (ns_per_op (mul_s c)) +:+ " ns/op  (checksum " +:+ c_str checksum +:+ ")".

Definition backtest_line (c : Clocks) (r : BacktestReport binary64) : string :=
  "Backtest       "
    +:+ printf_fixed 1 (of_int kBars / backtest_s c / of_int 1000000)%num
    +:+ " M bars/s (SmaCross, " +:+ int_to_string (trades r) +:+ " trades)".

Definition sync_line (c : Clocks) : outcome string :=
  p50 ← percentile (us c) (of_int 50);
  p90 ← percentile (us c) (of_int 90);
  p99 ← percentile (us c) (of_int 99);
  mret ("Unary sync     p50 " +:+ printf_fixed 0 p50 +:+ " us, p90 " +:+ printf_fixed 0 p90
        +:+ " us, p99 " +:+ printf_fixed 0 p99 +:+ " us (loopback)").

Definition async_line (c : Clocks) (failed : Z) : string :=
  "Unary async    " +:+ printf_fixed 0 (of_int kTotal / async_s c)%num
    +:+ " req/s (window " +:+ int_to_string kWindow +:+ ", failures "
    +:+ int_to_string failed +:+ ")".

Definition messages_line (c : Clocks) (messages : Z) : string :=
  "Stream         " +:+ printf_fixed 0 (of_int messages / stream_s c / of_int 1000)%num
    +:+ " k msg/s (" +:+ int_to_string messages +:+ " candles, loopback)".

(** [main]: the exit code and the lines; [failed] is the counter of the window. *)
Definition bench_main (c : Clocks) (failed : Z) : outcome (Z * list string) :=
  checksum ← bench_decimal;
  report ← bench_backtest sin;
  sync ← sync_line c;
  mret (0, [decimal_line c checksum; backtest_line c report; sync; async_line c failed;
            messages_line c kStreamMessages]).

(** The benchmark runs to its end and prints five lines, whatever the clock says and
    whatever [std::sin] returns: the checksum of ten million additions and
    multiplications is 123456, the three percentiles are among the measured times, and
    each rate is shown by the nearest number of its digits. *)
Theorem bench_main_prints (c : Clocks) (failed : Z) :
  length (us c) = kIters ->
  exists (report : BacktestReport binary64) p50 p90 p99 add mul bars t50 t90 t99 rate msgs,
    bench_main c failed = Val (0, [
      "Decimal        add " +:+ add +:+ " ns/op, mul " +:+ mul
        +:+ " ns/op  (checksum " +:+ "123456" +:+ ")";
      "Backtest       " +:+ bars +:+ " M bars/s (SmaCross, "
        +:+ int_to_string (trades report) +:+ " trades)";
      "Unary sync     p50 " +:+ t50 +:+ " us, p90 " +:+ t90 +:+ " us, p99 " +:+ t99
        +:+ " us (loopback)";
      "Unary async    " +:+ rate +:+ " req/s (window " +:+ int_to_string kWindow
        +:+ ", failures " +:+ int_to_string failed +:+ ")";
      "Stream         " +:+ msgs +:+ " k msg/s (" +:+ int_to_string kStreamMessages
        +:+ " candles, loopback)"]%string)
    /\ GoodReport (Z.to_nat kBars) "SMA cross 20/50" report
    /\ p50 ∈ us c /\ p90 ∈ us c /\ p99 ∈ us c
    /\ PrintsAs 1 (ns_per_op (add_s c)) add /\ PrintsAs 1 (ns_per_op (mul_s c)) mul
    /\ PrintsAs 1 (of_int kBars / backtest_s c / of_int 1000000)%num bars
    /\ PrintsAs 0 p50 t50 /\ PrintsAs 0 p90 t90 /\ PrintsAs 0 p99 t99
    /\ PrintsAs 0 (of_int kTotal / async_s c)%num rate
    /\ PrintsAs 0 (of_int kStreamMessages / stream_s c / of_int 1000)%num msgs.
Proof.
  intros Hl. unfold bench_main, sync_line.
  destruct (bench_backtest_good sin (Z.to_nat kBars)) as (report & Er & Hr).
  { rewrite Z2Nat.id by done. by split. }
  unfold bench_backtest. rewrite bench_decimal_checksum, Er. cbn [mbind outcome_bind].
  destruct (bench_percentiles_defined (us c) 50 Hl) as (p50 & E50 & H50); [by left|].
  destruct (bench_percentiles_defined (us c) 90 Hl) as (p90 & E90 & H90); [by right; left|].
  destruct (bench_percentiles_defined (us c) 99 Hl) as (p99 & E99 & H99); [by right; right; left|].
  rewrite E50, E90, E99. cbn [mbind outcome_bind].
  exists report, p50, p90, p99.
  exists (printf_fixed 1 (ns_per_op (add_s c))), (printf_fixed 1 (ns_per_op (mul_s c))).
  exists (printf_fixed 1 (of_int kBars / backtest_s c / of_int 1000000)%num).
  exists (printf_fixed 0 p50), (printf_fixed 0 p90), (printf_fixed 0 p99).
  exists (printf_fixed 0 (of_int kTotal / async_s c)%num).
  exists (printf_fixed 0 (of_int kStreamMessages / stream_s c / of_int 1000)%num).
  split.
  { unfold decimal_line, backtest_line, async_line, messages_line.
    replace (c_str "123456") with "123456"%string by (vm_compute; reflexivity).
    exact eq_refl. }
  split; [exact Hr|]. split; [exact H50|]. split; [exact H90|]. split; [exact H99|].
  repeat (split; [apply printf_fixed_prints|]). apply printf_fixed_prints.
Qed.
End Bench.

(** ** The soak test *)

(** [rss_kb]: the lines of the file, or none when it cannot be read. *)
Fixpoint rss_kb (status : list string) : outcome Z :=
  match status with
  | [] => mret (-1)
  | line :: rest =>
      if String.prefix "VmRSS:" line
      then atol (drop 6 (String.list_ascii_of_string line))
      else rss_kb rest
  end.

Lemma rss_kb_reads before sp D rest after :
  Forall (fun l => String.prefix "VmRSS:" l = false) before ->
  Forall (fun c => is_space c = true) sp -> Digits D -> D <> [] ->
  match rest with [] => True | c :: _ => is_digit c = false end ->
  digits_value 0 D <= wmax W64 ->
  rss_kb (before ++ ("VmRSS:" +:+ String.string_of_list_ascii (sp ++ D ++ rest)) :: after)
  = Val (digits_value 0 D).
Proof.
  intros Hb Hsp HD Hne Hr Hmax. induction Hb as [|l before Hl Hb IH]; cbn [rss_kb app].
  - set (text := String.string_of_list_ascii (sp ++ D ++ rest)).
    assert (Hp : String.prefix "VmRSS:" ("VmRSS:" +:+ text) = true) by by destruct text.
    rewrite Hp.
    change (drop 6 (String.list_ascii_of_string ("VmRSS:" +:+ text)))
      with (String.list_ascii_of_string text).
    unfold text. rewrite String.list_ascii_of_string_of_list_ascii. by apply ato_number.
  - by rewrite Hl.
Qed.

Example rss_kb_examples :
  rss_kb ["Name:	soak"; "VmRSS:	   18432 kB"; "VmData: 9 kB"]%string = Val 18432
  /\ rss_kb [] = Val (-1).
Proof. split; vm_compute; reflexivity. Qed.

(** The counters, as the main thread loads them. *)
Record Load := MkLoad {
  l_sync_ok : Z; l_sync_err : Z; l_async : Z; l_candles : Z; l_reconnects : Z; l_churn : Z }.

(** One turn of the loop: the nanoseconds since [t0] when it is entered, and after the
    sleep the memory, the seconds and the counters. *)
Record Turn := MkTurn {
  elapsed : Z; t_rss : list string; t_seconds : binary64; t_load : Load }.

Definition long_text (n : Z) : string := int_to_string n.

(** [%+ld] *)
Definition plus_text (n : Z) : string := if 0 <=? n then "+" +:+ long_text n else long_text n.

Definition load_text (l : Load) : string :=
  "sync_ok=" +:+ long_text (l_sync_ok l) +:+ " sync_err=" +:+ long_text (l_sync_err l)
    +:+ " async=" +:+ long_text (l_async l) +:+ " candles=" +:+ long_text (l_candles l)
    +:+ " reconnects=" +:+ long_text (l_reconnects l) +:+ " churn=" +:+ long_text (l_churn l).

Definition progress_line (t : Turn) (rss : Z) : string :=
  "  t=" +:+ pad_left 3 (printf_fixed 0 (t_seconds t)) +:+ "s rss="
    +:+ pad_left 6 (long_text rss) +:+ " KB " +:+ load_text (t_load t).

(** [while (now() - t0 < seconds)]: the lines and [rss_mid_max]; [None] when the turns
    end before the time is over. *)
Fixpoint soak_loop (seconds : Z) (turns : list Turn) (peak : Z)
    : outcome (option (list string * Z)) :=
  match turns with
  | [] => mret None
  | t :: rest =>
      if elapsed t <? seconds * 1000000000 then
        rss ← rss_kb (t_rss t);
        o ← soak_loop seconds rest (Z.max peak rss);
        mret (match o with
              | Some (lines, peak) => Some (progress_line t rss :: lines, peak)
              | None => None
              end)
      else mret (Some ([], peak))
  end.

(** [main]: [port] is what the server listens on, 0 when it did not start; [start] and
    [finish] are the two readings of the memory, [final] and [connections] the counters
    after all the threads have been joined. *)
Definition soak_main (args : list string) (port : Z) (start finish : list string)
    (turns : list Turn) (final : Load) (connections : Z)
    : outcome (option (Z * list printed_line)) :=
  seconds ← match args with
            | a :: _ => atoi (String.list_ascii_of_string a) | [] => mret 60 end;
  if port =? 0 then mret (Some (1, [Err "failed to start mock server"])) else
  rss_start ← rss_kb start;
  o ← soak_loop seconds turns 0;
  match o with
  | None => mret None
  | Some (lines, peak) =>
      rss_end ← rss_kb finish;
      delta ← checked W64 (rss_end - rss_start);
      mret (Some (soak_exit (l_sync_err final) (l_candles final) (l_reconnects final)
                    (l_churn final),
        Out ("soak: " +:+ int_to_string seconds +:+ " s, endpoint 127.0.0.1:"
             +:+ int_to_string port +:+ ", start RSS " +:+ long_text rss_start +:+ " KB")
        :: (Out <$> lines)
        ++ [Out ("soak done: " +:+ load_text final +:+ " server_conns="
                 +:+ long_text connections);
            Out ("RSS: start " +:+ long_text rss_start +:+ " KB, peak " +:+ long_text peak
                 +:+ " KB, end " +:+ long_text rss_end +:+ " KB (delta "
                 +:+ plus_text delta +:+ " KB)")]))
  end.

(** Every turn sleeps for five seconds. *)
Fixpoint Spaced (from : Z) (turns : list Turn) : Prop :=
  match turns with
  | [] => True
  | t :: rest => from <= elapsed t /\ Spaced (elapsed t + 5000000000) rest
  end.

(** The readings of the turns that the loop enters. *)
Fixpoint readings (seconds : Z) (turns : list Turn) : list (list string) :=
  match turns with
  | t :: rest => if elapsed t <? seconds * 1000000000
                 then t_rss t :: readings seconds rest else []
  | [] => []
  end.

Lemma soak_loop_lines seconds turns peak lines peak' :
  soak_loop seconds turns peak = Val (Some (lines, peak')) ->
  exists rss, Forall2 (fun status r => rss_kb status = Val r) (readings seconds turns) rss
    /\ length lines = length rss /\ peak' = fold_left Z.max rss peak.
Proof.
  revert peak lines. induction turns as [|t rest IH]; intros peak lines E; cbn in E; [done|].
  cbn [readings]. destruct (elapsed t <? _).
  - destruct (rss_kb (t_rss t)) as [r|] eqn:Er; [|done]. cbn in E.
    destruct (soak_loop seconds rest _) as [[[ls p]|]|] eqn:Es; try done.
    injection E as <- <-. destruct (IH _ _ Es) as (rss & H1 & H2 & H3).
    exists (r :: rss). split_and!; [by constructor|by cbn; rewrite H2|done].
  - injection E as <- <-. exists []. split_and!; [constructor|done|done].
Qed.

Lemma readings_bounded seconds turns from :
  Spaced from turns ->
  readings seconds turns <> [] ->
  from + 5000000000 * (Z.of_nat (length (readings seconds turns)) - 1) < seconds * 1000000000.
Proof.
  revert from. induction turns as [|t rest IH]; intros from Hs Hne; [done|].
  cbn [readings] in *. destruct Hs as [Hf Hs].
  destruct (Z.ltb_spec (elapsed t) (seconds * 1000000000)) as [Hlt|]; [|done].
  cbn [length]. destruct (readings seconds rest) as [|x l] eqn:Er; [cbn; lia|].
  specialize (IH _ Hs ltac:(done)). cbn [length] in *. lia.
Qed.

(** The soak test reports what it measured.  If its loop ends and the memory can be
    read, the program prints its parameters, one line for each turn, and the totals;
    the peak is the largest reading of the turns (or 0), there is less than one line
    for every five seconds and another, and it exits with 0 exactly when no blocking
    call failed and there were candles, reconnections and churn cycles. *)
Theorem soak_main_reports (args : list string) (port seconds : Z) (start finish : list string)
    (turns : list Turn) (final : Load) (connections code : Z) (lines : list printed_line) :
  match args with
  | a :: _ => atoi (String.list_ascii_of_string a) | [] => mret 60 end = Val seconds ->
  port <> 0 -> Spaced 0 turns ->
  soak_main args port start finish turns final connections = Val (Some (code, lines)) ->
  exists first progress done_line rss rss_start rss_end,
    lines = first :: progress ++ [done_line;
      Out ("RSS: start " +:+ long_text rss_start +:+ " KB, peak "
           +:+ long_text (fold_left Z.max rss 0) +:+ " KB, end " +:+ long_text rss_end
           +:+ " KB (delta " +:+ plus_text (rss_end - rss_start) +:+ " KB)")]
    /\ rss_kb start = Val rss_start /\ rss_kb finish = Val rss_end
    /\ Forall2 (fun status r => rss_kb status = Val r) (readings seconds turns) rss
    /\ length progress = length rss
    /\ (0 < Z.of_nat (length progress) -> 5 * Z.of_nat (length progress) < seconds + 5)
    /\ (code = 0 <-> l_sync_err final = 0 /\ 0 < l_candles final
                     /\ 0 < l_reconnects final /\ 0 < l_churn final).
Proof.
  intros Hargs Hport Hsp E. unfold soak_main in E. rewrite Hargs in E.
  cbn [mbind outcome_bind] in E. destruct (Z.eqb_spec port 0); [done|].
  destruct (rss_kb start) as [rss_start|] eqn:Es; [|done]. cbn [mbind outcome_bind] in E.
  destruct (soak_loop seconds turns 0) as [[[ls peak]|]|] eqn:El; try done.
  cbn [mbind outcome_bind] in E.
  destruct (rss_kb finish) as [rss_end|] eqn:Ef; [|done]. cbn [mbind outcome_bind] in E.
  destruct (checked W64 (rss_end - rss_start)) as [delta|] eqn:Ed; [|done].
  cbn [mbind outcome_bind] in E. injection E as <- <-.
  apply checked_inv in Ed as [-> _].
  destruct (soak_loop_lines _ _ _ _ _ El) as (rss & H1 & H2 & ->).
  eexists _, (Out <$> ls), _, rss, rss_start, rss_end. split; [reflexivity|].
  rewrite length_fmap. split_and!; try done.
  - intros Hpos. pose proof (Forall2_length _ _ _ H1) as Hlen.
    pose proof (readings_bounded seconds turns 0 Hsp) as Hb.
    rewrite Hlen, <- H2 in Hb.
    destruct (readings seconds turns); [cbn in Hlen; lia|]. specialize (Hb ltac:(done)). lia.
  - unfold soak_exit. destruct (Z.eqb_spec (l_sync_err final) 0); cbn; [|split; lia].
    destruct (Z.ltb_spec 0 (l_candles final)); cbn; [|split; lia].
    destruct (Z.ltb_spec 0 (l_reconnects final)); cbn; [|split; lia].
    destruct (Z.ltb_spec 0 (l_churn final)); split; lia.
Qed.

(** Two turns of a ten-second test. *)
Definition sample_status (kb : string) : list string := [("VmRSS: " +:+ kb +:+ " kB")%string].
Definition sample_turns : list Turn :=
  [MkTurn 0 (sample_status "900") (of_int 5) (MkLoad 10 0 7 3 1 1);
   MkTurn 5000000000 (sample_status "1200") (of_int 10) (MkLoad 20 0 9 5 2 2);
   MkTurn 10000000000 [] (of_int 15) (MkLoad 20 0 9 5 2 2)].

Example soak_main_run :
  soak_main ["10"]%string 4000 (sample_status "1000") (sample_status "950") sample_turns
    (MkLoad 22 0 9 5 2 2) 3
  = Val (Some (0,
     [Out "soak: 10 s, endpoint 127.0.0.1:4000, start RSS 1000 KB";
      Out "  t=  5s rss=   900 KB sync_ok=10 sync_err=0 async=7 candles=3 reconnects=1 churn=1";
      Out "  t= 10s rss=  1200 KB sync_ok=20 sync_err=0 async=9 candles=5 reconnects=2 churn=2";
      Out "soak done: sync_ok=22 sync_err=0 async=9 candles=5 reconnects=2 churn=2 server_conns=3";
      Out "RSS: start 1000 KB, peak 1200 KB, end 950 KB (delta -50 KB)"]%string))
  /\ soak_main [] 0 [] [] [] (MkLoad 0 0 0 0 0 0) 0
     = Val (Some (1, [Err "failed to start mock server"])).
Proof. split; vm_compute; reflexivity. Qed.

Lemma soak_main_reports_witness :
  exists lines rss, soak_main ["10"]%string 4000 (sample_status "1000") (sample_status "950")
      sample_turns (MkLoad 22 0 9 5 2 2) 3 = Val (Some (0, lines))
    /\ Forall2 (fun status r => rss_kb status = Val r) (readings 10 sample_turns) rss.
Proof.
  eexists _. edestruct (soak_main_reports ["10"]%string 4000 10 (sample_status "1000")
    (sample_status "950") sample_turns (MkLoad 22 0 9 5 2 2) 3 0)
    as (first & progress & dl & rss & rs & re & _ & _ & _ & Hf & _).
  - vm_compute. reflexivity.
  - discriminate.
  - cbn. lia.
  - vm_compute. reflexivity.
  - exists rss. split; [vm_compute; reflexivity|exact Hf].
Defined.

Lemma bench_main_prints_witness :
  exists lines, bench_main (fun x => x)
    (MkClocks (of_int 1) (of_int 1) (of_int 1) (replicate kIters (of_int 100)) (of_int 1)
       (of_int 1)) 0 = Val (0, lines).
Proof.
  destruct (bench_main_prints (fun x => x)
    (MkClocks (of_int 1) (of_int 1) (of_int 1) (replicate kIters (of_int 100)) (of_int 1)
       (of_int 1)) 0) as (r & a1 & a2 & a3 & b1 & b2 & b3 & c1 & c2 & c3 & d1 & d2 & E & _).
  - apply length_replicate.
  - eexists. exact E.
Defined.
